(** * Practice-to-standard conversion and clustering repair loop

    A shallow embedding of the TypeScript sources of the legacy-practice
    importer: [ProgrammingLanguage.ts], [PracticeToStandardConvertor.ts],
    [CategoryMapper.ts] and [parsePractice] of [index.ts], then
    [YamlExporter.ts], [YamlMinifier.ts], [OutputAnalysis.ts], the
    configuration of [LLMService.ts] and the helpers of [index.ts],
    followed by the properties established about them.

    Conventions of the embedding.
    - A JavaScript string is a [string]; its characters are read as the code
      points 0..255 (Latin-1).  Whitespace and case mapping are those of
      ECMAScript restricted to that range.
    - A JavaScript number that holds a line number is a [Z]; an array index
      or a counter is a [nat].
    - An interface of [types.ts] becomes a record; a field declared optional
      (with a question mark) becomes an [option].  A guard of the source on
      a field the interface declares as always present is therefore always
      taken and is noted where it is dropped.
    - [throw] is a value of a sum type, the error on the left.
    - The repair loop of [CategoryMapper.ts] works on the value
      [yaml.load] returns and changes it in place.  It is embedded twice:
      in [CategoryMapper] on the data its interfaces declare, a group with
      the list of its members, and in [InPlace] on a store of arrays and
      objects, where two groups may hold one array and a value may have
      any shape.  Part IV shows that on a mapping of the declared type
      whose groups share no array the completeness check and the
      duplicate resolution of the second compute what those of the first
      do, and follows the merge and the loop on the store; the properties
      of the loop under aliasing and ill-shaped answers are stated on the
      second.
    - [Math.random], [yaml.load], [JSON.parse] and the classifier are taken
      as parameters of the functions that call them. *)

From Stdlib Require Import List String Ascii ZArith NArith Lia Bool Arith.
From Stdlib Require Import Permutation Sorted QArith Qround.
Import ListNotations.
Close Scope Q_scope.
Open Scope string_scope.

(* ================================================================== *)
(** * Part I.  The embedding                                           *)
(* ================================================================== *)

(** ** JavaScript string primitives *)

Module JS.

Definition LF : ascii := "010"%char.
Definition NL : string := String LF "".

(** [WhiteSpace] and [LineTerminator] of ECMAScript below code point 256:
    TAB, LF, VT, FF, CR, SP and NBSP.  These are what [trim] strips. *)
Definition isWhiteSpace (c : ascii) : bool :=
  let n := N_of_ascii c in
  (((9 <=? n) && (n <=? 13)) || (n =? 32) || (n =? 160))%N.

(** [String.prototype.toLowerCase], one character: A-Z and the Latin-1
    capitals (0xC0-0xDE but the multiplication sign) move up by 32. *)
Definition lowerChar (c : ascii) : ascii :=
  let n := N_of_ascii c in
  if (((65 <=? n) && (n <=? 90))
      || ((192 <=? n) && (n <=? 222) && negb (n =? 215)))%N
  then ascii_of_N (n + 32) else c.

Fixpoint toLowerCase (s : string) : string :=
  match s with
  | EmptyString => EmptyString
  | String c r => String (lowerChar c) (toLowerCase r)
  end.

(** [String.prototype.toUpperCase], one character.  The sharp s (0xDF)
    becomes the two letters SS.  The micro sign (0xB5) and y with diaeresis
    (0xFF) have capitals above code point 255; they are left as they are,
    which, like their capitals, are no ASCII character. *)
Definition upperChar (c : ascii) : string :=
  let n := N_of_ascii c in
  if (((97 <=? n) && (n <=? 122))
      || ((224 <=? n) && (n <=? 254) && negb (n =? 247)))%N
  then String (ascii_of_N (n - 32)) ""
  else if (n =? 223)%N then "SS"
  else String c "".

Fixpoint toUpperCase (s : string) : string :=
  match s with
  | EmptyString => EmptyString
  | String c r => upperChar c ++ toUpperCase r
  end.

Fixpoint trimStart (s : string) : string :=
  match s with
  | EmptyString => EmptyString
  | String c r => if isWhiteSpace c then trimStart r else s
  end.

Fixpoint trimEnd (s : string) : string :=
  match s with
  | EmptyString => EmptyString
  | String c r =>
      match trimEnd r with
      | EmptyString => if isWhiteSpace c then EmptyString else String c ""
      | r' => String c r'
      end
  end.

Definition trim (s : string) : string := trimEnd (trimStart s).

(** [s.split(sep)] for a one-character separator: never the empty list. *)
Fixpoint split (sep : ascii) (s : string) : list string :=
  match s with
  | EmptyString => [""]
  | String c r =>
      if Ascii.eqb c sep then "" :: split sep r
      else match split sep r with
           | h :: t => String c h :: t
           | [] => [String c ""]
           end
  end.

(** [xs.join(sep)]. *)
Definition join (sep : string) (xs : list string) : string :=
  String.concat sep xs.

(** Truthiness of a string: every string but the empty one. *)
Definition truthy (s : string) : bool := negb (s =? "").

(** [Boolean(s)] is false exactly for the empty string, so
    [!s || s.trim() === ''] is [blank]. *)
Definition blank (s : string) : bool := negb (truthy s) || (trim s =? "").

Fixpoint allWhiteSpace (s : string) : bool :=
  match s with
  | EmptyString => true
  | String c r => isWhiteSpace c && allWhiteSpace r
  end.

End JS.

(** ** ProgrammingLanguage.ts *)

Module ProgrammingLanguage.

Inductive t : Set :=
  | JAVASCRIPT | JAVASCRIPT_JSX | TYPESCRIPT | TYPESCRIPT_TSX | PYTHON | PHP
  | JAVA | SCSS | HTML | CSHARP | GENERIC | GO | C | CPP | SQL | KOTLIN | VUE
  | CSS | YAML | JSON | XML | BASH | MARKDOWN | RUBY | RUST | SAP_ABAP
  | SAP_CDS | SAP_HANA_SQL | SWIFT | PROPERTIES | AVRO.

(** The string each member of the enum stands for. *)
Definition value (l : t) : string :=
  match l with
  | JAVASCRIPT => "JAVASCRIPT" | JAVASCRIPT_JSX => "JAVASCRIPT_JSX"
  | TYPESCRIPT => "TYPESCRIPT" | TYPESCRIPT_TSX => "TYPESCRIPT_TSX"
  | PYTHON => "PYTHON" | PHP => "PHP" | JAVA => "JAVA" | SCSS => "SCSS"
  | HTML => "HTML" | CSHARP => "CSHARP" | GENERIC => "GENERIC" | GO => "GO"
  | C => "C" | CPP => "CPP" | SQL => "SQL" | KOTLIN => "KOTLIN" | VUE => "VUE"
  | CSS => "CSS" | YAML => "YAML" | JSON => "JSON" | XML => "XML"
  | BASH => "BASH" | MARKDOWN => "MARKDOWN" | RUBY => "RUBY" | RUST => "RUST"
  | SAP_ABAP => "SAP_ABAP" | SAP_CDS => "SAP_CDS"
  | SAP_HANA_SQL => "SAP_HANA_SQL" | SWIFT => "SWIFT"
  | PROPERTIES => "PROPERTIES" | AVRO => "AVRO"
  end.

(** [Object.values(ProgrammingLanguage)], in declaration order. *)
Definition values : list t :=
  [ JAVASCRIPT; JAVASCRIPT_JSX; TYPESCRIPT; TYPESCRIPT_TSX; PYTHON; PHP; JAVA;
    SCSS; HTML; CSHARP; GENERIC; GO; C; CPP; SQL; KOTLIN; VUE; CSS; YAML; JSON;
    XML; BASH; MARKDOWN; RUBY; RUST; SAP_ABAP; SAP_CDS; SAP_HANA_SQL; SWIFT;
    PROPERTIES; AVRO ].

Record ProgrammingLanguageInfo : Set := mkInfo {
  displayName : string;
  fileExtensions : list string
}.

(** [Object.entries(ProgrammingLanguageDetails)], in the order of the
    object literal. *)
Definition ProgrammingLanguageDetails : list (t * ProgrammingLanguageInfo) :=
  [ (GENERIC, mkInfo "Generic" []);
    (JAVASCRIPT, mkInfo "JavaScript" ["js"]);
    (JAVASCRIPT_JSX, mkInfo "JavaScript (JSX)" ["jsx"]);
    (TYPESCRIPT, mkInfo "TypeScript" ["ts"]);
    (TYPESCRIPT_TSX, mkInfo "TypeScript (TSX)" ["tsx"]);
    (PYTHON, mkInfo "Python" ["py"; "pyx"; "pyw"]);
    (PHP, mkInfo "PHP" ["php"; "phtml"]);
    (JAVA, mkInfo "Java" ["java"]);
    (SCSS, mkInfo "SCSS" ["scss"]);
    (HTML, mkInfo "HTML" ["html"; "htm"]);
    (CSHARP, mkInfo "C#" ["cs"]);
    (GO, mkInfo "Go" ["go"]);
    (C, mkInfo "C" ["c"; "h"]);
    (CPP, mkInfo "C++" ["cpp"; "cc"; "cxx"; "c++"; "hpp"; "hxx"]);
    (SQL, mkInfo "SQL" ["sql"]);
    (KOTLIN, mkInfo "Kotlin" ["kt"; "kts"]);
    (VUE, mkInfo "Vue" ["vue"]);
    (CSS, mkInfo "CSS" ["css"]);
    (YAML, mkInfo "YAML" ["yaml"; "yml"]);
    (JSON, mkInfo "JSON" ["json"]);
    (XML, mkInfo "XML" ["xml"]);
    (BASH, mkInfo "Bash" ["sh"; "bash"]);
    (MARKDOWN, mkInfo "Markdown" ["md"]);
    (RUST, mkInfo "Rust" ["rs"]);
    (RUBY, mkInfo "Ruby" ["rb"]);
    (SAP_ABAP, mkInfo "SAP ABAP" ["abap"; "ab4"]);
    (SAP_CDS, mkInfo "SAP CDS" ["cds"]);
    (SAP_HANA_SQL,
      mkInfo "SAP HANA SQL"
        ["hdbprocedure"; "hdbfunction"; "hdbview"; "hdbcalculationview"]);
    (SWIFT, mkInfo "Swift" ["swift"]);
    (PROPERTIES, mkInfo "Properties" ["properties"]);
    (AVRO, mkInfo "Avro" ["avdl"; "avsc"; "avpr"]) ].

(** [LANGUAGE_ALIASES]: legacy names that differ from the enum's. *)
Definition LANGUAGE_ALIASES : list (string * t) :=
  [ ("TYPESCRIPT_JSX", TYPESCRIPT_TSX) ].

(** The two errors [stringToProgrammingLanguage] throws. *)
Inductive LanguageError : Set :=
  | EmptyLanguageInput
  | UnknownLanguage (trimmedInput : string).

(** [LANGUAGE_ALIASES[key]].  The key is an upper-cased string, so it names
    none of the properties an object inherits, all of which hold a
    lower-case letter. *)
Fixpoint lookupAlias (key : string) (tbl : list (string * t)) : option t :=
  match tbl with
  | [] => None
  | (k, l) :: rest => if k =? key then Some l else lookupAlias key rest
  end.

Definition hasExtension (lowerInput : string) (e : t * ProgrammingLanguageInfo)
  : bool :=
  existsb (fun ext => JS.toLowerCase ext =? lowerInput)
          (fileExtensions (snd e)).

Definition stringToProgrammingLanguage (input : string) : LanguageError + t :=
  let trimmedInput := JS.trim input in
  if negb (JS.truthy trimmedInput) then inl EmptyLanguageInput
  else
    let upperInput := JS.toUpperCase trimmedInput in
    match lookupAlias upperInput LANGUAGE_ALIASES with
    | Some l => inr l
    | None =>
        let lowerInput := JS.toLowerCase trimmedInput in
        match find (fun enumValue =>
                      JS.toLowerCase (value enumValue) =? lowerInput) values
        with
        | Some enumValue => inr enumValue
        | None =>
            match find (fun e =>
                          JS.toLowerCase (displayName (snd e)) =? lowerInput)
                       ProgrammingLanguageDetails
            with
            | Some (language, _) => inr language
            | None =>
                match find (hasExtension lowerInput) ProgrammingLanguageDetails
                with
                | Some (language, _) => inr language
                | None => inl (UnknownLanguage trimmedInput)
                end
            end
        end
    end.

End ProgrammingLanguage.

(** ** Arrays *)

Module JSArray.

Section Sort.
Context {A : Type}.
(** The comparator of [Array.prototype.sort]: negative when the first
    argument goes first.  The sort is stable; it is written here as an
    insertion that puts an element before the first one it does not exceed,
    run from the right. *)
Variable cmp : A -> A -> Z.

Fixpoint insertBy (x : A) (l : list A) : list A :=
  match l with
  | [] => [x]
  | y :: r => if (cmp x y <=? 0)%Z then x :: y :: r else y :: insertBy x r
  end.

Fixpoint sortBy (l : list A) : list A :=
  match l with
  | [] => []
  | x :: r => insertBy x (sortBy r)
  end.
End Sort.

(** [xs.splice(i, 1)]: the array without its element of index [i]; an
    index past the end removes nothing. *)
Fixpoint splice {A : Type} (i : nat) (l : list A) : list A :=
  match l, i with
  | [], _ => []
  | _ :: r, O => r
  | x :: r, S j => x :: splice j r
  end.

(** [xs[i] = f(xs[i])], an update in place of the element of index [i]. *)
Fixpoint updateAt {A : Type} (i : nat) (f : A -> A) (l : list A) : list A :=
  match l, i with
  | [], _ => []
  | x :: r, O => f x :: r
  | x :: r, S j => x :: updateAt j f r
  end.

(** [Math.min(...xs)] and [Math.max(...xs)]; of no argument they are the
    infinities, here [None]. *)
Definition minOf (xs : list Z) : option Z :=
  match xs with
  | [] => None
  | x :: r => Some (fold_left Z.min r x)
  end.

Definition maxOf (xs : list Z) : option Z :=
  match xs with
  | [] => None
  | x :: r => Some (fold_left Z.max r x)
  end.

End JSArray.

(** ** types.ts *)

Module FileContent.
Record t : Set := mk { line : Z; content : string }.
End FileContent.

Module FileWorkshop.
Record t : Set := mk {
  contents : list FileContent.t;
  lang : string;
  path : string
}.
End FileWorkshop.

Module PositionPoint.
Record t : Set := mk { ch : Z; line : Z }.
End PositionPoint.

Module Position.
Record t : Set := mk { begin_ : PositionPoint.t; end_ : PositionPoint.t }.
End Position.

Module Example.
Record t : Set := mk {
  position : Position.t;
  description : string;
  fileWorkshop : FileWorkshop.t;
  isPositive : bool
}.
End Example.

Module DetectionUnitTest.
Record t : Set := mk {
  description : string;
  code : string;
  isCompliant : bool
}.
End DetectionUnitTest.

Module Toolings.
Record t : Set := mk {
  status : string;
  program : string;
  programDescription : string;
  language : string
}.
End Toolings.

Module ParsedPractice.
Record t : Set := mk {
  name : string;
  description : string;
  categories : list string;
  suggestionsDisabled : option bool;
  detectionUnitTests : option (list DetectionUnitTest.t);
  examples : list Example.t;
  toolings : option Toolings.t;
  space : string
}.
End ParsedPractice.

Module ValidatedExample.
Record t : Set := mk { code : string; language : string }.
End ValidatedExample.

Module DetectionProgram.
Record t : Set := mk {
  code : string;
  description : string;
  language : string
}.
End DetectionProgram.

Module ValidatedRule.
Record t : Set := mk {
  name : string;
  positiveExamples : list ValidatedExample.t;
  negativeExamples : list ValidatedExample.t;
  detectionProgram : option DetectionProgram.t
}.
End ValidatedRule.

(** ** PracticeToStandardConvertor.ts *)

Module Convertor.

Import ProgrammingLanguage.

Record CommentStyle : Set := mkStyle {
  prefix : string;
  suffix : option string
}.

Definition includes (xs : list ProgrammingLanguage.t) (language : string)
  : bool :=
  existsb (fun l => value l =? language) xs.

Definition slashSlashLanguages : list ProgrammingLanguage.t :=
  [ JAVASCRIPT; JAVASCRIPT_JSX; TYPESCRIPT; TYPESCRIPT_TSX; PHP; JAVA; CSHARP;
    GO; C; CPP; KOTLIN; SCSS; CSS; RUST; SWIFT; SAP_CDS; VUE; GENERIC ].
Definition hashLanguages : list ProgrammingLanguage.t :=
  [ PYTHON; YAML; BASH; RUBY; PROPERTIES ].
Definition doubleDashLanguages : list ProgrammingLanguage.t :=
  [ SQL; SAP_HANA_SQL ].
Definition htmlStyleLanguages : list ProgrammingLanguage.t :=
  [ HTML; XML; MARKDOWN ].
Definition asteriskLanguages : list ProgrammingLanguage.t := [ SAP_ABAP ].
Definition noCommentLanguages : list ProgrammingLanguage.t := [ JSON ].

Definition getCommentStyleForLanguage (language : string)
  : option CommentStyle :=
  if includes slashSlashLanguages language then Some (mkStyle "//" None)
  else if includes hashLanguages language then Some (mkStyle "#" None)
  else if includes doubleDashLanguages language then Some (mkStyle "--" None)
  else if includes htmlStyleLanguages language
  then Some (mkStyle "<!--" (Some "-->"))
  else if includes asteriskLanguages language then Some (mkStyle "*" None)
  else if includes noCommentLanguages language then None
  else Some (mkStyle "//" None).

Definition shouldIncludeDetection (practice : ParsedPractice.t) : bool :=
  match ParsedPractice.suggestionsDisabled practice with
  | Some true => false
  | _ =>
      match ParsedPractice.toolings practice with
      | None => false
      | Some toolings => Toolings.status toolings =? "SUCCESS"
      end
  end.

Definition addDescriptionAsCommentForLanguage
  (code description programmingLanguage : string) : string :=
  if JS.blank description then code
  else
    match getCommentStyleForLanguage programmingLanguage with
    | None => code
    | Some commentStyle =>
        let lines := JS.split JS.LF description in
        match suffix commentStyle with
        | Some sfx =>
            if JS.truthy sfx then
              let commentedLines :=
                JS.join JS.NL
                  (map (fun line =>
                          prefix commentStyle ++ " " ++ line ++ " " ++ sfx)
                       lines) in
              commentedLines ++ JS.NL ++ code
            else
              JS.join JS.NL
                (map (fun line => prefix commentStyle ++ " " ++ line) lines)
              ++ JS.NL ++ code
        | None =>
            let commentedDescription :=
              JS.join JS.NL
                (map (fun line => prefix commentStyle ++ " " ++ line) lines) in
            commentedDescription ++ JS.NL ++ code
        end
    end.

(** The result is a value of the enum; the source returns its string. *)
Definition convertProgrammingLanguageEnum (extension : string)
  : ProgrammingLanguage.t :=
  if JS.blank extension then GENERIC
  else
    let lowerExtension := JS.toLowerCase (JS.trim extension) in
    match find (hasExtension lowerExtension) ProgrammingLanguageDetails with
    | Some (language, _) => language
    | None => GENERIC
    end.

Definition convertProgrammingLanguage (extension : string) : string :=
  value (convertProgrammingLanguageEnum extension).

Section WithConfig.
(** [config.contextLines]. *)
Variable contextLines : Z.

Definition getLineRange (contents : list FileContent.t) (startLine endLine : Z)
  : string :=
  JS.join JS.NL
    (map FileContent.content
       (JSArray.sortBy
          (fun a b => (FileContent.line a - FileContent.line b)%Z)
          (filter (fun c => ((startLine <=? FileContent.line c)
                             && (FileContent.line c <=? endLine))%Z)
                  contents))).

(** On an empty [contents] the two bounds are the infinities, no line lies
    between them and the result is the empty string. *)
Definition extractCodeWithContext (example : Example.t) : string :=
  let contents := FileWorkshop.contents (Example.fileWorkshop example) in
  let beginLine :=
    PositionPoint.line (Position.begin_ (Example.position example)) in
  let endLine :=
    PositionPoint.line (Position.end_ (Example.position example)) in
  match JSArray.minOf (map FileContent.line contents),
        JSArray.maxOf (map FileContent.line contents) with
  | Some minLine, Some maxLine =>
      let startLine := Z.max minLine (beginLine - contextLines) in
      let stopLine := Z.min maxLine (endLine + contextLines) in
      getLineRange contents startLine stopLine
  | _, _ => ""
  end.

(** The entry of key [lang] of the [langCount] map gains one; a new key
    goes last (a [Map] keeps insertion order). *)
Fixpoint countLanguage (lang : string) (langCount : list (string * nat))
  : list (string * nat) :=
  match langCount with
  | [] => [(lang, 1)]
  | (k, n) :: r =>
      if k =? lang then (k, S n) :: r else (k, n) :: countLanguage lang r
  end.

Definition inferLanguage (practice : ParsedPractice.t) : string :=
  let languages :=
    filter JS.truthy
      (map (fun ex => FileWorkshop.lang (Example.fileWorkshop ex))
           (ParsedPractice.examples practice)) in
  match languages with
  | [] => "unknown"
  | _ =>
      let langCount :=
        fold_left (fun m lang => countLanguage lang m) languages [] in
      match JSArray.sortBy
              (fun a b => (Z.of_nat (snd b) - Z.of_nat (snd a))%Z) langCount
      with
      | (lang, _) :: _ => lang
      | [] => "unknown"
      end
  end.

Definition avroExtensions : list string := ["avdl"; "avsc"; "avpr"].

Definition areAllExamplesAvro (practice : ParsedPractice.t) : bool :=
  let languages :=
    filter JS.truthy
      (map (fun ex =>
              JS.toLowerCase (FileWorkshop.lang (Example.fileWorkshop ex)))
           (ParsedPractice.examples practice)) in
  match languages with
  | [] => false
  | _ => forallb (fun lang => existsb (String.eqb lang) avroExtensions)
                 languages
  end.

Definition convertUnitTestToExample (test : DetectionUnitTest.t)
  (language : string) : ValidatedExample.t :=
  let programmingLanguage := convertProgrammingLanguage language in
  let trimmedDescription := JS.trim (DetectionUnitTest.description test) in
  let hasDescription := JS.truthy trimmedDescription in
  let code :=
    if hasDescription
    then addDescriptionAsCommentForLanguage
           (DetectionUnitTest.code test) trimmedDescription programmingLanguage
    else DetectionUnitTest.code test in
  ValidatedExample.mk code programmingLanguage.

Definition convertFileWorkshopExample (example : Example.t)
  : ValidatedExample.t :=
  ValidatedExample.mk
    (extractCodeWithContext example)
    (convertProgrammingLanguage
       (FileWorkshop.lang (Example.fileWorkshop example))).

(** The two arrays [positiveExamples] and [negativeExamples], and a push
    onto the one the polarity selects. *)
Definition Buckets : Set :=
  (list ValidatedExample.t * list ValidatedExample.t)%type.

Definition pushExample (isPositive : bool) (e : ValidatedExample.t)
  (b : Buckets) : Buckets :=
  if isPositive then ((fst b ++ [e])%list, snd b)
  else (fst b, (snd b ++ [e])%list).

(** The loop over [practice.detectionUnitTests], entered only when the
    detection is included and the field is present. *)
Definition pushUnitTests (practice : ParsedPractice.t) (b : Buckets)
  : Buckets :=
  match shouldIncludeDetection practice,
        ParsedPractice.detectionUnitTests practice with
  | true, Some tests =>
      fold_left
        (fun acc test =>
           pushExample (DetectionUnitTest.isCompliant test)
             (convertUnitTestToExample test (inferLanguage practice)) acc)
        tests b
  | _, _ => b
  end.

(** The loop over [practice.examples].  Its guard
    [example.fileWorkshop?.contents] tests a field [types.ts] declares as
    always present (an array, truthy even when empty). *)
Definition pushFileExamples (practice : ParsedPractice.t) (b : Buckets)
  : Buckets :=
  fold_left
    (fun acc example =>
       pushExample (Example.isPositive example)
         (convertFileWorkshopExample example) acc)
    (ParsedPractice.examples practice) b.

Definition convertDetectionProgram (practice : ParsedPractice.t)
  : option DetectionProgram.t :=
  match shouldIncludeDetection practice, ParsedPractice.toolings practice with
  | true, Some toolings =>
      if JS.truthy (Toolings.program toolings) then
        let language :=
          if areAllExamplesAvro practice then value AVRO
          else Toolings.language toolings in
        Some (DetectionProgram.mk
                (Toolings.program toolings)
                (Toolings.programDescription toolings)
                language)
      else None
  | _, _ => None
  end.

Definition convertPracticeToRule (practice : ParsedPractice.t)
  : ValidatedRule.t :=
  let b := pushFileExamples practice (pushUnitTests practice ([], [])) in
  ValidatedRule.mk (ParsedPractice.name practice) (fst b) (snd b)
    (convertDetectionProgram practice).

End WithConfig.

(** [practiceMap.get(name)]: the map is filled in array order, a later
    practice of the same name replacing an earlier one. *)
Definition practiceMapGet (practices : list ParsedPractice.t) (name : string)
  : option ParsedPractice.t :=
  find (fun p => ParsedPractice.name p =? name) (rev practices).

Definition describeRule (practices : list ParsedPractice.t)
  (rule : ValidatedRule.t) : string :=
  let description :=
    match practiceMapGet practices (ValidatedRule.name rule) with
    | Some practice => ParsedPractice.description practice
    | None => ""
    end in
  let indentedDescription :=
    JS.join JS.NL
      (map (fun line => "   " ++ line) (JS.split JS.LF description)) in
  "## " ++ ValidatedRule.name rule ++ JS.NL ++ indentedDescription.

Definition buildStandardDescription (rules : list ValidatedRule.t)
  (practices : list ParsedPractice.t) : string :=
  JS.join (JS.NL ++ JS.NL) (map (describeRule practices) rules).

End Convertor.

(** ** CategoryMapper.ts, on data of the declared types *)

(** The functions of the repair loop read on the types the interfaces of
    the file declare: a mapping is the list of its groups and a group
    holds the list of its members, which no other group holds.  What the
    functions do to the value [yaml.load] returned, where arrays can be
    shared and a field can hold anything, is in [InPlace] below. *)
Module CategoryMapper.

Record Standard : Set := mkStandard {
  name : string;
  description : string;
  practices : list string
}.

(** The [standards] array of a [StandardsMapping]. *)
Definition StandardsMapping : Set := list Standard.

(** A practice of the minified YAML file; the fields are [name] and
    [description] in the source. *)
Record MinifiedPractice : Set := mkMinified {
  practiceName : string;
  practiceDescription : string
}.

(** [s.toLowerCase().trim()], the key under which a name is compared. *)
Definition normalize (s : string) : string := JS.trim (JS.toLowerCase s).

(** The members of all the groups, in group order. *)
Definition allPractices (mapping : StandardsMapping) : list string :=
  flat_map practices mapping.

(** *** Response parsing *)

Definition FENCE : string := "```".
Definition OPEN_YAML : string := "```yaml" ++ JS.NL.
Definition OPEN_YML : string := "```yml" ++ JS.NL.

(** Where the leftmost opening fence of a YAML block ends, if there is
    one. *)
Definition afterOpeningFence (response : string) : option nat :=
  match String.index 0 OPEN_YAML response, String.index 0 OPEN_YML response
  with
  | Some a, Some b =>
      if (a <=? b)%nat then Some (a + String.length OPEN_YAML)
      else Some (b + String.length OPEN_YML)
  | Some a, None => Some (a + String.length OPEN_YAML)
  | None, Some b => Some (b + String.length OPEN_YML)
  | None, None => None
  end.

(** The regular expression matches the leftmost opening fence followed by
    the shortest text that a closing fence ends.  An empty capture is
    falsy, and the whole response is taken as with no match. *)
Definition parseLLMResponse (response : string) : string :=
  match afterOpeningFence response with
  | Some start =>
      let rest :=
        String.substring start (String.length response - start) response in
      match String.index 0 FENCE rest with
      | Some stop =>
          let captured := String.substring 0 stop rest in
          if JS.truthy captured then JS.trim captured else JS.trim response
      | None => JS.trim response
      end
  | None => JS.trim response
  end.

(** What [yaml.load(text) as StandardsMapping] gives when the document
    has the type of the cast: an exception, or a document whose
    [standards] is falsy ([None], which also stands for a document that is
    null or a scalar) or an array of groups.  A document of another shape
    is a value of [InPlace.YamlLoad]. *)
Inductive YamlLoad : Set :=
  | YamlException
  | YamlDocument (standards : option (list Standard)).

Inductive ResponseError : Set :=
  | YamlSyntaxError
  | InvalidLLMResponse.

(** *** Completeness check *)

Fixpoint mapSet {V : Type} (key : string) (v : V) (m : list (string * V))
  : list (string * V) :=
  match m with
  | [] => [(key, v)]
  | (k, v') :: r =>
      if k =? key then (k, v) :: r else (k, v') :: mapSet key v r
  end.

(** The practices are those of the minified YAML file, already read. *)
Definition extractOriginalPracticeNames (practices : list MinifiedPractice)
  : list (string * string) :=
  fold_left
    (fun practiceMap practice =>
       if JS.truthy (practiceName practice)
       then mapSet (normalize (practiceName practice))
                   (practiceName practice) practiceMap
       else practiceMap)
    practices [].

Definition mappedPractices (mapping : StandardsMapping) : list string :=
  map normalize (allPractices mapping).

Definition setHas (s : list string) (x : string) : bool :=
  existsb (String.eqb x) s.

Definition findMissingPractices (originalPractices : list (string * string))
  (mapping : StandardsMapping) : list string :=
  map snd
    (filter (fun entry => negb (setHas (mappedPractices mapping) (fst entry)))
            originalPractices).

(** *** Duplicate resolution *)

(** An entry of [practiceLocations]; [locatedName] is the field
    [practiceName] of the source. *)
Record Location : Set := mkLocation {
  categoryIndex : nat;
  practiceIndex : nat;
  locatedName : string
}.

Definition entries {A : Type} (l : list A) : list (nat * A) :=
  combine (seq 0 (List.length l)) l.

(** The places the two nested loops visit, in the order they visit them. *)
Definition allLocations (data : StandardsMapping) : list Location :=
  flat_map
    (fun c =>
       map (fun p => mkLocation (fst c) (fst p) (snd p))
           (entries (practices (snd c))))
    (entries data).

(** [practiceLocations.get(normalized).push(loc)], the key created last
    when it is new. *)
Fixpoint pushLocation (normalized : string) (loc : Location)
  (m : list (string * list Location)) : list (string * list Location) :=
  match m with
  | [] => [(normalized, [loc])]
  | (k, locs) :: r =>
      if k =? normalized then (k, (locs ++ [loc])%list) :: r
      else (k, locs) :: pushLocation normalized loc r
  end.

(** A falsy (empty) practice is not recorded. *)
Definition practiceLocations (data : StandardsMapping)
  : list (string * list Location) :=
  fold_left
    (fun m loc =>
       if JS.truthy (locatedName loc)
       then pushLocation (normalize (locatedName loc)) loc m
       else m)
    (allLocations data) [].

(** The locations of index other than [keepIndex], [i] being the index of
    the head. *)
Fixpoint allBut (keepIndex i : nat) (locations : list Location)
  : list Location :=
  match locations with
  | [] => []
  | loc :: r =>
      if (i =? keepIndex)%nat then allBut keepIndex (S i) r
      else loc :: allBut keepIndex (S i) r
  end.

Section WithRandom.
(** The source behind [Math.random]: [random k n] stands for what the
    [k]-th draw of the process gives as [Math.floor(Math.random() * n)];
    it is taken modulo [n], any index below [n]. *)
Variable random : nat -> nat -> nat.

(** The loop over the entries of [practiceLocations]; [drawn] counts the
    draws made so far. *)
Fixpoint markRemovals (located : list (string * list Location)) (drawn : nat)
  : list Location * nat :=
  match located with
  | [] => ([], drawn)
  | (_, locations) :: rest =>
      if (1 <? List.length locations)%nat then
        let keepIndex :=
          random drawn (List.length locations) mod List.length locations in
        let (more, drawn') := markRemovals rest (S drawn) in
        ((allBut keepIndex 0 locations ++ more)%list, drawn')
      else markRemovals rest drawn
  end.

Definition byIndexDescending (a b : Location) : Z :=
  if negb (categoryIndex a =? categoryIndex b)%nat
  then (Z.of_nat (categoryIndex b) - Z.of_nat (categoryIndex a))%Z
  else (Z.of_nat (practiceIndex b) - Z.of_nat (practiceIndex a))%Z.

Definition removePractice (data : StandardsMapping) (loc : Location)
  : StandardsMapping :=
  JSArray.updateAt (categoryIndex loc)
    (fun category =>
       mkStandard (name category) (description category)
         (JSArray.splice (practiceIndex loc) (practices category)))
    data.

(** The result is the mapping, the count of removals and the count of
    draws.  The source splices the member arrays of the object it was
    given and returns that object; on a mapping whose groups share no
    array the members it leaves are those of this list of groups.  The
    function on the store is [InPlace.removeDuplicatesRandomly]. *)
Definition removeDuplicatesRandomly (data : StandardsMapping) (drawn : nat)
  : StandardsMapping * nat * nat :=
  let (indicesToRemove, drawn') :=
    markRemovals (practiceLocations data) drawn in
  let sorted := JSArray.sortBy byIndexDescending indicesToRemove in
  (fold_left removePractice sorted data,
   List.length indicesToRemove, drawn').

Section WithYaml.
Variable yamlLoad : string -> YamlLoad.

(** *** Repair rounds *)

Fixpoint findLastIndexFrom {A : Type} (p : A -> bool) (i : nat) (l : list A)
  (found : option nat) : option nat :=
  match l with
  | [] => found
  | x :: r => findLastIndexFrom p (S i) r (if p x then Some i else found)
  end.

(** [existingByName.get(normalizedName)]: the map is filled in group
    order, so of the groups of one key it holds the last.  The group is
    given by its index. *)
Definition existingByNameGet (existing : StandardsMapping)
  (normalizedName : string) : option nat :=
  findLastIndexFrom (fun category => normalize (name category) =? normalizedName)
    0 existing None.

Definition addPractice (practice : string) (existingCategory : Standard)
  : Standard :=
  let normalizedPractice := normalize practice in
  let alreadyExists :=
    existsb (fun p => normalize p =? normalizedPractice)
            (practices existingCategory) in
  if alreadyExists then existingCategory
  else mkStandard (name existingCategory) (description existingCategory)
         (practices existingCategory ++ [practice])%list.

(** One turn of the loop over [retryData.standards].  The test of
    [retryCategory.practices] is on a field that is always present. *)
Definition mergeCategory (existingByName : string -> option nat)
  (mapping : StandardsMapping) (retryCategory : Standard) : StandardsMapping :=
  match existingByName (normalize (name retryCategory)) with
  | Some i =>
      fold_left
        (fun m practice => JSArray.updateAt i (addPractice practice) m)
        (practices retryCategory) mapping
  | None => mapping
  end.

(** The merge of an answer of the declared type.  The source pushes
    onto the member arrays of [existing], and throws on an answer whose
    [standards] has another shape: [InPlace.mergeRetryResults]. *)
Definition mergeRetryResults (existing : StandardsMapping)
  (retryResponse : string) : StandardsMapping :=
  match yamlLoad (parseLLMResponse retryResponse) with
  | YamlException => existing
  | YamlDocument None => existing
  | YamlDocument (Some retryStandards) =>
      fold_left (mergeCategory (existingByNameGet existing))
                retryStandards existing
  end.

Definition parseResponse (response : string)
  : ResponseError + StandardsMapping :=
  match yamlLoad (parseLLMResponse response) with
  | YamlException => inl YamlSyntaxError
  | YamlDocument None => inl InvalidLLMResponse
  | YamlDocument (Some standards) => inr standards
  end.

(** *** The bounded loop *)

Definition MAX_RETRIES : nat := 5.

Definition fallbackStandard (finalMissing : list string) : Standard :=
  mkStandard "To Categorize"
    "Practices that could not be automatically categorized after multiple attempts"
    finalMissing.

Section WithClassifier.
(** [retryResponse attempt] is what the classifier answers to the retry
    prompt of the given attempt.  The prompt is read by the classifier
    only, and the answer is any string. *)
Variable retryResponse : nat -> string.
Variable originalPractices : list (string * string).

(** The [for] loop from [attempt] on, [remaining] being the number of
    turns left before [attempt] exceeds [MAX_RETRIES]. *)
Fixpoint validationLoop (remaining attempt : nat) (mapping : StandardsMapping)
  (drawn : nat) : StandardsMapping * nat :=
  match remaining with
  | O => (mapping, drawn)
  | S remaining' =>
      let '(deduped, _, drawn') := removeDuplicatesRandomly mapping drawn in
      let missing := findMissingPractices originalPractices deduped in
      if (List.length missing =? 0)%nat then (deduped, drawn')
      else if (attempt <? MAX_RETRIES)%nat then
        validationLoop remaining' (S attempt)
          (mergeRetryResults deduped (retryResponse attempt)) drawn'
      else validationLoop remaining' (S attempt) deduped drawn'
  end.

Definition postProcessMapping (mapping : StandardsMapping) (drawn : nat)
  : StandardsMapping :=
  let (looped, _) := validationLoop MAX_RETRIES 1 mapping drawn in
  let finalMissing := findMissingPractices originalPractices looped in
  if (0 <? List.length finalMissing)%nat
  then (looped ++ [fallbackStandard finalMissing])%list
  else looped.

(** [run] from the classifier's first answer to the mapping handed to
    [writeFinalMapping]; an error aborts the collection. *)
Definition run (response : string) (drawn : nat)
  : ResponseError + StandardsMapping :=
  match parseResponse response with
  | inl e => inl e
  | inr mapping => inr (postProcessMapping mapping drawn)
  end.

End WithClassifier.
End WithYaml.
End WithRandom.

End CategoryMapper.

(** ** The values [yaml.load] returns and the store they live in *)

Module Store.

(** A JavaScript value as js-yaml builds it from the core data of YAML: a
    scalar, or the reference of a sequence or of a mapping of the store.
    Two occurrences of one reference are one object: an alias of the
    document ([*x] after [&x]) loads as the reference its anchor got.  A
    number is given by an integer; the functions below only test it for
    zero.  The timestamps and the binary data of the default schema are
    left out. *)
Inductive Value : Set :=
  | VUndefined
  | VNull
  | VBoolean (b : bool)
  | VNumber (n : Z)
  | VString (s : string)
  | VRef (address : nat).

(** An array with its elements, or a plain object with its own
    properties in the order of the document. *)
Inductive Cell : Set :=
  | CArray (elements : list Value)
  | CObject (properties : list (string * Value)).

(** The store is the list of its cells; the address of a cell is its
    index. *)
Definition Heap : Set := list Cell.

Definition cellAt (h : Heap) (address : nat) : Cell :=
  nth address h (CObject []).

(** The store with the cell of [address] replaced. *)
Fixpoint setCell (address : nat) (c : Cell) (h : Heap) : Heap :=
  match h, address with
  | [], _ => []
  | _ :: r, O => c :: r
  | x :: r, S a => x :: setCell a c r
  end.

(** A new cell, with its reference. *)
Definition alloc (c : Cell) (h : Heap) : Heap * Value :=
  ((h ++ [c])%list, VRef (List.length h)).

Inductive Error : Set :=
  | TypeError
  | Failure (e : CategoryMapper.ResponseError).

(** What a piece of the source does: it returns, or it throws.
    [Unmodelled] marks the two places where the source runs code the
    embedding does not follow: the conversion of an object to text for a
    log line or a prompt, and the index loop over a mapping used as an
    array. *)
Inductive Outcome (A : Type) : Type :=
  | Returns (a : A)
  | Throws (e : Error)
  | Unmodelled.
Arguments Returns {A} a.
Arguments Throws {A} e.
Arguments Unmodelled {A}.

Definition bind {A B : Type} (o : Outcome A) (f : A -> Outcome B)
  : Outcome B :=
  match o with
  | Returns a => f a
  | Throws e => Throws e
  | Unmodelled => Unmodelled
  end.

(** A loop that builds a list and stops at the first element that
    throws. *)
Fixpoint traverse {A B : Type} (f : A -> Outcome B) (l : list A)
  : Outcome (list B) :=
  match l with
  | [] => Returns []
  | x :: r =>
      bind (f x) (fun y => bind (traverse f r) (fun ys => Returns (y :: ys)))
  end.

(** A loop that changes the store and stops, with the store as it then
    is, at the first turn that throws. *)
Fixpoint forEach {A : Type} (f : A -> Heap -> Heap * Outcome unit)
  (l : list A) (h : Heap) : Heap * Outcome unit :=
  match l with
  | [] => (h, Returns tt)
  | x :: r =>
      match f x h with
      | (h', Returns _) => forEach f r h'
      | stopped => stopped
      end
  end.

Definition truthy (v : Value) : bool :=
  match v with
  | VUndefined | VNull => false
  | VBoolean b => b
  | VNumber n => negb (n =? 0)%Z
  | VString s => JS.truthy s
  | VRef _ => true
  end.

Fixpoint lookup (key : string) (properties : list (string * Value))
  : Value :=
  match properties with
  | [] => VUndefined
  | (k, v) :: r => if k =? key then v else lookup key r
  end.

(** [v.key] for a key no prototype defines, as are [standards], [name],
    [description] and [practices]. *)
Definition property (h : Heap) (v : Value) (key : string) : Outcome Value :=
  match v with
  | VUndefined | VNull => Throws TypeError
  | VRef a =>
      match cellAt h a with
      | CObject properties => Returns (lookup key properties)
      | CArray _ => Returns VUndefined
      end
  | VBoolean _ | VNumber _ | VString _ => Returns VUndefined
  end.

(** [v?.key], for such a key. *)
Definition optionalProperty (h : Heap) (v : Value) (key : string) : Value :=
  match property h v key with
  | Returns x => x
  | _ => VUndefined
  end.

(** The elements of [v] when [Array.isArray(v)]. *)
Definition arrayElements (h : Heap) (v : Value) : option (list Value) :=
  match v with
  | VRef a =>
      match cellAt h a with
      | CArray elements => Some elements
      | CObject _ => None
      end
  | _ => None
  end.

Definition characters (s : string) : list Value :=
  map (fun c => VString (String c "")) (list_ascii_of_string s).

(** What [for (const x of v)] visits: the elements of an array, the
    characters of a string; nothing else is iterable. *)
Definition iterate (h : Heap) (v : Value) : Outcome (list Value) :=
  match v with
  | VString s => Returns (characters s)
  | VRef a =>
      match cellAt h a with
      | CArray elements => Returns elements
      | CObject _ => Throws TypeError
      end
  | _ => Throws TypeError
  end.

(** [v.toLowerCase().trim()]: only a string has the method. *)
Definition normalized (v : Value) : Outcome string :=
  match v with
  | VString s => Returns (CategoryMapper.normalize s)
  | _ => Throws TypeError
  end.

(** A value written into a template literal.  The conversion of an
    object to text runs its [toString], which is not followed. *)
Definition interpolated (v : Value) : Outcome unit :=
  match v with
  | VRef _ => Unmodelled
  | _ => Returns tt
  end.

End Store.

(** ** CategoryMapper.ts on the store *)

(** The functions of the repair loop as they run on the value
    [yaml.load] returned: the groups are objects of the store, their
    member arrays are spliced and pushed in place, and a value of another
    shape than the cast [as StandardsMapping] promises makes them throw
    where the source does.  The functions of [CategoryMapper] above are
    their reading on typed data without shared arrays. *)
Module InPlace.

Import CategoryMapper Store.

(** What [yaml.load(text)] gives: an exception, or the value of the
    document with the store of the objects made for it.  These objects are
    new: no other store holds a reference to them. *)
Inductive YamlLoad : Set :=
  | YamlException
  | YamlDocument (heap : Heap) (data : Value).

(** *** Completeness check *)

(** One turn of the loop over [mapping.standards]: the normalised members
    of [category]. *)
Definition mappedOf (h : Heap) (category : Value) : Outcome (list string) :=
  bind (property h category "practices") (fun practices =>
  if truthy practices then
    match arrayElements h practices with
    | Some elements => traverse normalized elements
    | None => Returns []
    end
  else Returns []).

Definition findMissingPractices (originalPractices : list (string * string))
  (h : Heap) (mapping : Value) : Outcome (list string) :=
  bind (property h mapping "standards") (fun standards =>
  bind (iterate h standards) (fun categories =>
  bind (traverse (mappedOf h) categories) (fun mapped =>
  let mappedPractices := List.concat mapped in
  Returns
    (map snd
       (filter (fun entry => negb (setHas mappedPractices (fst entry)))
               originalPractices))))).

(** *** Duplicate resolution *)

(** The values [standards[0]], ..., [standards[standards.length - 1]] the
    index loop visits.  A number or a boolean has no [length], and the
    loop does not run; the characters of a string are visited. *)
Definition indexed (h : Heap) (standards : Value) : Outcome (list Value) :=
  match standards with
  | VUndefined | VNull => Throws TypeError
  | VBoolean _ | VNumber _ => Returns []
  | VString s => Returns (characters s)
  | VRef a =>
      match cellAt h a with
      | CArray elements => Returns elements
      | CObject _ => Unmodelled
      end
  end.

(** [category?.practices && Array.isArray(category.practices)], with the
    elements of the array when the test passes. *)
Definition practicesArray (h : Heap) (category : Value)
  : option (list Value) :=
  let practices := optionalProperty h category "practices" in
  if truthy practices then arrayElements h practices else None.

(** The inner loop: the places of one array from index [practiceIdx]
    on. *)
Fixpoint visitPractices (catIdx practiceIdx : nat) (elements : list Value)
  : list (nat * nat * Value) :=
  match elements with
  | [] => []
  | practice :: r =>
      (catIdx, practiceIdx, practice)
      :: visitPractices catIdx (S practiceIdx) r
  end.

(** The outer loop from index [catIdx] on. *)
Fixpoint visitCategories (h : Heap) (catIdx : nat) (categories : list Value)
  : list (nat * nat * Value) :=
  match categories with
  | [] => []
  | category :: r =>
      ((match practicesArray h category with
        | Some elements => visitPractices catIdx 0 elements
        | None => []
        end)
       ++ visitCategories h (S catIdx) r)%list
  end.

(** The body of the inner loop: a falsy member is skipped, and only a
    string has [toLowerCase]. *)
Definition recordPlace (located : Outcome (list (string * list Location)))
  (place : nat * nat * Value) : Outcome (list (string * list Location)) :=
  bind located (fun m =>
  let '(catIdx, practiceIdx, practice) := place in
  if truthy practice then
    match practice with
    | VString s =>
        Returns (pushLocation (normalize s)
                   (mkLocation catIdx practiceIdx s) m)
    | _ => Throws TypeError
    end
  else Returns m).

Definition practiceLocations (h : Heap) (categories : list Value)
  : Outcome (list (string * list Location)) :=
  fold_left recordPlace (visitCategories h 0 categories) (Returns []).

Section WithRandom.
(** [random k] is the [k]-th value [Math.random()] gives in the process, a
    number of the interval from 0 to 1, 1 excluded. *)
Variable random : nat -> Q.

(** [Math.floor(Math.random() * n)] at the draw [k]. *)
Definition keepIndexAt (k n : nat) : Z :=
  Qfloor (random k * inject_Z (Z.of_nat n)).

(** The loop over the entries of [practiceLocations].  An index that is
    not one of [locations] leaves [keepLocation] undefined, whose field
    cannot be read.  The log line is given the name of the group that
    keeps the member, or the text Unknown. *)
Fixpoint markRemovals (h : Heap) (categories : list Value)
  (located : list (string * list Location)) (drawn : nat)
  : Outcome (list Location) * nat :=
  match located with
  | [] => (Returns [], drawn)
  | (_, locations) :: rest =>
      if (1 <? List.length locations)%nat then
        let keepIndex := keepIndexAt drawn (List.length locations) in
        match (if (0 <=? keepIndex)%Z
               then nth_error locations (Z.to_nat keepIndex) else None)
        with
        | None => (Throws TypeError, S drawn)
        | Some keepLocation =>
            let keepCategoryData :=
              nth (categoryIndex keepLocation) categories VUndefined in
            let keepCategory :=
              if truthy keepCategoryData
              then optionalProperty h keepCategoryData "name"
              else VString "Unknown" in
            match interpolated keepCategory with
            | Returns _ =>
                match markRemovals h categories rest (S drawn) with
                | (Returns more, drawn') =>
                    (Returns
                       (allBut (Z.to_nat keepIndex) 0 locations ++ more)%list,
                     drawn')
                | stopped => stopped
                end
            | Throws e => (Throws e, S drawn)
            | Unmodelled => (Unmodelled, S drawn)
            end
        end
      else markRemovals h categories rest drawn
  end.

(** One turn of the last loop: [data.standards[categoryIndex]] is read
    again, and its array is spliced in place. *)
Definition removePractice (data : Value) (loc : Location) (h : Heap)
  : Heap * Outcome unit :=
  match bind (property h data "standards") (indexed h) with
  | Returns categories =>
      let category := nth (categoryIndex loc) categories VUndefined in
      let practices := optionalProperty h category "practices" in
      if truthy practices then
        match practices with
        | VRef a =>
            match cellAt h a with
            | CArray elements =>
                (setCell a
                   (CArray (JSArray.splice (practiceIndex loc) elements)) h,
                 Returns tt)
            | CObject _ => (h, Throws TypeError)
            end
        | _ => (h, Throws TypeError)
        end
      else (h, Returns tt)
  | Throws e => (h, Throws e)
  | Unmodelled => (h, Unmodelled)
  end.

(** The result is the store, the outcome (the value returned as [data]
    with the count of removals) and the count of draws. *)
Definition removeDuplicatesRandomly (h : Heap) (data : Value) (drawn : nat)
  : Heap * Outcome (Value * nat) * nat :=
  match bind (property h data "standards") (indexed h) with
  | Returns categories =>
      match practiceLocations h categories with
      | Returns located =>
          match markRemovals h categories located drawn with
          | (Returns indicesToRemove, drawn') =>
              let sorted :=
                JSArray.sortBy byIndexDescending indicesToRemove in
              match forEach (removePractice data) sorted h with
              | (h', Returns _) =>
                  (h', Returns (data, List.length indicesToRemove), drawn')
              | (h', Throws e) => (h', Throws e, drawn')
              | (h', Unmodelled) => (h', Unmodelled, drawn')
              end
          | (Throws e, drawn') => (h, Throws e, drawn')
          | (Unmodelled, drawn') => (h, Unmodelled, drawn')
          end
      | Throws e => (h, Throws e, drawn)
      | Unmodelled => (h, Unmodelled, drawn)
      end
  | Throws e => (h, Throws e, drawn)
  | Unmodelled => (h, Unmodelled, drawn)
  end.

Section WithYaml.
Variable yamlLoad : string -> YamlLoad.

(** *** Repair rounds *)

(** The map [existingByName], filled in group order. *)
Definition recordByName (h : Heap)
  (existingByName : Outcome (list (string * Value))) (category : Value)
  : Outcome (list (string * Value)) :=
  bind existingByName (fun m =>
  bind (property h category "name") (fun name =>
  bind (normalized name) (fun key => Returns (mapSet key category m)))).

Definition existingByName (h : Heap) (existing : Value)
  : Outcome (list (string * Value)) :=
  bind (property h existing "standards") (fun standards =>
  bind (iterate h standards) (fun categories =>
  fold_left (recordByName h) categories (Returns []))).

(** [p => p.toLowerCase().trim() === normalizedPractice] through
    [Array.prototype.some]: the elements are tested in order up to the
    first that passes. *)
Fixpoint someNormalized (normalizedPractice : string) (elements : list Value)
  : Outcome bool :=
  match elements with
  | [] => Returns false
  | p :: r =>
      bind (normalized p) (fun key =>
      if key =? normalizedPractice then Returns true
      else someNormalized normalizedPractice r)
  end.

(** The body of the loop over [retryCategory.practices]; only an array
    has [some] and [push]. *)
Definition addPractice (existingCategory practice : Value) (h : Heap)
  : Heap * Outcome unit :=
  match normalized practice with
  | Returns normalizedPractice =>
      match property h existingCategory "practices" with
      | Returns (VRef a) =>
          match cellAt h a with
          | CArray elements =>
              match someNormalized normalizedPractice elements with
              | Returns alreadyExists =>
                  if alreadyExists then (h, Returns tt)
                  else (setCell a (CArray (elements ++ [practice])%list) h,
                        Returns tt)
              | Throws e => (h, Throws e)
              | Unmodelled => (h, Unmodelled)
              end
          | CObject _ => (h, Throws TypeError)
          end
      | Returns _ => (h, Throws TypeError)
      | Throws e => (h, Throws e)
      | Unmodelled => (h, Unmodelled)
      end
  | Throws e => (h, Throws e)
  | Unmodelled => (h, Unmodelled)
  end.

(** [existingByName.get(normalizedName)], undefined for no entry. *)
Definition byNameGet (existingByName : list (string * Value))
  (normalizedName : string) : Value :=
  match find (fun entry => fst entry =? normalizedName) existingByName with
  | Some entry => snd entry
  | None => VUndefined
  end.

(** One turn of the loop over [retryData.standards]; [retryHeap] is the
    store of the retry document, which is only read.  The log line of the
    last branch is given [retryCategory.name], a string there. *)
Definition mergeCategory (retryHeap : Heap)
  (existingByName : list (string * Value)) (retryCategory : Value)
  (h : Heap) : Heap * Outcome unit :=
  match bind (property retryHeap retryCategory "name") normalized with
  | Returns normalizedName =>
      let existingCategory := byNameGet existingByName normalizedName in
      if truthy existingCategory then
        match property retryHeap retryCategory "practices" with
        | Returns practices =>
            if truthy practices then
              match iterate retryHeap practices with
              | Returns members =>
                  forEach (addPractice existingCategory) members h
              | Throws e => (h, Throws e)
              | Unmodelled => (h, Unmodelled)
              end
            else (h, Returns tt)
        | Throws e => (h, Throws e)
        | Unmodelled => (h, Unmodelled)
        end
      else (h, Returns tt)
  | Throws e => (h, Throws e)
  | Unmodelled => (h, Unmodelled)
  end.

(** The value returned is [existing] itself. *)
Definition mergeRetryResults (h : Heap) (existing : Value)
  (retryResponse : string) : Heap * Outcome Value :=
  match yamlLoad (parseLLMResponse retryResponse) with
  | YamlException => (h, Returns existing)
  | YamlDocument retryHeap retryData =>
      let retryStandards := optionalProperty retryHeap retryData "standards" in
      if negb (truthy retryStandards) then (h, Returns existing)
      else
        match existingByName h existing with
        | Returns byName =>
            match iterate retryHeap retryStandards with
            | Returns retryCategories =>
                match forEach (mergeCategory retryHeap byName)
                        retryCategories h with
                | (h', Returns _) => (h', Returns existing)
                | (h', Throws e) => (h', Throws e)
                | (h', Unmodelled) => (h', Unmodelled)
                end
            | Throws e => (h, Throws e)
            | Unmodelled => (h, Unmodelled)
            end
        | Throws e => (h, Throws e)
        | Unmodelled => (h, Unmodelled)
        end
  end.

(** The value returned comes with the store of its document. *)
Definition parseResponse (response : string) : Outcome (Heap * Value) :=
  match yamlLoad (parseLLMResponse response) with
  | YamlException => Throws (Failure YamlSyntaxError)
  | YamlDocument heap data =>
      if negb (truthy (optionalProperty heap data "standards"))
      then Throws (Failure InvalidLLMResponse)
      else Returns (heap, data)
  end.

(** *** The bounded loop *)

(** [mapping.standards.map(c => ({ name: c.name, description:
    c.description }))], which only an array has, and the two fields of
    each entry written into the retry prompt. *)
Definition existingStandards (h : Heap) (mapping : Value) : Outcome unit :=
  bind (property h mapping "standards") (fun standards =>
  match arrayElements h standards with
  | Some categories =>
      bind (traverse
              (fun c =>
                 bind (property h c "name") (fun name =>
                 bind (property h c "description") (fun description =>
                 Returns (name, description))))
              categories) (fun listed =>
      bind (traverse
              (fun s => bind (interpolated (fst s))
                          (fun _ => interpolated (snd s)))
              listed) (fun _ => Returns tt))
  | None => Throws TypeError
  end).

Section WithClassifier.
Variable retryResponse : nat -> string.
Variable originalPractices : list (string * string).

(** The [for] loop from [attempt] on, [remaining] being the number of
    turns left before [attempt] exceeds [MAX_RETRIES]. *)
Fixpoint validationLoop (remaining attempt : nat) (h : Heap)
  (mapping : Value) (drawn : nat) : Heap * Outcome Value * nat :=
  match remaining with
  | O => (h, Returns mapping, drawn)
  | S remaining' =>
      match removeDuplicatesRandomly h mapping drawn with
      | (h1, Returns (deduped, _), drawn') =>
          match findMissingPractices originalPractices h1 deduped with
          | Returns missing =>
              if (List.length missing =? 0)%nat
              then (h1, Returns deduped, drawn')
              else if (attempt <? MAX_RETRIES)%nat then
                match existingStandards h1 deduped with
                | Returns _ =>
                    match mergeRetryResults h1 deduped
                            (retryResponse attempt) with
                    | (h2, Returns merged) =>
                        validationLoop remaining' (S attempt) h2 merged drawn'
                    | (h2, Throws e) => (h2, Throws e, drawn')
                    | (h2, Unmodelled) => (h2, Unmodelled, drawn')
                    end
                | Throws e => (h1, Throws e, drawn')
                | Unmodelled => (h1, Unmodelled, drawn')
                end
              else validationLoop remaining' (S attempt) h1 deduped drawn'
          | Throws e => (h1, Throws e, drawn')
          | Unmodelled => (h1, Unmodelled, drawn')
          end
      | (h1, Throws e, drawn') => (h1, Throws e, drawn')
      | (h1, Unmodelled, drawn') => (h1, Unmodelled, drawn')
      end
  end.

(** [mapping.standards.push({ name, description, practices })]: the
    array of the missing names and the object of the group are new, and
    only an array has [push]. *)
Definition pushFallback (finalMissing : list string) (h : Heap)
  (mapping : Value) : Heap * Outcome unit :=
  let (h1, practices) := alloc (CArray (map VString finalMissing)) h in
  let (h2, group) :=
    alloc (CObject
             [("name", VString (name (fallbackStandard finalMissing)));
              ("description",
               VString (description (fallbackStandard finalMissing)));
              ("practices", practices)]) h1 in
  match property h2 mapping "standards" with
  | Returns (VRef a) =>
      match cellAt h2 a with
      | CArray categories =>
          (setCell a (CArray (categories ++ [group])%list) h2, Returns tt)
      | CObject _ => (h2, Throws TypeError)
      end
  | Returns _ => (h2, Throws TypeError)
  | Throws e => (h2, Throws e)
  | Unmodelled => (h2, Unmodelled)
  end.

Definition postProcessMapping (h : Heap) (mapping : Value) (drawn : nat)
  : Heap * Outcome Value :=
  match validationLoop MAX_RETRIES 1 h mapping drawn with
  | (h1, Returns looped, _) =>
      match findMissingPractices originalPractices h1 looped with
      | Returns finalMissing =>
          if (0 <? List.length finalMissing)%nat then
            match pushFallback finalMissing h1 looped with
            | (h2, Returns _) => (h2, Returns looped)
            | (h2, Throws e) => (h2, Throws e)
            | (h2, Unmodelled) => (h2, Unmodelled)
            end
          else (h1, Returns looped)
      | Throws e => (h1, Throws e)
      | Unmodelled => (h1, Unmodelled)
      end
  | (h1, Throws e, _) => (h1, Throws e)
  | (h1, Unmodelled, _) => (h1, Unmodelled)
  end.

(** [run] from the classifier's first answer to the mapping handed to
    [writeFinalMapping]. *)
Definition run (response : string) (drawn : nat) : option Heap * Outcome Value :=
  match parseResponse response with
  | Returns (h, mapping) =>
      let (h', outcome) := postProcessMapping h mapping drawn in
      (Some h', outcome)
  | Throws e => (None, Throws e)
  | Unmodelled => (None, Unmodelled)
  end.

End WithClassifier.
End WithYaml.
End WithRandom.

End InPlace.

(** ** index.ts: parsePractice *)

Module Index.

(** The [toolings] object as [JSON.parse] returns it: the one field
    [parsePractice] validates may be absent. *)
Record RawToolings : Set := mkRawToolings {
  rawStatus : string;
  rawProgram : string;
  rawProgramDescription : string;
  rawLanguage : option string
}.

Record RawPractice : Set := mkRawPractice {
  rawName : option string;
  rawDescription : option string;
  rawCategories : option (list string);
  rawExamples : option (list Example.t);
  rawSpace : option string;
  rawSuggestionsDisabled : option bool;
  rawDetectionUnitTests : option (list DetectionUnitTest.t);
  rawToolings : option RawToolings
}.

Inductive ParseError : Set :=
  | InvalidJSON
  | MissingProperty (property : string)
  | MissingToolingsLanguage (practice : string)
  | InvalidToolingsLanguage (practice language : string).

(** A property that is present and truthy. *)
Definition truthyString (v : option string) : option string :=
  match v with
  | Some s => if JS.truthy s then Some s else None
  | None => None
  end.

Section WithJSON.
(** [JSON.parse], [None] for a [SyntaxError]. *)
Variable jsonParse : string -> option RawPractice.

Definition parseToolings (practiceName : string) (raw : RawToolings)
  : ParseError + Toolings.t :=
  match truthyString (rawLanguage raw) with
  | None => inl (MissingToolingsLanguage practiceName)
  | Some language =>
      match ProgrammingLanguage.stringToProgrammingLanguage language with
      | inl _ => inl (InvalidToolingsLanguage practiceName language)
      | inr _ =>
          inr (Toolings.mk (rawStatus raw) (rawProgram raw)
                 (rawProgramDescription raw) language)
      end
  end.

Definition parsePractice (jsonString : string)
  : ParseError + ParsedPractice.t :=
  match jsonParse jsonString with
  | None => inl InvalidJSON
  | Some parsed =>
      match truthyString (rawName parsed) with
      | None => inl (MissingProperty "name")
      | Some name =>
      match truthyString (rawDescription parsed) with
      | None => inl (MissingProperty "description")
      | Some description =>
      match rawCategories parsed with
      | None => inl (MissingProperty "categories")
      | Some categories =>
      match rawExamples parsed with
      | None => inl (MissingProperty "examples")
      | Some examples =>
      match truthyString (rawSpace parsed) with
      | None => inl (MissingProperty "space")
      | Some space =>
          let result toolings :=
            ParsedPractice.mk name description categories
              (rawSuggestionsDisabled parsed)
              (rawDetectionUnitTests parsed)
              examples toolings space in
          match rawToolings parsed with
          | None => inr (result None)
          | Some raw =>
              match parseToolings name raw with
              | inl e => inl e
              | inr toolings => inr (result (Some toolings))
              end
          end
      end end end end end
  end.

End WithJSON.

End Index.

(** ** Sets in insertion order *)

(** A [Set] of strings, and the keys of a [Map], kept as the list of their
    elements in insertion order: [add] is [s.add(x)] and [ofList l] is
    [new Set(l)]. *)
Module JSSet.
Definition add (s : list string) (x : string) : list string :=
  if existsb (String.eqb x) s then s else (s ++ [x])%list.

Definition ofList (l : list string) : list string := fold_left add l [].
End JSSet.

(** ** PracticeToStandardConvertor.ts: the class *)

Module ValidatedStandard.
Record t : Set := mk {
  name : string;
  description : string;
  rules : list ValidatedRule.t
}.
End ValidatedStandard.

Module SpaceMapping.
(** [spaceId] is the field [_id] of the source. *)
Record t : Set := mk { spaceId : string; name : string }.
End SpaceMapping.

Module ConvertorClass.

Import CategoryMapper.

(** The interface [StandardMapping] of the converter has the three fields
    of [Standard], the interface under which [CategoryMapper.ts] writes the
    file the converter reads. *)
Definition StandardMapping : Set := Standard.

(** [m.get(key)] on a [Map] kept as the list of its entries. *)
Definition mapGet {V : Type} (key : string) (m : list (string * V))
  : option V :=
  match find (fun e => fst e =? key) m with
  | Some e => Some (snd e)
  | None => None
  end.

(** [spaces] is the array [JSON.parse] returns for [spaces.json]. *)
Definition loadSpacesMapping (spaces : list SpaceMapping.t)
  : list (string * string) :=
  fold_left
    (fun spacesMap space =>
       mapSet (SpaceMapping.spaceId space) (SpaceMapping.name space) spacesMap)
    spaces [].

(** [loaded] is the field [standards] of the document [yaml.load] returns,
    [None] when it is absent; the result is the pair of [standardsMapping]
    and [practiceToStandard]. *)
Definition loadStandardsMapping (loaded : option (list StandardMapping))
  : list StandardMapping * list (string * string) :=
  let standardsMapping :=
    match loaded with Some standards => standards | None => [] end in
  (standardsMapping,
   fold_left
     (fun practiceToStandard standard =>
        fold_left
          (fun practiceToStandard practiceName =>
             mapSet (normalize practiceName) (name standard)
                    practiceToStandard)
          (practices standard) practiceToStandard)
     standardsMapping []).

Definition getSpaceName (spacesMap : list (string * string))
  (spaceId : string) : string :=
  match mapGet spaceId spacesMap with
  | Some spaceName => if JS.truthy spaceName then spaceName else "Unknown Space"
  | None => "Unknown Space"
  end.

Definition getStandardForPractice (practiceToStandard : list (string * string))
  (practiceName : string) : option string :=
  mapGet (normalize practiceName) practiceToStandard.

(** [standardGroups.get(key).push(practice)], the key created last with
    an empty array when it is new. *)
Fixpoint pushTo {V : Type} (key : string) (v : V)
  (m : list (string * list V)) : list (string * list V) :=
  match m with
  | [] => [(key, [v])]
  | (k, vs) :: r =>
      if k =? key then (k, (vs ++ [v])%list) :: r
      else (k, vs) :: pushTo key v r
  end.

(** One turn of the grouping loop of [convert]; an undefined or empty
    standard name sends the practice to [unmappedPractices]. *)
Definition groupPractice (practiceToStandard : list (string * string))
  (acc : list (string * list ParsedPractice.t) * list ParsedPractice.t)
  (practice : ParsedPractice.t)
  : list (string * list ParsedPractice.t) * list ParsedPractice.t :=
  match getStandardForPractice practiceToStandard
          (ParsedPractice.name practice) with
  | Some standardName =>
      if JS.truthy standardName
      then (pushTo standardName practice (fst acc), snd acc)
      else (fst acc, (snd acc ++ [practice])%list)
  | None => (fst acc, (snd acc ++ [practice])%list)
  end.

(** The name of the space most practices belong to, the first counted of
    several such. *)
Definition primarySpaceName (spacesMap : list (string * string))
  (practices : list ParsedPractice.t) : string :=
  let spaceNameCounts :=
    fold_left
      (fun m practice =>
         Convertor.countLanguage
           (getSpaceName spacesMap (ParsedPractice.space practice)) m)
      practices [] in
  match JSArray.sortBy
          (fun a b => (Z.of_nat (snd b) - Z.of_nat (snd a))%Z) spaceNameCounts
  with
  | (spaceName, _) :: _ => spaceName
  | [] => "Unknown Space"
  end.

Section WithConfig.
Variable contextLines : Z.

Definition convertGroup (prefixedName : string)
  (group : list ParsedPractice.t) : ValidatedStandard.t :=
  let rules := map (Convertor.convertPracticeToRule contextLines) group in
  ValidatedStandard.mk prefixedName
    (Convertor.buildStandardDescription rules group) rules.

Definition convert (spaces : list SpaceMapping.t)
  (loaded : option (list StandardMapping))
  (practices : list ParsedPractice.t) : list ValidatedStandard.t :=
  let spacesMap := loadSpacesMapping spaces in
  let (standardsMapping, practiceToStandard) := loadStandardsMapping loaded in
  let (standardGroups, unmappedPractices) :=
    fold_left (groupPractice practiceToStandard) practices ([], []) in
  let primary := primarySpaceName spacesMap practices in
  let validatedStandards :=
    flat_map
      (fun standardMapping =>
         match mapGet (name standardMapping) standardGroups with
         | Some practicesInStandard =>
             if (List.length practicesInStandard =? 0)%nat then []
             else [convertGroup (primary ++ " - " ++ name standardMapping)
                     practicesInStandard]
         | None => []
         end)
      standardsMapping in
  if (0 <? List.length unmappedPractices)%nat
  then (validatedStandards
        ++ [convertGroup (primary ++ " - Uncategorized") unmappedPractices])%list
  else validatedStandards.

End WithConfig.

End ConvertorClass.

(** ** CategoryMapper.ts: the helpers around the loop *)

Module CategoryMapperTools.

Import CategoryMapper.

(** [Math.ceil(x)] is the opposite of [Math.floor(-x)]; the count is an
    integer. *)
Definition calculateMaxCategories (practiceCount : Z) : Z :=
  Z.max 2 (Z.min 10 (- ((- practiceCount) / 5))).




(** The practices are those of the minified YAML file, already read. *)
Definition extractPracticeDescriptions (practices : list MinifiedPractice)
  : list (string * string) :=
  fold_left
    (fun descriptionMap practice =>
       if JS.truthy (practiceName practice)
          && JS.truthy (practiceDescription practice)
       then mapSet (normalize (practiceName practice))
                   (practiceDescription practice) descriptionMap
       else descriptionMap)
    practices [].

End CategoryMapperTools.

(** ** YamlExporter.ts and YamlMinifier.ts *)

Module CodeExample.
Inductive Source : Set := unit_test | file_workshop.
Record t : Set := mk {
  source : Source;
  description : string;
  language : string;
  filePath : option string;
  code : string;
  isPositive : bool
}.
End CodeExample.

Module CodeExampleOutput.
Record t : Set := mk {
  source : CodeExample.Source;
  description : string;
  language : string;
  filePath : option string;
  code : string
}.
End CodeExampleOutput.

Module YamlPractice.
Record t : Set := mk {
  name : string;
  description : string;
  categories : list string;
  language : option string;
  positive_examples : list CodeExampleOutput.t;
  negative_examples : list CodeExampleOutput.t
}.
End YamlPractice.

Module JSString.
(** The order of the default [Array.prototype.sort] on strings: by code
    units, as a comparator. *)
Definition defaultCompare (a b : string) : Z :=
  match String.compare a b with
  | Lt => (-1)%Z
  | Eq => 0%Z
  | Gt => 1%Z
  end.

(** [[...xs].sort()]. *)
Definition sorted (xs : list string) : list string :=
  JSArray.sortBy defaultCompare xs.
End JSString.

Module YamlExporter.

Section WithContext.
(** The constructor's [contextLines]. *)
Variable contextLines : Z.

(** The private methods [getLineRange], [extractCodeWithContext] and
    [inferLanguage] of the exporter are, word for word, those of the
    converter. *)
Definition extractCodeWithContext : Example.t -> string :=
  Convertor.extractCodeWithContext contextLines.
Definition inferLanguage : ParsedPractice.t -> string :=
  Convertor.inferLanguage.

(** [test.description || ''] is the description: the only falsy string
    is the empty one. *)
Definition processUnitTest (test : DetectionUnitTest.t) (language : string)
  : CodeExample.t :=
  CodeExample.mk CodeExample.unit_test (DetectionUnitTest.description test)
    language None (DetectionUnitTest.code test)
    (DetectionUnitTest.isCompliant test).

Definition processFileWorkshopExample (example : Example.t) : CodeExample.t :=
  let lang := FileWorkshop.lang (Example.fileWorkshop example) in
  CodeExample.mk CodeExample.file_workshop (Example.description example)
    (if JS.truthy lang then lang else "unknown")
    (Some (FileWorkshop.path (Example.fileWorkshop example)))
    (extractCodeWithContext example)
    (Example.isPositive example).

Definition toOutputFormat (example : CodeExample.t) : CodeExampleOutput.t :=
  CodeExampleOutput.mk (CodeExample.source example)
    (CodeExample.description example) (CodeExample.language example)
    (CodeExample.filePath example) (CodeExample.code example).

Definition separateByCompliance (examples : list CodeExample.t)
  : list CodeExampleOutput.t * list CodeExampleOutput.t :=
  fold_left
    (fun acc example =>
       let output := toOutputFormat example in
       if CodeExample.isPositive example
       then ((fst acc ++ [output])%list, snd acc)
       else (fst acc, (snd acc ++ [output])%list))
    examples ([], []).

(** The two loops push onto [allExamples] one example per unit test, then
    one per file example; the guard of the second on
    [example.fileWorkshop?.contents] tests an array that is always there. *)
Definition convertPractice (practice : ParsedPractice.t) : YamlPractice.t :=
  let inferredLanguage := inferLanguage practice in
  let tests :=
    match ParsedPractice.detectionUnitTests practice with
    | Some tests => tests
    | None => []
    end in
  let allExamples :=
    (map (fun test => processUnitTest test inferredLanguage) tests
     ++ map processFileWorkshopExample (ParsedPractice.examples practice))%list
  in
  let separated := separateByCompliance allExamples in
  YamlPractice.mk (ParsedPractice.name practice)
    (ParsedPractice.description practice)
    (JSString.sorted (ParsedPractice.categories practice))
    (match ParsedPractice.toolings practice with
     | Some toolings =>
         if JS.truthy (Toolings.language toolings)
         then Some (Toolings.language toolings) else None
     | None => None
     end)
    (fst separated) (snd separated).

End WithContext.

End YamlExporter.

Module YamlMinifier.

Record MinifiedPractice : Set := mkMinifiedPractice {
  name : string;
  description : string;
  categories : list string;
  positive_examples : list CodeExampleOutput.t;
  negative_examples : list CodeExampleOutput.t
}.

Definition isUnitTest (example : CodeExampleOutput.t) : bool :=
  match CodeExampleOutput.source example with
  | CodeExample.unit_test => true
  | CodeExample.file_workshop => false
  end.

Definition filterUnitTestExamples (examples : list CodeExampleOutput.t)
  : list CodeExampleOutput.t :=
  filter (fun example => negb (isUnitTest example)) examples.

Definition minifyPractice (practice : YamlPractice.t) : MinifiedPractice :=
  mkMinifiedPractice (YamlPractice.name practice)
    (YamlPractice.description practice) (YamlPractice.categories practice)
    (filterUnitTestExamples (YamlPractice.positive_examples practice))
    (filterUnitTestExamples (YamlPractice.negative_examples practice)).

Definition minify (input : list YamlPractice.t) : list MinifiedPractice :=
  map minifyPractice input.

End YamlMinifier.

(** ** OutputAnalysis.ts *)

Module OutputAnalysis.

(** [xs.indexOf(x)], [None] for -1. *)
Fixpoint indexOf (x : string) (xs : list string) : option nat :=
  match xs with
  | [] => None
  | y :: r =>
      if y =? x then Some 0
      else match indexOf x r with
           | Some i => Some (S i)
           | None => None
           end
  end.

(** [path.split('.').pop() ?? '']: [split] gives at least one piece. *)
Definition lastPiece (path : string) : string :=
  last (JS.split "."%char path) "".

Definition extractFileExtensions (practice : ParsedPractice.t)
  : list string :=
  let extensions :=
    map (fun path => "." ++ lastPiece path)
      (filter JS.truthy
         (map (fun ex => FileWorkshop.path (Example.fileWorkshop ex))
              (ParsedPractice.examples practice))) in
  JSString.sorted
    (map snd
       (filter (fun entry =>
                  match indexOf (snd entry) extensions with
                  | Some i => (i =? fst entry)%nat
                  | None => false
                  end)
               (CategoryMapper.entries extensions))).

Definition hasSuccessfulTooling (practice : ParsedPractice.t) : bool :=
  match ParsedPractice.toolings practice with
  | Some toolings =>
      let status := JS.toLowerCase (Toolings.status toolings) in
      (status =? "success") || (status =? "completed")
  | None => false
  end.

Definition getToolingStatus (practice : ParsedPractice.t) : string :=
  match ParsedPractice.toolings practice with
  | Some toolings => Toolings.status toolings
  | None => "N/A"
  end.

Definition getSortedCategories (practice : ParsedPractice.t) : list string :=
  JSString.sorted (ParsedPractice.categories practice).

End OutputAnalysis.

(** ** index.ts: slugs and file names *)

Module IndexTools.

Definition HYPHEN : ascii := "-"%char.
Definition isHyphen (c : ascii) : bool := Ascii.eqb c HYPHEN.

(** The class [[a-z0-9-]]. *)
Definition isSlugChar (c : ascii) : bool :=
  let n := N_of_ascii c in
  (((97 <=? n) && (n <=? 122)) || ((48 <=? n) && (n <=? 57)) || (n =? 45))%N.

(** [s.replace(/C+/g, '-')] for a class [C] of characters: every
    maximal run of characters of the class becomes one hyphen.  [inRun]
    tells that the character before was of the class. *)
Fixpoint replaceRuns (inClass : ascii -> bool) (inRun : bool) (s : string)
  : string :=
  match s with
  | EmptyString => EmptyString
  | String c r =>
      if inClass c then
        if inRun then replaceRuns inClass true r
        else String HYPHEN (replaceRuns inClass true r)
      else String c (replaceRuns inClass false r)
  end.

(** [s.replace(/[^a-z0-9-]/g, '-')]. *)
Fixpoint replaceOthers (s : string) : string :=
  match s with
  | EmptyString => EmptyString
  | String c r =>
      String (if isSlugChar c then c else HYPHEN) (replaceOthers r)
  end.

(** [s.replace(/^-|-$/g, '')]: a hyphen at the start is removed, then a
    hyphen at the end of what is left. *)
Definition stripStart (s : string) : string :=
  match s with
  | String c r => if isHyphen c then r else s
  | EmptyString => EmptyString
  end.

Fixpoint stripEnd (s : string) : string :=
  match s with
  | EmptyString => EmptyString
  | String c EmptyString => if isHyphen c then EmptyString else s
  | String c r => String c (stripEnd r)
  end.

Definition slugify (name : string) : string :=
  stripEnd
    (stripStart
       (replaceRuns isHyphen false
          (replaceOthers
             (replaceRuns JS.isWhiteSpace false (JS.toLowerCase name))))).

(** A line terminator of ECMAScript below code point 256, which the dot
    of a regular expression does not match: LF and CR. *)
Definition isLineTerminator (c : ascii) : bool :=
  let n := N_of_ascii c in ((n =? 10) || (n =? 13))%N.

Fixpoint noLineTerminator (s : string) : bool :=
  match s with
  | EmptyString => true
  | String c r => negb (isLineTerminator c) && noLineTerminator r
  end.

(** The capture of [/^(.+)SUFFIX$/] for a literal suffix: what comes
    before the suffix when the text ends with it, provided that is not
    empty and holds no line terminator. *)
Definition captureBefore (suffix filename : string) : option string :=
  let n := String.length filename - String.length suffix in
  if (String.length suffix <=? String.length filename)%nat
     && (String.substring n (String.length suffix) filename =? suffix)
  then
    let captured := String.substring 0 n filename in
    if JS.truthy captured && noLineTerminator captured
    then Some captured else None
  else None.

Definition extractSlugFromStandardsMappingFilename (filename : string)
  : option string :=
  captureBefore ".standards-mapping.yaml" filename.

Definition extractSlugFromMinifiedFilename (filename : string)
  : option string :=
  captureBefore ".minified.yaml" filename.

Definition extractSpaceIdFromPractices (practices : list ParsedPractice.t)
  : option string :=
  match practices with
  | [] => None
  | practice :: _ => Some (ParsedPractice.space practice)
  end.

(** [spacesMapping] is the [Map] from space id to space name. *)
Definition buildSlugToSpaceIdMap (spacesMapping : list (string * string))
  : list (string * string) :=
  fold_left
    (fun slugToSpaceId entry =>
       CategoryMapper.mapSet (slugify (snd entry)) (fst entry) slugToSpaceId)
    spacesMapping [].

End IndexTools.

(** ** index.ts: choosing files and loading practices *)

Module Selection.

Definition digitValue (c : ascii) : option Z :=
  let n := N_of_ascii c in
  if ((48 <=? n) && (n <=? 57))%N then Some (Z.of_N n - 48)%Z else None.

(** The value of the longest prefix of decimal digits, [None] when the
    text starts with no digit. *)
Fixpoint readDigits (acc : option Z) (s : string) : option Z :=
  match s with
  | EmptyString => acc
  | String c r =>
      match digitValue c with
      | Some d =>
          readDigits
            (Some (10 * (match acc with Some a => a | None => 0 end) + d)%Z) r
      | None => acc
      end
  end.

(** [parseInt(s, 10)], [None] for [NaN]: leading whitespace is skipped,
    a sign is read, then the digits up to the first other character.  The
    value is exact; [parseInt] rounds a number of more than fifteen digits,
    which exceeds every array length in either reading. *)
Definition parseInt (s : string) : option Z :=
  match JS.trimStart s with
  | String "-"%char r => option_map Z.opp (readDigits None r)
  | String "+"%char r => readDigits None r
  | t => readDigits None t
  end.

Inductive SelectionError : Set :=
  | InvalidSelection (part : string) (maxIndex : Z)
  | NoValidSelections.

(** The loop over [parts]; [indices] is the array filled so far. *)
Fixpoint collectIndices (maxIndex : Z) (parts : list string)
  (indices : list Z) : SelectionError + list Z :=
  match parts with
  | [] => inr indices
  | part :: rest =>
      match parseInt part with
      | Some num =>
          if ((num <? 1) || (maxIndex <? num))%Z
          then inl (InvalidSelection part maxIndex)
          else collectIndices maxIndex rest (indices ++ [(num - 1)%Z])%list
      | None => inl (InvalidSelection part maxIndex)
      end
  end.

(** [[...new Set(indices)]]. *)
Definition addIndex (s : list Z) (x : Z) : list Z :=
  if existsb (Z.eqb x) s then s else (s ++ [x])%list.

Definition distinctIndices (indices : list Z) : list Z :=
  fold_left addIndex indices [].

(** The parts of the input: the pieces between commas, trimmed, without
    the empty ones. *)
Definition selectionParts (trimmed : string) : list string :=
  filter (fun s => (0 <? String.length s)%nat)
         (map JS.trim (JS.split ","%char trimmed)).

(** [None] in the result is the [null] that stands for all the files. *)
Definition parseSelectionInput (input : string) (maxIndex : Z)
  : SelectionError + option (list Z) :=
  let trimmed := JS.toLowerCase (JS.trim input) in
  if (trimmed =? "") || (trimmed =? "all") then inr None
  else
    match collectIndices maxIndex (selectionParts trimmed) [] with
    | inl e => inl e
    | inr indices =>
        if (List.length indices =? 0)%nat then inl NoValidSelections
        else inr (Some (JSArray.sortBy (fun a b => (a - b)%Z)
                          (distinctIndices indices)))
    end.

End Selection.

Module Loading.

Section WithJSON.
Variable jsonParse : string -> option Index.RawPractice.

(** The lines of the file that are not blank. *)
Definition practiceLines (fileContent : string) : list string :=
  filter (fun line => (0 <? String.length (JS.trim line))%nat)
         (JS.split JS.LF fileContent).

(** The loop over [lines] from index [i]; an error is reported with the
    number [i + 1] and ends the process. *)
Fixpoint parseLines (lines : list string) (i : nat)
  (practices : list ParsedPractice.t)
  : (nat * Index.ParseError) + list ParsedPractice.t :=
  match lines with
  | [] => inr practices
  | line :: rest =>
      match Index.parsePractice jsonParse line with
      | inr practice => parseLines rest (S i) (practices ++ [practice])%list
      | inl e => inl (S i, e)
      end
  end.

Definition loadPracticesFromFile (fileContent : string)
  : (nat * Index.ParseError) + list ParsedPractice.t :=
  parseLines (practiceLines fileContent) 0 [].

End WithJSON.

End Loading.

(** ** LLMService.ts: the configuration *)

Module LLMService.

Inductive ConfigError : Set :=
  | ProviderNotSet
  | InvalidProvider (provider : string)
  | OpenAIKeyNotSet
  | AzureKeyNotSet
  | AzureEndpointNotSet
  | AzureDeploymentNotSet.

(** What the constructor of [OpenAIService] hands to the client, and its
    [model]. *)
Record OpenAIConfig : Set := mkOpenAI {
  openaiKey : string;
  baseURL : option string;
  model : string
}.

(** What the constructor of [AzureOpenAIService] hands to the client, and
    its [deployment]. *)
Record AzureConfig : Set := mkAzure {
  azureKey : string;
  endpoint : string;
  apiVersion : string;
  deployment : string
}.

Inductive Service : Set :=
  | OpenAIService (config : OpenAIConfig)
  | AzureOpenAIService (config : AzureConfig).

(** What the factory throws: an error of the configuration, or what the
    constructor of a client of the [openai] package throws. *)
Inductive CreationError : Set :=
  | Configuration (e : ConfigError)
  | ClientConstructor.

Definition DEFAULT_AZURE_OPENAI_API_VERSION : string := "2024-12-01-preview".

Section WithEnvironment.
(** [process.env[name]], [None] when the variable is not defined. *)
Variable env : string -> option string.

(** The constructors [new OpenAI({ apiKey, baseURL })] and
    [new AzureOpenAI({ apiKey, endpoint, apiVersion })] of the [openai]
    package, which is not code of the repository, as they run in the
    environment [env]: [true] when the client is made, [false] when the
    constructor throws.  It throws on conditions of its own, which may
    involve variables of the environment the package reads itself, such
    as a base URL configured next to an endpoint. *)
Variable newOpenAI : string -> option string -> bool.
Variable newAzureOpenAI : string -> string -> string -> bool.

(** A variable that is defined and not empty. *)
Definition envVar (name : string) : option string :=
  match env name with
  | Some v => if JS.truthy v then Some v else None
  | None => None
  end.

(** [None] when the function returns, the error it throws otherwise. *)
Definition validateLLMConfiguration : option ConfigError :=
  match envVar "LLM_PROVIDER" with
  | None => Some ProviderNotSet
  | Some provider =>
      if negb (provider =? "OPENAI") && negb (provider =? "AZURE_OPENAI")
      then Some (InvalidProvider provider)
      else if provider =? "OPENAI" then
        match envVar "OPENAI_API_KEY" with
        | None => Some OpenAIKeyNotSet
        | Some _ => None
        end
      else
        match envVar "AZURE_OPENAI_API_KEY" with
        | None => Some AzureKeyNotSet
        | Some _ =>
            match envVar "AZURE_OPENAI_ENDPOINT" with
            | None => Some AzureEndpointNotSet
            | Some _ =>
                match envVar "AZURE_OPENAI_DEPLOYMENT" with
                | None => Some AzureDeploymentNotSet
                | Some _ => None
                end
            end
        end
  end.

Definition newOpenAIService : CreationError + OpenAIConfig :=
  match envVar "OPENAI_API_KEY" with
  | None => inl (Configuration OpenAIKeyNotSet)
  | Some apiKey =>
      let baseURL := envVar "OPENAI_URL" in
      if newOpenAI apiKey baseURL then
        inr (mkOpenAI apiKey baseURL
               (match envVar "OPENAI_MODEL" with
                | Some m => m
                | None => "gpt-5.1"
                end))
      else inl ClientConstructor
  end.

Definition newAzureOpenAIService : CreationError + AzureConfig :=
  let apiVersion :=
    match envVar "AZURE_OPENAI_API_VERSION" with
    | Some v => v
    | None => DEFAULT_AZURE_OPENAI_API_VERSION
    end in
  match envVar "AZURE_OPENAI_API_KEY" with
  | None => inl (Configuration AzureKeyNotSet)
  | Some apiKey =>
      match envVar "AZURE_OPENAI_ENDPOINT" with
      | None => inl (Configuration AzureEndpointNotSet)
      | Some endpoint =>
          match envVar "AZURE_OPENAI_DEPLOYMENT" with
          | None => inl (Configuration AzureDeploymentNotSet)
          | Some deployment =>
              if newAzureOpenAI apiKey endpoint apiVersion then
                inr (mkAzure apiKey endpoint apiVersion deployment)
              else inl ClientConstructor
          end
      end
  end.

Definition createLLMService : CreationError + Service :=
  match envVar "LLM_PROVIDER" with
  | None => inl (Configuration ProviderNotSet)
  | Some provider =>
      if provider =? "OPENAI" then
        match newOpenAIService with
        | inl e => inl e
        | inr config => inr (OpenAIService config)
        end
      else if provider =? "AZURE_OPENAI" then
        match newAzureOpenAIService with
        | inl e => inl e
        | inr config => inr (AzureOpenAIService config)
        end
      else inl (Configuration (InvalidProvider provider))
  end.

Definition getModel (service : Service) : string :=
  match service with
  | OpenAIService config => model config
  | AzureOpenAIService config => deployment config
  end.

End WithEnvironment.

End LLMService.

(** ** CategoryMapper.ts: counting the practices of the prompt *)

Module PracticeCount.

Definition MARK : string := "- name:".

(** The length of the whitespace a text starts with. *)
Fixpoint whiteSpaceRun (s : string) : nat :=
  match s with
  | EmptyString => 0
  | String c r => if JS.isWhiteSpace c then S (whiteSpaceRun r) else 0
  end.

(** Whether [\s*- name:] matches at the start of [s].  The whitespace is
    taken whole: the mark starts with a hyphen, no whitespace, so that no
    shorter run can be followed by the mark. *)
Definition matchesHere (s : string) : bool :=
  String.prefix MARK (JS.trimStart s).

(** The number of matches of [/^\s*- name:/gm] from a position on.
    [atLineStart] tells that the position is the start of the text or
    follows a line terminator, where [^] matches; [skip] is the number of
    characters of a match still to step over, the search going on where
    the match ends. *)
Fixpoint countFrom (atLineStart : bool) (skip : nat) (s : string) : nat :=
  match s with
  | EmptyString => 0
  | String c r =>
      match skip with
      | S k => countFrom (IndexTools.isLineTerminator c) k r
      | O =>
          if atLineStart && matchesHere s
          then S (countFrom (IndexTools.isLineTerminator c)
                    (whiteSpaceRun s + String.length MARK - 1) r)
          else countFrom (IndexTools.isLineTerminator c) 0 r
      end
  end.

(** [match] gives [null] when nothing matches, and the count is 0. *)
Definition countPracticesInYaml (yamlContent : string) : nat :=
  countFrom true 0 yamlContent.

End PracticeCount.

(* ================================================================== *)
(** * Part II.  Properties                                             *)
(* ================================================================== *)

(** ** The tests of the repository, run on the embedding *)

Definition kotlinToolings (status : string) : Toolings.t :=
  Toolings.mk status "function checkSourceCode(ast) { return []; }"
    "Checks source code for violations" "KOTLIN".

Definition mockPractice (suggestionsDisabled : bool)
  (toolings : option Toolings.t) (tests : list DetectionUnitTest.t)
  (examples : list Example.t) : ParsedPractice.t :=
  ParsedPractice.mk "Test Practice" "Test description" ["Testing"]
    (Some suggestionsDisabled) (Some tests) examples toolings
    "671a094106587d064f56ba82".

Definition mockExample (beginLine endLine : Z) (isPositive : bool)
  : Example.t :=
  Example.mk
    (Position.mk (PositionPoint.mk 0 beginLine) (PositionPoint.mk 0 endLine))
    "Example description"
    (FileWorkshop.mk
       [ FileContent.mk 1 "line 1"; FileContent.mk 2 "line 2";
         FileContent.mk 3 "line 3"; FileContent.mk 4 "line 4";
         FileContent.mk 5 "line 5"; FileContent.mk 6 "line 6";
         FileContent.mk 7 "line 7"; FileContent.mk 8 "line 8";
         FileContent.mk 9 "line 9"; FileContent.mk 10 "line 10";
         FileContent.mk 11 "line 11"; FileContent.mk 12 "line 12" ]
       "kt" "src/main/kotlin/Test.kt")
    isPositive.

Example test_shouldIncludeDetection :
  map Convertor.shouldIncludeDetection
    [ mockPractice false (Some (kotlinToolings "SUCCESS")) [] [];
      mockPractice true (Some (kotlinToolings "SUCCESS")) [] [];
      mockPractice false (Some (kotlinToolings "FAILURE")) [] [];
      mockPractice false (Some (kotlinToolings "OUTDATED")) [] [];
      mockPractice false (Some (kotlinToolings "PENDING")) [] [];
      mockPractice false None [] [] ]
  = [true; false; false; false; false; false].
Proof. reflexivity. Qed.

Example test_convertProgrammingLanguage :
  map Convertor.convertProgrammingLanguage
    [ "kt"; "kts"; "java"; "py"; "js"; "ts"; "tsx"; "jsx"; "swift"; "go";
      "rs"; "rb"; "KT"; "Kt"; "JAVA"; "Java"; "PY"; "unknown"; "xyz"; "foo";
      ""; "   "; "  kt  " ]
  = [ "KOTLIN"; "KOTLIN"; "JAVA"; "PYTHON"; "JAVASCRIPT"; "TYPESCRIPT";
      "TYPESCRIPT_TSX"; "JAVASCRIPT_JSX"; "SWIFT"; "GO"; "RUST"; "RUBY";
      "KOTLIN"; "KOTLIN"; "JAVA"; "JAVA"; "PYTHON"; "GENERIC"; "GENERIC";
      "GENERIC"; "GENERIC"; "GENERIC"; "KOTLIN" ].
Proof. reflexivity. Qed.

Example test_convertUnitTestToExample :
  Convertor.convertUnitTestToExample
    (DetectionUnitTest.mk "This test checks something" "fun test() {}" true)
    "kt"
  = ValidatedExample.mk
      ("// This test checks something" ++ JS.NL ++ "fun test() {}") "KOTLIN"
  /\ Convertor.convertUnitTestToExample
       (DetectionUnitTest.mk "" "fun test() {}" true) "kt"
     = ValidatedExample.mk "fun test() {}" "KOTLIN".
Proof. split; reflexivity. Qed.

Example test_extractCodeWithContext :
  Convertor.extractCodeWithContext 2 (mockExample 5 7 true)
  = JS.join JS.NL
      ["line 3"; "line 4"; "line 5"; "line 6"; "line 7"; "line 8"; "line 9"]
  /\ Convertor.extractCodeWithContext 2 (mockExample 1 2 true)
     = JS.join JS.NL ["line 1"; "line 2"; "line 3"; "line 4"].
Proof. split; reflexivity. Qed.

Example test_convertPracticeToRule :
  let unitTests :=
    [ DetectionUnitTest.mk "Test description" "positive code" true;
      DetectionUnitTest.mk "Test description" "negative code" false ] in
  let counts practice :=
    let rule := Convertor.convertPracticeToRule 2 practice in
    (List.length (ValidatedRule.positiveExamples rule),
     List.length (ValidatedRule.negativeExamples rule),
     match ValidatedRule.detectionProgram rule with
     | Some _ => true
     | None => false
     end) in
  map counts
    [ mockPractice false (Some (kotlinToolings "SUCCESS")) unitTests [];
      mockPractice true (Some (kotlinToolings "SUCCESS")) unitTests [];
      mockPractice false (Some (kotlinToolings "FAILURE")) unitTests [];
      mockPractice true (Some (kotlinToolings "FAILURE")) []
        [mockExample 5 10 true; mockExample 5 10 false] ]
  = [ (1, 1, true); (0, 0, false); (0, 0, false); (1, 1, false) ].
Proof. reflexivity. Qed.

(** ** Strings *)

Lemma string_length_append (a b : string) :
  String.length (a ++ b) = String.length a + String.length b.
Proof.
  induction a as [|c a IH]; simpl; [reflexivity | now rewrite IH].
Qed.

Lemma truthy_true_iff (s : string) : JS.truthy s = true <-> s <> "".
Proof.
  unfold JS.truthy. rewrite negb_true_iff. apply String.eqb_neq.
Qed.

Lemma truthy_false_iff (s : string) : JS.truthy s = false <-> s = "".
Proof.
  unfold JS.truthy. rewrite negb_false_iff. apply String.eqb_eq.
Qed.

Lemma trimEnd_empty_iff (s : string) :
  JS.trimEnd s = "" <-> JS.allWhiteSpace s = true.
Proof.
  induction s as [|c s IH]; simpl.
  - tauto.
  - destruct (JS.trimEnd s) eqn:E.
    + destruct (JS.isWhiteSpace c); simpl.
      * split; intros _; [now apply IH | reflexivity].
      * split; discriminate.
    + split; [discriminate|].
      rewrite andb_true_iff. intros [_ H]. apply IH in H. discriminate.
Qed.

Lemma trimStart_allWhiteSpace (s : string) :
  JS.allWhiteSpace (JS.trimStart s) = JS.allWhiteSpace s.
Proof.
  induction s as [|c s IH]; simpl; [reflexivity|].
  destruct (JS.isWhiteSpace c) eqn:E; simpl; [exact IH | now rewrite E].
Qed.

(** [trim] gives the empty string exactly on the strings made of
    whitespace only, the empty one among them. *)
Lemma trim_empty_iff (s : string) :
  JS.trim s = "" <-> JS.allWhiteSpace s = true.
Proof.
  unfold JS.trim. rewrite trimEnd_empty_iff. now rewrite trimStart_allWhiteSpace.
Qed.

Lemma blank_true_iff (s : string) : JS.blank s = true <-> JS.trim s = "".
Proof.
  unfold JS.blank. rewrite orb_true_iff, negb_true_iff, truthy_false_iff.
  rewrite String.eqb_eq. split; [|tauto].
  intros [->|H]; [reflexivity | exact H].
Qed.

Lemma blank_false_iff (s : string) : JS.blank s = false <-> JS.trim s <> "".
Proof.
  rewrite <- blank_true_iff. destruct (JS.blank s); split; congruence.
Qed.

Lemma split_not_nil (sep : ascii) (s : string) : JS.split sep s <> [].
Proof.
  destruct s as [|c s]; simpl; [discriminate|].
  destruct (Ascii.eqb c sep); [discriminate|].
  destruct (JS.split sep s); discriminate.
Qed.

(** ** Language resolution *)

Section LanguageResolution.
Import ProgrammingLanguage.

Lemma all_values (l : t) : In l values.
Proof. destruct l; simpl; tauto. Qed.

Lemma lookupAlias_Some (key : string) (tbl : list (string * t)) (l : t) :
  lookupAlias key tbl = Some l -> In (key, l) tbl.
Proof.
  induction tbl as [|[k v] tbl IH]; simpl; [discriminate|].
  destruct (k =? key) eqn:E.
  - apply String.eqb_eq in E. subst. intros [= ->]. now left.
  - intros H. right. now apply IH.
Qed.

Lemma lookupAlias_None (key : string) (tbl : list (string * t)) :
  lookupAlias key tbl = None -> forall a, In a tbl -> fst a <> key.
Proof.
  induction tbl as [|[k v] tbl IH]; simpl; [intros _ a []|].
  destruct (k =? key) eqn:E; [discriminate|].
  apply String.eqb_neq in E.
  intros H a [<-|Ha]; [exact E | now apply IH].
Qed.

(** An input names a language when, trimmed and compared without case, it
    is a legacy alias, a member of the enum, a display name or a file
    extension. *)
Definition isAlias (input : string) : Prop :=
  exists a, In a LANGUAGE_ALIASES
            /\ fst a = JS.toUpperCase (JS.trim input).
Definition isIdentifier (input : string) : Prop :=
  exists l, JS.toLowerCase (value l) = JS.toLowerCase (JS.trim input).
Definition isDisplayName (input : string) : Prop :=
  exists e, In e ProgrammingLanguageDetails
            /\ JS.toLowerCase (displayName (snd e))
               = JS.toLowerCase (JS.trim input).
Definition isFileExtension (input : string) : Prop :=
  exists e ext, In e ProgrammingLanguageDetails
                /\ In ext (fileExtensions (snd e))
                /\ JS.toLowerCase ext = JS.toLowerCase (JS.trim input).
Definition namesLanguage (input : string) : Prop :=
  isAlias input \/ isIdentifier input \/ isDisplayName input
  \/ isFileExtension input.

Lemma hasExtension_true_iff (lowerInput : string)
  (e : t * ProgrammingLanguageInfo) :
  hasExtension lowerInput e = true
  <-> exists ext, In ext (fileExtensions (snd e))
                  /\ JS.toLowerCase ext = lowerInput.
Proof.
  unfold hasExtension. rewrite existsb_exists.
  split; intros [ext [H1 H2]]; exists ext; split; auto;
    now apply String.eqb_eq.
Qed.

Lemma resolve_empty_iff (input : string) :
  stringToProgrammingLanguage input = inl EmptyLanguageInput
  <-> JS.trim input = "".
Proof.
  unfold stringToProgrammingLanguage.
  destruct (JS.truthy (JS.trim input)) eqn:E; cbn [negb].
  - apply truthy_true_iff in E. split; [|congruence].
    destruct (lookupAlias _ _); [discriminate|].
    destruct (find _ values); [discriminate|].
    destruct (find _ ProgrammingLanguageDetails) as [[? ?]|]; [discriminate|].
    destruct (find _ ProgrammingLanguageDetails) as [[? ?]|]; discriminate.
  - apply truthy_false_iff in E. tauto.
Qed.

Lemma resolve_known (input : string) :
  JS.trim input <> "" -> namesLanguage input ->
  exists l, stringToProgrammingLanguage input = inr l.
Proof.
  intros Hne Hk. unfold stringToProgrammingLanguage.
  apply truthy_true_iff in Hne. rewrite Hne. cbn [negb].
  destruct (lookupAlias _ _) as [l|] eqn:EA; [now exists l|].
  destruct (find _ values) as [l|] eqn:EV; [now exists l|].
  destruct (find _ ProgrammingLanguageDetails) as [[l i]|] eqn:ED;
    [now exists l|].
  destruct (find (hasExtension _) _) as [[l i]|] eqn:EE; [now exists l|].
  exfalso. destruct Hk as [[a [Ha1 Ha2]]|[[l Hl]|[[e [He1 He2]]|Hx]]].
  - exact (lookupAlias_None _ _ EA a Ha1 Ha2).
  - pose proof (find_none _ _ EV l (all_values l)) as H. simpl in H.
    apply String.eqb_neq in H. contradiction.
  - pose proof (find_none _ _ ED e He1) as H. simpl in H.
    apply String.eqb_neq in H. contradiction.
  - destruct Hx as [e [ext [He1 [He2 He3]]]].
    pose proof (find_none _ _ EE e He1) as H.
    assert (hasExtension (JS.toLowerCase (JS.trim input)) e = true) as H'
      by (apply hasExtension_true_iff; eauto).
    congruence.
Qed.

Lemma resolve_result_known (input : string) (l : t) :
  stringToProgrammingLanguage input = inr l -> namesLanguage input.
Proof.
  unfold stringToProgrammingLanguage.
  destruct (JS.truthy (JS.trim input)); cbn [negb]; [|discriminate].
  destruct (lookupAlias _ _) as [a|] eqn:EA.
  { intros _. left. exists (JS.toUpperCase (JS.trim input), a).
    split; [now apply lookupAlias_Some | reflexivity]. }
  destruct (find _ values) as [v|] eqn:EV.
  { intros _. right; left. apply find_some in EV as [_ EV].
    exists v. now apply String.eqb_eq. }
  destruct (find _ ProgrammingLanguageDetails) as [[d i]|] eqn:ED.
  { intros _. right; right; left. apply find_some in ED as [ED1 ED2].
    exists (d, i). split; [exact ED1 | now apply String.eqb_eq]. }
  destruct (find (hasExtension _) _) as [[d i]|] eqn:EE; [|discriminate].
  intros _. right; right; right. apply find_some in EE as [EE1 EE2].
  apply hasExtension_true_iff in EE2 as [ext [H1 H2]].
  exists (d, i), ext. auto.
Qed.

Lemma resolve_unknown (input : string) :
  JS.trim input <> "" -> ~ namesLanguage input ->
  stringToProgrammingLanguage input = inl (UnknownLanguage (JS.trim input)).
Proof.
  intros Hne Hk.
  destruct (stringToProgrammingLanguage input) as [e|l] eqn:E.
  - destruct e as [|s].
    + apply resolve_empty_iff in E. contradiction.
    + f_equal. revert E. unfold stringToProgrammingLanguage.
      destruct (JS.truthy (JS.trim input)); cbn [negb]; [|discriminate].
      destruct (lookupAlias _ _); [discriminate|].
      destruct (find _ values); [discriminate|].
      destruct (find _ ProgrammingLanguageDetails) as [[? ?]|];
        [discriminate|].
      destruct (find _ ProgrammingLanguageDetails) as [[? ?]|];
        [discriminate|].
      now intros [= <-].
  - exfalso. apply Hk. eapply resolve_result_known; eauto.
Qed.

End LanguageResolution.

Lemma convert_blank_generic (extension : string) :
  JS.trim extension = "" ->
  Convertor.convertProgrammingLanguageEnum extension
  = ProgrammingLanguage.GENERIC.
Proof.
  intros H. unfold Convertor.convertProgrammingLanguageEnum.
  apply blank_true_iff in H. now rewrite H.
Qed.

Lemma convert_unknown_generic (extension : string) :
  ~ isFileExtension extension ->
  Convertor.convertProgrammingLanguageEnum extension
  = ProgrammingLanguage.GENERIC.
Proof.
  intros H. unfold Convertor.convertProgrammingLanguageEnum.
  destruct (JS.blank extension); [reflexivity|].
  destruct (find _ _) as [[l i]|] eqn:E; [|reflexivity].
  exfalso. apply H. apply find_some in E as [E1 E2].
  apply hasExtension_true_iff in E2 as [ext [H1 H2]].
  exists (l, i), ext. auto.
Qed.

Lemma convert_known_extension (extension : string) :
  Convertor.convertProgrammingLanguageEnum extension
  <> ProgrammingLanguage.GENERIC ->
  exists e ext,
    In e ProgrammingLanguage.ProgrammingLanguageDetails
    /\ fst e = Convertor.convertProgrammingLanguageEnum extension
    /\ In ext (ProgrammingLanguage.fileExtensions (snd e))
    /\ JS.toLowerCase ext = JS.toLowerCase (JS.trim extension).
Proof.
  unfold Convertor.convertProgrammingLanguageEnum.
  destruct (JS.blank extension); [congruence|].
  destruct (find _ _) as [[l i]|] eqn:E; [|congruence].
  intros _. apply find_some in E as [E1 E2].
  apply hasExtension_true_iff in E2 as [ext [H1 H2]].
  exists (l, i), ext. auto.
Qed.

(** The claim C2 in its own words, for a resolver [resolve]: every
    non-empty input yields a language, and the empty or whitespace-only
    input fails. *)
Definition resolution_as_stated
  (resolve : string -> ProgrammingLanguage.LanguageError + ProgrammingLanguage.t)
  : Prop :=
  forall input,
    (JS.trim input <> "" -> exists l, resolve input = inr l)
    /\ (JS.trim input = "" -> exists e, resolve input = inl e).

(** C2, counterexample.  Neither resolver of the source behaves as the
    claim states: [stringToProgrammingLanguage] raises on the non-empty
    input xyz instead of falling back to the generic tag, and
    [convertProgrammingLanguage] returns the generic tag on the empty input
    instead of failing. *)
Lemma C2_resolution_counterexample :
  ~ resolution_as_stated ProgrammingLanguage.stringToProgrammingLanguage
  /\ ~ resolution_as_stated
         (fun s => inr (Convertor.convertProgrammingLanguageEnum s))
  /\ ProgrammingLanguage.stringToProgrammingLanguage "xyz"
     = inl (ProgrammingLanguage.UnknownLanguage "xyz")
  /\ Convertor.convertProgrammingLanguage ""
     = ProgrammingLanguage.value ProgrammingLanguage.GENERIC.
Proof.
  repeat split.
  - intros H. destruct (H "xyz") as [H1 _].
    destruct H1 as [l Hl]; [discriminate|]. discriminate Hl.
  - intros H. destruct (H "") as [_ H2].
    destruct H2 as [e He]; [reflexivity|]. discriminate He.
Qed.

(** C2, amended.  The extension resolver of the converter,
    [convertProgrammingLanguage], is total and never fails: it yields the
    generic tag on an empty or whitespace-only input and on an input that
    is no known file extension, and otherwise the language one of whose
    extensions equals the trimmed input without regard to case.  The
    resolver [stringToProgrammingLanguage] has no generic fallback: it
    fails with the empty-input error exactly on an empty or
    whitespace-only input, succeeds exactly on the other inputs that name
    a language (alias, identifier, display name or extension, compared
    without case after trimming), and fails with the unknown-language
    error on every remaining input. *)
Theorem C2_language_resolution :
  (forall extension,
      (JS.trim extension = "" ->
       Convertor.convertProgrammingLanguage extension
       = ProgrammingLanguage.value ProgrammingLanguage.GENERIC)
      /\ (~ isFileExtension extension ->
          Convertor.convertProgrammingLanguage extension
          = ProgrammingLanguage.value ProgrammingLanguage.GENERIC)
      /\ (Convertor.convertProgrammingLanguageEnum extension
          <> ProgrammingLanguage.GENERIC ->
          exists e ext,
            In e ProgrammingLanguage.ProgrammingLanguageDetails
            /\ Convertor.convertProgrammingLanguage extension
               = ProgrammingLanguage.value (fst e)
            /\ In ext (ProgrammingLanguage.fileExtensions (snd e))
            /\ JS.toLowerCase ext = JS.toLowerCase (JS.trim extension)))
  /\ (forall input,
         (ProgrammingLanguage.stringToProgrammingLanguage input
          = inl ProgrammingLanguage.EmptyLanguageInput
          <-> JS.trim input = "")
         /\ ((exists l, ProgrammingLanguage.stringToProgrammingLanguage input
                        = inr l)
             <-> JS.trim input <> "" /\ namesLanguage input)
         /\ (ProgrammingLanguage.stringToProgrammingLanguage input
             = inl (ProgrammingLanguage.UnknownLanguage (JS.trim input))
             <-> JS.trim input <> "" /\ ~ namesLanguage input)).
Proof.
  split.
  - intros extension. unfold Convertor.convertProgrammingLanguage.
    split; [|split].
    + intros H. now rewrite convert_blank_generic.
    + intros H. now rewrite convert_unknown_generic.
    + intros H. destruct (convert_known_extension _ H) as [e [ext H']].
      exists e, ext. intuition congruence.
  - intros input. split; [apply resolve_empty_iff|]. split.
    + split.
      * intros [l Hl]. split.
        -- intros H. apply resolve_empty_iff in H. congruence.
        -- eapply resolve_result_known; eauto.
      * intros [H1 H2]. now apply resolve_known.
    + split.
      * intros H. split.
        -- intros H'. apply resolve_empty_iff in H'. congruence.
        -- intros Hk.
           destruct (JS.trim input) eqn:E.
           ++ assert (JS.trim input = "") as E' by exact E.
              apply resolve_empty_iff in E'. congruence.
           ++ destruct (resolve_known input) as [l Hl]; try congruence.
      * intros [H1 H2]. now apply resolve_unknown.
Qed.

(** ** Comment injection *)

Lemma comment_style_suffix (language : string) (st : Convertor.CommentStyle) :
  Convertor.getCommentStyleForLanguage language = Some st ->
  Convertor.suffix st = None \/ Convertor.suffix st = Some "-->".
Proof.
  unfold Convertor.getCommentStyleForLanguage.
  repeat match goal with
         | |- context [if ?b then _ else _] => destruct b
         end; intros [= <-]; simpl; auto.
Qed.

Lemma prepended_differs (header code : string) :
  header ++ JS.NL ++ code <> code.
Proof.
  intros H. apply (f_equal String.length) in H.
  rewrite !string_length_append in H. simpl in H. lia.
Qed.

(** C5.  Comment injection leaves the code as it is exactly when the
    description is empty or made of whitespace only, or the language has no
    comment style.  Otherwise the result is the description, split at the
    line feeds, each line behind the prefix and a space (and, for a style
    with a suffix, followed by a space and the suffix), the lines joined by
    line feeds, then a line feed and the code.  The converter injects the
    description of a unit test in this way, trimmed, for the language its
    file extension resolves to. *)
Theorem C5_comment_injection (code description language : string) :
  (Convertor.addDescriptionAsCommentForLanguage code description language
   = code
   <-> JS.allWhiteSpace description = true
       \/ Convertor.getCommentStyleForLanguage language = None)
  /\ (forall pre,
         JS.allWhiteSpace description = false ->
         Convertor.getCommentStyleForLanguage language
         = Some (Convertor.mkStyle pre None) ->
         Convertor.addDescriptionAsCommentForLanguage
           code description language
         = JS.join JS.NL
             (map (fun line => pre ++ " " ++ line)
                  (JS.split JS.LF description))
           ++ JS.NL ++ code)
  /\ (forall pre suf,
         JS.allWhiteSpace description = false ->
         Convertor.getCommentStyleForLanguage language
         = Some (Convertor.mkStyle pre (Some suf)) ->
         Convertor.addDescriptionAsCommentForLanguage
           code description language
         = JS.join JS.NL
             (map (fun line => pre ++ " " ++ line ++ " " ++ suf)
                  (JS.split JS.LF description))
           ++ JS.NL ++ code)
  /\ (forall isCompliant,
         ValidatedExample.code
           (Convertor.convertUnitTestToExample
              (DetectionUnitTest.mk description code isCompliant) language)
         = Convertor.addDescriptionAsCommentForLanguage code
             (JS.trim description)
             (Convertor.convertProgrammingLanguage language)).
Proof.
  rewrite <- and_assoc, <- and_assoc. split.
  2:{ intros isCompliant. unfold Convertor.convertUnitTestToExample. simpl.
      destruct (JS.truthy (JS.trim description)) eqn:T; [reflexivity|].
      apply truthy_false_iff in T. rewrite T. reflexivity. }
  rewrite and_assoc.
  unfold Convertor.addDescriptionAsCommentForLanguage.
  destruct (JS.blank description) eqn:B.
  - apply blank_true_iff, trim_empty_iff in B.
    split; [tauto|]. split; intros; congruence.
  - assert (JS.allWhiteSpace description = false) as W.
    { apply blank_false_iff in B. rewrite trim_empty_iff in B.
      now destruct (JS.allWhiteSpace description). }
    destruct (Convertor.getCommentStyleForLanguage language) as [st|] eqn:S.
    + pose proof (comment_style_suffix _ _ S) as Hs.
      destruct st as [pre suf]. simpl in *.
      split; [|split].
      * split.
        -- intros H. exfalso.
           destruct suf as [sfx|];
             [destruct (JS.truthy sfx)|]; exact (prepended_differs _ _ H).
        -- intros [H|H]; congruence.
      * intros pre' _ [= <- ->]. reflexivity.
      * intros pre' suf' _ [= <- ->].
        destruct Hs as [Hs|Hs]; [discriminate|]. injection Hs as ->.
        reflexivity.
    + split; [tauto|]. split; intros; discriminate.
Qed.

(** ** Group description *)

Definition ruleA : ParsedPractice.t :=
  ParsedPractice.mk "Rule A" "Description A" ["Testing"] (Some false)
    (Some []) [] None "671a094106587d064f56ba82".
Definition ruleB : ParsedPractice.t :=
  ParsedPractice.mk "Rule B" "Description B" ["Testing"] (Some false)
    (Some []) [] None "671a094106587d064f56ba82".

(** C6, the code at the input of the repository's own test of
    [buildStandardDescription]: the heading of a member is its name behind
    two hash signs, with no ordinal, where the test expects the heading
    to read rule 1: Rule A. *)
Theorem C6_description_without_ordinal :
  let practices := [ruleA; ruleB] in
  let rules := map (Convertor.convertPracticeToRule 2) practices in
  Convertor.buildStandardDescription rules practices
  = "## Rule A" ++ JS.NL ++ "   Description A" ++ JS.NL ++ JS.NL
    ++ "## Rule B" ++ JS.NL ++ "   Description B"
  /\ String.index 0 "## rule 1: Rule A"
       (Convertor.buildStandardDescription rules practices) = None.
Proof. split; reflexivity. Qed.

(** What the source builds for any group: per rule, in order, the name
    behind two hash signs, a line feed and the description of the practice
    of that name with three spaces before each of its lines; the blocks
    are joined by an empty line. *)
Lemma buildStandardDescription_shape (rules : list ValidatedRule.t)
  (practices : list ParsedPractice.t) :
  Convertor.buildStandardDescription rules practices
  = JS.join (JS.NL ++ JS.NL)
      (map (fun rule =>
              "## " ++ ValidatedRule.name rule ++ JS.NL
              ++ JS.join JS.NL
                   (map (fun line => "   " ++ line)
                      (JS.split JS.LF
                         match Convertor.practiceMapGet practices
                                 (ValidatedRule.name rule) with
                         | Some practice => ParsedPractice.description practice
                         | None => ""
                         end)))
           rules).
Proof. reflexivity. Qed.

(** ** Sorting *)

Section SortFacts.
Context {A : Type}.
Variable cmp : A -> A -> Z.

Lemma insertBy_perm (x : A) (l : list A) :
  Permutation (JSArray.insertBy cmp x l) (x :: l).
Proof.
  induction l as [|y l IH]; simpl; [reflexivity|].
  destruct (cmp x y <=? 0)%Z; [reflexivity|].
  rewrite IH. apply perm_swap.
Qed.

Lemma sortBy_perm (l : list A) : Permutation (JSArray.sortBy cmp l) l.
Proof.
  induction l as [|x l IH]; simpl; [reflexivity|].
  rewrite insertBy_perm. now constructor.
Qed.

Lemma sortBy_In (l : list A) (x : A) : In x (JSArray.sortBy cmp l) <-> In x l.
Proof.
  split; apply Permutation_in; [|symmetry]; apply sortBy_perm.
Qed.

Definition precedes (a b : A) : Prop := (cmp a b <= 0)%Z.

Hypothesis precedes_total : forall a b, precedes a b \/ precedes b a.
Hypothesis precedes_trans :
  forall a b c, precedes a b -> precedes b c -> precedes a c.

Lemma insertBy_sorted (x : A) (l : list A) :
  StronglySorted precedes l -> StronglySorted precedes (JSArray.insertBy cmp x l).
Proof.
  induction l as [|y l IH]; simpl; intros Hs.
  - constructor; constructor.
  - inversion Hs as [|? ? Hs' Hy]; subst.
    destruct (cmp x y <=? 0)%Z eqn:E.
    + apply Z.leb_le in E. constructor; [exact Hs|].
      constructor; [exact E|].
      eapply Forall_impl; [|exact Hy]. intros z Hz.
      eapply precedes_trans; eauto.
    + apply Z.leb_gt in E. constructor; [now apply IH|].
      eapply Permutation_Forall; [symmetry; apply insertBy_perm|].
      constructor; [|exact Hy].
      destruct (precedes_total y x) as [H|H]; [exact H|].
      unfold precedes in H. lia.
Qed.

Lemma sortBy_sorted (l : list A) : StronglySorted precedes (JSArray.sortBy cmp l).
Proof.
  induction l as [|x l IH]; simpl; [constructor | now apply insertBy_sorted].
Qed.

End SortFacts.

(** A list sorted strictly along a key is the only such arrangement of its
    elements. *)
Lemma strictly_sorted_unique {A : Type} (lt : A -> A -> Prop)
  (lt_asym : forall a b, lt a b -> lt b a -> False) (l1 l2 : list A) :
  Permutation l1 l2 ->
  StronglySorted lt l1 -> StronglySorted lt l2 -> l1 = l2.
Proof.
  revert l2. induction l1 as [|a l1 IH]; intros l2 Hp H1 H2.
  - apply Permutation_nil in Hp. now subst.
  - destruct l2 as [|b l2].
    { symmetry in Hp. apply Permutation_nil in Hp. discriminate. }
    inversion H1 as [|? ? H1' Ha]; subst.
    inversion H2 as [|? ? H2' Hb]; subst.
    assert (a = b) as ->.
    { assert (In a (b :: l2)) as Ia
        by (eapply Permutation_in; [exact Hp | now left]).
      assert (In b (a :: l1)) as Ib
        by (eapply Permutation_in; [symmetry; exact Hp | now left]).
      destruct Ia as [Ia|Ia]; [now subst|].
      destruct Ib as [Ib|Ib]; [now subst|].
      rewrite Forall_forall in Ha, Hb.
      exfalso. exact (lt_asym _ _ (Ha _ Ib) (Hb _ Ia)). }
    f_equal. apply IH; auto. eapply Permutation_cons_inv; eauto.
Qed.

Lemma filter_perm {A : Type} (f : A -> bool) (l1 l2 : list A) :
  Permutation l1 l2 -> Permutation (filter f l1) (filter f l2).
Proof.
  induction 1; simpl.
  - constructor.
  - destruct (f x); [now constructor | assumption].
  - destruct (f x), (f y); try reflexivity; try apply perm_swap.
  - etransitivity; eauto.
Qed.

Lemma StronglySorted_weaken {A : Type} (R S : A -> A -> Prop) (l : list A) :
  (forall a b, R a b -> S a b) -> StronglySorted R l -> StronglySorted S l.
Proof.
  intros H. induction 1 as [|a l Hs IH Ha]; constructor; [exact IH|].
  eapply Forall_impl; [|exact Ha]. intros b. apply H.
Qed.

(** ** Context extraction *)

Definition lineOrder (a b : FileContent.t) : Z :=
  (FileContent.line a - FileContent.line b)%Z.

Definition ascending (a b : FileContent.t) : Prop :=
  (FileContent.line a <= FileContent.line b)%Z.

Definition inWindow (startLine stopLine : Z) (c : FileContent.t) : bool :=
  ((startLine <=? FileContent.line c) && (FileContent.line c <=? stopLine))%Z.

(** The least and the greatest line number of a snapshot. *)
Definition isMinLine (contents : list FileContent.t) (minLine : Z) : Prop :=
  In minLine (map FileContent.line contents)
  /\ forall c, In c contents -> (minLine <= FileContent.line c)%Z.
Definition isMaxLine (contents : list FileContent.t) (maxLine : Z) : Prop :=
  In maxLine (map FileContent.line contents)
  /\ forall c, In c contents -> (FileContent.line c <= maxLine)%Z.

Lemma fold_min_spec (xs : list Z) (x : Z) :
  (In (fold_left Z.min xs x) (x :: xs))
  /\ forall y, In y (x :: xs) -> (fold_left Z.min xs x <= y)%Z.
Proof.
  revert x. induction xs as [|a xs IH]; intros x; simpl.
  - split; [now left | intros y [<-|[]]; lia].
  - destruct (IH (Z.min x a)) as [H1 H2]. split.
    + destruct H1 as [H1|H1]; [|now right; right].
      rewrite <- H1.
      destruct (Z.min_spec x a) as [[_ E]|[_ E]]; rewrite E; auto.
    + intros y Hy.
      assert (fold_left Z.min xs (Z.min x a) <= Z.min x a)%Z as Hm
        by (apply H2; now left).
      destruct Hy as [<-|[<-|Hy]]; [lia | lia | apply H2; now right].
Qed.

Lemma fold_max_spec (xs : list Z) (x : Z) :
  (In (fold_left Z.max xs x) (x :: xs))
  /\ forall y, In y (x :: xs) -> (y <= fold_left Z.max xs x)%Z.
Proof.
  revert x. induction xs as [|a xs IH]; intros x; simpl.
  - split; [now left | intros y [<-|[]]; lia].
  - destruct (IH (Z.max x a)) as [H1 H2]. split.
    + destruct H1 as [H1|H1]; [|now right; right].
      rewrite <- H1.
      destruct (Z.max_spec x a) as [[_ E]|[_ E]]; rewrite E; auto.
    + intros y Hy.
      assert (Z.max x a <= fold_left Z.max xs (Z.max x a))%Z as Hm
        by (apply H2; now left).
      destruct Hy as [<-|[<-|Hy]]; [lia | lia | apply H2; now right].
Qed.

Lemma minOf_unique (contents : list FileContent.t) (minLine : Z) :
  isMinLine contents minLine ->
  JSArray.minOf (map FileContent.line contents) = Some minLine.
Proof.
  intros [Hin Hle]. unfold JSArray.minOf.
  destruct (map FileContent.line contents) as [|x xs] eqn:E; [destruct Hin|].
  f_equal. destruct (fold_min_spec xs x) as [H1 H2].
  apply Z.le_antisymm.
  - now apply H2.
  - rewrite <- E in H1. apply in_map_iff in H1 as [c [<- Hc]]. now apply Hle.
Qed.

Lemma maxOf_unique (contents : list FileContent.t) (maxLine : Z) :
  isMaxLine contents maxLine ->
  JSArray.maxOf (map FileContent.line contents) = Some maxLine.
Proof.
  intros [Hin Hle]. unfold JSArray.maxOf.
  destruct (map FileContent.line contents) as [|x xs] eqn:E; [destruct Hin|].
  f_equal. destruct (fold_max_spec xs x) as [H1 H2].
  apply Z.le_antisymm.
  - rewrite <- E in H1. apply in_map_iff in H1 as [c [<- Hc]]. now apply Hle.
  - now apply H2.
Qed.

Lemma isMinLine_perm (c1 c2 : list FileContent.t) (m : Z) :
  Permutation c1 c2 -> isMinLine c1 m -> isMinLine c2 m.
Proof.
  intros Hp [H1 H2]. split.
  - eapply Permutation_in; [apply Permutation_map; exact Hp | exact H1].
  - intros c Hc. apply H2. eapply Permutation_in; [symmetry; exact Hp|exact Hc].
Qed.

Lemma isMaxLine_perm (c1 c2 : list FileContent.t) (m : Z) :
  Permutation c1 c2 -> isMaxLine c1 m -> isMaxLine c2 m.
Proof.
  intros Hp [H1 H2]. split.
  - eapply Permutation_in; [apply Permutation_map; exact Hp | exact H1].
  - intros c Hc. apply H2. eapply Permutation_in; [symmetry; exact Hp|exact Hc].
Qed.

Lemma getLineRange_sorted (contents : list FileContent.t) (lo hi : Z) :
  let selected :=
    JSArray.sortBy lineOrder (filter (inWindow lo hi) contents) in
  Permutation selected (filter (inWindow lo hi) contents)
  /\ StronglySorted ascending selected
  /\ Convertor.getLineRange contents lo hi
     = JS.join JS.NL (map FileContent.content selected).
Proof.
  split; [apply sortBy_perm|]. split; [|reflexivity].
  apply (StronglySorted_weaken (precedes lineOrder)).
  { intros a b. unfold precedes, lineOrder, ascending. lia. }
  apply (sortBy_sorted lineOrder).
  - intros a b. unfold precedes, lineOrder. lia.
  - intros a b c. unfold precedes, lineOrder. lia.
Qed.

Lemma sorted_distinct_strict (l : list FileContent.t) :
  NoDup (map FileContent.line l) -> StronglySorted ascending l ->
  StronglySorted (fun a b => (FileContent.line a < FileContent.line b)%Z) l.
Proof.
  induction l as [|a l IH]; intros Hn Hs; [constructor|].
  inversion Hs as [|? ? Hs' Ha]; subst. simpl in Hn.
  inversion Hn as [|? ? Hnot Hn']; subst.
  constructor; [now apply IH|].
  rewrite Forall_forall in *. intros b Hb.
  specialize (Ha b Hb). unfold ascending in Ha.
  assert (FileContent.line a <> FileContent.line b).
  { intros E. apply Hnot. rewrite E. now apply in_map. }
  lia.
Qed.

Lemma NoDup_map_filter {V K : Type} (keep : V -> bool) (label : V -> K)
  (entries : list V) (distinct : NoDup (map label entries)) :
  NoDup (map label (filter keep entries)).
Proof.
  induction entries as [|a l IH]; simpl in *; [constructor|].
  inversion distinct as [|? ? Hnot H']; subst.
  destruct (keep a); simpl; [|now apply IH].
  constructor; [|now apply IH].
  intros Hin. apply Hnot. apply in_map_iff in Hin as [x [E Hx]].
  apply filter_In in Hx as [Hx _]. rewrite <- E. now apply in_map.
Qed.

Lemma getLineRange_perm (c1 c2 : list FileContent.t) (lo hi : Z) :
  Permutation c1 c2 -> NoDup (map FileContent.line c1) ->
  Convertor.getLineRange c1 lo hi = Convertor.getLineRange c2 lo hi.
Proof.
  intros Hp Hn.
  destruct (getLineRange_sorted c1 lo hi) as [P1 [S1 ->]].
  destruct (getLineRange_sorted c2 lo hi) as [P2 [S2 ->]].
  f_equal. f_equal.
  apply (strictly_sorted_unique
           (fun a b => (FileContent.line a < FileContent.line b)%Z)).
  - intros a b. lia.
  - rewrite P1, P2. apply filter_perm, Hp.
  - apply sorted_distinct_strict; [|exact S1].
    eapply Permutation_NoDup;
      [symmetry; apply Permutation_map; exact P1|].
    now apply NoDup_map_filter.
  - apply sorted_distinct_strict; [|exact S2].
    eapply Permutation_NoDup;
      [symmetry; apply Permutation_map; exact P2|].
    apply NoDup_map_filter.
    eapply Permutation_NoDup; [apply Permutation_map; exact Hp | exact Hn].
Qed.

Lemma insertBy_same_line (k : Z) (x : FileContent.t) (l : list FileContent.t) :
  filter (fun c => (FileContent.line c =? k)%Z) (JSArray.insertBy lineOrder x l)
  = filter (fun c => (FileContent.line c =? k)%Z) (x :: l).
Proof.
  induction l as [|y l IH]; simpl; [reflexivity|].
  destruct (lineOrder x y <=? 0)%Z eqn:E; [reflexivity|].
  apply Z.leb_gt in E. unfold lineOrder in E. simpl. rewrite IH. simpl.
  destruct (FileContent.line x =? k)%Z eqn:Ex;
    destruct (FileContent.line y =? k)%Z eqn:Ey; try reflexivity.
  apply Z.eqb_eq in Ex, Ey. lia.
Qed.

(** The sort is stable: the entries of one line number keep their order. *)
Lemma sortBy_same_line (k : Z) (l : list FileContent.t) :
  filter (fun c => (FileContent.line c =? k)%Z) (JSArray.sortBy lineOrder l)
  = filter (fun c => (FileContent.line c =? k)%Z) l.
Proof.
  induction l as [|x l IH]; simpl; [reflexivity|].
  rewrite insertBy_same_line. simpl. now rewrite IH.
Qed.

(** C4, amended.  For a snapshot with least line number [minLine] and
    greatest [maxLine], context extraction returns the contents of exactly
    the snapshot lines whose number lies between
    [max minLine (beginLine - padding)] and [min maxLine (endLine + padding)],
    in ascending order of line number, joined by line feeds; lines that
    share a number stay in their storage order.  The result is the same
    for every storage order of a snapshot whose line numbers are pairwise
    distinct. *)
Theorem C4_context_extraction (contextLines : Z) (example : Example.t)
  (minLine maxLine : Z) :
  let contents := FileWorkshop.contents (Example.fileWorkshop example) in
  let beginLine :=
    PositionPoint.line (Position.begin_ (Example.position example)) in
  let endLine :=
    PositionPoint.line (Position.end_ (Example.position example)) in
  let startLine := Z.max minLine (beginLine - contextLines) in
  let stopLine := Z.min maxLine (endLine + contextLines) in
  isMinLine contents minLine ->
  isMaxLine contents maxLine ->
  (exists selected,
      Permutation selected (filter (inWindow startLine stopLine) contents)
      /\ StronglySorted ascending selected
      /\ (forall k,
             filter (fun c => (FileContent.line c =? k)%Z) selected
             = filter (fun c => (FileContent.line c =? k)%Z)
                 (filter (inWindow startLine stopLine) contents))
      /\ Convertor.extractCodeWithContext contextLines example
         = JS.join JS.NL (map FileContent.content selected))
  /\ (forall example',
         Example.position example' = Example.position example ->
         Permutation contents
           (FileWorkshop.contents (Example.fileWorkshop example')) ->
         NoDup (map FileContent.line contents) ->
         Convertor.extractCodeWithContext contextLines example'
         = Convertor.extractCodeWithContext contextLines example).
Proof.
  intros contents beginLine endLine startLine stopLine Hmin Hmax.
  assert (Convertor.extractCodeWithContext contextLines example
          = Convertor.getLineRange contents startLine stopLine) as E.
  { unfold Convertor.extractCodeWithContext. fold contents.
    now rewrite (minOf_unique _ _ Hmin), (maxOf_unique _ _ Hmax). }
  split.
  - destruct (getLineRange_sorted contents startLine stopLine)
      as [P [S G]].
    eexists. split; [exact P|]. split; [exact S|]. split.
    + intros k. apply sortBy_same_line.
    + now rewrite E, G.
  - intros example' Hpos Hp Hn. rewrite E.
    unfold Convertor.extractCodeWithContext. rewrite Hpos.
    rewrite (minOf_unique _ _ (isMinLine_perm _ _ _ Hp Hmin)).
    rewrite (maxOf_unique _ _ (isMaxLine_perm _ _ _ Hp Hmax)).
    symmetry. now apply getLineRange_perm.
Qed.

(** The snapshot of the repository's tests: twelve lines, stored here from
    the last to the first, and the range 5-7. *)
Definition twelveLines : list FileContent.t :=
  map (fun n => FileContent.mk (Z.of_nat n) "x") (rev (seq 1 12)).
Definition twelveLinesExample : Example.t :=
  Example.mk (Position.mk (PositionPoint.mk 0 5) (PositionPoint.mk 0 7))
    "Example description" (FileWorkshop.mk twelveLines "kt" "Test.kt") true.

Lemma C4_context_extraction_witness :
  exists selected,
    Permutation selected (filter (inWindow 3 9) twelveLines)
    /\ StronglySorted ascending selected
    /\ (forall k,
           filter (fun c => (FileContent.line c =? k)%Z) selected
           = filter (fun c => (FileContent.line c =? k)%Z)
               (filter (inWindow 3 9) twelveLines))
    /\ Convertor.extractCodeWithContext 2 twelveLinesExample
       = JS.join JS.NL (map FileContent.content selected).
Proof.
  refine (proj1 (C4_context_extraction 2 twelveLinesExample 1 12 _ _)).
  - split; [simpl; tauto|].
    intros c Hc. simpl in Hc.
    repeat (destruct Hc as [<-|Hc]; [simpl; lia|]). destruct Hc.
  - split; [simpl; tauto|].
    intros c Hc. simpl in Hc.
    repeat (destruct Hc as [<-|Hc]; [simpl; lia|]). destruct Hc.
Defined.

Definition tiedLines : list FileContent.t :=
  [FileContent.mk 1 "a"; FileContent.mk 1 "b"].
Definition tiedExample (contents : list FileContent.t) : Example.t :=
  Example.mk (Position.mk (PositionPoint.mk 0 1) (PositionPoint.mk 0 1))
    "" (FileWorkshop.mk contents "kt" "Tied.kt") true.

(** C4, counterexample.  Two storage orders of one bag of lines, both of
    line number 1: the extraction follows the storage order. *)
Lemma C4_storage_order_counterexample :
  Permutation tiedLines (rev tiedLines)
  /\ Convertor.extractCodeWithContext 0 (tiedExample tiedLines)
     = "a" ++ JS.NL ++ "b"
  /\ Convertor.extractCodeWithContext 0 (tiedExample (rev tiedLines))
     = "b" ++ JS.NL ++ "a".
Proof.
  split; [apply Permutation_rev|]. split; reflexivity.
Qed.

(** ** Detection policy *)

(** The policy in the words of the specification. *)
Definition eligible (practice : ParsedPractice.t) : Prop :=
  (ParsedPractice.suggestionsDisabled practice = Some false
   \/ ParsedPractice.suggestionsDisabled practice = None)
  /\ exists toolings,
       ParsedPractice.toolings practice = Some toolings
       /\ Toolings.status toolings = "SUCCESS".

Lemma shouldIncludeDetection_eligible (practice : ParsedPractice.t) :
  Convertor.shouldIncludeDetection practice = true <-> eligible practice.
Proof.
  unfold Convertor.shouldIncludeDetection, eligible.
  destruct (ParsedPractice.suggestionsDisabled practice) as [[|]|];
    destruct (ParsedPractice.toolings practice) as [t|]; split;
    try discriminate;
    try (intros [[H|H] _]; discriminate);
    try (intros [_ [t' [H _]]]; discriminate).
  - intros H. apply String.eqb_eq in H. split; [now left|]. now exists t.
  - intros [_ [t' [[= <-] H]]]. now apply String.eqb_eq.
  - intros H. apply String.eqb_eq in H. split; [now right|]. now exists t.
  - intros [_ [t' [[= <-] H]]]. now apply String.eqb_eq.
Qed.

Lemma pushExample_fold {A : Type} (pol : A -> bool)
  (conv : A -> ValidatedExample.t) (l : list A) (b : Convertor.Buckets) :
  fold_left (fun acc x => Convertor.pushExample (pol x) (conv x) acc) l b
  = ((fst b ++ map conv (filter pol l))%list,
     (snd b ++ map conv (filter (fun x => negb (pol x)) l))%list).
Proof.
  revert b. induction l as [|x l IH]; intros [p n]; simpl.
  - now rewrite !app_nil_r.
  - rewrite IH. unfold Convertor.pushExample.
    destruct (pol x); simpl; now rewrite <- !app_assoc.
Qed.

(** The unit tests of a practice, none when the field is absent. *)
Definition unitTests (practice : ParsedPractice.t) : list DetectionUnitTest.t :=
  match ParsedPractice.detectionUnitTests practice with
  | Some tests => tests
  | None => []
  end.

Definition fromUnitTests (practice : ParsedPractice.t) (compliant : bool)
  : list ValidatedExample.t :=
  map (fun test =>
         Convertor.convertUnitTestToExample test
           (Convertor.inferLanguage practice))
      (filter (fun test => Bool.eqb (DetectionUnitTest.isCompliant test) compliant)
              (unitTests practice)).

Definition fromFiles (contextLines : Z) (practice : ParsedPractice.t)
  (positive : bool) : list ValidatedExample.t :=
  map (Convertor.convertFileWorkshopExample contextLines)
      (filter (fun example => Bool.eqb (Example.isPositive example) positive)
              (ParsedPractice.examples practice)).

Lemma filter_eqb_true {A : Type} (f : A -> bool) (l : list A) :
  filter (fun x => Bool.eqb (f x) true) l = filter f l.
Proof.
  apply filter_ext. intros x. now destruct (f x).
Qed.

Lemma filter_eqb_false {A : Type} (f : A -> bool) (l : list A) :
  filter (fun x => Bool.eqb (f x) false) l = filter (fun x => negb (f x)) l.
Proof.
  apply filter_ext. intros x. now destruct (f x).
Qed.

Lemma rule_examples (contextLines : Z) (practice : ParsedPractice.t)
  (polarity : bool) :
  (if polarity
   then ValidatedRule.positiveExamples
          (Convertor.convertPracticeToRule contextLines practice)
   else ValidatedRule.negativeExamples
          (Convertor.convertPracticeToRule contextLines practice))
  = ((if Convertor.shouldIncludeDetection practice
      then fromUnitTests practice polarity else [])
     ++ fromFiles contextLines practice polarity)%list.
Proof.
  unfold Convertor.convertPracticeToRule, Convertor.pushFileExamples,
    Convertor.pushUnitTests, fromUnitTests, fromFiles, unitTests.
  rewrite pushExample_fold.
  destruct (Convertor.shouldIncludeDetection practice);
    destruct (ParsedPractice.detectionUnitTests practice) as [tests|];
    try rewrite pushExample_fold;
    destruct polarity; simpl;
    rewrite ?filter_eqb_true, ?filter_eqb_false; reflexivity.
Qed.

(** A practice that meets the policy and whose tooling has no program
    text, as a tooling that detects by regular expressions may have. *)
Definition regexOnlyPractice : ParsedPractice.t :=
  ParsedPractice.mk "Regex practice" "Detected by a regular expression"
    ["Testing"] (Some false) (Some []) []
    (Some (Toolings.mk "SUCCESS" "" "" "JAVA")) "671a094106587d064f56ba82".

(** C3, counterexample.  The practice meets the three conditions of the
    policy and its rule has no detection program. *)
Lemma C3_detection_counterexample :
  eligible regexOnlyPractice
  /\ ValidatedRule.detectionProgram
       (Convertor.convertPracticeToRule 2 regexOnlyPractice) = None.
Proof.
  split; [|reflexivity].
  split; [now left|]. eexists. split; reflexivity.
Qed.

(** C3, amended.  The examples drawn from the unit tests are in the rule
    exactly when the practice is eligible (suggestions not disabled, a
    tooling present, its status the string SUCCESS): an eligible practice
    gets all of them, before the file examples and under their polarity;
    any other practice gets none.  The examples drawn from the files are
    in the rule in both cases.  The detection program is in the rule
    exactly when the practice is eligible and the program text of its
    tooling is not empty. *)
Theorem C3_detection_policy (contextLines : Z) (practice : ParsedPractice.t) :
  let rule := Convertor.convertPracticeToRule contextLines practice in
  (eligible practice ->
   ValidatedRule.positiveExamples rule
   = (fromUnitTests practice true ++ fromFiles contextLines practice true)%list
   /\ ValidatedRule.negativeExamples rule
      = (fromUnitTests practice false
         ++ fromFiles contextLines practice false)%list)
  /\ (~ eligible practice ->
      ValidatedRule.positiveExamples rule = fromFiles contextLines practice true
      /\ ValidatedRule.negativeExamples rule
         = fromFiles contextLines practice false)
  /\ (ValidatedRule.detectionProgram rule <> None
      <-> eligible practice
          /\ exists toolings,
               ParsedPractice.toolings practice = Some toolings
               /\ Toolings.program toolings <> "").
Proof.
  intros rule. subst rule.
  pose proof (rule_examples contextLines practice true) as Hp.
  pose proof (rule_examples contextLines practice false) as Hn.
  simpl in Hp, Hn.
  pose proof (shouldIncludeDetection_eligible practice) as He.
  split; [|split].
  - intros H. apply He in H. rewrite H in Hp, Hn. now split.
  - intros H.
    destruct (Convertor.shouldIncludeDetection practice);
      [exfalso; apply H, He; reflexivity|]. now split.
  - unfold Convertor.convertPracticeToRule,
      Convertor.convertDetectionProgram. simpl.
    destruct (Convertor.shouldIncludeDetection practice) eqn:S.
    + destruct (ParsedPractice.toolings practice) as [t|] eqn:T.
      * destruct (JS.truthy (Toolings.program t)) eqn:P.
        -- split; [|discriminate]. intros _. split; [now apply He|].
           exists t. split; [reflexivity | now apply truthy_true_iff].
        -- split; [congruence|]. intros [_ [t' [[= <-] Hp']]].
           apply truthy_false_iff in P. contradiction.
      * split; [congruence|]. intros [_ [t' [H _]]]. discriminate.
    + split; [congruence|]. intros [H _]. apply He in H. discriminate.
Qed.

(** ** Language of the detection program *)

Definition exampleTag (example : Example.t) : string :=
  FileWorkshop.lang (Example.fileWorkshop example).

(** The condition of the claim in its own words: the tag of every file
    example, lower-cased, is one of the three Avro extensions. *)
Definition everyTagAvro (practice : ParsedPractice.t) : Prop :=
  forall example, In example (ParsedPractice.examples practice) ->
    In (JS.toLowerCase (exampleTag example)) Convertor.avroExtensions.

(** The condition the source tests: some file example has a tag, and
    every tag that is not empty is, lower-cased, an Avro extension. *)
Definition taggedExamplesAvro (practice : ParsedPractice.t) : Prop :=
  (exists example, In example (ParsedPractice.examples practice)
                   /\ exampleTag example <> "")
  /\ forall example, In example (ParsedPractice.examples practice) ->
       exampleTag example <> "" ->
       In (JS.toLowerCase (exampleTag example)) Convertor.avroExtensions.

Definition programLanguage (rule : ValidatedRule.t) : option string :=
  option_map DetectionProgram.language (ValidatedRule.detectionProgram rule).

Lemma toLowerCase_truthy (s : string) :
  JS.truthy (JS.toLowerCase s) = JS.truthy s.
Proof. now destruct s. Qed.

Lemma avro_member (tag : string) :
  existsb (String.eqb tag) Convertor.avroExtensions = true
  <-> In tag Convertor.avroExtensions.
Proof.
  rewrite existsb_exists. split.
  - intros [x [H1 H2]]. apply String.eqb_eq in H2. now subst.
  - intros H. exists tag. split; [exact H | apply String.eqb_refl].
Qed.

Lemma areAllExamplesAvro_spec (practice : ParsedPractice.t) :
  Convertor.areAllExamplesAvro practice = true <-> taggedExamplesAvro practice.
Proof.
  unfold Convertor.areAllExamplesAvro, taggedExamplesAvro, exampleTag.
  set (tags := filter JS.truthy _).
  assert (forall tag, In tag tags <->
            exists example, In example (ParsedPractice.examples practice)
              /\ FileWorkshop.lang (Example.fileWorkshop example) <> ""
              /\ tag = JS.toLowerCase
                         (FileWorkshop.lang (Example.fileWorkshop example)))
    as Htags.
  { intros tag. unfold tags. rewrite filter_In, in_map_iff. split.
    - intros [[ex [<- Hex]] Ht]. exists ex.
      rewrite toLowerCase_truthy in Ht. apply truthy_true_iff in Ht. auto.
    - intros [ex [Hex [Hne ->]]]. split; [now exists ex|].
      rewrite toLowerCase_truthy. now apply truthy_true_iff. }
  assert (forallb (fun lang => existsb (String.eqb lang) Convertor.avroExtensions)
                  tags = true
          <-> forall example, In example (ParsedPractice.examples practice) ->
                FileWorkshop.lang (Example.fileWorkshop example) <> "" ->
                In (JS.toLowerCase
                      (FileWorkshop.lang (Example.fileWorkshop example)))
                   Convertor.avroExtensions) as Hall.
  { rewrite forallb_forall. split.
    - intros H ex Hex Hne. apply avro_member, H, Htags. now exists ex.
    - intros H tag Ht. apply Htags in Ht as [ex [Hex [Hne ->]]].
      apply avro_member. now apply H. }
  destruct tags as [|tag tags'] eqn:E.
  - split; [discriminate|]. intros [[ex [Hex Hne]] _].
    assert (In (JS.toLowerCase
                  (FileWorkshop.lang (Example.fileWorkshop ex))) [])
      as [] by (apply Htags; now exists ex).
  - rewrite Hall. split; [|tauto]. intros H. split; [|exact H].
    destruct (proj1 (Htags tag) (or_introl eq_refl)) as [ex [Hex [Hne _]]].
    now exists ex.
Qed.

Definition avroExample (tag : string) : Example.t :=
  Example.mk (Position.mk (PositionPoint.mk 0 1) (PositionPoint.mk 0 1))
    "" (FileWorkshop.mk [FileContent.mk 1 "record"] tag "schema") true.

Definition javaToolings : Toolings.t :=
  Toolings.mk "SUCCESS" "function checkSourceCode(ast) { return []; }"
    "Checks source code for violations" "JAVA".

(** One Avro schema and one file without extension. *)
Definition mixedTagPractice : ParsedPractice.t :=
  ParsedPractice.mk "Schema practice" "Schemas" ["Avro"] (Some false) None
    [avroExample "avsc"; avroExample ""]
    (Some javaToolings) "671a094106587d064f56ba82".

(** No file example at all. *)
Definition noExamplePractice : ParsedPractice.t :=
  ParsedPractice.mk "Bare practice" "No example" ["Java"] (Some false) None
    [] (Some javaToolings) "671a094106587d064f56ba82".

(** C9, counterexample.  Both practices are eligible and have a program.
    In the first not every file example has an Avro tag (one has none),
    and the language is forced to AVRO all the same; in the second every
    file example has an Avro tag (there is none), and the language is the
    one the tooling declares. *)
Lemma C9_avro_counterexample :
  (~ everyTagAvro mixedTagPractice
   /\ programLanguage (Convertor.convertPracticeToRule 2 mixedTagPractice)
      = Some "AVRO"
   /\ Toolings.language javaToolings = "JAVA")
  /\ (everyTagAvro noExamplePractice
      /\ programLanguage (Convertor.convertPracticeToRule 2 noExamplePractice)
         = Some "JAVA").
Proof.
  split; split.
  - intros H. specialize (H (avroExample "") (or_intror (or_introl eq_refl))).
    simpl in H. intuition discriminate.
  - split; reflexivity.
  - intros example [].
  - reflexivity.
Qed.

(** C9, amended.  For a practice that is eligible and whose tooling has a
    program: when at least one file example has a non-empty language tag
    and every non-empty tag is, without regard to case, one of avdl, avsc
    and avpr, the language of the emitted program is AVRO whatever the
    tooling declares; otherwise (no tagged example, as when there is no
    example, or a tag outside the family) it is the language the tooling
    declares, as it is. *)
Theorem C9_detection_language (contextLines : Z) (practice : ParsedPractice.t)
  (toolings : Toolings.t) :
  eligible practice ->
  ParsedPractice.toolings practice = Some toolings ->
  Toolings.program toolings <> "" ->
  let rule := Convertor.convertPracticeToRule contextLines practice in
  (taggedExamplesAvro practice ->
   programLanguage rule
   = Some (ProgrammingLanguage.value ProgrammingLanguage.AVRO))
  /\ (~ taggedExamplesAvro practice ->
      programLanguage rule = Some (Toolings.language toolings)).
Proof.
  intros He Ht Hp rule. subst rule.
  apply shouldIncludeDetection_eligible in He.
  apply truthy_true_iff in Hp.
  unfold programLanguage, Convertor.convertPracticeToRule,
    Convertor.convertDetectionProgram. simpl.
  rewrite He, Ht, Hp. simpl.
  pose proof (areAllExamplesAvro_spec practice) as Ha.
  destruct (Convertor.areAllExamplesAvro practice).
  - split; [reflexivity|]. intros H. exfalso. apply H, Ha. reflexivity.
  - split; [|reflexivity]. intros H. apply Ha in H. discriminate.
Qed.

Definition avroPractice : ParsedPractice.t :=
  ParsedPractice.mk "Schema practice" "Schemas" ["Avro"] (Some false) None
    [avroExample "AVSC"; avroExample "avdl"]
    (Some javaToolings) "671a094106587d064f56ba82".

Lemma C9_detection_language_witness :
  programLanguage (Convertor.convertPracticeToRule 2 avroPractice)
  = Some "AVRO".
Proof.
  refine (proj1 (C9_detection_language 2 avroPractice javaToolings _ _ _) _).
  - split; [now left|]. exists javaToolings. split; reflexivity.
  - reflexivity.
  - discriminate.
  - split.
    + exists (avroExample "AVSC"). split; [now left | discriminate].
    + intros example [<-|[<-|[]]] _; simpl; tauto.
Defined.

(** ** Parsing a practice *)

(** A language string resolves when it is not blank and names a language. *)
Definition resolvesToLanguage (language : string) : Prop :=
  JS.trim language <> "" /\ namesLanguage language.

Lemma resolves_iff (language : string) :
  (exists l, ProgrammingLanguage.stringToProgrammingLanguage language = inr l)
  <-> resolvesToLanguage language.
Proof.
  split.
  - intros [l Hl]. split.
    + intros H. apply resolve_empty_iff in H. congruence.
    + eapply resolve_result_known; eauto.
  - intros [H1 H2]. now apply resolve_known.
Qed.

Section ParsePractice.
Variable jsonParse : string -> option Index.RawPractice.

Lemma parseToolings_ok (name : string) (raw : Index.RawToolings)
  (toolings : Toolings.t) :
  Index.parseToolings name raw = inr toolings ->
  exists language,
    Index.rawLanguage raw = Some language
    /\ resolvesToLanguage language
    /\ toolings = Toolings.mk (Index.rawStatus raw) (Index.rawProgram raw)
                    (Index.rawProgramDescription raw) language.
Proof.
  unfold Index.parseToolings, Index.truthyString.
  destruct (Index.rawLanguage raw) as [language|]; [|discriminate].
  destruct (JS.truthy language); [|discriminate].
  destruct (ProgrammingLanguage.stringToProgrammingLanguage language)
    as [e|l] eqn:E; [discriminate|].
  intros [= <-]. exists language. split; [reflexivity|].
  split; [|reflexivity]. apply resolves_iff. now exists l.
Qed.

Lemma parseToolings_resolved (name language : string)
  (raw : Index.RawToolings) :
  Index.rawLanguage raw = Some language -> resolvesToLanguage language ->
  Index.parseToolings name raw
  = inr (Toolings.mk (Index.rawStatus raw) (Index.rawProgram raw)
           (Index.rawProgramDescription raw) language).
Proof.
  intros Hl Hr. unfold Index.parseToolings, Index.truthyString. rewrite Hl.
  assert (JS.truthy language = true) as ->.
  { apply truthy_true_iff. intros ->. now destruct Hr as [Hr _]. }
  apply resolves_iff in Hr as [l ->]. reflexivity.
Qed.

(** C10.  For a record that [JSON.parse] accepts and that holds a
    [toolings] object: parsing throws whenever [toolings.language] is
    absent or does not resolve (as an alias, identifier, display name or
    file extension, without regard to case); parsing succeeds only when it
    resolves, and the practice then carries the tooling with that language;
    and when the required properties are present and the language
    resolves, parsing does succeed, whatever the status of the tooling. *)
Theorem C10_toolings_language (jsonString : string)
  (parsed : Index.RawPractice) (raw : Index.RawToolings) :
  jsonParse jsonString = Some parsed ->
  Index.rawToolings parsed = Some raw ->
  ((Index.rawLanguage raw = None
    \/ exists language, Index.rawLanguage raw = Some language
                        /\ ~ resolvesToLanguage language) ->
   exists e, Index.parsePractice jsonParse jsonString = inl e)
  /\ (forall practice,
         Index.parsePractice jsonParse jsonString = inr practice ->
         exists language,
           Index.rawLanguage raw = Some language
           /\ resolvesToLanguage language
           /\ ParsedPractice.toolings practice
              = Some (Toolings.mk (Index.rawStatus raw) (Index.rawProgram raw)
                        (Index.rawProgramDescription raw) language))
  /\ (forall name description categories examples space language,
         Index.truthyString (Index.rawName parsed) = Some name ->
         Index.truthyString (Index.rawDescription parsed) = Some description ->
         Index.rawCategories parsed = Some categories ->
         Index.rawExamples parsed = Some examples ->
         Index.truthyString (Index.rawSpace parsed) = Some space ->
         Index.rawLanguage raw = Some language ->
         resolvesToLanguage language ->
         exists practice,
           Index.parsePractice jsonParse jsonString = inr practice
           /\ ParsedPractice.toolings practice
              = Some (Toolings.mk (Index.rawStatus raw) (Index.rawProgram raw)
                        (Index.rawProgramDescription raw) language)).
Proof.
  intros Hj Ht.
  assert (forall practice,
             Index.parsePractice jsonParse jsonString = inr practice ->
             exists language,
               Index.rawLanguage raw = Some language
               /\ resolvesToLanguage language
               /\ ParsedPractice.toolings practice
                  = Some (Toolings.mk (Index.rawStatus raw)
                            (Index.rawProgram raw)
                            (Index.rawProgramDescription raw) language)) as Hok.
  { intros practice. unfold Index.parsePractice. rewrite Hj.
    destruct (Index.truthyString (Index.rawName parsed)); [|discriminate].
    destruct (Index.truthyString (Index.rawDescription parsed));
      [|discriminate].
    destruct (Index.rawCategories parsed); [|discriminate].
    destruct (Index.rawExamples parsed); [|discriminate].
    destruct (Index.truthyString (Index.rawSpace parsed)); [|discriminate].
    rewrite Ht.
    destruct (Index.parseToolings s raw) as [e|toolings] eqn:E;
      [discriminate|].
    intros [= <-]. apply parseToolings_ok in E as [language [H1 [H2 ->]]].
    exists language. auto. }
  split; [|split].
  - intros Hbad.
    destruct (Index.parsePractice jsonParse jsonString) as [e|practice] eqn:E;
      [now exists e|].
    exfalso. destruct (Hok practice eq_refl) as [language [H1 [H2 _]]].
    destruct Hbad as [Hbad|[language' [Hl Hbad]]]; [congruence|].
    rewrite H1 in Hl. injection Hl as <-. contradiction.
  - exact Hok.
  - intros name description categories examples space language
      Hn Hd Hc He Hs Hl Hr.
    unfold Index.parsePractice. rewrite Hj, Hn, Hd, Hc, He, Hs, Ht.
    rewrite (parseToolings_resolved name language raw Hl Hr).
    eexists. split; reflexivity.
Qed.

End ParsePractice.

(** A record whose tooling failed: it parses, and the detection policy
    then leaves the tooling out. *)
Definition failedToolingRecord : Index.RawPractice :=
  Index.mkRawPractice (Some "Test Practice") (Some "Test description")
    (Some ["Testing"]) (Some []) (Some "671a094106587d064f56ba82")
    (Some false) None
    (Some (Index.mkRawToolings "FAILURE" "function check() {}" "" (Some "kt"))).

Lemma C10_toolings_language_witness :
  exists practice,
    Index.parsePractice (fun _ => Some failedToolingRecord) "{}" = inr practice
    /\ ParsedPractice.toolings practice
       = Some (Toolings.mk "FAILURE" "function check() {}" "" "kt")
    /\ Convertor.shouldIncludeDetection practice = false.
Proof.
  destruct (proj2 (proj2
    (C10_toolings_language (fun _ => Some failedToolingRecord) "{}"
       failedToolingRecord
       (Index.mkRawToolings "FAILURE" "function check() {}" "" (Some "kt"))
       eq_refl eq_refl))
    "Test Practice" "Test description" ["Testing"] []
    "671a094106587d064f56ba82" "kt"
    eq_refl eq_refl eq_refl eq_refl eq_refl eq_refl) as [practice [H1 H2]].
  - split; [discriminate|]. right; right; right.
    exists (ProgrammingLanguage.KOTLIN,
            ProgrammingLanguage.mkInfo "Kotlin" ["kt"; "kts"]), "kt".
    split; [simpl; tauto|]. split; [now left | reflexivity].
  - exists practice. split; [exact H1|]. split; [exact H2|].
    vm_compute in H1. injection H1 as <-. reflexivity.
Defined.

(** ** Duplicate resolution *)

Section Dedup.
Import CategoryMapper.

(** *** Places *)

Fixpoint locateFrom (c i : nat) (ps : list string) : list Location :=
  match ps with
  | [] => []
  | x :: r => mkLocation c i x :: locateFrom c (S i) r
  end.

Fixpoint locateAllFrom (c : nat) (data : StandardsMapping) : list Location :=
  match data with
  | [] => []
  | category :: r =>
      (locateFrom c 0 (practices category) ++ locateAllFrom (S c) r)%list
  end.

Lemma entries_locateFrom (c i : nat) (ps : list string) :
  map (fun p => mkLocation c (fst p) (snd p))
      (combine (seq i (List.length ps)) ps)
  = locateFrom c i ps.
Proof.
  revert i. induction ps as [|x ps IH]; intros i; simpl; [reflexivity|].
  now rewrite IH.
Qed.

Lemma allLocations_from (c : nat) (data : StandardsMapping) :
  flat_map
    (fun e => map (fun p => mkLocation (fst e) (fst p) (snd p))
                  (entries (practices (snd e))))
    (combine (seq c (List.length data)) data)
  = locateAllFrom c data.
Proof.
  revert c. induction data as [|category data IH]; intros c; simpl;
    [reflexivity|].
  unfold entries at 1. now rewrite entries_locateFrom, IH.
Qed.

Lemma allLocations_locateAllFrom (data : StandardsMapping) :
  allLocations data = locateAllFrom 0 data.
Proof. apply allLocations_from. Qed.

Lemma locateFrom_In (c i : nat) (ps : list string) (loc : Location) :
  In loc (locateFrom c i ps)
  <-> categoryIndex loc = c /\ i <= practiceIndex loc
      /\ nth_error ps (practiceIndex loc - i) = Some (locatedName loc).
Proof.
  revert i. induction ps as [|x ps IH]; intros i; simpl.
  - split; [intros [] | intros [_ [_ H]]].
    now destruct (practiceIndex loc - i).
  - rewrite IH. split.
    + intros [<-|[H1 [H2 H3]]]; simpl.
      * rewrite Nat.sub_diag. auto.
      * split; [exact H1|]. split; [lia|].
        replace (practiceIndex loc - i) with (S (practiceIndex loc - S i))
          by lia. exact H3.
    + intros [H1 [H2 H3]].
      destruct (Nat.eq_dec (practiceIndex loc) i) as [E|E].
      * left. rewrite E, Nat.sub_diag in H3. simpl in H3.
        destruct loc; simpl in *. congruence.
      * right. split; [exact H1|]. split; [lia|].
        replace (practiceIndex loc - i) with (S (practiceIndex loc - S i))
          in H3 by lia. exact H3.
Qed.

Lemma locateAllFrom_In (c : nat) (data : StandardsMapping) (loc : Location) :
  In loc (locateAllFrom c data)
  <-> c <= categoryIndex loc
      /\ exists category,
           nth_error data (categoryIndex loc - c) = Some category
           /\ nth_error (practices category) (practiceIndex loc)
              = Some (locatedName loc).
Proof.
  revert c. induction data as [|category data IH]; intros c; simpl.
  - split; [intros [] | intros [_ [cat [H _]]]].
    now destruct (categoryIndex loc - c).
  - rewrite in_app_iff, locateFrom_In, IH. split.
    + intros [[H1 [_ H3]]|[H1 [cat [H2 H3]]]].
      * split; [lia|]. exists category. rewrite H1, Nat.sub_diag.
        rewrite Nat.sub_0_r in H3. auto.
      * split; [lia|]. exists cat.
        replace (categoryIndex loc - c) with (S (categoryIndex loc - S c))
          by lia. auto.
    + intros [H1 [cat [H2 H3]]].
      destruct (Nat.eq_dec (categoryIndex loc) c) as [E|E].
      * left. rewrite E, Nat.sub_diag in H2. simpl in H2.
        injection H2 as <-. rewrite Nat.sub_0_r. split; [exact E|].
        split; [lia | exact H3].
      * right. split; [lia|]. exists cat.
        replace (categoryIndex loc - c) with (S (categoryIndex loc - S c))
          in H2 by lia. auto.
Qed.

(** A place of the mapping is a group index, an index in the group and
    the name found there. *)
Lemma allLocations_In (data : StandardsMapping) (loc : Location) :
  In loc (allLocations data)
  <-> exists category,
        nth_error data (categoryIndex loc) = Some category
        /\ nth_error (practices category) (practiceIndex loc)
           = Some (locatedName loc).
Proof.
  rewrite allLocations_locateAllFrom, locateAllFrom_In, Nat.sub_0_r.
  split; [tauto|]. intros H. split; [lia | exact H].
Qed.

Definition samePlace (a b : Location) : Prop :=
  categoryIndex a = categoryIndex b /\ practiceIndex a = practiceIndex b.

Lemma allLocations_place (data : StandardsMapping) (a b : Location) :
  In a (allLocations data) -> In b (allLocations data) -> samePlace a b ->
  a = b.
Proof.
  rewrite !allLocations_In. intros [ca [A1 A2]] [cb [B1 B2]] [E1 E2].
  rewrite E1 in A1. rewrite E2 in A2.
  assert (ca = cb) as -> by congruence.
  destruct a, b; simpl in *. congruence.
Qed.

Lemma locateFrom_NoDup (c i : nat) (ps : list string) :
  NoDup (locateFrom c i ps).
Proof.
  revert i. induction ps as [|x ps IH]; intros i; simpl; constructor; auto.
  rewrite locateFrom_In. simpl. lia.
Qed.

Lemma locateAllFrom_NoDup (c : nat) (data : StandardsMapping) :
  NoDup (locateAllFrom c data).
Proof.
  revert c. induction data as [|category data IH]; intros c; simpl;
    [constructor|].
  apply NoDup_app; [apply locateFrom_NoDup | apply IH |].
  intros loc H1 H2. apply locateFrom_In in H1. apply locateAllFrom_In in H2.
  lia.
Qed.

Lemma allLocations_NoDup (data : StandardsMapping) :
  NoDup (allLocations data).
Proof. rewrite allLocations_locateAllFrom. apply locateAllFrom_NoDup. Qed.

Lemma allPractices_locations (c : nat) (data : StandardsMapping) :
  allPractices data = map locatedName (locateAllFrom c data).
Proof.
  revert c. induction data as [|category data IH]; intros c; simpl;
    [reflexivity|].
  rewrite map_app, <- (IH (S c)). f_equal.
  generalize 0. induction (practices category) as [|x ps IHp]; intros i;
    simpl; [reflexivity | now rewrite <- IHp].
Qed.

End Dedup.

Section Removal.
Import CategoryMapper.

(** *** Removing a set of places *)

(** A place is marked when the list of removals holds a location of its
    two indices. *)
Definition isRemoved (removed : list Location) (c i : nat) : bool :=
  existsb (fun loc => ((categoryIndex loc =? c)%nat
                       && (practiceIndex loc =? i)%nat)) removed.

Fixpoint keptFrom (marked : nat -> bool) (i : nat) (ps : list string)
  : list string :=
  match ps with
  | [] => []
  | x :: r =>
      if marked i then keptFrom marked (S i) r
      else x :: keptFrom marked (S i) r
  end.

Fixpoint withoutFrom (marked : nat -> nat -> bool) (c : nat)
  (data : StandardsMapping) : StandardsMapping :=
  match data with
  | [] => []
  | category :: r =>
      mkStandard (name category) (description category)
        (keptFrom (marked c) 0 (practices category))
      :: withoutFrom marked (S c) r
  end.

(** The mapping with the same groups, each without its members at the
    places of [removed]. *)
Definition withoutLocations (removed : list Location)
  (data : StandardsMapping) : StandardsMapping :=
  withoutFrom (isRemoved removed) 0 data.

Lemma keptFrom_ext (m1 m2 : nat -> bool) (i : nat) (ps : list string) :
  (forall j, i <= j -> m1 j = m2 j) -> keptFrom m1 i ps = keptFrom m2 i ps.
Proof.
  revert i. induction ps as [|x ps IH]; intros i H; simpl; [reflexivity|].
  rewrite (H i (le_n i)), (IH (S i)); [reflexivity|].
  intros j Hj. apply H. lia.
Qed.

Lemma keptFrom_none (m : nat -> bool) (i : nat) (ps : list string) :
  (forall j, i <= j -> m j = false) -> keptFrom m i ps = ps.
Proof.
  revert i. induction ps as [|x ps IH]; intros i H; simpl; [reflexivity|].
  rewrite (H i (le_n i)), IH; [reflexivity|].
  intros j Hj. apply H. lia.
Qed.

Lemma withoutFrom_ext (m1 m2 : nat -> nat -> bool) (c : nat)
  (data : StandardsMapping) :
  (forall d j, c <= d -> m1 d j = m2 d j) ->
  withoutFrom m1 c data = withoutFrom m2 c data.
Proof.
  revert c. induction data as [|category data IH]; intros c H; simpl;
    [reflexivity|].
  rewrite (keptFrom_ext (m1 c) (m2 c)), (IH (S c)); [reflexivity | |].
  - intros d j Hd. apply H. lia.
  - intros j _. apply H. lia.
Qed.

Lemma withoutFrom_none (m : nat -> nat -> bool) (c : nat)
  (data : StandardsMapping) :
  (forall d j, c <= d -> m d j = false) -> withoutFrom m c data = data.
Proof.
  revert c. induction data as [|category data IH]; intros c H; simpl;
    [reflexivity|].
  rewrite keptFrom_none, IH.
  - now destruct category.
  - intros d j Hd. apply H. lia.
  - intros j _. apply H. lia.
Qed.

(** Marking one more place, above all the marked ones of the group, is a
    splice at that place of what the others leave. *)
Lemma keptFrom_splice (m : nat -> bool) (i k : nat) (ps : list string) :
  (forall j, m j = true -> j < i + k) ->
  keptFrom m i (JSArray.splice k ps)
  = keptFrom (fun j => (j =? i + k)%nat || m j) i ps.
Proof.
  revert i k. induction ps as [|x ps IH]; intros i k H; [now destruct k|].
  destruct k as [|k]; simpl.
  - rewrite Nat.add_0_r, Nat.eqb_refl. simpl.
    rewrite !keptFrom_none; try reflexivity.
    + intros j Hj. apply orb_false_iff. split.
      * apply Nat.eqb_neq. lia.
      * destruct (m j) eqn:E; [|reflexivity]. apply H in E. lia.
    + intros j Hj. destruct (m j) eqn:E; [|reflexivity]. apply H in E. lia.
  - replace (i =? i + S k)%nat with false
      by (symmetry; apply Nat.eqb_neq; lia).
    simpl. rewrite (IH (S i) k).
    + replace (S i + k) with (i + S k) by lia. reflexivity.
    + intros j Hj. apply H in Hj. lia.
Qed.

Definition splicePractices (i : nat) (category : Standard) : Standard :=
  mkStandard (name category) (description category)
    (JSArray.splice i (practices category)).

Lemma withoutFrom_splice (m : nat -> nat -> bool) (c k i : nat)
  (data : StandardsMapping) :
  (forall j, m (c + k) j = true -> j < i) ->
  withoutFrom m c (JSArray.updateAt k (splicePractices i) data)
  = withoutFrom
      (fun d j => ((d =? c + k)%nat && (j =? i)%nat) || m d j) c data.
Proof.
  revert c k. induction data as [|category data IH]; intros c k H;
    [now destruct k|].
  destruct k as [|k]; simpl.
  - f_equal.
    + f_equal. rewrite keptFrom_splice.
      * apply keptFrom_ext. intros j _.
        now rewrite Nat.add_0_r, Nat.eqb_refl.
      * intros j Hj. rewrite Nat.add_0_r in H. now apply H.
    + apply withoutFrom_ext. intros d j Hd.
      replace (d =? c + 0)%nat with false
        by (symmetry; apply Nat.eqb_neq; lia).
      reflexivity.
  - f_equal.
    + f_equal. apply keptFrom_ext. intros j _.
      replace (c =? c + S k)%nat with false
        by (symmetry; apply Nat.eqb_neq; lia).
      reflexivity.
    + rewrite (IH (S c) k).
      * replace (S c + k) with (c + S k) by lia. reflexivity.
      * intros j Hj. apply H. replace (c + S k) with (S c + k) by lia.
        exact Hj.
Qed.

(** The order of the removals: a later group first and, within a group,
    a later place first. *)
Definition above (a b : Location) : Prop :=
  categoryIndex b < categoryIndex a
  \/ (categoryIndex b = categoryIndex a
      /\ practiceIndex b < practiceIndex a).

Lemma removals_from_the_end (removed : list Location)
  (data : StandardsMapping) :
  StronglySorted above removed ->
  fold_left removePractice removed data = withoutLocations removed data.
Proof.
  revert data. induction removed as [|loc removed IH]; intros data Hs; simpl.
  - symmetry. apply withoutFrom_none. reflexivity.
  - inversion Hs as [|? ? Hs' Hloc]; subst.
    rewrite IH by exact Hs'. unfold withoutLocations, removePractice.
    change (fun category : Standard =>
              mkStandard (name category) (description category)
                (JSArray.splice (practiceIndex loc) (practices category)))
      with (splicePractices (practiceIndex loc)).
    rewrite (withoutFrom_splice _ 0 (categoryIndex loc)).
    + apply withoutFrom_ext. intros d j _. simpl.
      now rewrite (Nat.eqb_sym d), (Nat.eqb_sym j).
    + intros j Hj. unfold isRemoved in Hj.
      apply existsb_exists in Hj as [q [Hq1 Hq2]].
      apply andb_true_iff in Hq2 as [Hq2 Hq3].
      apply Nat.eqb_eq in Hq2, Hq3. rewrite Forall_forall in Hloc.
      destruct (Hloc q Hq1) as [H|[H1 H2]]; simpl in *; lia.
Qed.

Lemma isRemoved_perm (r1 r2 : list Location) (c i : nat) :
  Permutation r1 r2 -> isRemoved r1 c i = isRemoved r2 c i.
Proof.
  intros Hp. unfold isRemoved.
  destruct (existsb _ r2) eqn:E.
  - apply existsb_exists in E as [q [H1 H2]]. apply existsb_exists.
    exists q. split; [|exact H2].
    eapply Permutation_in; [symmetry; exact Hp | exact H1].
  - destruct (existsb _ r1) eqn:E'; [|reflexivity].
    apply existsb_exists in E' as [q [H1 H2]].
    rewrite <- E. symmetry. apply existsb_exists.
    exists q. split; [|exact H2].
    eapply Permutation_in; [exact Hp | exact H1].
Qed.

Lemma byIndexDescending_above (removed : list Location) :
  (forall a b, In a removed -> In b removed -> samePlace a b -> a = b) ->
  NoDup removed ->
  StronglySorted above (JSArray.sortBy byIndexDescending removed).
Proof.
  intros Hplace Hnd.
  assert (StronglySorted (precedes byIndexDescending)
            (JSArray.sortBy byIndexDescending removed)) as Hs.
  { apply sortBy_sorted.
    - intros a b. unfold precedes, byIndexDescending.
      destruct (Nat.eqb_spec (categoryIndex a) (categoryIndex b));
        destruct (Nat.eqb_spec (categoryIndex b) (categoryIndex a));
        cbn [negb]; lia.
    - intros a b c. unfold precedes, byIndexDescending.
      destruct (Nat.eqb_spec (categoryIndex a) (categoryIndex b));
        destruct (Nat.eqb_spec (categoryIndex b) (categoryIndex c));
        destruct (Nat.eqb_spec (categoryIndex a) (categoryIndex c));
        cbn [negb]; lia. }
  assert (NoDup (JSArray.sortBy byIndexDescending removed)) as Hnd'.
  { eapply Permutation_NoDup; [symmetry; apply sortBy_perm | exact Hnd]. }
  assert (forall a b, In a (JSArray.sortBy byIndexDescending removed) ->
                      In b (JSArray.sortBy byIndexDescending removed) ->
                      samePlace a b -> a = b) as Hplace'.
  { intros a b Ha Hb. apply Hplace; now apply sortBy_In in Ha, Hb. }
  clear Hplace Hnd.
  induction Hs as [|a l Hs IH Ha]; [constructor|].
  inversion Hnd' as [|? ? Hnot Hnd'']; subst.
  constructor.
  - apply IH; [exact Hnd''|]. intros x y Hx Hy. apply Hplace'; now right.
  - rewrite Forall_forall in *. intros b Hb. specialize (Ha b Hb).
    unfold precedes, byIndexDescending in Ha. unfold above.
    destruct (Nat.eqb_spec (categoryIndex a) (categoryIndex b)) as [E|E];
      cbn [negb] in Ha.
    + destruct (Nat.eq_dec (practiceIndex a) (practiceIndex b)) as [E'|E'].
      * exfalso. apply Hnot.
        rewrite (Hplace' a b (or_introl eq_refl) (or_intror Hb)); auto.
        split; assumption.
      * right. split; lia.
    + left. lia.
Qed.

End Removal.

Section Grouping.
Import CategoryMapper.

(** *** The map of locations *)

Definition key (loc : Location) : string := normalize (locatedName loc).

(** The non-empty occurrences of a normalised name, in the order of the
    mapping. *)
Definition occurrences (data : StandardsMapping) (k : string)
  : list Location :=
  filter (fun loc => JS.truthy (locatedName loc) && (key loc =? k))
         (allLocations data).

Fixpoint lookupLocations (k : string) (m : list (string * list Location))
  : list Location :=
  match m with
  | [] => []
  | (k', locs) :: r => if k' =? k then locs else lookupLocations k r
  end.

Lemma pushLocation_lookup (k k' : string) (loc : Location)
  (m : list (string * list Location)) :
  lookupLocations k' (pushLocation k loc m)
  = if k =? k' then (lookupLocations k' m ++ [loc])%list
    else lookupLocations k' m.
Proof.
  induction m as [|[k0 l0] m IH]; simpl.
  - reflexivity.
  - destruct (String.eqb_spec k0 k) as [->|E0]; simpl.
    + destruct (String.eqb_spec k k'); reflexivity.
    + destruct (String.eqb_spec k0 k') as [->|E1].
      * destruct (String.eqb_spec k k'); [congruence | reflexivity].
      * exact IH.
Qed.

Lemma pushLocation_keys (k k' : string) (loc : Location)
  (m : list (string * list Location)) :
  In k' (map fst (pushLocation k loc m)) <-> k' = k \/ In k' (map fst m).
Proof.
  induction m as [|[k0 l0] m IH]; simpl.
  - intuition.
  - destruct (String.eqb_spec k0 k) as [->|E0]; simpl.
    + intuition.
    + rewrite IH. intuition.
Qed.

Lemma pushLocation_NoDup (k : string) (loc : Location)
  (m : list (string * list Location)) :
  NoDup (map fst m) -> NoDup (map fst (pushLocation k loc m)).
Proof.
  induction m as [|[k0 l0] m IH]; simpl; intros H.
  - constructor; [intros [] | constructor].
  - inversion H as [|? ? Hnot H']; subst.
    destruct (String.eqb_spec k0 k) as [->|E0]; simpl.
    + now constructor.
    + constructor; [|now apply IH].
      rewrite pushLocation_keys. intuition.
Qed.

Lemma lookupLocations_In (k : string) (ls : list Location)
  (m : list (string * list Location)) :
  NoDup (map fst m) -> In (k, ls) m -> lookupLocations k m = ls.
Proof.
  induction m as [|[k0 l0] m IH]; simpl; intros Hn Hin; [destruct Hin|].
  inversion Hn as [|? ? Hnot Hn']; subst.
  destruct Hin as [[= -> ->]|Hin].
  - now rewrite String.eqb_refl.
  - destruct (String.eqb_spec k0 k) as [->|E0]; [|now apply IH].
    exfalso. apply Hnot. apply in_map_iff. now exists (k, ls).
Qed.

Definition recordLocation (m : list (string * list Location))
  (loc : Location) : list (string * list Location) :=
  if JS.truthy (locatedName loc) then pushLocation (key loc) loc m else m.

Definition grouped (seen : list Location) (m : list (string * list Location))
  : Prop :=
  NoDup (map fst m)
  /\ (forall k, lookupLocations k m
                = filter (fun loc => JS.truthy (locatedName loc)
                                     && (key loc =? k)) seen)
  /\ (forall k, In k (map fst m) -> lookupLocations k m <> []).

Lemma recordLocation_grouped (seen : list Location)
  (m : list (string * list Location)) (loc : Location) :
  grouped seen m -> grouped (seen ++ [loc]) (recordLocation m loc).
Proof.
  intros [H1 [H2 H3]]. unfold recordLocation.
  destruct (JS.truthy (locatedName loc)) eqn:T.
  - split; [now apply pushLocation_NoDup|]. split.
    + intros k. rewrite pushLocation_lookup, filter_app, H2. simpl.
      rewrite T. simpl. destruct (key loc =? k); [reflexivity|].
      now rewrite app_nil_r.
    + intros k Hk. rewrite pushLocation_lookup.
      destruct (String.eqb_spec (key loc) k) as [E|E].
      * intros Hnil. now apply app_eq_nil in Hnil as [_ Hnil].
      * apply H3. apply pushLocation_keys in Hk as [Hk|Hk]; congruence.
  - split; [exact H1|]. split; [|exact H3].
    intros k. rewrite filter_app, H2. simpl. rewrite T. simpl.
    now rewrite app_nil_r.
Qed.

Lemma fold_recordLocation_grouped (l seen : list Location)
  (m : list (string * list Location)) :
  grouped seen m -> grouped (seen ++ l) (fold_left recordLocation l m).
Proof.
  revert seen m. induction l as [|loc l IH]; intros seen m H; simpl.
  - now rewrite app_nil_r.
  - replace (seen ++ loc :: l)%list with ((seen ++ [loc]) ++ l)%list
      by now rewrite <- app_assoc.
    apply IH. now apply recordLocation_grouped.
Qed.

(** The map holds, under each normalised name that occurs, its
    occurrences. *)
Lemma practiceLocations_spec (data : StandardsMapping) :
  NoDup (map fst (practiceLocations data))
  /\ forall k ls, In (k, ls) (practiceLocations data) ->
                  ls = occurrences data k /\ ls <> [].
Proof.
  assert (grouped (allLocations data) (practiceLocations data))
    as [H1 [H2 H3]].
  { apply (fold_recordLocation_grouped (allLocations data) [] []).
    split; [constructor|]. split; [reflexivity | intros k []]. }
  split; [exact H1|]. intros k ls Hin.
  pose proof (lookupLocations_In k ls _ H1 Hin) as E.
  split.
  - rewrite <- E. apply H2.
  - rewrite <- E. apply H3. apply in_map_iff. now exists (k, ls).
Qed.

Lemma practiceLocations_has (data : StandardsMapping) (k : string) :
  occurrences data k <> [] ->
  In (k, occurrences data k) (practiceLocations data).
Proof.
  assert (grouped (allLocations data) (practiceLocations data))
    as [H1 [H2 H3]].
  { apply (fold_recordLocation_grouped (allLocations data) [] []).
    split; [constructor|]. split; [reflexivity | intros k' []]. }
  intros Hne. unfold occurrences in *. rewrite <- H2 in *.
  clear H2 H3. induction (practiceLocations data) as [|[k0 l0] m IH];
    simpl in *; [congruence|].
  inversion H1; subst.
  destruct (String.eqb_spec k0 k) as [->|E]; [now left|].
  right. now apply IH.
Qed.

Lemma occurrences_In (data : StandardsMapping) (k : string) (loc : Location) :
  In loc (occurrences data k)
  <-> In loc (allLocations data) /\ locatedName loc <> "" /\ key loc = k.
Proof.
  unfold occurrences. rewrite filter_In, andb_true_iff, truthy_true_iff.
  rewrite String.eqb_eq. tauto.
Qed.

Lemma occurrences_NoDup (data : StandardsMapping) (k : string) :
  NoDup (occurrences data k).
Proof. apply NoDup_filter, allLocations_NoDup. Qed.

(** *** The removals *)

Lemma allBut_after (keepIndex i : nat) (locations : list Location) :
  keepIndex < i -> allBut keepIndex i locations = locations.
Proof.
  revert i. induction locations as [|loc r IH]; intros i H; simpl;
    [reflexivity|].
  destruct (Nat.eqb_spec i keepIndex); [lia|]. rewrite IH; [reflexivity|lia].
Qed.

Lemma allBut_spec (keepIndex i : nat) (locations : list Location)
  (loc : Location) :
  NoDup locations -> i <= keepIndex ->
  (In loc (allBut keepIndex i locations)
   <-> In loc locations
       /\ nth_error locations (keepIndex - i) <> Some loc).
Proof.
  revert i. induction locations as [|x r IH]; intros i Hn Hi; simpl.
  - tauto.
  - inversion Hn as [|? ? Hnot Hn']; subst.
    destruct (Nat.eqb_spec i keepIndex) as [->|E].
    + rewrite allBut_after by lia. rewrite Nat.sub_diag. simpl. split.
      * intros H. split; [now right|]. intros [= ->]. contradiction.
      * intros [[->|H] H']; [congruence | exact H].
    + replace (keepIndex - i) with (S (keepIndex - S i)) by lia. simpl.
      rewrite IH by (auto; lia). split.
      * intros [->|[H1 H2]]; [|tauto]. split; [now left|].
        intros H. apply nth_error_In in H. contradiction.
      * intros [[->|H1] H2]; [now left | tauto].
Qed.

Lemma allBut_NoDup (keepIndex i : nat) (locations : list Location) :
  NoDup locations -> NoDup (allBut keepIndex i locations).
Proof.
  revert i. induction locations as [|x r IH]; intros i Hn; simpl;
    [constructor|].
  inversion Hn as [|? ? Hnot Hn']; subst.
  destruct (Nat.eqb_spec i keepIndex) as [->|E]; [now apply IH|].
  constructor; [|now apply IH].
  intros H. apply Hnot.
  destruct (le_lt_dec (S i) keepIndex) as [L|L].
  - now apply allBut_spec in H as [H _].
  - now rewrite allBut_after in H by lia.
Qed.

Section WithRandom.
Variable random : nat -> nat -> nat.

Definition keyed (m : list (string * list Location)) : Prop :=
  forall k ls loc, In (k, ls) m -> In loc ls -> key loc = k.

Lemma markRemovals_spec (m : list (string * list Location)) (drawn : nat) :
  NoDup (map fst m) -> keyed m ->
  (forall k ls, In (k, ls) m -> NoDup ls) ->
  drawn <= snd (markRemovals random m drawn)
  /\ NoDup (fst (markRemovals random m drawn))
  /\ (forall loc, In loc (fst (markRemovals random m drawn)) ->
        exists ls, In (key loc, ls) m /\ 1 < List.length ls /\ In loc ls)
  /\ (forall k ls, In (k, ls) m -> 1 < List.length ls ->
        exists d, drawn <= d < snd (markRemovals random m drawn)
          /\ forall loc, In loc ls ->
               (In loc (fst (markRemovals random m drawn))
                <-> nth_error ls (random d (List.length ls) mod List.length ls) <> Some loc)).
Proof.
  revert drawn. induction m as [|[k0 l0] m IH]; intros drawn Hn Hk Hd; simpl.
  - split; [lia|]. split; [constructor|]. split; [intros loc []|].
    intros k ls [].
  - inversion Hn as [|? ? Hnot Hn']; subst.
    assert (keyed m) as Hk' by (intros k ls loc H; apply (Hk k ls); now right).
    assert (forall k ls, In (k, ls) m -> NoDup ls) as Hd'
      by (intros k ls H; apply (Hd k); now right).
    assert (NoDup l0) as Hl0 by (apply (Hd k0); now left).
    destruct (Nat.ltb_spec 1 (List.length l0)) as [L|L].
    + specialize (IH (S drawn) Hn' Hk' Hd').
      destruct (markRemovals random m (S drawn)) as [more drawn'] eqn:E.
      simpl in *. destruct IH as [I1 [I2 [I3 I4]]].
      assert (forall loc, In loc more -> ~ In loc l0) as Hdisj.
      { intros loc H1 H2. destruct (I3 loc H1) as [ls [Hls _]].
        apply Hnot. rewrite <- (Hk k0 l0 loc (or_introl eq_refl) H2).
        apply in_map_iff. now exists (key loc, ls). }
      split; [lia|]. split; [|split].
      * apply NoDup_app; [now apply allBut_NoDup | exact I2 |].
        intros loc H1 H2. apply allBut_spec in H1 as [H1 _]; [|auto|lia].
        exact (Hdisj loc H2 H1).
      * intros loc Hin. apply in_app_iff in Hin as [Hin|Hin].
        -- apply allBut_spec in Hin as [Hin _]; [|auto|lia].
           exists l0. rewrite (Hk k0 l0 loc (or_introl eq_refl) Hin).
           split; [now left | auto].
        -- destruct (I3 loc Hin) as [ls [H1 H2]]. exists ls.
           split; [now right | exact H2].
      * intros k ls [[= <- <-]|Hin] Hlen.
        -- exists drawn. split; [lia|]. intros loc Hloc.
           rewrite in_app_iff, allBut_spec, Nat.sub_0_r by (auto; lia).
           split; [|tauto].
           intros [[_ H]|H]; [exact H|]. exfalso. exact (Hdisj loc H Hloc).
        -- destruct (I4 k ls Hin Hlen) as [d [D1 D2]]. exists d.
           split; [lia|]. intros loc Hloc. rewrite in_app_iff, <- D2 by auto.
           split; [|tauto]. intros [H|H]; [|exact H]. exfalso.
           apply allBut_spec in H as [H _]; [|auto|lia].
           apply Hnot. rewrite <- (Hk k0 l0 loc (or_introl eq_refl) H).
           rewrite (Hk' k ls loc Hin Hloc).
           apply in_map_iff. now exists (k, ls).
    + specialize (IH drawn Hn' Hk' Hd').
      destruct IH as [I1 [I2 [I3 I4]]].
      split; [exact I1|]. split; [exact I2|]. split.
      * intros loc Hin. destruct (I3 loc Hin) as [ls [H1 H2]].
        exists ls. split; [now right | exact H2].
      * intros k ls [[= <- <-]|Hin] Hlen; [lia|]. exact (I4 k ls Hin Hlen).
Qed.

End WithRandom.
End Grouping.

Section DedupSpec.
Import CategoryMapper.
Variable random : nat -> nat -> nat.

(** *** What duplicate resolution returns *)

Definition removedLocations (data : StandardsMapping) (drawn : nat)
  : list Location :=
  fst (markRemovals random (practiceLocations data) drawn).

Definition dedupResult (data : StandardsMapping) (drawn : nat)
  : StandardsMapping :=
  fst (fst (removeDuplicatesRandomly random data drawn)).

Definition dedupCount (data : StandardsMapping) (drawn : nat) : nat :=
  snd (fst (removeDuplicatesRandomly random data drawn)).

Definition dedupDrawn (data : StandardsMapping) (drawn : nat) : nat :=
  snd (removeDuplicatesRandomly random data drawn).

Lemma Location_eq_dec (a b : Location) : {a = b} + {a <> b}.
Proof.
  decide equality; [apply string_dec | apply Nat.eq_dec | apply Nat.eq_dec].
Qed.

Lemma practiceLocations_keyed (data : StandardsMapping) :
  keyed (practiceLocations data).
Proof.
  intros k ls loc H1 H2.
  destruct (practiceLocations_spec data) as [_ H].
  destruct (H k ls H1) as [-> _]. now apply occurrences_In in H2.
Qed.

Lemma practiceLocations_NoDup_each (data : StandardsMapping) :
  forall k ls, In (k, ls) (practiceLocations data) -> NoDup ls.
Proof.
  intros k ls H1. destruct (practiceLocations_spec data) as [_ H].
  destruct (H k ls H1) as [-> _]. apply occurrences_NoDup.
Qed.

Lemma removed_spec (data : StandardsMapping) (drawn : nat) :
  NoDup (removedLocations data drawn)
  /\ (forall loc, In loc (removedLocations data drawn) ->
        In loc (occurrences data (key loc))
        /\ 1 < List.length (occurrences data (key loc)))
  /\ (forall k, 1 < List.length (occurrences data k) ->
        exists d, drawn <= d < dedupDrawn data drawn
          /\ forall loc, In loc (occurrences data k) ->
               (In loc (removedLocations data drawn)
                <-> nth_error (occurrences data k)
                      (random d (List.length (occurrences data k)) mod List.length (occurrences data k))
                    <> Some loc)).
Proof.
  destruct (practiceLocations_spec data) as [Hn Hs].
  destruct (markRemovals_spec random (practiceLocations data) drawn Hn
              (practiceLocations_keyed data)
              (practiceLocations_NoDup_each data)) as [M1 [M2 [M3 M4]]].
  unfold removedLocations, dedupDrawn, removeDuplicatesRandomly.
  destruct (markRemovals random (practiceLocations data) drawn)
    as [removed drawn'] eqn:E. simpl in *.
  split; [exact M2|]. split.
  - intros loc Hin. destruct (M3 loc Hin) as [ls [H1 [H2 H3]]].
    destruct (Hs _ _ H1) as [-> _]. auto.
  - intros k Hlen. apply (M4 k); [|exact Hlen].
    apply practiceLocations_has. intros H. rewrite H in Hlen. simpl in Hlen.
    lia.
Qed.

Lemma removed_in_mapping (data : StandardsMapping) (drawn : nat)
  (loc : Location) :
  In loc (removedLocations data drawn) -> In loc (allLocations data).
Proof.
  intros H. destruct (removed_spec data drawn) as [_ [R2 _]].
  destruct (R2 loc H) as [H' _]. now apply occurrences_In in H'.
Qed.

Lemma removeDuplicates_unfold (data : StandardsMapping) (drawn : nat) :
  removeDuplicatesRandomly random data drawn
  = (withoutLocations (removedLocations data drawn) data,
     List.length (removedLocations data drawn),
     dedupDrawn data drawn).
Proof.
  pose proof (removed_spec data drawn) as [R1 _].
  pose proof (removed_in_mapping data drawn) as Rin.
  unfold dedupDrawn, removedLocations in *. unfold removeDuplicatesRandomly.
  destruct (markRemovals random (practiceLocations data) drawn)
    as [removed drawn'] eqn:E. simpl in *.
  f_equal. f_equal.
  rewrite removals_from_the_end.
  - apply withoutFrom_ext. intros d j _. apply isRemoved_perm, sortBy_perm.
  - apply byIndexDescending_above; [|exact R1].
    intros a b Ha Hb. apply (allLocations_place data); auto.
Qed.

Lemma dedupResult_eq (data : StandardsMapping) (drawn : nat) :
  dedupResult data drawn
  = withoutLocations (removedLocations data drawn) data.
Proof. unfold dedupResult. now rewrite removeDuplicates_unfold. Qed.

Definition survives (removed : list Location) (loc : Location) : bool :=
  negb (isRemoved removed (categoryIndex loc) (practiceIndex loc)).

Lemma keptFrom_locate (m : nat -> bool) (c i : nat) (ps : list string) :
  keptFrom m i ps
  = map locatedName
      (filter (fun loc => negb (m (practiceIndex loc))) (locateFrom c i ps)).
Proof.
  revert i. induction ps as [|x ps IH]; intros i; simpl; [reflexivity|].
  destruct (m i); simpl; now rewrite IH.
Qed.

Lemma withoutFrom_locate (m : nat -> nat -> bool) (c : nat)
  (data : StandardsMapping) :
  allPractices (withoutFrom m c data)
  = map locatedName
      (filter (fun loc => negb (m (categoryIndex loc) (practiceIndex loc)))
              (locateAllFrom c data)).
Proof.
  revert c. induction data as [|category data IH]; intros c; simpl;
    [reflexivity|].
  unfold allPractices in *. simpl. rewrite IH, filter_app, map_app.
  f_equal. rewrite (keptFrom_locate _ c). f_equal.
  apply filter_ext_in. intros loc H. apply locateFrom_In in H as [-> _].
  reflexivity.
Qed.

(** The members of the result are the names at the places that
    survive, in the order of the mapping. *)
Lemma withoutLocations_practices (removed : list Location)
  (data : StandardsMapping) :
  allPractices (withoutLocations removed data)
  = map locatedName (filter (survives removed) (allLocations data)).
Proof.
  unfold withoutLocations. rewrite withoutFrom_locate.
  now rewrite allLocations_locateAllFrom.
Qed.

Lemma survives_iff (data : StandardsMapping) (removed : list Location)
  (loc : Location) :
  (forall r, In r removed -> In r (allLocations data)) ->
  In loc (allLocations data) ->
  (survives removed loc = true <-> ~ In loc removed).
Proof.
  intros Hsub Hloc. unfold survives, isRemoved. rewrite negb_true_iff.
  split.
  - intros H Hin. rewrite <- not_true_iff_false in H. apply H.
    apply existsb_exists. exists loc. split; [exact Hin|].
    now rewrite !Nat.eqb_refl.
  - intros H. apply not_true_iff_false. intros E.
    apply existsb_exists in E as [r [H1 H2]].
    apply andb_true_iff in H2 as [H2 H3]. apply Nat.eqb_eq in H2, H3.
    apply H. rewrite <- (allLocations_place data r loc); auto.
    now split.
Qed.

Lemma filter_map_swap {A B : Type} (f : B -> bool) (g : A -> B)
  (l : list A) :
  filter f (map g l) = map g (filter (fun x => f (g x)) l).
Proof.
  induction l as [|x l IH]; simpl; [reflexivity|].
  destruct (f (g x)); simpl; now rewrite IH.
Qed.

Lemma filter_twice {A : Type} (f g : A -> bool) (l : list A) :
  filter f (filter g l) = filter (fun x => f x && g x) l.
Proof.
  induction l as [|x l IH]; simpl; [reflexivity|].
  destruct (g x); simpl; rewrite ?andb_true_r, ?andb_false_r;
    [destruct (f x)|]; now rewrite IH.
Qed.

Lemma NoDup_map_filter_inj {A B : Type} (f : A -> B) (p : A -> bool)
  (l : list A) :
  NoDup l ->
  (forall x y, In x l -> In y l -> p x = true -> p y = true ->
               f x = f y -> x = y) ->
  NoDup (map f (filter p l)).
Proof.
  induction l as [|a l IH]; simpl; intros Hn Hinj; [constructor|].
  inversion Hn as [|? ? Hnot Hn']; subst.
  assert (NoDup (map f (filter p l))) as IH'.
  { apply IH; [exact Hn'|]. intros x y Hx Hy. apply Hinj; now right. }
  destruct (p a) eqn:Pa; [|exact IH']. simpl. constructor; [|exact IH'].
  intros Hin. apply in_map_iff in Hin as [x [E Hx]].
  apply filter_In in Hx as [Hx Px].
  assert (x = a) as ->
    by (apply Hinj; [now right | now left | exact Px | exact Pa | exact E]).
  contradiction.
Qed.

Lemma two_occurrences {A : Type} (l : list A) (x y : A) :
  In x l -> In y l -> x <> y -> 1 < List.length l.
Proof.
  intros Hx Hy Hne. destruct l as [|a [|b l]]; simpl in *; [tauto | | lia].
  destruct Hx as [->|[]], Hy as [->|[]]. congruence.
Qed.

(** After the resolution the non-empty members have distinct normalised
    names. *)
Lemma dedup_unique (data : StandardsMapping) (drawn : nat) :
  NoDup (map normalize
           (filter JS.truthy (allPractices (dedupResult data drawn)))).
Proof.
  rewrite dedupResult_eq, withoutLocations_practices.
  rewrite filter_map_swap, map_map, filter_twice.
  apply NoDup_map_filter_inj; [apply allLocations_NoDup|].
  intros x y Hx Hy Px Py E.
  apply andb_true_iff in Px as [Tx Sx]. apply andb_true_iff in Py as [Ty Sy].
  apply (survives_iff data) in Sx; [|apply removed_in_mapping | exact Hx].
  apply (survives_iff data) in Sy; [|apply removed_in_mapping | exact Hy].
  destruct (Location_eq_dec x y) as [|Hne]; [assumption|]. exfalso.
  apply truthy_true_iff in Tx, Ty.
  assert (In x (occurrences data (key x))) as Ox
    by (apply occurrences_In; auto).
  assert (In y (occurrences data (key x))) as Oy
    by (apply occurrences_In; auto).
  destruct (removed_spec data drawn) as [_ [_ R3]].
  destruct (R3 (key x) (two_occurrences _ x y Ox Oy Hne)) as [d [_ Hd]].
  destruct (nth_error (occurrences data (key x))
              (random d (List.length (occurrences data (key x))) mod List.length (occurrences data (key x))))
    as [kept|] eqn:K.
  - destruct (Location_eq_dec kept x) as [->|Nx].
    + apply Sy. apply Hd; [exact Oy | congruence].
    + apply Sx. apply Hd; [exact Ox | congruence].
  - apply Sx. apply Hd; [exact Ox | congruence].
Qed.

(** The resolution loses no normalised name, and a non-empty name stays
    non-empty. *)
Lemma dedup_keeps_names (data : StandardsMapping) (drawn : nat) (x : string) :
  In x (allPractices data) ->
  exists y, In y (allPractices (dedupResult data drawn))
            /\ normalize y = normalize x
            /\ (x <> "" -> y <> "").
Proof.
  intros Hx. rewrite (allPractices_locations 0) in Hx.
  rewrite <- allLocations_locateAllFrom in Hx.
  apply in_map_iff in Hx as [loc [<- Hloc]].
  rewrite dedupResult_eq, withoutLocations_practices.
  destruct (in_dec Location_eq_dec loc (removedLocations data drawn))
    as [Hin|Hnot].
  - destruct (removed_spec data drawn) as [_ [R2 R3]].
    destruct (R2 loc Hin) as [Ho Hlen].
    destruct (R3 _ Hlen) as [d [_ Hd]].
    set (occ := occurrences data (key loc)) in *.
    destruct (nth_error occ (random d (List.length occ) mod List.length occ)) as [kept|] eqn:K.
    + assert (In kept occ) as Hk by (eapply nth_error_In; eauto).
      assert (~ In kept (removedLocations data drawn)) as Hs.
      { intros H. apply (Hd kept Hk) in H. congruence. }
      apply occurrences_In in Hk as [K1 [K2 K3]].
      exists (locatedName kept). split; [|split; [exact K3 | auto]].
      apply in_map, filter_In. split; [exact K1|].
      apply (survives_iff data);
        [apply removed_in_mapping | exact K1 | exact Hs].
    + apply nth_error_None in K.
      pose proof (Nat.mod_upper_bound (random d (List.length occ)) (List.length occ)). lia.
  - exists (locatedName loc). split; [|split; auto].
    apply in_map, filter_In. split; [exact Hloc|].
    apply (survives_iff data);
      [apply removed_in_mapping | exact Hloc | exact Hnot].
Qed.




End DedupSpec.

(** ** The repair loop *)

Section RepairLoop.
Import CategoryMapper.
Variable random : nat -> nat -> nat.
Variable yamlLoad : string -> YamlLoad.
Variable retryResponse : nat -> string.
Variable originalPractices : list (string * string).

Lemma validationLoop_step (remaining attempt : nat)
  (mapping : StandardsMapping) (drawn : nat) :
  validationLoop random yamlLoad retryResponse originalPractices
    (S remaining) attempt mapping drawn
  = let deduped := dedupResult random mapping drawn in
    let drawn' := dedupDrawn random mapping drawn in
    if (List.length (findMissingPractices originalPractices deduped) =? 0)%nat
    then (deduped, drawn')
    else if (attempt <? MAX_RETRIES)%nat then
      validationLoop random yamlLoad retryResponse originalPractices
        remaining (S attempt)
        (mergeRetryResults yamlLoad deduped (retryResponse attempt)) drawn'
    else
      validationLoop random yamlLoad retryResponse originalPractices
        remaining (S attempt) deduped drawn'.
Proof.
  simpl. rewrite removeDuplicates_unfold, <- dedupResult_eq. reflexivity.
Qed.

Lemma allPractices_app (a b : StandardsMapping) :
  allPractices (a ++ b)%list = (allPractices a ++ allPractices b)%list.
Proof. unfold allPractices. apply flat_map_app. Qed.

Lemma setHas_true_iff (s : list string) (x : string) :
  setHas s x = true <-> In x s.
Proof.
  unfold setHas. rewrite existsb_exists. split.
  - intros [y [H1 H2]]. apply String.eqb_eq in H2. now subst.
  - intros H. exists x. split; [exact H | apply String.eqb_refl].
Qed.

Lemma findMissing_In (mapping : StandardsMapping) (v : string) :
  In v (findMissingPractices originalPractices mapping)
  <-> exists k, In (k, v) originalPractices
                /\ ~ In k (mappedPractices mapping).
Proof.
  unfold findMissingPractices. rewrite in_map_iff. split.
  - intros [[k v'] [<- H]]. apply filter_In in H as [H1 H2]. exists k.
    split; [exact H1|]. simpl in H2. apply negb_true_iff in H2.
    intros H. apply setHas_true_iff in H. congruence.
  - intros [k [H1 H2]]. exists (k, v). split; [reflexivity|].
    apply filter_In. split; [exact H1|]. simpl. apply negb_true_iff.
    apply not_true_iff_false. intros H. now apply setHas_true_iff in H.
Qed.

(** The map of the original names: one entry per normalised name, which
    is the normalised form of the non-empty name it holds. *)
Definition wellKeyed (m : list (string * string)) : Prop :=
  NoDup (map fst m)
  /\ forall k v, In (k, v) m -> k = normalize v /\ v <> "".

Hypothesis original_wellKeyed : wellKeyed originalPractices.

Lemma finalMissing_NoDup (mapping : StandardsMapping) :
  NoDup (map normalize (findMissingPractices originalPractices mapping)).
Proof.
  destruct original_wellKeyed as [Hn Hk].
  unfold findMissingPractices. rewrite map_map.
  rewrite (map_ext_in _ fst).
  - now apply NoDup_map_filter.
  - intros [k v] H. apply filter_In in H as [H _]. simpl.
    now destruct (Hk k v H) as [-> _].
Qed.

End RepairLoop.

Section OriginalNames.
Import CategoryMapper.

Lemma mapSet_keys {V : Type} (k k' : string) (v : V)
  (m : list (string * V)) :
  In k' (map fst (mapSet k v m)) <-> k' = k \/ In k' (map fst m).
Proof.
  induction m as [|[k0 v0] m IH]; simpl.
  - intuition.
  - destruct (String.eqb_spec k0 k) as [->|E]; simpl.
    + intuition.
    + rewrite IH. intuition.
Qed.

Lemma mapSet_In {V : Type} (k k' : string) (v v' : V)
  (m : list (string * V)) :
  In (k', v') (mapSet k v m) -> (k' = k /\ v' = v) \/ In (k', v') m.
Proof.
  induction m as [|[k0 v0] m IH]; simpl.
  - intros [[= <- <-]|[]]. now left.
  - destruct (String.eqb_spec k0 k) as [->|E]; simpl.
    + intros [[= <- <-]|H]; [now left | now right; right].
    + intros [H|H]; [now right; left|].
      destruct (IH H) as [H'|H']; [now left | now right; right].
Qed.

Lemma mapSet_NoDup {V : Type} (k : string) (v : V) (m : list (string * V)) :
  NoDup (map fst m) -> NoDup (map fst (mapSet k v m)).
Proof.
  induction m as [|[k0 v0] m IH]; simpl; intros H.
  - constructor; [intros [] | constructor].
  - inversion H as [|? ? Hnot H']; subst.
    destruct (String.eqb_spec k0 k) as [->|E]; simpl.
    + now constructor.
    + constructor; [|now apply IH]. rewrite mapSet_keys. intuition.
Qed.

Definition recordName (practiceMap : list (string * string))
  (practice : MinifiedPractice) : list (string * string) :=
  if JS.truthy (practiceName practice)
  then mapSet (normalize (practiceName practice)) (practiceName practice)
              practiceMap
  else practiceMap.

Lemma recordName_fold (practices : list MinifiedPractice)
  (acc : list (string * string)) :
  wellKeyed acc ->
  wellKeyed (fold_left recordName practices acc)
  /\ (forall k, In k (map fst acc) ->
                In k (map fst (fold_left recordName practices acc)))
  /\ (forall practice, In practice practices ->
        practiceName practice <> "" ->
        In (normalize (practiceName practice))
           (map fst (fold_left recordName practices acc))).
Proof.
  revert acc. induction practices as [|p practices IH]; intros acc Hw; simpl.
  - split; [exact Hw|]. split; [auto | intros practice []].
  - assert (wellKeyed (recordName acc p)) as Hw'.
    { unfold recordName. destruct (JS.truthy (practiceName p)) eqn:T;
        [|exact Hw].
      destruct Hw as [H1 H2]. split; [now apply mapSet_NoDup|].
      intros k v H. apply mapSet_In in H as [[-> ->]|H]; [|now apply H2].
      split; [reflexivity | now apply truthy_true_iff]. }
    destruct (IH _ Hw') as [I1 [I2 I3]].
    split; [exact I1|]. split.
    + intros k Hk. apply I2. unfold recordName.
      destruct (JS.truthy (practiceName p)); [|exact Hk].
      apply mapSet_keys. now right.
    + intros practice [<-|Hin] Hne; [|now apply I3].
      apply I2. unfold recordName.
      apply truthy_true_iff in Hne. rewrite Hne.
      apply mapSet_keys. now left.
Qed.

Lemma extract_wellKeyed (practices : list MinifiedPractice) :
  wellKeyed (extractOriginalPracticeNames practices).
Proof.
  apply (recordName_fold practices []).
  split; [constructor | intros k v []].
Qed.

Lemma extract_covers (practices : list MinifiedPractice)
  (practice : MinifiedPractice) :
  In practice practices -> practiceName practice <> "" ->
  In (normalize (practiceName practice))
     (map fst (extractOriginalPracticeNames practices)).
Proof.
  apply (recordName_fold practices []).
  split; [constructor | intros k v []].
Qed.

End OriginalNames.

(** The first mapping names a practice the collection does not hold; the
    second holds the empty name in both groups. *)
Definition ghostMapping : CategoryMapper.StandardsMapping :=
  [CategoryMapper.mkStandard "Code Quality" "Readable code" ["p1"; "ghost"]].
Definition emptyNameMapping : CategoryMapper.StandardsMapping :=
  [CategoryMapper.mkStandard "A" "first" [""; "p1"];
   CategoryMapper.mkStandard "B" "second" [""]].
Definition onePractice : list CategoryMapper.MinifiedPractice :=
  [CategoryMapper.mkMinified "p1" "The only practice"].

(* ================================================================== *)
(** * Part III.  The rest of the importer                              *)
(* ================================================================== *)

(** ** The language table read back *)

Lemma upperChar_lowerChar (c : ascii) :
  JS.upperChar (JS.lowerChar c) = JS.upperChar c.
Proof.
  destruct c as [[|] [|] [|] [|] [|] [|] [|] [|]]; reflexivity.
Qed.

Lemma toUpperCase_toLowerCase (s : string) :
  JS.toUpperCase (JS.toLowerCase s) = JS.toUpperCase s.
Proof.
  induction s as [|c s IH]; simpl; [reflexivity|].
  now rewrite upperChar_lowerChar, IH.
Qed.

Lemma resolve_value (l : ProgrammingLanguage.t) :
  ProgrammingLanguage.stringToProgrammingLanguage (ProgrammingLanguage.value l)
  = inr l.
Proof. destruct l; vm_compute; reflexivity. Qed.

(** What is left of the resolution once the input is trimmed: a function
    of the lower-cased text and of its upper-cased form. *)
Lemma resolve_success_by_key (input : string) (l : ProgrammingLanguage.t) :
  let lowerInput := JS.toLowerCase (JS.trim input) in
  ProgrammingLanguage.stringToProgrammingLanguage input = inr l
  <-> JS.truthy lowerInput = true
      /\ match ProgrammingLanguage.lookupAlias (JS.toUpperCase lowerInput)
                 ProgrammingLanguage.LANGUAGE_ALIASES with
         | Some a => a = l
         | None =>
             match find (fun enumValue =>
                           JS.toLowerCase (ProgrammingLanguage.value enumValue)
                           =? lowerInput) ProgrammingLanguage.values with
             | Some enumValue => enumValue = l
             | None =>
                 match find (fun e =>
                               JS.toLowerCase
                                 (ProgrammingLanguage.displayName (snd e))
                               =? lowerInput)
                            ProgrammingLanguage.ProgrammingLanguageDetails with
                 | Some e => fst e = l
                 | None =>
                     match find (ProgrammingLanguage.hasExtension lowerInput)
                             ProgrammingLanguage.ProgrammingLanguageDetails with
                     | Some e => fst e = l
                     | None => False
                     end
                 end
             end
         end.
Proof.
  intros lowerInput. unfold ProgrammingLanguage.stringToProgrammingLanguage.
  subst lowerInput. rewrite toUpperCase_toLowerCase, toLowerCase_truthy.
  destruct (JS.truthy (JS.trim input)); cbn [negb].
  2:{ split; [discriminate | intros [H _]; discriminate]. }
  destruct (ProgrammingLanguage.lookupAlias _ _) as [a|].
  { split; [intros [= ->]; now split | intros [_ ->]; reflexivity]. }
  destruct (find _ ProgrammingLanguage.values) as [v|].
  { split; [intros [= ->]; now split | intros [_ ->]; reflexivity]. }
  destruct (find _ ProgrammingLanguage.ProgrammingLanguageDetails) as [[d i]|].
  { split; [intros [= ->]; now split | intros [_ <-]; reflexivity]. }
  destruct (find _ ProgrammingLanguage.ProgrammingLanguageDetails) as [[d i]|].
  { split; [intros [= ->]; now split | intros [_ <-]; reflexivity]. }
  split; [discriminate | intros [_ []]].
Qed.

(** X1.  Every language is found again from each of its names: its
    identifier, its display name and each of its file extensions resolve
    to it, and the converter maps each of its file extensions to its
    identifier.  Every language has an entry in the table. *)
Theorem language_table_round_trip :
  (forall l, ProgrammingLanguage.stringToProgrammingLanguage
               (ProgrammingLanguage.value l) = inr l)
  /\ (forall l, In l (map fst ProgrammingLanguage.ProgrammingLanguageDetails))
  /\ Forall
       (fun e =>
          ProgrammingLanguage.stringToProgrammingLanguage
            (ProgrammingLanguage.displayName (snd e)) = inr (fst e)
          /\ Forall
               (fun ext =>
                  ProgrammingLanguage.stringToProgrammingLanguage ext
                  = inr (fst e)
                  /\ Convertor.convertProgrammingLanguage ext
                     = ProgrammingLanguage.value (fst e))
               (ProgrammingLanguage.fileExtensions (snd e)))
       ProgrammingLanguage.ProgrammingLanguageDetails.
Proof.
  split; [exact resolve_value|]. split.
  - intros l. destruct l; vm_compute; tauto.
  - unfold ProgrammingLanguage.ProgrammingLanguageDetails.
    repeat (apply Forall_cons;
            [ split;
              [ vm_compute; reflexivity
              | cbn [snd fst ProgrammingLanguage.fileExtensions];
                repeat (apply Forall_cons;
                        [split; vm_compute; reflexivity|]);
                apply Forall_nil ]
            | ]).
    apply Forall_nil.
Qed.

(** X2.  The resolution looks at its input without its surrounding
    whitespace and without regard to case: two inputs that agree once
    trimmed and lower-cased resolve to the same language, and one is
    refused as empty exactly when the other is. *)
Theorem resolution_ignores_case_and_padding (a b : string) :
  JS.toLowerCase (JS.trim a) = JS.toLowerCase (JS.trim b) ->
  (forall l, ProgrammingLanguage.stringToProgrammingLanguage a = inr l
             <-> ProgrammingLanguage.stringToProgrammingLanguage b = inr l)
  /\ (ProgrammingLanguage.stringToProgrammingLanguage a
      = inl ProgrammingLanguage.EmptyLanguageInput
      <-> ProgrammingLanguage.stringToProgrammingLanguage b
          = inl ProgrammingLanguage.EmptyLanguageInput).
Proof.
  intros H. split.
  - intros l. rewrite !resolve_success_by_key. cbv zeta. now rewrite H.
  - rewrite !resolve_empty_iff.
    assert (forall s, JS.trim s = "" <-> JS.toLowerCase (JS.trim s) = "") as E.
    { intros s. destruct (JS.trim s); simpl; split; congruence. }
    rewrite (E a), (E b), H. tauto.
Qed.

Lemma resolution_ignores_case_and_padding_witness :
  ProgrammingLanguage.stringToProgrammingLanguage "  Kt " = inr ProgrammingLanguage.KOTLIN
  <-> ProgrammingLanguage.stringToProgrammingLanguage "KT" = inr ProgrammingLanguage.KOTLIN.
Proof.
  exact (proj1 (resolution_ignores_case_and_padding "  Kt " "KT" eq_refl)
           ProgrammingLanguage.KOTLIN).
Defined.

(** ** The languages of a converted practice *)

Lemma convertUnitTest_language (test : DetectionUnitTest.t) (language : string) :
  ValidatedExample.language (Convertor.convertUnitTestToExample test language)
  = Convertor.convertProgrammingLanguage language.
Proof. reflexivity. Qed.

(** X3.  Every example of a converted rule carries an identifier of the
    language enum, never a raw file extension: the strict resolver accepts
    it and gives back the language it names. *)
Theorem rule_example_languages (contextLines : Z) (practice : ParsedPractice.t)
  (example : ValidatedExample.t) :
  let rule := Convertor.convertPracticeToRule contextLines practice in
  In example (ValidatedRule.positiveExamples rule
              ++ ValidatedRule.negativeExamples rule)%list ->
  exists l,
    ValidatedExample.language example = ProgrammingLanguage.value l
    /\ ProgrammingLanguage.stringToProgrammingLanguage
         (ValidatedExample.language example) = inr l.
Proof.
  intros rule Hin.
  assert (exists ext, ValidatedExample.language example
                      = Convertor.convertProgrammingLanguage ext) as [ext E].
  { apply in_app_or in Hin. subst rule.
    pose proof (rule_examples contextLines practice true) as Hp.
    pose proof (rule_examples contextLines practice false) as Hn.
    cbv iota in Hp, Hn.
    assert (In example
              ((if Convertor.shouldIncludeDetection practice
                then fromUnitTests practice true else [])
               ++ fromFiles contextLines practice true)%list
            \/ In example
                 ((if Convertor.shouldIncludeDetection practice
                   then fromUnitTests practice false else [])
                  ++ fromFiles contextLines practice false)%list) as H
      by (destruct Hin as [H|H]; [left; now rewrite <- Hp
                                 | right; now rewrite <- Hn]).
    assert (forall pol,
              In example
                ((if Convertor.shouldIncludeDetection practice
                  then fromUnitTests practice pol else [])
                 ++ fromFiles contextLines practice pol)%list ->
              exists ext, ValidatedExample.language example
                          = Convertor.convertProgrammingLanguage ext) as K.
    { intros pol Hx. apply in_app_or in Hx. destruct Hx as [Hx|Hx].
      - destruct (Convertor.shouldIncludeDetection practice); [|destruct Hx].
        unfold fromUnitTests in Hx. apply in_map_iff in Hx.
        destruct Hx as [test [<- _]]. eexists. reflexivity.
      - unfold fromFiles in Hx. apply in_map_iff in Hx.
        destruct Hx as [ex [<- _]]. eexists. reflexivity. }
    destruct H as [H|H]; eapply K; exact H. }
  exists (Convertor.convertProgrammingLanguageEnum ext).
  rewrite E. split; [reflexivity|]. apply resolve_value.
Qed.

Lemma rule_example_languages_witness :
  exists l,
    ValidatedExample.language
      (Convertor.convertFileWorkshopExample 2 (mockExample 2 2 true))
    = ProgrammingLanguage.value l
    /\ ProgrammingLanguage.stringToProgrammingLanguage
         (ValidatedExample.language
            (Convertor.convertFileWorkshopExample 2 (mockExample 2 2 true)))
       = inr l.
Proof.
  apply (rule_example_languages 2 (mockPractice false None [] [mockExample 2 2 true])).
  vm_compute. now left.
Defined.

(** ** From the JSON line to the detection program *)

Section ParsedProgram.
Variable jsonParse : string -> option Index.RawPractice.

Lemma parsePractice_toolings (jsonString : string)
  (practice : ParsedPractice.t) (toolings : Toolings.t) :
  Index.parsePractice jsonParse jsonString = inr practice ->
  ParsedPractice.toolings practice = Some toolings ->
  resolvesToLanguage (Toolings.language toolings).
Proof.
  unfold Index.parsePractice.
  destruct (jsonParse jsonString) as [parsed|]; [|discriminate].
  destruct (Index.truthyString (Index.rawName parsed)); [|discriminate].
  destruct (Index.truthyString (Index.rawDescription parsed));
    [|discriminate].
  destruct (Index.rawCategories parsed); [|discriminate].
  destruct (Index.rawExamples parsed); [|discriminate].
  destruct (Index.truthyString (Index.rawSpace parsed)); [|discriminate].
  destruct (Index.rawToolings parsed) as [raw|].
  - destruct (Index.parseToolings s raw) as [e|parsedToolings] eqn:E;
      [discriminate|].
    intros [= <-]. simpl. intros [= <-].
    apply parseToolings_ok in E as [language [_ [H ->]]]. exact H.
  - intros [= <-]. discriminate.
Qed.

(** X4.  The detection program of a practice that [parsePractice]
    accepted always declares a language the resolver knows: the tooling's
    language was checked when the line was parsed, and the only other
    language the converter writes is AVRO. *)
Theorem parsed_program_language (jsonString : string)
  (practice : ParsedPractice.t) (contextLines : Z)
  (program : DetectionProgram.t) :
  Index.parsePractice jsonParse jsonString = inr practice ->
  ValidatedRule.detectionProgram
    (Convertor.convertPracticeToRule contextLines practice) = Some program ->
  exists l,
    ProgrammingLanguage.stringToProgrammingLanguage
      (DetectionProgram.language program) = inr l.
Proof.
  intros Hparse. unfold Convertor.convertPracticeToRule. simpl.
  unfold Convertor.convertDetectionProgram.
  destruct (Convertor.shouldIncludeDetection practice); [|discriminate].
  destruct (ParsedPractice.toolings practice) as [toolings|] eqn:Et;
    [|discriminate].
  destruct (JS.truthy (Toolings.program toolings)); [|discriminate].
  intros [= <-]. simpl.
  destruct (Convertor.areAllExamplesAvro practice).
  - exists ProgrammingLanguage.AVRO.
    exact (resolve_value ProgrammingLanguage.AVRO).
  - apply resolves_iff. eapply parsePractice_toolings; eauto.
Qed.

End ParsedProgram.

Definition checkedToolingRecord : Index.RawPractice :=
  Index.mkRawPractice (Some "Test Practice") (Some "Test description")
    (Some ["Testing"]) (Some []) (Some "671a094106587d064f56ba82")
    (Some false) None
    (Some (Index.mkRawToolings "SUCCESS" "function check() {}" "" (Some "kt"))).

Lemma parsed_program_language_witness :
  exists l, ProgrammingLanguage.stringToProgrammingLanguage "kt" = inr l.
Proof.
  exact (parsed_program_language (fun _ => Some checkedToolingRecord) "{}"
           (ParsedPractice.mk "Test Practice" "Test description" ["Testing"]
              (Some false) None []
              (Some (Toolings.mk "SUCCESS" "function check() {}" "" "kt"))
              "671a094106587d064f56ba82")
           2 (DetectionProgram.mk "function check() {}" "" "kt")
           eq_refl eq_refl).
Defined.

(** ** Counting with a [Map] and taking the most frequent key *)

Definition tally (l : list string) : list (string * nat) :=
  fold_left (fun m x => Convertor.countLanguage x m) l [].

Lemma existsb_eqb_In (x : string) (l : list string) :
  existsb (String.eqb x) l = true <-> In x l.
Proof.
  rewrite existsb_exists. split.
  - intros [y [H1 H2]]. apply String.eqb_eq in H2. now subst.
  - intros H. exists x. split; [exact H | apply String.eqb_refl].
Qed.

Lemma existsb_eqb_not_In (x : string) (l : list string) :
  existsb (String.eqb x) l = false <-> ~ In x l.
Proof.
  rewrite <- existsb_eqb_In. destruct (existsb _ _); split; congruence.
Qed.

Lemma ofList_snoc (l : list string) (x : string) :
  JSSet.ofList (l ++ [x]) = JSSet.add (JSSet.ofList l) x.
Proof. unfold JSSet.ofList. now rewrite fold_left_app. Qed.

Lemma tally_snoc (l : list string) (x : string) :
  tally (l ++ [x]) = Convertor.countLanguage x (tally l).
Proof. unfold tally. now rewrite fold_left_app. Qed.

Lemma ofList_In (l : list string) (x : string) :
  In x (JSSet.ofList l) <-> In x l.
Proof.
  induction l as [|y l IH] using rev_ind; [reflexivity|].
  rewrite ofList_snoc, in_app_iff. unfold JSSet.add.
  destruct (existsb _ _) eqn:E.
  - apply existsb_eqb_In in E. rewrite IH in *. simpl.
    split; [tauto | intros [H|[<-|[]]]; tauto].
  - rewrite in_app_iff, IH. reflexivity.
Qed.

Lemma ofList_NoDup (l : list string) : NoDup (JSSet.ofList l).
Proof.
  induction l as [|y l IH] using rev_ind; [constructor|].
  rewrite ofList_snoc. unfold JSSet.add.
  destruct (existsb _ _) eqn:E; [exact IH|].
  apply existsb_eqb_not_In in E.
  apply NoDup_app; [exact IH | repeat constructor; intros [] | ].
  intros a Ha [<-|[]]. contradiction.
Qed.

Lemma count_occ_snoc (l : list string) (x k : string) :
  count_occ string_dec (l ++ [x]) k
  = (count_occ string_dec l k + if string_dec x k then 1 else 0)%nat.
Proof.
  rewrite count_occ_app. simpl. destruct (string_dec x k); reflexivity.
Qed.

Lemma countLanguage_present (x : string) (c c' : string -> nat)
  (ks : list string) :
  In x ks -> NoDup ks ->
  (forall k, c' k = (c k + if string_dec x k then 1 else 0)%nat) ->
  Convertor.countLanguage x (map (fun k => (k, c k)) ks)
  = map (fun k => (k, c' k)) ks.
Proof.
  intros Hin Hnd Hc. induction ks as [|k ks IH]; [destruct Hin|].
  simpl. inversion Hnd as [|? ? Hk Hnd']; subst.
  destruct (k =? x) eqn:E.
  - apply String.eqb_eq in E. subst k. f_equal.
    + rewrite Hc. destruct (string_dec x x); [|congruence].
      f_equal. lia.
    + apply map_ext_in. intros a Ha. rewrite Hc.
      destruct (string_dec x a); [subst; contradiction|].
      f_equal. lia.
  - apply String.eqb_neq in E. destruct Hin as [->|Hin]; [congruence|].
    f_equal; [|now apply IH].
    rewrite Hc. destruct (string_dec x k); [congruence|]. f_equal. lia.
Qed.

Lemma countLanguage_absent (x : string) (c c' : string -> nat)
  (ks : list string) :
  ~ In x ks -> c x = 0%nat ->
  (forall k, c' k = (c k + if string_dec x k then 1 else 0)%nat) ->
  Convertor.countLanguage x (map (fun k => (k, c k)) ks)
  = map (fun k => (k, c' k)) (ks ++ [x]).
Proof.
  intros Hin H0 Hc. induction ks as [|k ks IH]; simpl.
  - rewrite Hc, H0. destruct (string_dec x x); [reflexivity|congruence].
  - destruct (k =? x) eqn:E.
    + apply String.eqb_eq in E. subst. exfalso. apply Hin. now left.
    + f_equal.
      * rewrite Hc. destruct (string_dec x k).
        -- subst. exfalso. apply Hin. now left.
        -- f_equal. lia.
      * apply IH. intros H. apply Hin. now right.
Qed.

(** The counting map holds, for each key in the order of first
    appearance, the number of its occurrences. *)
Lemma tally_spec (l : list string) :
  tally l = map (fun k => (k, count_occ string_dec l k)) (JSSet.ofList l).
Proof.
  induction l as [|x l IH] using rev_ind; [reflexivity|].
  rewrite tally_snoc, ofList_snoc, IH. unfold JSSet.add.
  destruct (existsb _ _) eqn:E.
  - apply existsb_eqb_In in E.
    apply countLanguage_present;
      [exact E | apply ofList_NoDup | intros k; apply count_occ_snoc].
  - apply existsb_eqb_not_In in E.
    apply countLanguage_absent; [exact E | | intros k; apply count_occ_snoc].
    apply count_occ_not_In. now rewrite <- ofList_In.
Qed.

Lemma snoc_eq_middle {A : Type} (a d1 d2 : list A) (x r : A) :
  (a ++ [x] = d1 ++ r :: d2)%list ->
  (d2 = [] /\ a = d1 /\ x = r)
  \/ exists d2', d2 = (d2' ++ [x])%list /\ a = (d1 ++ r :: d2')%list.
Proof.
  destruct d2 as [|y d2 _] using rev_ind; intros H.
  - left. apply app_inj_tail in H as [-> ->]. auto.
  - right. exists d2.
    replace (d1 ++ r :: d2 ++ [y])%list with ((d1 ++ r :: d2) ++ [y])%list
      in H by (rewrite <- app_assoc; reflexivity).
    apply app_inj_tail in H as [-> ->]. auto.
Qed.

(** A key that comes after others among the first-seen keys was first
    seen after them. *)
Lemma ofList_order (l d1 d2 : list string) (r : string) :
  JSSet.ofList l = (d1 ++ r :: d2)%list ->
  exists s1 s2, l = (s1 ++ r :: s2)%list /\ ~ In r s1
                /\ forall t, In t s1 -> In t d1.
Proof.
  revert d2. induction l as [|x l IH] using rev_ind; intros d2 H.
  - destruct d1; discriminate.
  - rewrite ofList_snoc in H. unfold JSSet.add in H.
    destruct (existsb _ _) eqn:E.
    + destruct (IH _ H) as [s1 [s2 [-> [H1 H2]]]].
      exists s1, (s2 ++ [x])%list. rewrite <- app_assoc. auto.
    + apply existsb_eqb_not_In in E.
      apply snoc_eq_middle in H as [[-> [Hd ->]]|[d2' [-> Hd]]].
      * exists l, []. split; [reflexivity|].
        split; [now rewrite <- ofList_In|].
        intros t Ht. rewrite <- Hd. now apply ofList_In.
      * destruct (IH _ Hd) as [s1 [s2 [-> [H1 H2]]]].
        exists s1, (s2 ++ [x])%list. rewrite <- app_assoc. auto.
Qed.

(** The head of an array sorted by descending weight: the first of the
    elements of greatest weight. *)
Lemma sortBy_descending_head {A : Type} (w : A -> nat) (l : list A) :
  l <> [] ->
  exists h t l1 l2,
    JSArray.sortBy (fun a b => (Z.of_nat (w b) - Z.of_nat (w a))%Z) l = h :: t
    /\ l = (l1 ++ h :: l2)%list
    /\ (forall y, In y l1 -> w y < w h)
    /\ (forall y, In y l2 -> w y <= w h).
Proof.
  induction l as [|x l IH]; [congruence|]. intros _.
  destruct l as [|x' l'].
  - exists x, [], [], []. simpl. repeat split; intros y [].
  - remember (x' :: l') as r eqn:Er.
    destruct IH as [h [t [l1 [l2 [Hs [Hl [H1 H2]]]]]]];
      [subst; discriminate|].
    cbn [JSArray.sortBy]. rewrite Hs. cbn [JSArray.insertBy].
    destruct (Z.of_nat (w h) - Z.of_nat (w x) <=? 0)%Z eqn:E.
    + apply Z.leb_le in E. exists x, (h :: t), [], r.
      split; [reflexivity|]. split; [reflexivity|].
      split; [intros y []|]. intros y Hy. rewrite Hl in Hy.
      apply in_app_or in Hy. destruct Hy as [Hy|[<-|Hy]].
      * specialize (H1 y Hy). lia.
      * lia.
      * specialize (H2 y Hy). lia.
    + apply Z.leb_gt in E. do 2 eexists. exists (x :: l1), l2.
      split; [reflexivity|]. split; [now rewrite Hl|].
      split; [|exact H2]. intros y [<-|Hy]; [lia | now apply H1].
Qed.

(** ** The inferred language *)

(** The language tags of the file examples that have one, in order. *)
Definition languageTags (practice : ParsedPractice.t) : list string :=
  filter JS.truthy
    (map (fun ex => FileWorkshop.lang (Example.fileWorkshop ex))
         (ParsedPractice.examples practice)).

Lemma most_frequent_first (tags : list string) (lang : string) (n : nat)
  (rest : list (string * nat)) :
  JSArray.sortBy (fun a b => (Z.of_nat (snd b) - Z.of_nat (snd a))%Z)
    (tally tags) = (lang, n) :: rest ->
  n = count_occ string_dec tags lang
  /\ (forall t, In t tags ->
        count_occ string_dec tags t <= count_occ string_dec tags lang)
  /\ exists before after,
       tags = (before ++ lang :: after)%list
       /\ ~ In lang before
       /\ forall t, In t before ->
            count_occ string_dec tags t < count_occ string_dec tags lang.
Proof.
  intros Hs.
  destruct (tally tags) as [|e m] eqn:Em; [discriminate|].
  destruct (sortBy_descending_head snd (e :: m)) as
    [h [t [l1 [l2 [Hs' [Hl [H1 H2]]]]]]]; [discriminate|].
  rewrite Hs in Hs'. injection Hs' as <- <-.
  rewrite <- Em, tally_spec in Hl.
  apply map_eq_app in Hl as [d1 [d2' [Hd [Hl1 Hl2]]]].
  destruct d2' as [|r d2]; [discriminate|]. simpl in Hl2.
  injection Hl2 as Hr Hn Hl2. subst r.
  assert (forall y, In y d1 ->
            count_occ string_dec tags y < n) as K1.
  { intros y Hy. apply (H1 (y, count_occ string_dec tags y)).
    rewrite <- Hl1. apply in_map_iff. now exists y. }
  assert (forall y, In y d2 ->
            count_occ string_dec tags y <= n) as K2.
  { intros y Hy. apply (H2 (y, count_occ string_dec tags y)).
    rewrite <- Hl2. apply in_map_iff. now exists y. }
  simpl in K1, K2. split; [now symmetry|]. rewrite <- Hn in *. split.
  - intros t Ht. apply ofList_In in Ht. rewrite Hd in Ht.
    apply in_app_or in Ht. destruct Ht as [Ht|[<-|Ht]].
    + specialize (K1 t Ht). lia.
    + lia.
    + now apply K2.
  - destruct (ofList_order _ _ _ _ Hd) as [s1 [s2 [E [N B]]]].
    exists s1, s2. split; [exact E|]. split; [exact N|].
    intros t Ht. apply K1. now apply B.
Qed.

(** X5.  The inferred language of a practice is the word unknown when
    no file example has a language tag.  Otherwise it is the most frequent tag,
    and of several most frequent tags the one that appears first: every
    tag that appears before its first occurrence is strictly less
    frequent. *)
Theorem inferLanguage_most_common (practice : ParsedPractice.t) :
  let tags := languageTags practice in
  let inferred := Convertor.inferLanguage practice in
  (tags = [] -> inferred = "unknown")
  /\ (tags <> [] ->
      (forall t, In t tags ->
         count_occ string_dec tags t <= count_occ string_dec tags inferred)
      /\ exists before after,
           tags = (before ++ inferred :: after)%list
           /\ ~ In inferred before
           /\ forall t, In t before ->
                count_occ string_dec tags t
                < count_occ string_dec tags inferred).
Proof.
  intros tags inferred. subst inferred. unfold Convertor.inferLanguage.
  fold (languageTags practice). fold tags. split.
  - intros ->. reflexivity.
  - intros Hne. destruct tags as [|t0 tags'] eqn:Et; [congruence|].
    rewrite <- Et. fold (tally tags).
    destruct (sortBy_descending_head snd (tally tags)) as
      [[lang n] [t [l1 [l2 [Hs _]]]]].
    { rewrite Et. rewrite tally_spec. intros H.
      apply map_eq_nil in H.
      assert (In t0 (JSSet.ofList (t0 :: tags'))) as Hin
        by (apply ofList_In; now left).
      rewrite H in Hin. destruct Hin. }
    rewrite Hs. apply most_frequent_first in Hs as [_ H]. exact H.
Qed.

(** ** The standard of a practice *)

Section StandardLookup.
Import CategoryMapper ConvertorClass.

Lemma find_app {A : Type} (p : A -> bool) (a b : list A) :
  find p (a ++ b) = match find p a with Some x => Some x | None => find p b end.
Proof.
  induction a as [|x a IH]; simpl; [reflexivity|].
  destruct (p x); [reflexivity | exact IH].
Qed.

Lemma mapGet_mapSet {V : Type} (k k' : string) (v : V)
  (m : list (string * V)) :
  mapGet k (mapSet k' v m) = if k' =? k then Some v else mapGet k m.
Proof.
  unfold mapGet. induction m as [|[a b] m IH]; simpl.
  - destruct (k' =? k); reflexivity.
  - destruct (a =? k') eqn:E; simpl.
    + apply String.eqb_eq in E. subst a. destruct (k' =? k); reflexivity.
    + destruct (a =? k) eqn:E2; simpl.
      * apply String.eqb_eq in E2. subst a. now rewrite String.eqb_sym, E.
      * exact IH.
Qed.

(** Whether a standard lists a practice of the given normalised name. *)
Definition lists (key : string) (standard : Standard) : bool :=
  existsb (fun practiceName => normalize practiceName =? key)
          (practices standard).

Lemma record_practices (key standardName : string) (names : list string)
  (m : list (string * string)) :
  mapGet key
    (fold_left (fun acc practiceName =>
                  mapSet (normalize practiceName) standardName acc) names m)
  = if existsb (fun practiceName => normalize practiceName =? key) names
    then Some standardName else mapGet key m.
Proof.
  revert m. induction names as [|x names IH]; intros m; simpl;
    [reflexivity|].
  rewrite IH, mapGet_mapSet.
  destruct (existsb _ names); destruct (normalize x =? key); reflexivity.
Qed.

Lemma record_standards (key : string) (standards : list Standard)
  (m : list (string * string)) :
  mapGet key
    (fold_left
       (fun acc standard =>
          fold_left (fun acc practiceName =>
                       mapSet (normalize practiceName) (name standard) acc)
                    (practices standard) acc)
       standards m)
  = match find (lists key) (rev standards) with
    | Some standard => Some (name standard)
    | None => mapGet key m
    end.
Proof.
  revert m. induction standards as [|s standards IH]; intros m; simpl;
    [reflexivity|].
  rewrite IH, find_app. destruct (find (lists key) (rev standards));
    [reflexivity|].
  rewrite record_practices. simpl. unfold lists.
  destruct (existsb _ (practices s)); reflexivity.
Qed.

(** The standard of a practice is that of the last standard of the file
    that lists its name. *)
Lemma getStandardForPractice_find (loaded : option (list StandardMapping))
  (practiceName : string) :
  getStandardForPractice (snd (loadStandardsMapping loaded)) practiceName
  = option_map name
      (find (lists (normalize practiceName))
            (rev (fst (loadStandardsMapping loaded)))).
Proof.
  unfold getStandardForPractice, loadStandardsMapping. cbn [fst snd].
  rewrite record_standards.
  destruct (find _ _); reflexivity.
Qed.

Lemma lists_true_iff (key : string) (standard : Standard) :
  lists key standard = true
  <-> exists practiceName, In practiceName (practices standard)
                           /\ normalize practiceName = key.
Proof.
  unfold lists. rewrite existsb_exists.
  split; intros [x [H1 H2]]; exists x; split; auto; now apply String.eqb_eq.
Qed.

(** X6.  Looking up the standard of a practice name, compared without
    case and surrounding whitespace: no standard when no standard of the
    mapping file lists the name; otherwise the name of the last standard
    of the file that lists it. *)
Theorem standard_of_practice (standards : list StandardMapping)
  (practiceName : string) :
  let practiceToStandard := snd (loadStandardsMapping (Some standards)) in
  let listed standard :=
    exists member, In member (practices standard)
                   /\ normalize member = normalize practiceName in
  (getStandardForPractice practiceToStandard practiceName = None
   <-> forall standard, In standard standards -> ~ listed standard)
  /\ (forall before standard after,
        standards = (before ++ standard :: after)%list ->
        listed standard ->
        (forall later, In later after -> ~ listed later) ->
        getStandardForPractice practiceToStandard practiceName
        = Some (name standard)).
Proof.
  intros practiceToStandard listed. subst practiceToStandard.
  rewrite getStandardForPractice_find. cbn [loadStandardsMapping fst].
  split.
  - destruct (find _ _) as [s|] eqn:E; simpl.
    + split; [discriminate|]. intros H. exfalso.
      apply find_some in E as [E1 E2]. apply in_rev in E1.
      apply (H s E1). now apply lists_true_iff.
    + split; [|reflexivity]. intros _ s Hs Hl.
      apply in_rev in Hs. pose proof (find_none _ _ E s Hs) as Hn.
      apply lists_true_iff in Hl. congruence.
  - intros before standard after -> Hl Hafter.
    rewrite rev_app_distr. simpl. rewrite <- app_assoc, find_app.
    destruct (find (lists (normalize practiceName)) (rev after))
      as [s|] eqn:E.
    + exfalso. apply find_some in E as [E1 E2]. apply in_rev in E1.
      apply (Hafter s E1). now apply lists_true_iff.
    + simpl. apply lists_true_iff in Hl. now rewrite Hl.
Qed.
End StandardLookup.

(** ** Grouping the practices by standard *)

Section ConvertAll.
Import CategoryMapper ConvertorClass.

Lemma mapGet_pushTo {V : Type} (k k' : string) (v : V)
  (m : list (string * list V)) :
  mapGet k (pushTo k' v m)
  = if k' =? k
    then Some (match mapGet k m with
               | Some vs => (vs ++ [v])%list
               | None => [v]
               end)
    else mapGet k m.
Proof.
  unfold mapGet. induction m as [|[a vs] m IH]; simpl.
  - destruct (k' =? k); reflexivity.
  - destruct (a =? k') eqn:E; simpl.
    + apply String.eqb_eq in E. subst a. destruct (k' =? k); reflexivity.
    + destruct (a =? k) eqn:E2; simpl.
      * apply String.eqb_eq in E2. subst a. now rewrite String.eqb_sym, E.
      * exact IH.
Qed.

(** The standard a practice is filed under: the one its name is looked up
    to, when that is a non-empty name. *)
Definition standardOf (practiceToStandard : list (string * string))
  (practice : ParsedPractice.t) : option string :=
  match getStandardForPractice practiceToStandard
          (ParsedPractice.name practice) with
  | Some standardName =>
      if JS.truthy standardName then Some standardName else None
  | None => None
  end.

Definition filedUnder (practiceToStandard : list (string * string))
  (standardName : string) (practice : ParsedPractice.t) : bool :=
  match standardOf practiceToStandard practice with
  | Some n => n =? standardName
  | None => false
  end.

Definition unfiled (practiceToStandard : list (string * string))
  (practice : ParsedPractice.t) : bool :=
  match standardOf practiceToStandard practice with
  | Some _ => false
  | None => true
  end.

Definition extend {A : Type} (o : option (list A)) (l : list A)
  : option (list A) :=
  match l with
  | [] => o
  | _ => Some (match o with Some vs => (vs ++ l)%list | None => l end)
  end.

Lemma groupPractice_fold (practiceToStandard : list (string * string))
  (practices : list ParsedPractice.t)
  (groups : list (string * list ParsedPractice.t))
  (unmapped : list ParsedPractice.t) :
  let r := fold_left (groupPractice practiceToStandard) practices
             (groups, unmapped) in
  snd r = (unmapped ++ filter (unfiled practiceToStandard) practices)%list
  /\ forall k, mapGet k (fst r)
               = extend (mapGet k groups)
                   (filter (filedUnder practiceToStandard k) practices).
Proof.
  revert groups unmapped.
  induction practices as [|p practices IH]; intros groups unmapped; simpl.
  - split; [now rewrite app_nil_r | reflexivity].
  - unfold groupPractice at 2 4. unfold unfiled at 1, filedUnder at 1.
    unfold standardOf.
    destruct (getStandardForPractice _ _) as [n|]; cbn [fst snd].
    + destruct (JS.truthy n); cbn [fst snd].
      * destruct (IH (pushTo n p groups) unmapped) as [H1 H2].
        split; [exact H1|]. intros k. rewrite H2, mapGet_pushTo.
        destruct (n =? k); [|reflexivity].
        destruct (filter (filedUnder practiceToStandard k) practices)
          as [|q f]; simpl.
        -- destruct (mapGet k groups); reflexivity.
        -- destruct (mapGet k groups); [|reflexivity].
           now rewrite <- app_assoc.
      * destruct (IH groups (unmapped ++ [p])%list) as [H1 H2].
        split; [|exact H2]. rewrite H1, <- app_assoc. reflexivity.
    + destruct (IH groups (unmapped ++ [p])%list) as [H1 H2].
      split; [|exact H2]. rewrite H1, <- app_assoc. reflexivity.
Qed.

Variable contextLines : Z.

(** The standards [convert] returns, read off the mapping file: for each
    standard of the file that has practices filed under its name, these
    practices; then the practices filed under no standard. *)
Lemma convert_groups (spaces : list SpaceMapping.t)
  (loaded : option (list StandardMapping))
  (practices : list ParsedPractice.t) :
  let practiceToStandard := snd (loadStandardsMapping loaded) in
  let primary := primarySpaceName (loadSpacesMapping spaces) practices in
  convert contextLines spaces loaded practices
  = (flat_map
       (fun standardMapping =>
          match filter (filedUnder practiceToStandard (name standardMapping))
                  practices with
          | [] => []
          | group =>
              [convertGroup contextLines
                 (primary ++ " - " ++ name standardMapping) group]
          end)
       (fst (loadStandardsMapping loaded))
     ++ match filter (unfiled practiceToStandard) practices with
        | [] => []
        | group =>
            [convertGroup contextLines (primary ++ " - Uncategorized") group]
        end)%list.
Proof.
  intros practiceToStandard primary. unfold convert.
  destruct (loadStandardsMapping loaded) as [standardsMapping p2s] eqn:El.
  cbn [fst snd] in *. subst practiceToStandard.
  pose proof (groupPractice_fold p2s practices [] []) as H. cbv zeta in H.
  destruct (fold_left (groupPractice p2s) practices ([], []))
    as [standardGroups unmappedPractices].
  cbn [fst snd] in H. destruct H as [H1 H2]. simpl in H1. subst.
  fold primary.
  assert (flat_map
            (fun standardMapping =>
               match mapGet (name standardMapping) standardGroups with
               | Some practicesInStandard =>
                   if (List.length practicesInStandard =? 0)%nat then []
                   else [convertGroup contextLines
                           (primary ++ " - " ++ name standardMapping)
                           practicesInStandard]
               | None => []
               end) standardsMapping
          = flat_map
              (fun standardMapping =>
                 match filter (filedUnder p2s (name standardMapping))
                         practices with
                 | [] => []
                 | group =>
                     [convertGroup contextLines
                        (primary ++ " - " ++ name standardMapping) group]
                 end) standardsMapping) as ->.
  { apply flat_map_ext. intros s. rewrite H2. unfold mapGet. simpl.
    destruct (filter _ practices); reflexivity. }
  destruct (filter (unfiled p2s) practices); simpl;
    [now rewrite app_nil_r | reflexivity].
Qed.

Lemma convertGroup_rules (prefixedName : string)
  (group : list ParsedPractice.t) :
  ValidatedStandard.rules (convertGroup contextLines prefixedName group)
  = map (Convertor.convertPracticeToRule contextLines) group.
Proof. reflexivity. Qed.

(** All the rules of the result, in order. *)
Lemma convert_rules (spaces : list SpaceMapping.t)
  (loaded : option (list StandardMapping))
  (practices : list ParsedPractice.t) :
  let practiceToStandard := snd (loadStandardsMapping loaded) in
  flat_map ValidatedStandard.rules
    (convert contextLines spaces loaded practices)
  = map (Convertor.convertPracticeToRule contextLines)
      (flat_map
         (fun standardMapping =>
            filter (filedUnder practiceToStandard (name standardMapping))
                   practices)
         (fst (loadStandardsMapping loaded))
       ++ filter (unfiled practiceToStandard) practices)%list.
Proof.
  intros practiceToStandard. rewrite convert_groups. cbv zeta.
  fold practiceToStandard.
  rewrite flat_map_app, map_app. f_equal.
  - induction (fst (loadStandardsMapping loaded)) as [|s l IH];
      [reflexivity|].
    cbn [flat_map]. rewrite flat_map_app, map_app, IH. f_equal.
    destruct (filter _ practices); [reflexivity|].
    simpl. now rewrite app_nil_r.
  - destruct (filter _ practices); [reflexivity|].
    simpl. now rewrite app_nil_r.
Qed.

Lemma standardOf_listed (loaded : option (list StandardMapping))
  (practice : ParsedPractice.t) (n : string) :
  standardOf (snd (loadStandardsMapping loaded)) practice = Some n ->
  In n (map name (fst (loadStandardsMapping loaded))).
Proof.
  unfold standardOf. rewrite getStandardForPractice_find.
  destruct (find _ _) as [s|] eqn:E; simpl; [|discriminate].
  destruct (JS.truthy (name s)); [|discriminate]. intros [= <-].
  apply find_some in E as [E _]. apply in_rev in E. now apply in_map.
Qed.

Lemma filed_some_group (practiceToStandard : list (string * string))
  (practice : ParsedPractice.t) :
  unfiled practiceToStandard practice = false ->
  exists n, standardOf practiceToStandard practice = Some n
            /\ filedUnder practiceToStandard n practice = true.
Proof.
  unfold unfiled, filedUnder.
  destruct (standardOf practiceToStandard practice) as [n|];
    [|discriminate].
  intros _. exists n. split; [reflexivity | apply String.eqb_refl].
Qed.

(** X7.  [convert] loses no practice and invents no rule: the rule of
    every practice it is given is a rule of some standard of the result,
    and every rule of the result is the rule of a practice it was given. *)
Theorem convert_covers_practices (spaces : list SpaceMapping.t)
  (loaded : option (list StandardMapping))
  (practices : list ParsedPractice.t) (rule : ValidatedRule.t) :
  In rule (flat_map ValidatedStandard.rules
             (convert contextLines spaces loaded practices))
  <-> In rule (map (Convertor.convertPracticeToRule contextLines) practices).
Proof.
  rewrite convert_rules. cbv zeta. rewrite !in_map_iff.
  split; intros [p [Hp Hin]]; exists p; (split; [exact Hp|]).
  - apply in_app_or in Hin. destruct Hin as [Hin|Hin].
    + apply in_flat_map in Hin as [s [_ Hin]].
      now apply filter_In in Hin.
    + now apply filter_In in Hin.
  - apply in_or_app.
    destruct (unfiled (snd (loadStandardsMapping loaded)) p) eqn:E.
    + right. apply filter_In. auto.
    + left. apply filed_some_group in E as [n [E1 E2]].
      apply standardOf_listed in E1. apply in_map_iff in E1 as [s [<- Hs]].
      apply in_flat_map. exists s. split; [exact Hs|].
      apply filter_In. auto.
Qed.

Lemma filter_split {A : Type} (p q : A -> bool) (l : list A) :
  Permutation (filter p l)
    (filter (fun a => q a && p a) l
     ++ filter (fun a => negb (q a) && p a) l)%list.
Proof.
  induction l as [|a l IH]; simpl; [constructor|].
  destruct (p a), (q a); simpl; rewrite ?andb_false_r; simpl.
  - now constructor.
  - now apply Permutation_cons_app.
  - exact IH.
  - exact IH.
Qed.

Lemma filter_all {A : Type} (l : list A) : filter (fun _ => true) l = l.
Proof. induction l as [|a l IH]; simpl; [reflexivity | now rewrite IH]. Qed.

Lemma partition_by_names (p2s : list (string * string))
  (names : list string) (l : list ParsedPractice.t) :
  NoDup names ->
  Permutation
    (flat_map (fun k => filter (filedUnder p2s k) l) names
     ++ filter (fun a => negb (existsb (fun k => filedUnder p2s k a) names))
               l)%list
    l.
Proof.
  induction names as [|k names IH]; intros Hnd; simpl.
  - change (Permutation (filter (fun _ => true) l) l).
    rewrite filter_all. apply Permutation_refl.
  - inversion Hnd as [|? ? Hk Hnd']; subst.
    rewrite <- app_assoc.
    eapply Permutation_trans; [apply Permutation_app_swap_app|].
    eapply Permutation_trans; [|apply (IH Hnd')].
    apply Permutation_app_head. apply Permutation_sym.
    eapply Permutation_trans; [apply (filter_split _ (filedUnder p2s k))|].
    apply Permutation_app.
    + rewrite (filter_ext
                 (fun a => filedUnder p2s k a
                           && negb (existsb (fun k' => filedUnder p2s k' a)
                                      names))
                 (filedUnder p2s k)).
      * apply Permutation_refl.
      * intros a. destruct (filedUnder p2s k a) eqn:E; [|reflexivity].
        simpl. apply negb_true_iff.
        destruct (existsb _ names) eqn:E2; [|reflexivity].
        exfalso. apply existsb_exists in E2 as [k' [Hk' E2]].
        unfold filedUnder in E, E2.
        destruct (standardOf p2s a); [|discriminate].
        apply String.eqb_eq in E, E2. congruence.
    + rewrite (filter_ext
                 (fun a => negb (filedUnder p2s k a)
                           && negb (existsb (fun k' => filedUnder p2s k' a)
                                      names))
                 (fun a => negb (filedUnder p2s k a
                                 || existsb (fun k' => filedUnder p2s k' a)
                                      names))).
      * apply Permutation_refl.
      * intros a. symmetry. apply negb_orb.
Qed.

(** X8.  When the standards of the mapping file have pairwise distinct
    names, [convert] files every practice exactly once: the rules of all
    the standards of the result are, up to their order, the rules of the
    practices, one for each. *)
Theorem convert_files_each_once (spaces : list SpaceMapping.t)
  (standards : list StandardMapping) (practices : list ParsedPractice.t) :
  NoDup (map name standards) ->
  Permutation
    (flat_map ValidatedStandard.rules
       (convert contextLines spaces (Some standards) practices))
    (map (Convertor.convertPracticeToRule contextLines) practices).
Proof.
  intros Hnd. rewrite convert_rules. cbv zeta. apply Permutation_map.
  set (p2s := snd (loadStandardsMapping (Some standards))).
  cbn [loadStandardsMapping fst].
  eapply Permutation_trans; [|apply (partition_by_names p2s _ _ Hnd)].
  assert (flat_map (fun s => filter (filedUnder p2s (name s)) practices)
            standards
          = flat_map (fun k => filter (filedUnder p2s k) practices)
              (map name standards)) as ->.
  { generalize p2s. intros m. clear.
    induction standards as [|s l IH]; simpl; [reflexivity|].
    f_equal. apply IH. }
  rewrite (filter_ext (unfiled p2s)
             (fun a => negb (existsb (fun k => filedUnder p2s k a)
                               (map name standards)))).
  - apply Permutation_refl.
  - intros a. destruct (unfiled p2s a) eqn:E.
    + symmetry. apply negb_true_iff.
      destruct (existsb _ _) eqn:E2; [|reflexivity]. exfalso.
      apply existsb_exists in E2 as [k [_ E2]].
      unfold unfiled, filedUnder in *.
      destruct (standardOf p2s a); discriminate.
    + symmetry. apply negb_false_iff. apply existsb_exists.
      apply filed_some_group in E as [n [E1 E2]]. exists n.
      split; [|exact E2].
      exact (standardOf_listed (Some standards) a n E1).
Qed.

(** X9.  The shape of what [convert] returns: no standard without rules;
    each standard named after the primary space followed by the name of a
    standard of the mapping file or by Uncategorized; its rules those of
    practices it was given, described by [buildStandardDescription]. *)
Theorem convert_standard_shape (spaces : list SpaceMapping.t)
  (loaded : option (list StandardMapping))
  (practices : list ParsedPractice.t) (standard : ValidatedStandard.t) :
  In standard (convert contextLines spaces loaded practices) ->
  exists label group,
    group <> []
    /\ (forall practice, In practice group -> In practice practices)
    /\ (label = "Uncategorized"
        \/ In label (map name (fst (loadStandardsMapping loaded))))
    /\ ValidatedStandard.name standard
       = primarySpaceName (loadSpacesMapping spaces) practices
         ++ " - " ++ label
    /\ ValidatedStandard.rules standard
       = map (Convertor.convertPracticeToRule contextLines) group
    /\ ValidatedStandard.description standard
       = Convertor.buildStandardDescription
           (ValidatedStandard.rules standard) group.
Proof.
  rewrite convert_groups. cbv zeta. intros Hin.
  apply in_app_or in Hin. destruct Hin as [Hin|Hin].
  - apply in_flat_map in Hin as [s [Hs Hin]].
    destruct (filter _ practices) as [|p g] eqn:E; [destruct Hin|].
    destruct Hin as [<-|[]]. exists (name s), (p :: g).
    split; [discriminate|]. split.
    + intros q Hq. rewrite <- E in Hq. now apply filter_In in Hq.
    + split; [right; now apply in_map|]. repeat split; reflexivity.
  - destruct (filter _ practices) as [|p g] eqn:E; [destruct Hin|].
    destruct Hin as [<-|[]]. exists "Uncategorized", (p :: g).
    split; [discriminate|]. split.
    + intros q Hq. rewrite <- E in Hq. now apply filter_In in Hq.
    + split; [now left|]. repeat split; reflexivity.
Qed.

End ConvertAll.

Definition backendSpaces : list SpaceMapping.t :=
  [SpaceMapping.mk "671a094106587d064f56ba82" "Backend"].

Definition testingStandards : list ConvertorClass.StandardMapping :=
  [CategoryMapper.mkStandard "Testing" "Practices about tests"
     [" test practice "]].

Lemma convert_files_each_once_witness :
  Permutation
    (flat_map ValidatedStandard.rules
       (ConvertorClass.convert 2 backendSpaces (Some testingStandards)
          [mockPractice false None [] []]))
    (map (Convertor.convertPracticeToRule 2) [mockPractice false None [] []]).
Proof.
  apply (convert_files_each_once 2 backendSpaces testingStandards).
  simpl. constructor; [intros [] | constructor].
Defined.

Lemma convert_standard_shape_witness :
  exists label group,
    group <> []
    /\ (forall practice, In practice group ->
          In practice [mockPractice false None [] []])
    /\ (label = "Uncategorized" \/ In label ["Testing"])
    /\ "Backend - Testing" = "Backend" ++ " - " ++ label
    /\ [Convertor.convertPracticeToRule 2 (mockPractice false None [] [])]
       = map (Convertor.convertPracticeToRule 2) group
    /\ "## Test Practice" ++ JS.NL ++ "   Test description"
       = Convertor.buildStandardDescription
           [Convertor.convertPracticeToRule 2 (mockPractice false None [] [])]
           group.
Proof.
  apply (convert_standard_shape 2 backendSpaces (Some testingStandards)
           [mockPractice false None [] []]
           (ValidatedStandard.mk "Backend - Testing"
              ("## Test Practice" ++ JS.NL ++ "   Test description")
              [Convertor.convertPracticeToRule 2
                 (mockPractice false None [] [])])).
  vm_compute. left. reflexivity.
Defined.

(** ** The primary space *)

Lemma tally_map {A : Type} (f : A -> string) (l : list A)
  (m : list (string * nat)) :
  fold_left (fun m a => Convertor.countLanguage (f a) m) l m
  = fold_left (fun m x => Convertor.countLanguage x m) (map f l) m.
Proof.
  revert m. induction l as [|a l IH]; intros m; simpl; [reflexivity|].
  apply IH.
Qed.

(** X10.  The space that prefixes the names of the standards: with no
    practice, Unknown Space; otherwise the most frequent of the space
    names of the practices (a practice of a space that is not in
    [spaces.json], or of a space without a name, counts for Unknown
    Space), and of several most frequent names the one met first. *)
Theorem primarySpaceName_most_common (spacesMap : list (string * string))
  (practices : list ParsedPractice.t) :
  let names :=
    map (fun practice =>
           ConvertorClass.getSpaceName spacesMap (ParsedPractice.space practice))
        practices in
  let primary := ConvertorClass.primarySpaceName spacesMap practices in
  (practices = [] -> primary = "Unknown Space")
  /\ (practices <> [] ->
      (forall t, In t names ->
         count_occ string_dec names t <= count_occ string_dec names primary)
      /\ exists before after,
           names = (before ++ primary :: after)%list
           /\ ~ In primary before
           /\ forall t, In t before ->
                count_occ string_dec names t
                < count_occ string_dec names primary).
Proof.
  intros names primary. subst primary. unfold ConvertorClass.primarySpaceName.
  rewrite tally_map. fold names. fold (tally names). split.
  - intros ->. reflexivity.
  - intros Hne.
    destruct (sortBy_descending_head snd (tally names)) as
      [[name n] [t [l1 [l2 [Hs _]]]]].
    { rewrite tally_spec. intros H. apply map_eq_nil in H.
      destruct practices as [|p ps]; [congruence|].
      assert (In (ConvertorClass.getSpaceName spacesMap
                    (ParsedPractice.space p)) (JSSet.ofList names)) as Hin
        by (apply ofList_In; now left).
      rewrite H in Hin. destruct Hin. }
    rewrite Hs. apply most_frequent_first in Hs as [_ H]. exact H.
Qed.

(** ** The number of categories asked for *)

(** X11.  The number of categories the prompt allows lies between 2 and
    10, never decreases when the number of practices grows, and between
    these bounds is the least number of groups of five that holds all the
    practices. *)
Theorem calculateMaxCategories_bounds (n m : Z) :
  (2 <= CategoryMapperTools.calculateMaxCategories n <= 10)%Z
  /\ ((n <= m)%Z ->
      (CategoryMapperTools.calculateMaxCategories n
       <= CategoryMapperTools.calculateMaxCategories m)%Z)
  /\ ((5 < n <= 50)%Z ->
      (5 * (CategoryMapperTools.calculateMaxCategories n - 1) < n
       <= 5 * CategoryMapperTools.calculateMaxCategories n)%Z).
Proof.
  unfold CategoryMapperTools.calculateMaxCategories.
  pose proof (Z.div_mod (- n) 5 ltac:(lia)) as Hn.
  pose proof (Z.mod_pos_bound (- n) 5 ltac:(lia)) as Bn.
  pose proof (Z.div_mod (- m) 5 ltac:(lia)) as Hm.
  pose proof (Z.mod_pos_bound (- m) 5 ltac:(lia)) as Bm.
  repeat split; try lia.
Qed.

(** ** First-occurrence deduplication *)

Section FirstOccurrence.
Import CategoryMapper CategoryMapperTools.

(** The members whose normalised name was not seen before, in order;
    [seen] holds the normalised names seen so far. *)
Fixpoint firstOccurrences (seen : list string) (l : list string)
  : list string :=
  match l with
  | [] => []
  | x :: r =>
      if setHas seen (normalize x) then firstOccurrences seen r
      else x :: firstOccurrences (seen ++ [normalize x]) r
  end.


Lemma setHas_app (a b : list string) (x : string) :
  setHas (a ++ b) x = setHas a x || setHas b x.
Proof. apply existsb_app. Qed.


Lemma firstOccurrences_length (seen l : list string) :
  List.length (firstOccurrences seen l) <= List.length l.
Proof.
  revert seen. induction l as [|x l IH]; intros seen; simpl; [lia|].
  destruct (setHas seen (normalize x)); simpl.
  - specialize (IH seen). lia.
  - specialize (IH (seen ++ [normalize x])%list). lia.
Qed.














End FirstOccurrence.

(** ** Merging a retry answer *)

Section MergeAppends.
Import CategoryMapper.

Lemma updateAt_length {A : Type} (i : nat) (f : A -> A) (l : list A) :
  List.length (JSArray.updateAt i f l) = List.length l.
Proof.
  revert i. induction l as [|x l IH]; intros [|i]; simpl; auto.
Qed.

Lemma updateAt_nth {A : Type} (i j : nat) (f : A -> A) (l : list A) :
  nth_error (JSArray.updateAt i f l) j
  = if (i =? j)%nat then option_map f (nth_error l j) else nth_error l j.
Proof.
  revert i j. induction l as [|x l IH]; intros [|i] [|j]; simpl;
    try reflexivity.
  - now destruct (i =? j)%nat.
  - apply IH.
Qed.

(** What a merge may do to a mapping: keep its groups, and give a group
    new members after the ones it has, each allowed for that group, none
    under a normalised name the group has already. *)
Definition grown (allowed : nat -> string -> Prop)
  (before after : StandardsMapping) : Prop :=
  List.length after = List.length before
  /\ forall i category, nth_error before i = Some category ->
       exists added,
         nth_error after i
         = Some (mkStandard (name category) (description category)
                   (practices category ++ added))
         /\ NoDup (map normalize added)
         /\ forall a, In a added ->
              ~ In (normalize a) (map normalize (practices category))
              /\ allowed i a.

Lemma grown_refl (allowed : nat -> string -> Prop) (m : StandardsMapping) :
  grown allowed m m.
Proof.
  split; [reflexivity|]. intros i c H. exists []. rewrite app_nil_r.
  split; [now destruct c|].
  split; [constructor | intros a []].
Qed.

Lemma existsb_normalize (x : string) (l : list string) :
  existsb (fun p => normalize p =? normalize x) l = true
  <-> In (normalize x) (map normalize l).
Proof.
  rewrite existsb_exists, in_map_iff.
  split; intros [y [H1 H2]]; exists y.
  - apply String.eqb_eq in H2. tauto.
  - split; [tauto | now apply String.eqb_eq].
Qed.

Lemma grown_addPractice (allowed : nat -> string -> Prop)
  (before after : StandardsMapping) (i : nat) (practice : string) :
  grown allowed before after -> allowed i practice ->
  grown allowed before (JSArray.updateAt i (addPractice practice) after).
Proof.
  intros [Hlen H] Hal. split; [now rewrite updateAt_length|].
  intros j c Hc. destruct (H j c Hc) as [added [H1 [H2 H3]]].
  rewrite updateAt_nth. destruct (Nat.eqb_spec i j) as [->|Hij].
  - rewrite H1. cbn [option_map]. unfold addPractice. cbn [practices].
    destruct (existsb _ _) eqn:E.
    + exists added. repeat split; auto; now apply H3.
    + exists (added ++ [practice])%list. cbn [name description].
      rewrite app_assoc. split; [reflexivity|].
      assert (~ In (normalize practice)
                (map normalize (practices c ++ added))) as Hnot.
      { intros Hin. apply existsb_normalize in Hin. congruence. }
      rewrite map_app, in_app_iff in Hnot. split.
      * rewrite map_app. apply NoDup_app; [exact H2 | |].
        -- repeat constructor. intros [].
        -- intros a Ha [<-|[]]. tauto.
      * intros a Ha. apply in_app_or in Ha. destruct Ha as [Ha|[<-|[]]].
        -- now apply H3.
        -- split; [tauto | exact Hal].
  - exists added. repeat split; auto; now apply H3.
Qed.

End MergeAppends.

(** ** What the repair loop never does *)

Section LoopKeeps.
Import CategoryMapper.
Variable random : nat -> nat -> nat.
Variable yamlLoad : string -> YamlLoad.
Variable retryResponse : nat -> string.
Variable originalPractices : list (string * string).

(** *** A mapping without duplicates *)

Lemma markRemovals_none (m : list (string * list Location)) (drawn : nat) :
  (forall k ls, In (k, ls) m -> List.length ls <= 1) ->
  markRemovals random m drawn = ([], drawn).
Proof.
  induction m as [|[k ls] m IH]; intros H; simpl; [reflexivity|].
  assert (List.length ls <= 1) as L by (apply (H k); now left).
  destruct (Nat.ltb_spec 1 (List.length ls)); [lia|].
  apply IH. intros k' ls' Hin. apply (H k'). now right.
Qed.

Lemma NoDup_map_eq {A B : Type} (f : A -> B) (l : list A) (a b : A) :
  NoDup (map f l) -> In a l -> In b l -> f a = f b -> a = b.
Proof.
  induction l as [|x l IH]; simpl; [tauto|].
  intros Hnd Ha Hb E. inversion Hnd as [|? ? Hx Hnd']; subst.
  destruct Ha as [->|Ha], Hb as [->|Hb]; auto.
  - exfalso. apply Hx. rewrite E. now apply in_map.
  - exfalso. apply Hx. rewrite <- E. now apply in_map.
Qed.

Lemma distinct_single_occurrence (data : StandardsMapping) (k : string) :
  NoDup (map normalize (filter JS.truthy (allPractices data))) ->
  List.length (occurrences data k) <= 1.
Proof.
  intros Hnd.
  rewrite (allPractices_locations 0 data), <- allLocations_locateAllFrom
    in Hnd.
  rewrite filter_map_swap, map_map in Hnd.
  destruct (occurrences data k) as [|a [|b l]] eqn:E; simpl; try lia.
  exfalso.
  assert (In a (occurrences data k)) as Ha by (rewrite E; now left).
  assert (In b (occurrences data k)) as Hb by (rewrite E; right; now left).
  pose proof (occurrences_NoDup data k) as Hn. rewrite E in Hn.
  apply occurrences_In in Ha as [A1 [A2 A3]].
  apply occurrences_In in Hb as [B1 [B2 B3]].
  assert (a = b) as ->.
  { apply (NoDup_map_eq _ _ a b Hnd).
    - apply filter_In. split; [exact A1 | now apply truthy_true_iff].
    - apply filter_In. split; [exact B1 | now apply truthy_true_iff].
    - unfold key in A3, B3. congruence. }
  inversion Hn as [|? ? Hx _]. apply Hx. now left.
Qed.

Lemma removeDuplicates_distinct (data : StandardsMapping) (drawn : nat) :
  NoDup (map normalize (filter JS.truthy (allPractices data))) ->
  removeDuplicatesRandomly random data drawn = (data, 0, drawn).
Proof.
  intros Hnd.
  assert (markRemovals random (practiceLocations data) drawn = ([], drawn))
    as E.
  { apply markRemovals_none. intros k ls Hin.
    destruct (practiceLocations_spec data) as [_ H].
    destruct (H k ls Hin) as [-> _].
    now apply distinct_single_occurrence. }
  unfold removeDuplicatesRandomly. rewrite E. reflexivity.
Qed.

Lemma findMissing_nil_iff (mapping : StandardsMapping) :
  findMissingPractices originalPractices mapping = []
  <-> forall k, In k (map fst originalPractices) ->
                In k (mappedPractices mapping).
Proof.
  split.
  - intros E k Hk. apply in_map_iff in Hk as [[k' v] [<- Hin]]. simpl.
    destruct (in_dec string_dec k' (mappedPractices mapping)) as [H|H];
      [exact H|].
    exfalso.
    assert (In v (findMissingPractices originalPractices mapping)) as Hv
      by (apply findMissing_In; now exists k').
    rewrite E in Hv. destruct Hv.
  - intros H.
    destruct (findMissingPractices originalPractices mapping) as [|v l] eqn:E;
      [reflexivity|].
    exfalso.
    assert (In v (findMissingPractices originalPractices mapping)) as Hv
      by (rewrite E; now left).
    apply findMissing_In in Hv as [k [H1 H2]]. apply H2, H.
    apply in_map_iff. now exists (k, v).
Qed.

Lemma postProcess_settled (mapping : StandardsMapping) (drawn : nat) :
  NoDup (map normalize (filter JS.truthy (allPractices mapping))) ->
  (forall k, In k (map fst originalPractices) ->
             In k (mappedPractices mapping)) ->
  postProcessMapping random yamlLoad retryResponse originalPractices
    mapping drawn = mapping.
Proof.
  intros Hnd Hall. apply findMissing_nil_iff in Hall.
  assert (validationLoop random yamlLoad retryResponse originalPractices
            MAX_RETRIES 1 mapping drawn = (mapping, drawn)) as E.
  { unfold MAX_RETRIES at 1. rewrite validationLoop_step. cbv zeta.
    unfold dedupResult, dedupDrawn.
    rewrite (removeDuplicates_distinct mapping drawn Hnd). cbn [fst snd].
    now rewrite Hall. }
  unfold postProcessMapping. rewrite E, Hall. reflexivity.
Qed.

(** X15.  A mapping whose non-empty members have distinct normalised
    names is left alone: duplicate resolution returns it as it is, counts
    no removal and draws no random number; and when every original
    practice is a member of it, it is a fixed point of post-processing,
    which returns it whatever the classifier would answer. *)
Theorem settled_mapping_left_alone (mapping : StandardsMapping)
  (drawn : nat) :
  NoDup (map normalize (filter JS.truthy (allPractices mapping))) ->
  removeDuplicatesRandomly random mapping drawn = (mapping, 0, drawn)
  /\ ((forall k, In k (map fst originalPractices) ->
                 In k (mappedPractices mapping)) ->
      postProcessMapping random yamlLoad retryResponse originalPractices
        mapping drawn = mapping).
Proof.
  intros Hnd. split; [now apply removeDuplicates_distinct|].
  now apply postProcess_settled.
Qed.

End LoopKeeps.

Lemma settled_mapping_left_alone_witness :
  CategoryMapper.removeDuplicatesRandomly (fun _ _ => 0) ghostMapping 3
  = (ghostMapping, 0, 3)
  /\ ((forall k,
         In k (map fst (CategoryMapper.extractOriginalPracticeNames
                          onePractice)) ->
         In k (CategoryMapper.mappedPractices ghostMapping)) ->
      CategoryMapper.postProcessMapping (fun _ _ => 0)
        (fun _ => CategoryMapper.YamlException) (fun _ => "")
        (CategoryMapper.extractOriginalPracticeNames onePractice)
        ghostMapping 3
      = ghostMapping).
Proof.
  apply (settled_mapping_left_alone (fun _ _ => 0)
           (fun _ => CategoryMapper.YamlException) (fun _ => "")
           (CategoryMapper.extractOriginalPracticeNames onePractice)
           ghostMapping 3).
  vm_compute. repeat constructor; simpl; intuition discriminate.
Defined.

(** ** Reading the YAML out of an answer *)

Lemma trimEnd_cons (c : ascii) (r : string) :
  JS.trimEnd (String c r)
  = match JS.trimEnd r with
    | EmptyString => if JS.isWhiteSpace c then EmptyString else String c ""
    | r' => String c r'
    end.
Proof. reflexivity. Qed.

Lemma trimEnd_idempotent (s : string) : JS.trimEnd (JS.trimEnd s) = JS.trimEnd s.
Proof.
  induction s as [|c s IH]; [reflexivity|]. rewrite trimEnd_cons.
  destruct (JS.trimEnd s) as [|d r] eqn:E.
  - destruct (JS.isWhiteSpace c) eqn:W; [reflexivity|].
    rewrite trimEnd_cons. simpl. now rewrite W.
  - rewrite trimEnd_cons, IH. reflexivity.
Qed.

Lemma trimStart_head (s : string) :
  match JS.trimStart s with
  | EmptyString => True
  | String c _ => JS.isWhiteSpace c = false
  end.
Proof.
  induction s as [|c s IH]; simpl; [exact I|].
  destruct (JS.isWhiteSpace c) eqn:W; [exact IH | exact W].
Qed.

Lemma trimStart_trimEnd (t : string) :
  match t with
  | EmptyString => True
  | String c _ => JS.isWhiteSpace c = false
  end ->
  JS.trimStart (JS.trimEnd t) = JS.trimEnd t.
Proof.
  destruct t as [|c r]; [reflexivity|]. intros W. rewrite trimEnd_cons.
  destruct (JS.trimEnd r); rewrite ?W; cbn [JS.trimStart]; now rewrite W.
Qed.

Lemma trim_idempotent (s : string) : JS.trim (JS.trim s) = JS.trim s.
Proof.
  unfold JS.trim.
  rewrite (trimStart_trimEnd (JS.trimStart s) (trimStart_head s)).
  apply trimEnd_idempotent.
Qed.

(** Whether a character occurs in a string. *)
Fixpoint hasChar (c : ascii) (s : string) : bool :=
  match s with
  | EmptyString => false
  | String d r => Ascii.eqb d c || hasChar c r
  end.

Lemma append_empty_r (s : string) : s ++ "" = s.
Proof. induction s as [|c s IH]; simpl; congruence. Qed.

Lemma append_assoc (a b c : string) : (a ++ b) ++ c = a ++ (b ++ c).
Proof. induction a as [|x a IH]; simpl; congruence. Qed.

Lemma prefix_append (s r : string) : String.prefix s (s ++ r) = true.
Proof.
  induction s as [|c s IH]; simpl; [now destruct r|].
  destruct (ascii_dec c c); [exact IH | congruence].
Qed.

(** A text is not found before the end of a stretch that does not hold
    its first character. *)
Lemma index_skip (s1 : string) (c0 : ascii) (s1' pre rest : string) :
  s1 = String c0 s1' ->
  hasChar c0 pre = false ->
  String.index 0 s1 (pre ++ rest)
  = option_map (Nat.add (String.length pre)) (String.index 0 s1 rest).
Proof.
  intros ->. induction pre as [|c pre IH]; intros H.
  - simpl. now destruct (String.index 0 (String c0 s1') rest).
  - simpl in H. apply orb_false_iff in H as [Hc Hp].
    apply Ascii.eqb_neq in Hc.
    change (String c pre ++ rest) with (String c (pre ++ rest)).
    cbn [String.index String.prefix].
    destruct (ascii_dec c0 c) as [->|_]; [congruence|].
    rewrite (IH Hp).
    now destruct (String.index 0 (String c0 s1') rest).
Qed.

Lemma index_here (s1 : string) (c0 : ascii) (s1' rest : string) :
  s1 = String c0 s1' -> String.index 0 s1 (s1 ++ rest) = Some 0.
Proof.
  intros ->.
  change (String c0 s1' ++ rest) with (String c0 (s1' ++ rest)).
  cbn [String.index].
  change (String c0 (s1' ++ rest)) with (String c0 s1' ++ rest).
  now rewrite prefix_append.
Qed.

Lemma index_absent (s1 : string) (c0 : ascii) (s1' s : string) :
  s1 = String c0 s1' ->
  hasChar c0 s = false -> String.index 0 s1 s = None.
Proof.
  intros E H. rewrite <- (append_empty_r s), (index_skip s1 c0 s1' s "" E H).
  subst s1. reflexivity.
Qed.

Lemma length_append (a b : string) :
  String.length (a ++ b) = String.length a + String.length b.
Proof. induction a as [|c a IH]; simpl; congruence. Qed.

Lemma substring_all (s : string) : String.substring 0 (String.length s) s = s.
Proof. induction s as [|c s IH]; simpl; congruence. Qed.

Lemma substring_head (a b : string) :
  String.substring 0 (String.length a) (a ++ b) = a.
Proof.
  induction a as [|c a IH]; simpl; [now destruct b | congruence].
Qed.

Lemma substring_tail (a b : string) :
  String.substring (String.length a)
    (String.length (a ++ b) - String.length a) (a ++ b) = b.
Proof.
  rewrite length_append.
  replace (String.length a + String.length b - String.length a)
    with (String.length b) by lia.
  induction a as [|c a IH]; simpl; [apply substring_all | exact IH].
Qed.

Definition BACKQUOTE : ascii := "`"%char.

Lemma OPEN_YAML_head :
  CategoryMapper.OPEN_YAML = String BACKQUOTE ("``yaml" ++ JS.NL).
Proof. reflexivity. Qed.

Lemma OPEN_YML_head :
  CategoryMapper.OPEN_YML = String BACKQUOTE ("``yml" ++ JS.NL).
Proof. reflexivity. Qed.

Lemma FENCE_head : CategoryMapper.FENCE = String BACKQUOTE "``".
Proof. reflexivity. Qed.

Lemma afterOpeningFence_first (pre opening tail : string) :
  opening = CategoryMapper.OPEN_YAML \/ opening = CategoryMapper.OPEN_YML ->
  hasChar BACKQUOTE pre = false ->
  CategoryMapper.afterOpeningFence (pre ++ opening ++ tail)
  = Some (String.length pre + String.length opening).
Proof.
  intros Ho Hp. unfold CategoryMapper.afterOpeningFence.
  rewrite (index_skip _ _ _ pre _ OPEN_YAML_head Hp).
  rewrite (index_skip _ _ _ pre _ OPEN_YML_head Hp).
  destruct Ho as [->| ->].
  - rewrite (index_here _ _ _ tail OPEN_YAML_head).
    destruct (String.index 0 CategoryMapper.OPEN_YML _) as [n|];
      cbn [option_map]; rewrite Nat.add_0_r; [|reflexivity].
    destruct (Nat.leb_spec (String.length pre) (String.length pre + n));
      [reflexivity | lia].
  - rewrite (index_here _ _ _ tail OPEN_YML_head).
    destruct (String.index 0 CategoryMapper.OPEN_YAML _) as [[|n]|] eqn:E;
      cbn [option_map]; rewrite Nat.add_0_r; [| |reflexivity].
    + exfalso. apply String.index_correct1 in E. simpl in E. discriminate.
    + destruct (Nat.leb_spec (String.length pre + S n) (String.length pre));
        [lia | reflexivity].
Qed.

(** X17.  An answer that holds its YAML in a fenced block gives the
    text between the fences, trimmed: the text before the opening fence
    (either spelling, yaml or yml) and the text after the closing fence
    are ignored.  An answer without a backquote is taken whole,
    trimmed. *)
Theorem parseLLMResponse_fenced (pre opening body post : string) :
  opening = CategoryMapper.OPEN_YAML \/ opening = CategoryMapper.OPEN_YML ->
  hasChar BACKQUOTE pre = false ->
  hasChar BACKQUOTE body = false ->
  body <> "" ->
  CategoryMapper.parseLLMResponse
    (pre ++ opening ++ body ++ CategoryMapper.FENCE ++ post)
  = JS.trim body
  /\ CategoryMapper.parseLLMResponse body = JS.trim body.
Proof.
  intros Ho Hp Hb Hne. split.
  - unfold CategoryMapper.parseLLMResponse.
    rewrite (afterOpeningFence_first pre opening _ Ho Hp).
    rewrite <- length_append, <- append_assoc, substring_tail.
    rewrite (index_skip _ _ _ body _ FENCE_head Hb).
    rewrite (index_here _ _ _ post FENCE_head). cbn [option_map].
    rewrite Nat.add_0_r, substring_head.
    apply truthy_true_iff in Hne. now rewrite Hne.
  - unfold CategoryMapper.parseLLMResponse, CategoryMapper.afterOpeningFence.
    rewrite (index_absent _ _ _ body OPEN_YAML_head Hb).
    now rewrite (index_absent _ _ _ body OPEN_YML_head Hb).
Qed.

Lemma parseLLMResponse_fenced_witness :
  CategoryMapper.parseLLMResponse
    ("Here is the mapping:" ++ JS.NL ++ CategoryMapper.OPEN_YAML
     ++ "standards: []" ++ JS.NL ++ CategoryMapper.FENCE ++ JS.NL ++ "Done.")
  = "standards: []".
Proof.
  exact (proj1 (parseLLMResponse_fenced ("Here is the mapping:" ++ JS.NL)
                  CategoryMapper.OPEN_YAML ("standards: []" ++ JS.NL)
                  (JS.NL ++ "Done.")
                  (or_introl eq_refl) eq_refl eq_refl
                  ltac:(discriminate))).
Defined.

(** X18.  The text [parseLLMResponse] returns has no whitespace at either
    end: trimming it again changes nothing. *)
Theorem parseLLMResponse_trimmed (response : string) :
  JS.trim (CategoryMapper.parseLLMResponse response)
  = CategoryMapper.parseLLMResponse response.
Proof.
  unfold CategoryMapper.parseLLMResponse.
  destruct (CategoryMapper.afterOpeningFence response) as [start|];
    [|apply trim_idempotent].
  destruct (String.index 0 CategoryMapper.FENCE _) as [stop|];
    [|apply trim_idempotent].
  destruct (JS.truthy _); apply trim_idempotent.
Qed.

(** ** The examples of the YAML export *)

Section YamlExamples.
Variable contextLines : Z.

Lemma separateByCompliance_filter (examples : list CodeExample.t) :
  YamlExporter.separateByCompliance examples
  = (map YamlExporter.toOutputFormat (filter CodeExample.isPositive examples),
     map YamlExporter.toOutputFormat
       (filter (fun e => negb (CodeExample.isPositive e)) examples)).
Proof.
  unfold YamlExporter.separateByCompliance.
  assert (forall acc,
            fold_left
              (fun acc example =>
                 let output := YamlExporter.toOutputFormat example in
                 if CodeExample.isPositive example
                 then ((fst acc ++ [output])%list, snd acc)
                 else (fst acc, (snd acc ++ [output])%list))
              examples acc
            = ((fst acc
                ++ map YamlExporter.toOutputFormat
                     (filter CodeExample.isPositive examples))%list,
               (snd acc
                ++ map YamlExporter.toOutputFormat
                     (filter (fun e => negb (CodeExample.isPositive e))
                             examples))%list)) as H.
  { induction examples as [|e l IH]; intros [p n]; simpl.
    - now rewrite !app_nil_r.
    - rewrite IH. destruct (CodeExample.isPositive e); simpl;
        now rewrite <- !app_assoc. }
  now rewrite H.
Qed.

(** The examples of one polarity in the export of a practice: those of
    the unit tests, then those of the file examples. *)
Definition exportedTests (practice : ParsedPractice.t) (polarity : bool)
  : list CodeExampleOutput.t :=
  map (fun test =>
         YamlExporter.toOutputFormat
           (YamlExporter.processUnitTest test
              (Convertor.inferLanguage practice)))
      (filter (fun test => Bool.eqb (DetectionUnitTest.isCompliant test) polarity)
              (unitTests practice)).

Definition exportedFiles (practice : ParsedPractice.t) (polarity : bool)
  : list CodeExampleOutput.t :=
  map (fun example =>
         YamlExporter.toOutputFormat
           (YamlExporter.processFileWorkshopExample contextLines example))
      (filter (fun example => Bool.eqb (Example.isPositive example) polarity)
              (ParsedPractice.examples practice)).

Lemma convertPractice_examples (practice : ParsedPractice.t) :
  let exported := YamlExporter.convertPractice contextLines practice in
  YamlPractice.positive_examples exported
  = (exportedTests practice true ++ exportedFiles practice true)%list
  /\ YamlPractice.negative_examples exported
     = (exportedTests practice false ++ exportedFiles practice false)%list.
Proof.
  unfold YamlExporter.convertPractice, exportedTests, exportedFiles, unitTests.
  cbv zeta. cbn [YamlPractice.positive_examples YamlPractice.negative_examples].
  rewrite separateByCompliance_filter. cbn [fst snd].
  rewrite !filter_app, !map_app, !filter_map_swap, !map_map.
  cbn [YamlExporter.processUnitTest YamlExporter.processFileWorkshopExample
       CodeExample.isPositive].
  rewrite !filter_eqb_true, !filter_eqb_false.
  unfold YamlExporter.inferLanguage. split; reflexivity.
Qed.

(** X19.  The YAML export holds every unit test of a practice, whatever
    the state of its tooling and also when suggestions are disabled, and
    every file example: under each polarity the examples of the unit tests
    come first, in the inferred language, then those of the file examples;
    nothing is lost. *)
Theorem export_holds_all_examples (practice : ParsedPractice.t) :
  let exported := YamlExporter.convertPractice contextLines practice in
  YamlPractice.positive_examples exported
  = (exportedTests practice true ++ exportedFiles practice true)%list
  /\ YamlPractice.negative_examples exported
     = (exportedTests practice false ++ exportedFiles practice false)%list
  /\ (List.length (YamlPractice.positive_examples exported)
      + List.length (YamlPractice.negative_examples exported)
      = List.length (unitTests practice)
        + List.length (ParsedPractice.examples practice))%nat.
Proof.
  cbv zeta. destruct (convertPractice_examples practice) as [Hp Hn].
  split; [exact Hp|]. split; [exact Hn|].
  rewrite Hp, Hn. unfold exportedTests, exportedFiles.
  rewrite !length_app, !length_map, !filter_eqb_true, !filter_eqb_false.
  pose proof (filter_length DetectionUnitTest.isCompliant (unitTests practice)).
  pose proof (filter_length Example.isPositive (ParsedPractice.examples practice)).
  lia.
Qed.

Lemma minify_tests (practice : ParsedPractice.t) (polarity : bool) :
  YamlMinifier.filterUnitTestExamples (exportedTests practice polarity) = [].
Proof.
  unfold YamlMinifier.filterUnitTestExamples, exportedTests.
  induction (filter _ (unitTests practice)) as [|t l IH]; [reflexivity|].
  exact IH.
Qed.

Lemma minify_files (practice : ParsedPractice.t) (polarity : bool) :
  YamlMinifier.filterUnitTestExamples (exportedFiles practice polarity)
  = exportedFiles practice polarity.
Proof.
  unfold YamlMinifier.filterUnitTestExamples, exportedFiles.
  induction (filter _ (ParsedPractice.examples practice)) as [|t l IH];
    [reflexivity|].
  simpl. f_equal. exact IH.
Qed.

(** X20.  Minifying the export of a practice leaves exactly its file
    examples: every example of a unit test is removed, every example of a
    file is kept, in order, and the name, the description and the sorted
    categories are those of the export. *)
Theorem minified_export_is_file_examples (practice : ParsedPractice.t) :
  let minified :=
    YamlMinifier.minifyPractice
      (YamlExporter.convertPractice contextLines practice) in
  YamlMinifier.positive_examples minified = exportedFiles practice true
  /\ YamlMinifier.negative_examples minified = exportedFiles practice false
  /\ (List.length (YamlMinifier.positive_examples minified)
      + List.length (YamlMinifier.negative_examples minified)
      = List.length (ParsedPractice.examples practice))%nat
  /\ YamlMinifier.name minified = ParsedPractice.name practice
  /\ YamlMinifier.description minified = ParsedPractice.description practice
  /\ YamlMinifier.categories minified
     = JSString.sorted (ParsedPractice.categories practice).
Proof.
  cbv zeta. destruct (convertPractice_examples practice) as [Hp Hn].
  unfold YamlMinifier.minifyPractice.
  cbn [YamlMinifier.positive_examples YamlMinifier.negative_examples
       YamlMinifier.name YamlMinifier.description YamlMinifier.categories].
  rewrite Hp, Hn. unfold YamlMinifier.filterUnitTestExamples.
  rewrite !filter_app.
  fold (YamlMinifier.filterUnitTestExamples (exportedTests practice true)).
  fold (YamlMinifier.filterUnitTestExamples (exportedTests practice false)).
  fold (YamlMinifier.filterUnitTestExamples (exportedFiles practice true)).
  fold (YamlMinifier.filterUnitTestExamples (exportedFiles practice false)).
  rewrite !minify_tests, !minify_files. cbn [app].
  split; [reflexivity|]. split; [reflexivity|]. split; [|auto].
  unfold exportedFiles.
  rewrite !length_map, !filter_eqb_true, !filter_eqb_false.
  pose proof (filter_length Example.isPositive (ParsedPractice.examples practice)).
  lia.
Qed.

End YamlExamples.

(** ** Successful tooling and the detection policy *)

(** X21.  A practice whose detection the converter includes is counted
    by the statistics as one with a successful tooling.  The converse
    fails: the statistics also count a tooling whose status is written in
    another case or is COMPLETED, and one of a practice whose suggestions
    are disabled, none of which the converter includes. *)
Theorem included_detection_is_successful_tooling :
  (forall practice,
      Convertor.shouldIncludeDetection practice = true ->
      OutputAnalysis.hasSuccessfulTooling practice = true)
  /\ (forall status disabled,
        JS.toLowerCase status = "success"
        \/ JS.toLowerCase status = "completed" ->
        OutputAnalysis.hasSuccessfulTooling
          (mockPractice disabled (Some (kotlinToolings status)) [] []) = true
        /\ (status <> "SUCCESS" \/ disabled = true ->
            Convertor.shouldIncludeDetection
              (mockPractice disabled (Some (kotlinToolings status)) [] [])
            = false)).
Proof.
  split.
  - intros practice. unfold Convertor.shouldIncludeDetection,
      OutputAnalysis.hasSuccessfulTooling.
    destruct (ParsedPractice.suggestionsDisabled practice) as [[|]|];
      try discriminate;
      (destruct (ParsedPractice.toolings practice) as [t|]; [|discriminate]);
      intros H; apply String.eqb_eq in H; rewrite H; reflexivity.
  - intros status disabled Hs. split.
    + unfold OutputAnalysis.hasSuccessfulTooling. simpl.
      destruct Hs as [-> | ->]; reflexivity.
    + intros H. unfold Convertor.shouldIncludeDetection. simpl.
      destruct disabled; [reflexivity|].
      destruct H as [H|H]; [|discriminate].
      now apply String.eqb_neq.
Qed.

(** ** The default order of strings *)

Section StringOrder.

Definition notAfter (a b : string) : Prop := String.compare a b <> Gt.

Lemma defaultCompare_notAfter (a b : string) :
  (JSString.defaultCompare a b <= 0)%Z <-> notAfter a b.
Proof.
  unfold JSString.defaultCompare, notAfter.
  destruct (String.compare a b); split; intros H; try lia; congruence.
Qed.

Lemma compare_refl (a : string) : String.compare a a = Eq.
Proof.
  induction a as [|c a IH]; simpl; [reflexivity|].
  unfold Ascii.compare. now rewrite N.compare_refl.
Qed.

Lemma notAfter_total (a b : string) : notAfter a b \/ notAfter b a.
Proof.
  unfold notAfter. rewrite (String.compare_antisym b a).
  destruct (String.compare a b); simpl;
    [left | left | right]; discriminate.
Qed.

Lemma notAfter_trans (a b c : string) :
  notAfter a b -> notAfter b c -> notAfter a c.
Proof.
  unfold notAfter. revert b c.
  induction a as [|x a IH]; intros [|y b] [|z c]; simpl; try congruence.
  unfold Ascii.compare.
  destruct (N.compare_spec (N_of_ascii x) (N_of_ascii y)) as [E1|L1|G1];
    destruct (N.compare_spec (N_of_ascii y) (N_of_ascii z)) as [E2|L2|G2];
    destruct (N.compare_spec (N_of_ascii x) (N_of_ascii z)) as [E3|L3|G3];
    try congruence; try lia; try discriminate.
  apply IH.
Qed.

Lemma notAfter_antisym (a b : string) :
  notAfter a b -> notAfter b a -> a = b.
Proof.
  unfold notAfter. rewrite (String.compare_antisym b a).
  destruct (String.compare a b) eqn:E; simpl; try congruence.
  intros _ _. now apply String.compare_eq_iff.
Qed.

(** What [[...xs].sort()] returns is in order and holds the strings of
    the array. *)
Lemma sorted_spec (xs : list string) :
  StronglySorted notAfter (JSString.sorted xs)
  /\ Permutation (JSString.sorted xs) xs.
Proof.
  split; [|apply sortBy_perm]. unfold JSString.sorted.
  eapply StronglySorted_weaken;
    [|apply (sortBy_sorted JSString.defaultCompare)].
  - intros a b H. now apply defaultCompare_notAfter.
  - intros a b. destruct (notAfter_total a b) as [H|H];
      [left | right]; now apply defaultCompare_notAfter.
  - intros a b c H1 H2. apply defaultCompare_notAfter.
    apply defaultCompare_notAfter in H1, H2.
    eapply notAfter_trans; eauto.
Qed.

Lemma insertBy_in_order (x : string) (l : list string) :
  StronglySorted notAfter (x :: l) ->
  JSArray.insertBy JSString.defaultCompare x l = x :: l.
Proof.
  destruct l as [|y l]; [reflexivity|]. intros H. simpl.
  inversion H as [|? ? _ Hx]; subst. inversion Hx as [|? ? Hy _]; subst.
  apply defaultCompare_notAfter in Hy.
  destruct (Z.leb_spec (JSString.defaultCompare x y) 0); [reflexivity | lia].
Qed.

Lemma sorted_in_order (l : list string) :
  StronglySorted notAfter l -> JSString.sorted l = l.
Proof.
  unfold JSString.sorted. induction l as [|x l IH]; [reflexivity|].
  intros H. simpl. inversion H as [|? ? Hl Hx]; subst.
  rewrite (IH Hl). now apply insertBy_in_order.
Qed.

End StringOrder.

(** ** The file extensions of a practice *)

Section FileExtensions.

Lemma indexOf_In (x : string) (l : list string) :
  In x l -> exists i, OutputAnalysis.indexOf x l = Some i
                      /\ nth_error l i = Some x.
Proof.
  induction l as [|y l IH]; [intros []|]. simpl.
  destruct (String.eqb_spec y x) as [->|N].
  - intros _. exists 0. auto.
  - intros [H|H]; [contradiction|].
    destruct (IH H) as [i [H1 H2]]. exists (S i). now rewrite H1.
Qed.

Lemma entries_from_In {A : Type} (l : list A) (k i : nat) (x : A) :
  nth_error l i = Some x ->
  In ((k + i)%nat, x) (combine (seq k (List.length l)) l).
Proof.
  revert k i. induction l as [|y l IH]; intros k [|i] H; try discriminate.
  - simpl in H. injection H as ->. rewrite Nat.add_0_r. now left.
  - simpl. right. replace (k + S i)%nat with (S k + i)%nat by lia.
    now apply IH.
Qed.

Lemma entries_from_fst {A : Type} (l : list A) (k : nat) :
  map fst (combine (seq k (List.length l)) l) = seq k (List.length l).
Proof.
  revert k. induction l as [|y l IH]; intros k; simpl; [reflexivity|].
  now rewrite IH.
Qed.

Lemma entries_NoDup {A : Type} (l : list A) :
  NoDup (CategoryMapper.entries l).
Proof.
  apply (NoDup_map_inv fst). unfold CategoryMapper.entries.
  rewrite entries_from_fst. apply seq_NoDup.
Qed.

(** The elements an array keeps when each is kept at the index
    [indexOf] gives it: each of its elements once. *)
Definition keptAtFirstIndex (l : list string) : list string :=
  map snd
    (filter (fun entry =>
               match OutputAnalysis.indexOf (snd entry) l with
               | Some i => (i =? fst entry)%nat
               | None => false
               end)
            (CategoryMapper.entries l)).

Lemma keptAtFirstIndex_spec (l : list string) :
  NoDup (keptAtFirstIndex l)
  /\ forall x, In x (keptAtFirstIndex l) <-> In x l.
Proof.
  unfold keptAtFirstIndex. split.
  - apply NoDup_map_filter_inj; [apply entries_NoDup|].
    intros [i a] [j b] _ _ Hi Hj E. simpl in *. subst b.
    destruct (OutputAnalysis.indexOf a l) as [k|]; [|discriminate].
    apply Nat.eqb_eq in Hi, Hj. congruence.
  - intros x. rewrite in_map_iff. split.
    + intros [[i a] [<- H]]. apply filter_In in H as [H _].
      now apply in_combine_r in H.
    + intros H. destruct (indexOf_In x l H) as [i [H1 H2]].
      exists (i, x). split; [reflexivity|]. apply filter_In. split.
      * exact (entries_from_In l 0 i x H2).
      * simpl. rewrite H1. apply Nat.eqb_refl.
Qed.

Lemma split_pieces (sep : ascii) (s piece : string) :
  In piece (JS.split sep s) -> hasChar sep piece = false.
Proof.
  revert piece. induction s as [|c s IH]; intros piece; simpl.
  - intros [<-|[]]. reflexivity.
  - destruct (Ascii.eqb c sep) eqn:E.
    + intros [<-|H]; [reflexivity | now apply IH].
    + destruct (JS.split sep s) as [|h t] eqn:Es.
      * intros [<-|[]]. simpl. now rewrite E.
      * intros [<-|H].
        -- simpl. rewrite E. apply IH. now left.
        -- apply IH. now right.
Qed.

Lemma last_In {A : Type} (l : list A) (d : A) : l <> [] -> In (last l d) l.
Proof.
  induction l as [|x l IH]; [congruence|]. intros _.
  destruct l as [|y l]; [now left|]. right. apply IH. discriminate.
Qed.

Lemma lastPiece_no_dot (path : string) :
  hasChar "."%char (OutputAnalysis.lastPiece path) = false.
Proof.
  apply (split_pieces "."%char path). apply last_In. apply split_not_nil.
Qed.

Lemma StronglySorted_NoDup_strict (l : list string) :
  StronglySorted notAfter l -> NoDup l ->
  StronglySorted (fun a b => String.compare a b = Lt) l.
Proof.
  induction 1 as [|x l Hl IH Hx]; intros Hnd; constructor.
  - apply IH. now inversion Hnd.
  - inversion Hnd as [|? ? Hin _]; subst.
    rewrite Forall_forall in *. intros y Hy.
    specialize (Hx y Hy). unfold notAfter in Hx.
    destruct (String.compare x y) eqn:E; [|reflexivity|congruence].
    apply String.compare_eq_iff in E. subst. contradiction.
Qed.

(** X22.  The file extensions shown for a practice: one entry for each
    distinct extension of the file examples that have a path, in strictly
    ascending order; an entry is a dot followed by the last dot-free piece
    of a path (the whole path when it has no dot). *)
Theorem extractFileExtensions_spec (practice : ParsedPractice.t) :
  let extensions := OutputAnalysis.extractFileExtensions practice in
  StronglySorted (fun a b => String.compare a b = Lt) extensions
  /\ (forall ext,
        In ext extensions
        <-> exists example,
              In example (ParsedPractice.examples practice)
              /\ FileWorkshop.path (Example.fileWorkshop example) <> ""
              /\ ext = "." ++ OutputAnalysis.lastPiece
                                (FileWorkshop.path
                                   (Example.fileWorkshop example)))
  /\ (forall path,
        hasChar "."%char (OutputAnalysis.lastPiece path) = false
        /\ (hasChar "."%char path = false ->
            OutputAnalysis.lastPiece path = path)).
Proof.
  cbv zeta. unfold OutputAnalysis.extractFileExtensions.
  set (all := map (fun path => "." ++ OutputAnalysis.lastPiece path)
                (filter JS.truthy
                   (map (fun ex => FileWorkshop.path (Example.fileWorkshop ex))
                        (ParsedPractice.examples practice)))).
  fold (keptAtFirstIndex all).
  destruct (keptAtFirstIndex_spec all) as [Hnd Hin].
  destruct (sorted_spec (keptAtFirstIndex all)) as [Hs Hp].
  split; [|split].
  - apply StronglySorted_NoDup_strict; [exact Hs|].
    eapply Permutation_NoDup; [apply Permutation_sym; exact Hp | exact Hnd].
  - intros ext. split.
    + intros H. apply (Permutation_in _ Hp) in H. apply Hin in H.
      subst all. apply in_map_iff in H as [path [<- H]].
      apply filter_In in H as [H T]. apply in_map_iff in H as [ex [<- Hex]].
      exists ex. split; [exact Hex|]. split; [|reflexivity].
      now apply truthy_true_iff.
    + intros [ex [Hex [Hne ->]]].
      apply (Permutation_in _ (Permutation_sym Hp)). apply Hin.
      subst all. apply in_map_iff.
      exists (FileWorkshop.path (Example.fileWorkshop ex)).
      split; [reflexivity|]. apply filter_In.
      split; [|now apply truthy_true_iff].
      apply in_map_iff. now exists ex.
  - intros path. split; [apply lastPiece_no_dot|].
    intros H. unfold OutputAnalysis.lastPiece.
    assert (JS.split "."%char path = [path]) as ->; [|reflexivity].
    induction path as [|c path IH]; [reflexivity|].
    simpl in *. apply orb_false_iff in H as [H1 H2].
    rewrite H1, (IH H2). reflexivity.
Qed.

End FileExtensions.

(** ** The shape of a slug *)

Section Slugs.
Import IndexTools.

Fixpoint allSlugChars (s : string) : bool :=
  match s with
  | EmptyString => true
  | String c r => isSlugChar c && allSlugChars r
  end.

(** No two hyphens in a row, and no hyphen first when [afterHyphen]. *)
Fixpoint hyphensApart (afterHyphen : bool) (s : string) : bool :=
  match s with
  | EmptyString => true
  | String c r => negb (afterHyphen && isHyphen c) && hyphensApart (isHyphen c) r
  end.

Fixpoint endsWithHyphen (s : string) : bool :=
  match s with
  | EmptyString => false
  | String c EmptyString => isHyphen c
  | String c r => endsWithHyphen r
  end.

Lemma isHyphen_eq (c : ascii) : isHyphen c = true -> c = HYPHEN.
Proof. apply Ascii.eqb_eq. Qed.

Lemma hyphen_isSlugChar : isSlugChar HYPHEN = true.
Proof. reflexivity. Qed.

Lemma replaceOthers_slug (s : string) : allSlugChars (replaceOthers s) = true.
Proof.
  induction s as [|c s IH]; simpl; [reflexivity|]. rewrite IH.
  destruct (isSlugChar c) eqn:E; [now rewrite E | reflexivity].
Qed.

Lemma replaceRuns_slug (p : ascii -> bool) (b : bool) (s : string) :
  allSlugChars s = true -> allSlugChars (replaceRuns p b s) = true.
Proof.
  revert b. induction s as [|c s IH]; intros b; simpl; [reflexivity|].
  intros H. apply andb_true_iff in H as [H1 H2].
  destruct (p c); [destruct b|]; simpl; rewrite ?H1, ?IH; auto.
Qed.

Lemma replaceRuns_apart (b : bool) (s : string) :
  hyphensApart b (replaceRuns isHyphen b s) = true.
Proof.
  revert b. induction s as [|c s IH]; intros b; simpl; [reflexivity|].
  destruct (isHyphen c) eqn:E.
  - destruct b; [apply IH|]. simpl. apply IH.
  - simpl. rewrite E, andb_false_r. simpl. apply IH.
Qed.

Lemma stripStart_slug (s : string) :
  allSlugChars s = true -> allSlugChars (stripStart s) = true.
Proof.
  destruct s as [|c s]; simpl; [reflexivity|]. intros H.
  destruct (isHyphen c); [|exact H]. now apply andb_true_iff in H.
Qed.

Lemma stripStart_apart (s : string) :
  hyphensApart false s = true -> hyphensApart true (stripStart s) = true.
Proof.
  destruct s as [|c s]; simpl; [reflexivity|].
  destruct (isHyphen c) eqn:E; [auto|]. simpl. now rewrite E.
Qed.

Lemma stripEnd_cons (c d : ascii) (r : string) :
  stripEnd (String c (String d r)) = String c (stripEnd (String d r)).
Proof. reflexivity. Qed.

Lemma stripEnd_slug (s : string) :
  allSlugChars s = true -> allSlugChars (stripEnd s) = true.
Proof.
  induction s as [|c s IH]; [reflexivity|]. intros H.
  simpl in H. apply andb_true_iff in H as [H1 H2].
  destruct s as [|d r].
  - simpl. destruct (isHyphen c); [reflexivity|]. simpl. now rewrite H1.
  - rewrite stripEnd_cons. cbn [allSlugChars]. now rewrite H1, IH.
Qed.

Lemma stripEnd_apart (b : bool) (s : string) :
  hyphensApart b s = true -> hyphensApart b (stripEnd s) = true.
Proof.
  revert b. induction s as [|c s IH]; intros b; [reflexivity|]. intros H.
  cbn [hyphensApart] in H. apply andb_true_iff in H as [H1 H2].
  destruct s as [|d r].
  - simpl. destruct (isHyphen c) eqn:E; [reflexivity|]. simpl.
    rewrite E in *. now rewrite H1.
  - rewrite stripEnd_cons. cbn [hyphensApart]. rewrite H1. simpl.
    now apply IH.
Qed.

Lemma stripEnd_ends (b : bool) (s : string) :
  hyphensApart b s = true -> endsWithHyphen (stripEnd s) = false.
Proof.
  revert b. induction s as [|c s IH]; intros b; [reflexivity|]. intros H.
  cbn [hyphensApart] in H. apply andb_true_iff in H as [H1 H2].
  destruct s as [|d r].
  - simpl. destruct (isHyphen c) eqn:E; [reflexivity|]. simpl. exact E.
  - rewrite stripEnd_cons. specialize (IH _ H2).
    destruct (stripEnd (String d r)) as [|e t] eqn:Es; [|exact IH].
    (* the rest was a lone hyphen *)
    destruct r as [|d' r'].
    + simpl in Es. destruct (isHyphen d) eqn:Ed; [|discriminate].
      cbn [hyphensApart] in H2. rewrite Ed in H2.
      simpl. destruct (isHyphen c); [discriminate H2 | reflexivity].
    + rewrite stripEnd_cons in Es. discriminate.
Qed.

Lemma lowerChar_slug (c : ascii) : isSlugChar c = true -> JS.lowerChar c = c.
Proof.
  destruct c as [[|] [|] [|] [|] [|] [|] [|] [|]]; intros H;
    try reflexivity; discriminate.
Qed.

Lemma whiteSpace_slug (c : ascii) :
  isSlugChar c = true -> JS.isWhiteSpace c = false.
Proof.
  destruct c as [[|] [|] [|] [|] [|] [|] [|] [|]]; intros H;
    try reflexivity; discriminate.
Qed.

Lemma lineTerminator_slug (c : ascii) :
  isSlugChar c = true -> isLineTerminator c = false.
Proof.
  destruct c as [[|] [|] [|] [|] [|] [|] [|] [|]]; intros H;
    try reflexivity; discriminate.
Qed.

Lemma toLowerCase_slug (s : string) :
  allSlugChars s = true -> JS.toLowerCase s = s.
Proof.
  induction s as [|c s IH]; simpl; [reflexivity|]. intros H.
  apply andb_true_iff in H as [H1 H2].
  now rewrite (lowerChar_slug c H1), (IH H2).
Qed.

Lemma replaceRuns_none (p : ascii -> bool) (b : bool) (s : string) :
  allSlugChars s = true ->
  (forall c, isSlugChar c = true -> p c = false) ->
  replaceRuns p b s = s.
Proof.
  intros H Hp. revert b. induction s as [|c s IH]; intros b; simpl;
    [reflexivity|].
  simpl in H. apply andb_true_iff in H as [H1 H2].
  now rewrite (Hp c H1), (IH H2).
Qed.

Lemma replaceOthers_none (s : string) :
  allSlugChars s = true -> replaceOthers s = s.
Proof.
  induction s as [|c s IH]; simpl; [reflexivity|]. intros H.
  apply andb_true_iff in H as [H1 H2]. now rewrite H1, (IH H2).
Qed.

Lemma replaceRuns_apart_id (b : bool) (s : string) :
  hyphensApart b s = true -> replaceRuns isHyphen b s = s.
Proof.
  revert b. induction s as [|c s IH]; intros b; simpl; [reflexivity|].
  intros H. apply andb_true_iff in H as [H1 H2].
  destruct (isHyphen c) eqn:E.
  - destruct b; [discriminate|]. rewrite (IH _ H2).
    now rewrite (isHyphen_eq c E).
  - now rewrite (IH _ H2).
Qed.

Lemma hyphensApart_weaken (s : string) :
  hyphensApart true s = true -> hyphensApart false s = true.
Proof.
  destruct s as [|c s]; simpl; [reflexivity|].
  intros H. now apply andb_true_iff in H.
Qed.

Lemma stripStart_id (s : string) :
  hyphensApart true s = true -> stripStart s = s.
Proof.
  destruct s as [|c s]; simpl; [reflexivity|].
  destruct (isHyphen c); [discriminate | reflexivity].
Qed.

Lemma stripEnd_id (s : string) : endsWithHyphen s = false -> stripEnd s = s.
Proof.
  induction s as [|c s IH]; [reflexivity|]. destruct s as [|d r].
  - simpl. now intros ->.
  - intros H. rewrite stripEnd_cons. f_equal. apply IH. exact H.
Qed.

Lemma slugify_shape (name : string) :
  allSlugChars (slugify name) = true
  /\ hyphensApart true (slugify name) = true
  /\ endsWithHyphen (slugify name) = false.
Proof.
  unfold slugify.
  set (t := replaceRuns isHyphen false
              (replaceOthers
                 (replaceRuns JS.isWhiteSpace false (JS.toLowerCase name)))).
  assert (allSlugChars t = true) as H1
    by (apply replaceRuns_slug, replaceOthers_slug).
  assert (hyphensApart false t = true) as H2 by apply replaceRuns_apart.
  split; [now apply stripEnd_slug, stripStart_slug|].
  split; [now apply stripEnd_apart, stripStart_apart|].
  apply (stripEnd_ends true). now apply stripStart_apart.
Qed.

Lemma slugify_fixed (s : string) :
  allSlugChars s = true -> hyphensApart true s = true ->
  endsWithHyphen s = false -> slugify s = s.
Proof.
  intros H1 H2 H3. unfold slugify.
  rewrite (toLowerCase_slug s H1).
  rewrite (replaceRuns_none _ _ s H1 whiteSpace_slug).
  rewrite (replaceOthers_none s H1).
  rewrite (replaceRuns_apart_id false s (hyphensApart_weaken s H2)).
  rewrite (stripStart_id s H2). now apply stripEnd_id.
Qed.

(** X23.  A slug holds only lower-case letters, digits and hyphens, has
    no two hyphens in a row and no hyphen first or last; a text of that
    shape is its own slug, so the slug of a slug is that slug. *)
Theorem slugify_normal_form (name : string) :
  allSlugChars (slugify name) = true
  /\ hyphensApart true (slugify name) = true
  /\ endsWithHyphen (slugify name) = false
  /\ slugify (slugify name) = slugify name
  /\ (forall s, allSlugChars s = true -> hyphensApart true s = true ->
                endsWithHyphen s = false -> slugify s = s).
Proof.
  destruct (slugify_shape name) as [H1 [H2 H3]].
  repeat split; auto using slugify_fixed.
Qed.

(** *** File names *)

Lemma noLineTerminator_slug (s : string) :
  allSlugChars s = true -> noLineTerminator s = true.
Proof.
  induction s as [|c s IH]; simpl; [reflexivity|]. intros H.
  apply andb_true_iff in H as [H1 H2].
  now rewrite (lineTerminator_slug c H1), (IH H2).
Qed.

Lemma substring_after (a b : string) :
  String.substring (String.length a) (String.length b) (a ++ b) = b.
Proof.
  induction a as [|c a IH]; simpl; [apply substring_all | exact IH].
Qed.

Lemma substring_split (n : nat) (s : string) :
  n <= String.length s ->
  s = String.substring 0 n s ++ String.substring n (String.length s - n) s.
Proof.
  revert n. induction s as [|c s IH]; intros [|n] H; simpl in *;
    try reflexivity; try lia.
  - f_equal. symmetry. apply substring_all.
  - f_equal. apply IH. lia.
Qed.

Lemma captureBefore_iff (suffix filename captured : string) :
  captureBefore suffix filename = Some captured
  <-> filename = captured ++ suffix
      /\ captured <> "" /\ noLineTerminator captured = true.
Proof.
  unfold captureBefore. split.
  - destruct (Nat.leb_spec (String.length suffix) (String.length filename))
      as [L|L]; [|discriminate]. cbn [andb].
    destruct (String.eqb_spec
                (String.substring (String.length filename - String.length suffix)
                   (String.length suffix) filename) suffix) as [E|E];
      [|discriminate].
    destruct (JS.truthy _) eqn:T; [|discriminate]. cbn [andb].
    destruct (noLineTerminator _) eqn:N; [|discriminate].
    intros [= <-]. split; [|split; [now apply truthy_true_iff | exact N]].
    rewrite (substring_split (String.length filename - String.length suffix)
               filename) at 1 by lia.
    f_equal.
    replace (String.length filename
             - (String.length filename - String.length suffix))
      with (String.length suffix) by lia.
    exact E.
  - intros [-> [Hne Hn]]. rewrite length_append.
    replace (String.length captured + String.length suffix
             - String.length suffix) with (String.length captured) by lia.
    destruct (Nat.leb_spec (String.length suffix)
                (String.length captured + String.length suffix)); [|lia].
    rewrite substring_after, String.eqb_refl, substring_head. cbn [andb].
    apply truthy_true_iff in Hne. now rewrite Hne, Hn.
Qed.

(** X24.  The slug is read back from the names of the files written for
    a space: from the name of the minified file and from that of the
    mapping file of a space whose slug is not empty, the two readers give
    the slug.  A reader gives a slug exactly for a file name made of a
    non-empty text without line break followed by its suffix: nothing for
    the suffix alone. *)
Theorem slug_read_back_from_file_name (spaceName : string) :
  (slugify spaceName <> "" ->
   extractSlugFromMinifiedFilename (slugify spaceName ++ ".minified.yaml")
   = Some (slugify spaceName)
   /\ extractSlugFromStandardsMappingFilename
        (slugify spaceName ++ ".standards-mapping.yaml")
      = Some (slugify spaceName))
  /\ (forall filename slug,
        extractSlugFromMinifiedFilename filename = Some slug
        <-> filename = slug ++ ".minified.yaml"
            /\ slug <> "" /\ noLineTerminator slug = true)
  /\ (forall filename slug,
        extractSlugFromStandardsMappingFilename filename = Some slug
        <-> filename = slug ++ ".standards-mapping.yaml"
            /\ slug <> "" /\ noLineTerminator slug = true)
  /\ extractSlugFromMinifiedFilename ".minified.yaml" = None.
Proof.
  destruct (slugify_shape spaceName) as [H1 _].
  split; [|split; [|split]].
  - intros Hne. split; apply captureBefore_iff;
      (split; [reflexivity|]; split; [exact Hne|]);
      now apply noLineTerminator_slug.
  - intros filename slug. apply captureBefore_iff.
  - intros filename slug. apply captureBefore_iff.
  - reflexivity.
Qed.

End Slugs.

(** ** The selection of files *)

Section SelectionSpec.
Import Selection.

Lemma addIndex_snoc (l : list Z) (x : Z) :
  distinctIndices (l ++ [x]) = addIndex (distinctIndices l) x.
Proof. unfold distinctIndices. now rewrite fold_left_app. Qed.

Lemma existsb_Zeqb_In (x : Z) (l : list Z) :
  existsb (Z.eqb x) l = true <-> In x l.
Proof.
  rewrite existsb_exists. split.
  - intros [y [H1 H2]]. apply Z.eqb_eq in H2. now subst.
  - intros H. exists x. split; [exact H | apply Z.eqb_refl].
Qed.

Lemma distinctIndices_spec (l : list Z) :
  NoDup (distinctIndices l) /\ forall x, In x (distinctIndices l) <-> In x l.
Proof.
  induction l as [|y l [IH1 IH2]] using rev_ind.
  - split; [constructor | reflexivity].
  - rewrite addIndex_snoc. unfold addIndex.
    destruct (existsb _ _) eqn:E.
    + apply existsb_Zeqb_In in E. split; [exact IH1|].
      intros x. rewrite in_app_iff, IH2. simpl. apply IH2 in E.
      split; [tauto | intros [H|[<-|[]]]; tauto].
    + assert (~ In y (distinctIndices l)) as N.
      { intros H. apply existsb_Zeqb_In in H. congruence. }
      split.
      * apply NoDup_app; [exact IH1 | repeat constructor; intros [] |].
        intros a Ha [<-|[]]. contradiction.
      * intros x. rewrite !in_app_iff, IH2. reflexivity.
Qed.

Lemma collectIndices_ok (maxIndex : Z) (parts : list string)
  (acc indices : list Z) :
  collectIndices maxIndex parts acc = inr indices ->
  exists more,
    indices = (acc ++ more)%list
    /\ List.length more = List.length parts
    /\ forall i, In i more <->
         exists part, In part parts /\ parseInt part = Some (i + 1)%Z
                      /\ (0 <= i < maxIndex)%Z.
Proof.
  revert acc. induction parts as [|part parts IH]; intros acc; simpl.
  - intros [= <-]. exists []. rewrite app_nil_r.
    split; [reflexivity|]. split; [reflexivity|].
    intros i. split; [intros [] | intros [p [[] _]]].
  - destruct (parseInt part) as [num|] eqn:E; [|discriminate].
    destruct ((num <? 1) || (maxIndex <? num))%Z eqn:B; [discriminate|].
    apply orb_false_iff in B as [B1 B2].
    apply Z.ltb_ge in B1, B2. intros H.
    destruct (IH _ H) as [more [-> [Hlen Hin]]].
    exists ((num - 1)%Z :: more). rewrite <- app_assoc.
    split; [reflexivity|]. split; [simpl; congruence|].
    intros i. simpl. rewrite Hin. split.
    + intros [<-|[p [H1 H2]]].
      * exists part. split; [now left|].
        split; [rewrite E; f_equal; lia | lia].
      * exists p. split; [now right | exact H2].
    + intros [p [[<-|H1] [H2 H3]]].
      * left. rewrite E in H2. injection H2 as ->. lia.
      * right. now exists p.
Qed.

Lemma ascending_strict (l : list Z) :
  StronglySorted (fun a b => (a - b <= 0)%Z) l -> NoDup l ->
  StronglySorted Z.lt l.
Proof.
  induction 1 as [|x l Hl IH Hx]; intros Hnd; constructor.
  - apply IH. now inversion Hnd.
  - inversion Hnd as [|? ? Hin _]; subst.
    rewrite Forall_forall in *. intros y Hy. specialize (Hx y Hy).
    assert (x <> y) by (intros ->; contradiction). lia.
Qed.

(** X25.  The answer to the selection prompt: an empty answer and the
    word all, in any case and with any whitespace around, select every
    file.  Any other answer that is accepted gives a non-empty list of
    indices in strictly ascending order, each a valid index of the files
    shown, which holds exactly the numbers of the answer less one; any
    number outside 1..[maxIndex] and any part that is no number refuses the
    whole answer. *)
Theorem parseSelectionInput_spec (input : string) (maxIndex : Z) :
  let trimmed := JS.toLowerCase (JS.trim input) in
  (parseSelectionInput input maxIndex = inr None
   <-> trimmed = "" \/ trimmed = "all")
  /\ (forall indices,
        parseSelectionInput input maxIndex = inr (Some indices) ->
        indices <> []
        /\ StronglySorted Z.lt indices
        /\ (forall i, In i indices -> (0 <= i < maxIndex)%Z)
        /\ (forall i, In i indices <->
              exists part, In part (selectionParts trimmed)
                           /\ parseInt part = Some (i + 1)%Z
                           /\ (0 <= i < maxIndex)%Z)
        /\ forall part, In part (selectionParts trimmed) ->
             exists num, parseInt part = Some num /\ (1 <= num <= maxIndex)%Z).
Proof.
  intros trimmed. unfold parseSelectionInput. fold trimmed.
  destruct (String.eqb_spec trimmed "") as [E1|E1]; cbn [orb].
  { split; [tauto | discriminate]. }
  destruct (String.eqb_spec trimmed "all") as [E2|E2].
  { split; [tauto | discriminate]. }
  destruct (collectIndices maxIndex (selectionParts trimmed) [])
    as [e|collected] eqn:C.
  { split; [split; [discriminate | tauto] | discriminate]. }
  destruct (Nat.eqb_spec (List.length collected) 0) as [L|L].
  { split; [split; [discriminate | tauto] | discriminate]. }
  split; [split; [discriminate | tauto]|].
  intros indices [= <-].
  destruct (collectIndices_ok _ _ _ _ C) as [more [Hc [Hlen Hin]]].
  simpl in Hc. subst more.
  destruct (distinctIndices_spec collected) as [D1 D2].
  pose proof (sortBy_perm (fun a b => (a - b)%Z) (distinctIndices collected))
    as P.
  assert (forall i,
            In i (JSArray.sortBy (fun a b => (a - b)%Z)
                    (distinctIndices collected))
            <-> In i collected) as M.
  { intros i. rewrite <- D2. split; apply Permutation_in;
      [exact P | apply Permutation_sym; exact P]. }
  split; [|split; [|split; [|split]]].
  - intros H. destruct collected as [|c l]; [simpl in L; congruence|].
    assert (In c (JSArray.sortBy (fun a b => (a - b)%Z)
                    (distinctIndices (c :: l)))) as Hc
      by (apply M; now left).
    rewrite H in Hc. destruct Hc.
  - apply ascending_strict.
    + apply (sortBy_sorted (fun a b => (a - b)%Z)).
      * intros a b. unfold precedes. lia.
      * intros a b c. unfold precedes. lia.
    + eapply Permutation_NoDup; [apply Permutation_sym; exact P | exact D1].
  - intros i Hi. apply M, Hin in Hi as [p [_ [_ H]]]. exact H.
  - intros i. rewrite M. apply Hin.
  - intros part Hp. clear - C Hp. revert C. generalize (@nil Z).
    induction (selectionParts trimmed) as [|q parts IH]; [destruct Hp|].
    intros acc. simpl.
    destruct (parseInt q) as [num|] eqn:E; [|discriminate].
    destruct ((num <? 1) || (maxIndex <? num))%Z eqn:B; [discriminate|].
    apply orb_false_iff in B as [B1 B2]. apply Z.ltb_ge in B1, B2.
    intros H. destruct Hp as [<-|Hp].
    + exists num. split; [exact E | lia].
    + eapply IH; eauto.
Qed.

End SelectionSpec.

(** ** Loading a file of practices *)

Section LoadingSpec.
Import Loading.
Variable jsonParse : string -> option Index.RawPractice.

Lemma parseLines_ok (lines : list string) (i : nat)
  (acc practices : list ParsedPractice.t) :
  parseLines jsonParse lines i acc = inr practices
  <-> exists parsed,
        practices = (acc ++ parsed)%list
        /\ Forall2 (fun line practice =>
                      Index.parsePractice jsonParse line = inr practice)
             lines parsed.
Proof.
  revert i acc. induction lines as [|line lines IH]; intros i acc; simpl.
  - split.
    + intros [= <-]. exists []. rewrite app_nil_r. split; constructor.
    + intros [parsed [-> H]]. inversion H. now rewrite app_nil_r.
  - destruct (Index.parsePractice jsonParse line) as [e|p] eqn:E.
    + split; [discriminate|]. intros [parsed [_ H]].
      inversion H; subst. congruence.
    + rewrite IH. split.
      * intros [parsed [-> H]]. exists (p :: parsed).
        rewrite <- app_assoc. split; [reflexivity|]. now constructor.
      * intros [parsed [-> H]]. inversion H as [|? q ? parsed' Hq H']; subst.
        assert (q = p) as -> by congruence.
        exists parsed'. rewrite <- app_assoc. auto.
Qed.

Lemma parseLines_error (lines : list string) (i : nat)
  (acc : list ParsedPractice.t) (n : nat) (e : Index.ParseError) :
  parseLines jsonParse lines i acc = inl (n, e)
  <-> exists before line after,
        lines = (before ++ line :: after)%list
        /\ n = (i + List.length before + 1)%nat
        /\ Forall (fun l => exists practice,
                     Index.parsePractice jsonParse l = inr practice) before
        /\ Index.parsePractice jsonParse line = inl e.
Proof.
  revert i acc. induction lines as [|line lines IH]; intros i acc; simpl.
  - split; [discriminate|]. intros [b [l [a [H _]]]].
    destruct b; discriminate.
  - destruct (Index.parsePractice jsonParse line) as [e'|p] eqn:E.
    + split.
      * intros [= <- <-]. exists [], line, lines. simpl.
        repeat split; auto. lia.
      * intros [[|b0 b] [l [a [H1 [H2 [H3 H4]]]]]]; simpl in *.
        -- injection H1 as -> ->. f_equal. f_equal; [lia | congruence].
        -- injection H1 as -> ->. inversion H3 as [|? ? [q Hq] _]; subst.
           congruence.
    + rewrite IH. split.
      * intros [b [l [a [-> [-> [H3 H4]]]]]]. exists (line :: b), l, a.
        simpl. repeat split; auto; [lia|]. constructor; [now exists p | exact H3].
      * intros [[|b0 b] [l [a [H1 [H2 [H3 H4]]]]]]; simpl in *.
        -- injection H1 as -> ->. congruence.
        -- injection H1 as -> ->. exists b, l, a.
           inversion H3; subst. repeat split; auto. lia.
Qed.

(** X26.  Loading a file of practices is all or nothing, and blank lines
    do not count: the practices are those of the lines that are not blank,
    in order, when each of these parses; otherwise the process ends on the
    first such line that does not parse, with the error of that line and
    its number among the lines that are not blank. *)
Theorem loadPracticesFromFile_spec (fileContent : string) :
  (forall practices,
      loadPracticesFromFile jsonParse fileContent = inr practices
      <-> Forall2 (fun line practice =>
                     Index.parsePractice jsonParse line = inr practice)
            (practiceLines fileContent) practices)
  /\ (forall n e,
        loadPracticesFromFile jsonParse fileContent = inl (n, e)
        <-> exists before line after,
              practiceLines fileContent = (before ++ line :: after)%list
              /\ n = (List.length before + 1)%nat
              /\ Forall (fun l => exists practice,
                           Index.parsePractice jsonParse l = inr practice)
                   before
              /\ Index.parsePractice jsonParse line = inl e)
  /\ (forall line, In line (practiceLines fileContent) ->
        JS.trim line <> "" /\ In line (JS.split JS.LF fileContent)).
Proof.
  unfold loadPracticesFromFile. split; [|split].
  - intros practices. rewrite parseLines_ok. split.
    + intros [parsed [-> H]]. exact H.
    + intros H. now exists practices.
  - intros n e. rewrite parseLines_error. reflexivity.
  - intros line H. unfold practiceLines in H.
    apply filter_In in H as [H1 H2]. split; [|exact H1].
    apply Nat.ltb_lt in H2. intros E. rewrite E in H2. simpl in H2. lia.
Qed.

End LoadingSpec.

(** ** Spaces by slug *)

Lemma record_slugs (slug : string) (spaces acc : list (string * string)) :
  ConvertorClass.mapGet slug
    (fold_left
       (fun m entry =>
          CategoryMapper.mapSet (IndexTools.slugify (snd entry)) (fst entry) m)
       spaces acc)
  = match find (fun entry => IndexTools.slugify (snd entry) =? slug)
            (rev spaces) with
    | Some entry => Some (fst entry)
    | None => ConvertorClass.mapGet slug acc
    end.
Proof.
  revert acc. induction spaces as [|s spaces IH]; intros acc; simpl;
    [reflexivity|].
  rewrite IH, find_app. destruct (find _ (rev spaces)); [reflexivity|].
  rewrite mapGet_mapSet. simpl.
  destruct (IndexTools.slugify (snd s) =? slug); reflexivity.
Qed.

(** X27.  The space of a slug: the table from slug to space id has an
    entry for a slug exactly when some space has a name of that slug, and
    the entry is the id of the last such space; two spaces whose names
    differ but have one slug share the entry, which the later one takes. *)
Theorem space_of_slug (spacesMapping : list (string * string))
  (slug : string) :
  let table := IndexTools.buildSlugToSpaceIdMap spacesMapping in
  (ConvertorClass.mapGet slug table = None
   <-> forall entry, In entry spacesMapping ->
                     IndexTools.slugify (snd entry) <> slug)
  /\ (forall before entry after,
        spacesMapping = (before ++ entry :: after)%list ->
        IndexTools.slugify (snd entry) = slug ->
        (forall later, In later after ->
                       IndexTools.slugify (snd later) <> slug) ->
        ConvertorClass.mapGet slug table = Some (fst entry)).
Proof.
  cbv zeta. unfold IndexTools.buildSlugToSpaceIdMap. rewrite record_slugs.
  split.
  - destruct (find _ _) as [e|] eqn:E.
    + split; [discriminate|]. intros H. exfalso.
      apply find_some in E as [E1 E2]. apply in_rev in E1.
      apply String.eqb_eq in E2. exact (H e E1 E2).
    + split; [|reflexivity]. intros _ e He Hs.
      apply in_rev in He. pose proof (find_none _ _ E e He) as Hn.
      simpl in Hn. apply String.eqb_neq in Hn. contradiction.
  - intros before entry after -> Hs Hafter.
    rewrite rev_app_distr. simpl. rewrite <- app_assoc, find_app.
    destruct (find (fun e => IndexTools.slugify (snd e) =? slug) (rev after))
      as [e|] eqn:E.
    + exfalso. apply find_some in E as [E1 E2]. apply in_rev in E1.
      apply String.eqb_eq in E2. exact (Hafter e E1 E2).
    + simpl. apply String.eqb_eq in Hs. now rewrite Hs.
Qed.

(** ** The configuration of the classifier *)

(** X28.  Validation and creation agree on the configuration: the
    factory throws an error of the configuration exactly when the
    validation throws, and the same one.  When the validation passes, the
    factory calls the constructor of one client with the variables read,
    and returns a service unless that constructor throws.  The model of a
    service is never the empty text. *)
Theorem validation_and_creation (env : string -> option string)
  (newOpenAI : string -> option string -> bool)
  (newAzureOpenAI : string -> string -> string -> bool) :
  let create := LLMService.createLLMService env newOpenAI newAzureOpenAI in
  (forall e, LLMService.validateLLMConfiguration env = Some e
             <-> create = inl (LLMService.Configuration e))
  /\ (LLMService.validateLLMConfiguration env = None
      <-> (exists service, create = inr service)
          \/ create = inl LLMService.ClientConstructor)
  /\ (LLMService.envVar env "LLM_PROVIDER" = Some "OPENAI" ->
      forall apiKey,
        LLMService.envVar env "OPENAI_API_KEY" = Some apiKey ->
        (create = inl LLMService.ClientConstructor
         <-> newOpenAI apiKey (LLMService.envVar env "OPENAI_URL") = false))
  /\ (LLMService.envVar env "LLM_PROVIDER" = Some "AZURE_OPENAI" ->
      forall apiKey endpoint,
        LLMService.envVar env "AZURE_OPENAI_API_KEY" = Some apiKey ->
        LLMService.envVar env "AZURE_OPENAI_ENDPOINT" = Some endpoint ->
        LLMService.validateLLMConfiguration env = None ->
        (create = inl LLMService.ClientConstructor
         <-> newAzureOpenAI apiKey endpoint
               (match LLMService.envVar env "AZURE_OPENAI_API_VERSION" with
                | Some v => v
                | None => LLMService.DEFAULT_AZURE_OPENAI_API_VERSION
                end) = false))
  /\ (forall service, create = inr service ->
                      LLMService.getModel service <> "").
Proof.
  cbv zeta.
  assert (forall name v, LLMService.envVar env name = Some v -> v <> "")
    as Hne.
  { intros name v. unfold LLMService.envVar.
    destruct (env name) as [w|]; [|discriminate].
    destruct (JS.truthy w) eqn:T; [|discriminate].
    intros [= <-]. now apply truthy_true_iff. }
  unfold LLMService.validateLLMConfiguration, LLMService.createLLMService,
    LLMService.newOpenAIService, LLMService.newAzureOpenAIService.
  destruct (LLMService.envVar env "LLM_PROVIDER") as [provider|] eqn:Ep.
  2:{ split; [intros e; split; congruence|].
      split; [split; [discriminate | intros [[s H]|H]; discriminate]|].
      split; [discriminate|]. split; [discriminate|]. discriminate. }
  destruct (String.eqb_spec provider "OPENAI") as [->|N1]; cbn [negb andb].
  - destruct (LLMService.envVar env "OPENAI_API_KEY") as [k|] eqn:Ek.
    + destruct (newOpenAI k (LLMService.envVar env "OPENAI_URL")) eqn:C.
      * split; [intros e; split; discriminate|].
        split; [split; [eauto | reflexivity]|].
        split; [intros _ apiKey [= <-]; split; congruence|].
        split; [discriminate|].
        intros service [= <-]. simpl.
        destruct (LLMService.envVar env "OPENAI_MODEL") as [m|] eqn:Em;
          [now apply (Hne _ _ Em) | discriminate].
      * split; [intros e; split; discriminate|].
        split; [split; [now right | reflexivity]|].
        split; [intros _ apiKey [= <-]; split; congruence|].
        split; [discriminate|]. discriminate.
    + split; [intros e; split; congruence|].
      split; [split; [discriminate | intros [[s H]|H]; discriminate]|].
      split; [intros _ apiKey; discriminate|].
      split; [discriminate|]. discriminate.
  - destruct (String.eqb_spec provider "AZURE_OPENAI") as [->|N2];
      cbn [negb].
    + destruct (LLMService.envVar env "AZURE_OPENAI_API_KEY") as [k|].
      2:{ split; [intros e; split; congruence|].
          split; [split; [discriminate | intros [[s H]|H]; discriminate]|].
          split; [discriminate|].
          split; [intros _ a p; discriminate | discriminate]. }
      destruct (LLMService.envVar env "AZURE_OPENAI_ENDPOINT") as [p|].
      2:{ split; [intros e; split; congruence|].
          split; [split; [discriminate | intros [[s H]|H]; discriminate]|].
          split; [discriminate|].
          split; [intros _ a p; discriminate | discriminate]. }
      destruct (LLMService.envVar env "AZURE_OPENAI_DEPLOYMENT") as [d|]
        eqn:Ed.
      2:{ split; [intros e; split; congruence|].
          split; [split; [discriminate | intros [[s H]|H]; discriminate]|].
          split; [discriminate|].
          split; [intros _ a q _ _; discriminate | discriminate]. }
      destruct (newAzureOpenAI k p _) eqn:C.
      * split; [intros e; split; discriminate|].
        split; [split; [eauto | reflexivity]|].
        split; [discriminate|].
        split; [intros _ a q [= <-] [= <-] _; split; congruence|].
        intros service [= <-]. simpl. now apply (Hne _ _ Ed).
      * split; [intros e; split; discriminate|].
        split; [split; [now right | reflexivity]|].
        split; [discriminate|].
        split; [intros _ a q [= <-] [= <-] _; split; congruence|].
        discriminate.
    + split; [intros e; split; congruence|].
      split; [split; [discriminate | intros [[s H]|H]; discriminate]|].
      split; [intros [= E]; congruence|].
      split; [intros [= E]; congruence | discriminate].
Qed.

(** ** The descriptions of the practices *)

Lemma record_descriptions (key : string)
  (practices : list CategoryMapper.MinifiedPractice)
  (acc : list (string * string)) :
  ConvertorClass.mapGet key
    (fold_left
       (fun descriptionMap practice =>
          if JS.truthy (CategoryMapper.practiceName practice)
             && JS.truthy (CategoryMapper.practiceDescription practice)
          then CategoryMapper.mapSet
                 (CategoryMapper.normalize
                    (CategoryMapper.practiceName practice))
                 (CategoryMapper.practiceDescription practice) descriptionMap
          else descriptionMap)
       practices acc)
  = match find (fun practice =>
                  JS.truthy (CategoryMapper.practiceName practice)
                  && JS.truthy (CategoryMapper.practiceDescription practice)
                  && (CategoryMapper.normalize
                        (CategoryMapper.practiceName practice) =? key))
            (rev practices) with
    | Some practice => Some (CategoryMapper.practiceDescription practice)
    | None => ConvertorClass.mapGet key acc
    end.
Proof.
  revert acc. induction practices as [|p practices IH]; intros acc; simpl;
    [reflexivity|].
  rewrite IH, find_app. destruct (find _ (rev practices)); [reflexivity|].
  simpl.
  destruct (JS.truthy (CategoryMapper.practiceName p)
            && JS.truthy (CategoryMapper.practiceDescription p)); simpl;
    [|reflexivity].
  rewrite mapGet_mapSet.
  destruct (CategoryMapper.normalize (CategoryMapper.practiceName p) =? key);
    reflexivity.
Qed.

(** X29.  The description the retry prompt shows for a practice: the
    table of descriptions is looked up under the normalised name and
    gives the description of the last practice of the file that has that
    normalised name and a description; a description found is never
    empty, and its key is a key of the table of original names. *)
Theorem description_of_practice
  (practices : list CategoryMapper.MinifiedPractice) (key : string) :
  let table := CategoryMapperTools.extractPracticeDescriptions practices in
  let described practice :=
    CategoryMapper.practiceName practice <> ""
    /\ CategoryMapper.practiceDescription practice <> ""
    /\ CategoryMapper.normalize (CategoryMapper.practiceName practice) = key in
  (ConvertorClass.mapGet key table = None
   <-> forall practice, In practice practices -> ~ described practice)
  /\ (forall before practice after,
        practices = (before ++ practice :: after)%list ->
        described practice ->
        (forall later, In later after -> ~ described later) ->
        ConvertorClass.mapGet key table
        = Some (CategoryMapper.practiceDescription practice))
  /\ (forall description,
        ConvertorClass.mapGet key table = Some description ->
        description <> ""
        /\ In key (map fst
                     (CategoryMapper.extractOriginalPracticeNames practices))).
Proof.
  intros table described. subst table.
  unfold CategoryMapperTools.extractPracticeDescriptions.
  rewrite record_descriptions.
  set (test := fun practice =>
         JS.truthy (CategoryMapper.practiceName practice)
         && JS.truthy (CategoryMapper.practiceDescription practice)
         && (CategoryMapper.normalize (CategoryMapper.practiceName practice)
             =? key)).
  assert (forall practice, test practice = true <-> described practice) as T.
  { intros p. unfold test, described.
    rewrite !andb_true_iff, !truthy_true_iff, String.eqb_eq. tauto. }
  split; [|split].
  - destruct (find test (rev practices)) as [p|] eqn:E.
    + split; [discriminate|]. intros H. exfalso.
      apply find_some in E as [E1 E2]. apply in_rev in E1.
      apply (H p E1). now apply T.
    + split; [|reflexivity]. intros _ p Hp Hd. apply in_rev in Hp.
      pose proof (find_none _ _ E p Hp) as Hn. apply T in Hd. congruence.
  - intros before p after -> Hd Hafter.
    rewrite rev_app_distr. simpl. rewrite <- app_assoc, find_app.
    destruct (find test (rev after)) as [q|] eqn:E.
    + exfalso. apply find_some in E as [E1 E2]. apply in_rev in E1.
      apply (Hafter q E1). now apply T.
    + simpl. apply T in Hd. now rewrite Hd.
  - intros description.
    destruct (find test (rev practices)) as [p|] eqn:E; [|discriminate].
    intros [= <-]. apply find_some in E as [E1 E2]. apply in_rev in E1.
    apply T in E2. destruct E2 as [H1 [H2 H3]]. split; [exact H2|].
    rewrite <- H3. now apply extract_covers.
Qed.

(** ** The practices counted in the prompt *)

Section PracticeLines.
Import PracticeCount.

(** The lines of a text, a line ending at each line terminator. *)
Fixpoint splitLines (s : string) : list string :=
  match s with
  | EmptyString => [""]
  | String c r =>
      if IndexTools.isLineTerminator c then "" :: splitLines r
      else match splitLines r with
           | h :: t => String c h :: t
           | [] => [String c ""]
           end
  end.

(** A line that starts, after its leading blanks, with the mark. *)
Definition startsWithMark (line : string) : bool :=
  String.prefix MARK (JS.trimStart line).

Definition firstLine (s : string) : string := hd "" (splitLines s).

(** The marked lines from a position on, the line the position is in
    counting only when the position is its start. *)
Definition markedLines (atLineStart : bool) (s : string) : nat :=
  List.length
    (filter startsWithMark
       (if atLineStart then splitLines s else tl (splitLines s))).

Fixpoint hasLineTerminator (s : string) : bool :=
  match s with
  | EmptyString => false
  | String c r => IndexTools.isLineTerminator c || hasLineTerminator r
  end.

(** The state of [atLineStart] after a text is stepped over. *)
Fixpoint lineStartAfter (b : bool) (u : string) : bool :=
  match u with
  | EmptyString => b
  | String c r => lineStartAfter (IndexTools.isLineTerminator c) r
  end.

Lemma splitLines_cons (c : ascii) (r : string) :
  splitLines (String c r)
  = if IndexTools.isLineTerminator c then "" :: splitLines r
    else String c (firstLine r) :: tl (splitLines r).
Proof.
  unfold firstLine. simpl.
  destruct (IndexTools.isLineTerminator c); [reflexivity|].
  destruct (splitLines r) as [|h t] eqn:E; [|reflexivity].
  exfalso. destruct r as [|d r]; simpl in E; [discriminate|].
  destruct (IndexTools.isLineTerminator d); [discriminate|].
  destruct (splitLines r); discriminate.
Qed.

Lemma splitLines_hd_tl (s : string) :
  splitLines s = firstLine s :: tl (splitLines s).
Proof.
  unfold firstLine. destruct s as [|c r]; [reflexivity|].
  rewrite splitLines_cons.
  destruct (IndexTools.isLineTerminator c); reflexivity.
Qed.

Lemma markedLines_cons (b : bool) (c : ascii) (r : string) :
  markedLines b (String c r)
  = ((if b && negb (IndexTools.isLineTerminator c)
         && startsWithMark (firstLine (String c r)) then 1 else 0)
     + markedLines (IndexTools.isLineTerminator c) r)%nat.
Proof.
  unfold markedLines, firstLine. rewrite splitLines_cons.
  destruct (IndexTools.isLineTerminator c); cbn [negb andb hd tl].
  - rewrite andb_false_r. destruct b; reflexivity.
  - rewrite andb_true_r.
    destruct b; cbn [andb filter];
      [destruct (startsWithMark _)|]; reflexivity.
Qed.

Lemma prefix_firstLine (m x : string) :
  String.prefix m (firstLine x) = true -> String.prefix m x = true.
Proof.
  revert m. induction x as [|c r IH]; intros m; [auto|].
  unfold firstLine. rewrite splitLines_cons.
  destruct (IndexTools.isLineTerminator c); cbn [hd].
  - destruct m; [reflexivity | discriminate].
  - destruct m as [|a m]; [reflexivity|]. simpl.
    destruct (ascii_dec a c); [apply IH | discriminate].
Qed.

Lemma marked_firstLine_matches (s : string) :
  startsWithMark (firstLine s) = true -> matchesHere s = true.
Proof.
  unfold startsWithMark, matchesHere.
  induction s as [|c r IH]; [auto|].
  assert (firstLine (String c r)
          = if IndexTools.isLineTerminator c then ""
            else String c (firstLine r)) as F.
  { unfold firstLine. rewrite splitLines_cons.
    destruct (IndexTools.isLineTerminator c); reflexivity. }
  destruct (IndexTools.isLineTerminator c) eqn:L.
  - rewrite F. discriminate.
  - cbn [JS.trimStart]. rewrite F at 1. cbn [JS.trimStart].
    destruct (JS.isWhiteSpace c); [exact IH|].
    rewrite <- F. apply (prefix_firstLine MARK (String c r)).
Qed.

Lemma lineTerminator_whiteSpace (c : ascii) :
  IndexTools.isLineTerminator c = true -> JS.isWhiteSpace c = true.
Proof.
  destruct c as [[|] [|] [|] [|] [|] [|] [|] [|]]; intros H;
    try reflexivity; discriminate.
Qed.

(** After leading whitespace and the mark: the first line starts with
    the mark when the whitespace holds no line terminator. *)
Lemma marked_after_blanks (w rest : string) :
  JS.allWhiteSpace w = true ->
  startsWithMark (firstLine (w ++ MARK ++ rest))
  = negb (hasLineTerminator w).
Proof.
  intros Hw. induction w as [|c w IH].
  - unfold startsWithMark, firstLine, MARK. simpl.
    destruct (splitLines rest) as [|h t]; simpl; try reflexivity.
    destruct h; reflexivity.
  - simpl in Hw. apply andb_true_iff in Hw as [H1 H2].
    change (String c w ++ MARK ++ rest) with (String c (w ++ MARK ++ rest)).
    unfold firstLine. rewrite splitLines_cons. cbn [hasLineTerminator].
    destruct (IndexTools.isLineTerminator c); cbn [hd orb]; [reflexivity|].
    unfold startsWithMark. cbn [JS.trimStart]. rewrite H1.
    exact (IH H2).
Qed.

Lemma markedLines_after_mark (b : bool) (rest : string) :
  markedLines b (MARK ++ rest)
  = ((if b then 1 else 0) + markedLines false rest)%nat.
Proof.
  unfold MARK. cbn [append].
  rewrite markedLines_cons. cbn [IndexTools.isLineTerminator negb].
  change (String "-" (String " " (String "n" (String "a" (String "m"
            (String "e" (String ":" rest)))))))
    with ("" ++ MARK ++ rest).
  rewrite (marked_after_blanks "" rest eq_refl).
  cbn [hasLineTerminator negb andb append MARK].
  rewrite andb_true_r.
  change (N_of_ascii "-" =? 10)%N with false.
  change (N_of_ascii "-" =? 13)%N with false. cbn [orb negb andb].
  rewrite andb_true_r. f_equal.
  repeat (rewrite markedLines_cons; cbn [andb]).
  reflexivity.
Qed.

Lemma markedLines_after_blanks (w rest : string) (b : bool) :
  JS.allWhiteSpace w = true ->
  markedLines b (w ++ MARK ++ rest)
  = ((if b || hasLineTerminator w then 1 else 0)
     + markedLines false rest)%nat.
Proof.
  intros Hw. revert b. induction w as [|c w IH]; intros b.
  - cbn [append hasLineTerminator]. rewrite orb_false_r.
    apply markedLines_after_mark.
  - simpl in Hw. apply andb_true_iff in Hw as [H1 H2].
    change (String c w ++ MARK ++ rest) with (String c (w ++ MARK ++ rest)).
    rewrite markedLines_cons, (IH H2).
    change (String c (w ++ MARK ++ rest)) with (String c w ++ MARK ++ rest).
    rewrite (marked_after_blanks (String c w) rest)
      by (simpl; now rewrite H1, H2).
    cbn [hasLineTerminator].
    destruct b, (IndexTools.isLineTerminator c), (hasLineTerminator w);
      reflexivity.
Qed.

Lemma countFrom_skip (u rest : string) (b : bool) :
  countFrom b (String.length u) (u ++ rest)
  = countFrom (lineStartAfter b u) 0 rest.
Proof.
  revert b. induction u as [|c u IH]; intros b; [now destruct rest|].
  simpl. apply IH.
Qed.

Lemma lineStartAfter_append (b : bool) (a c : string) :
  lineStartAfter b (a ++ c) = lineStartAfter (lineStartAfter b a) c.
Proof.
  revert b. induction a as [|x a IH]; intros b; [reflexivity|].
  simpl. apply IH.
Qed.

Lemma trimStart_blanks (s : string) :
  exists w, s = w ++ JS.trimStart s
            /\ JS.allWhiteSpace w = true
            /\ String.length w = whiteSpaceRun s.
Proof.
  induction s as [|c s [w [H1 [H2 H3]]]].
  - exists "". auto.
  - simpl. destruct (JS.isWhiteSpace c) eqn:E.
    + exists (String c w). simpl. rewrite E, H2, H3, <- H1. auto.
    + exists "". auto.
Qed.

Lemma prefix_rest (m t : string) :
  String.prefix m t = true -> exists rest, t = m ++ rest.
Proof.
  revert t. induction m as [|a m IH]; intros t; [now exists t|].
  destruct t as [|c t]; [discriminate|]. simpl.
  destruct (ascii_dec a c) as [->|]; [|discriminate].
  intros H. destruct (IH t H) as [rest ->]. now exists rest.
Qed.

Lemma countFrom_lines (n : nat) (s : string) (b : bool) :
  String.length s <= n -> countFrom b 0 s = markedLines b s.
Proof.
  revert s b. induction n as [|n IH]; intros s b Hn.
  - destruct s; [now destruct b | simpl in Hn; lia].
  - destruct s as [|c r]; [now destruct b|].
    cbn [countFrom].
    destruct (b && matchesHere (String c r)) eqn:E.
    + apply andb_true_iff in E as [-> Hm].
      destruct (trimStart_blanks (String c r)) as [w [H1 [H2 H3]]].
      unfold matchesHere in Hm.
      destruct (prefix_rest _ _ Hm) as [rest Hr]. rewrite Hr in H1.
      rewrite H1 at 2. rewrite (markedLines_after_blanks w rest true H2).
      cbn [orb]. rewrite <- H3.
      assert (exists u, String c u = w ++ MARK
                        /\ r = u ++ rest) as [u [Hu Hr']].
      { destruct w as [|d w].
        - exists " name:". unfold MARK in *. simpl in *.
          injection H1 as -> ->. auto.
        - exists (w ++ MARK). simpl in *. injection H1 as -> ->.
          split; [reflexivity|]. now rewrite append_assoc. }
      assert (String.length w + String.length MARK - 1 = String.length u)
        as ->.
      { apply (f_equal String.length) in Hu.
        rewrite length_append in Hu. simpl in Hu. simpl. lia. }
      rewrite Hr', countFrom_skip.
      assert (lineStartAfter (IndexTools.isLineTerminator c) u = false)
        as ->.
      { change (lineStartAfter true (String c u) = false).
        rewrite Hu, lineStartAfter_append. reflexivity. }
      rewrite IH; [reflexivity|].
      apply (f_equal String.length) in Hr'. simpl in Hn.
      rewrite length_append in Hr'. lia.
    + rewrite markedLines_cons, IH by (simpl in Hn; lia).
      assert (b && negb (IndexTools.isLineTerminator c)
              && startsWithMark (firstLine (String c r)) = false) as ->;
        [|reflexivity].
      destruct b; [|reflexivity]. cbn [andb] in *.
      destruct (startsWithMark (firstLine (String c r))) eqn:G;
        [|now rewrite andb_false_r].
      apply marked_firstLine_matches in G. congruence.
Qed.

(** X30.  The number of practices the prompt announces is the number of
    lines of the YAML text that start, after the blanks of the line, with
    the mark of a practice entry (a hyphen, a space and the key name). *)
Theorem countPracticesInYaml_lines (yamlContent : string) :
  countPracticesInYaml yamlContent
  = List.length (filter startsWithMark (splitLines yamlContent)).
Proof.
  unfold countPracticesInYaml.
  now rewrite (countFrom_lines (String.length yamlContent)).
Qed.

End PracticeLines.

(* ================================================================== *)
(** * Part IV.  The repair loop on the store                           *)
(* ================================================================== *)

(** ** Mappings in the store *)

Section Representation.
Import CategoryMapper Store.

(** [group] is an object with the fields of [standard], the members in
    the array of [address]. *)
Definition holdsGroup (h : Heap) (group : Value) (address : nat)
  (standard : Standard) : Prop :=
  exists o properties,
    group = VRef o
    /\ nth_error h o = Some (CObject properties)
    /\ lookup "name" properties = VString (name standard)
    /\ lookup "description" properties = VString (description standard)
    /\ lookup "practices" properties = VRef address
    /\ nth_error h address
       = Some (CArray (map VString (practices standard))).

Fixpoint holdsGroups (h : Heap) (groups : list Value) (addresses : list nat)
  (mapping : StandardsMapping) : Prop :=
  match groups, addresses, mapping with
  | [], [], [] => True
  | group :: groups', address :: addresses', standard :: mapping' =>
      holdsGroup h group address standard
      /\ holdsGroups h groups' addresses' mapping'
  | _, _, _ => False
  end.

(** [data] is an object whose [standards] is the array [groups], the
    groups of [mapping]. *)
Definition laidOut (h : Heap) (data : Value) (groups : list Value)
  (addresses : list nat) (mapping : StandardsMapping) : Prop :=
  exists o properties a,
    data = VRef o
    /\ nth_error h o = Some (CObject properties)
    /\ lookup "standards" properties = VRef a
    /\ nth_error h a = Some (CArray groups)
    /\ holdsGroups h groups addresses mapping.

(** [data] has in [h] the type the cast [as StandardsMapping] promises:
    an object whose [standards] is an array of groups, the groups of
    [mapping], the member array of each at the address [addresses] gives
    for it.  Two groups that share their member array, as the groups of
    a document with an alias do, have one address. *)
Definition typed (h : Heap) (data : Value) (addresses : list nat)
  (mapping : StandardsMapping) : Prop :=
  exists groups, laidOut h data groups addresses mapping.

(** The store js-yaml builds for a document without alias: the member
    array and the object of each group, then the array of the groups and
    the object of the document. *)
Fixpoint storeGroups (mapping : StandardsMapping) (h : Heap)
  : Heap * list Value * list nat :=
  match mapping with
  | [] => (h, [], [])
  | standard :: rest =>
      let (h1, practices) :=
        alloc (CArray (map VString (practices standard))) h in
      let (h2, group) :=
        alloc (CObject [("name", VString (name standard));
                        ("description", VString (description standard));
                        ("practices", practices)]) h1 in
      let '(h3, groups, addresses) := storeGroups rest h2 in
      (h3, group :: groups, List.length h :: addresses)
  end.

Definition store (mapping : StandardsMapping) : Heap * Value * list nat :=
  let '(h1, groups, addresses) := storeGroups mapping [] in
  let (h2, standards) := alloc (CArray groups) h1 in
  let (h3, data) := alloc (CObject [("standards", standards)]) h2 in
  (h3, data, addresses).

(** *** Cells *)

Lemma cellAt_nth_error (h : Heap) (a : nat) (c : Cell) :
  nth_error h a = Some c -> cellAt h a = c.
Proof. intros H. unfold cellAt. now apply nth_error_nth. Qed.

Lemma setCell_length (a : nat) (c : Cell) (h : Heap) :
  List.length (setCell a c h) = List.length h.
Proof.
  revert a. induction h as [|x h IH]; intros a; [now destruct a|].
  destruct a; simpl; [reflexivity | now rewrite IH].
Qed.

Lemma setCell_same (a : nat) (c : Cell) (h : Heap) :
  a < List.length h -> nth_error (setCell a c h) a = Some c.
Proof.
  revert a. induction h as [|x h IH]; intros a H; simpl in H; [lia|].
  destruct a; simpl; [reflexivity|]. apply IH. lia.
Qed.

Lemma setCell_other (a b : nat) (c : Cell) (h : Heap) :
  a <> b -> nth_error (setCell a c h) b = nth_error h b.
Proof.
  revert a b. induction h as [|x h IH]; intros a b H; [now destruct a|].
  destruct a, b; simpl; try reflexivity; [congruence|]. apply IH. congruence.
Qed.

Lemma setCell_id (a : nat) (c : Cell) (h : Heap) :
  nth_error h a = Some c -> setCell a c h = h.
Proof.
  revert a. induction h as [|x h IH]; intros a H; [now destruct a|].
  destruct a; simpl in *; [congruence|]. now rewrite IH.
Qed.

Lemma nth_error_length {A : Type} (l : list A) (i : nat) (x : A) :
  nth_error l i = Some x -> i < List.length l.
Proof. intros H. apply nth_error_Some. congruence. Qed.

(** *** Groups under a change of one member array *)

Lemma holdsGroup_frame (h : Heap) (group : Value) (address a : nat)
  (standard : Standard) (elements elements' : list Value) :
  holdsGroup h group address standard ->
  nth_error h a = Some (CArray elements) ->
  address <> a ->
  holdsGroup (setCell a (CArray elements') h) group address standard.
Proof.
  intros [o [ps [H1 [H2 [H3 [H4 [H5 H6]]]]]]] Ha Hne.
  exists o, ps. repeat split; try assumption.
  - rewrite setCell_other; [exact H2|]. intros ->. congruence.
  - rewrite setCell_other; [exact H6 | congruence].
Qed.

Lemma holdsGroup_set (h : Heap) (group : Value) (address : nat)
  (standard : Standard) (members : list string) :
  holdsGroup h group address standard ->
  holdsGroup (setCell address (CArray (map VString members)) h) group address
    (mkStandard (name standard) (description standard) members).
Proof.
  intros [o [ps [H1 [H2 [H3 [H4 [H5 H6]]]]]]].
  exists o, ps. repeat split; try assumption.
  - rewrite setCell_other; [exact H2|]. intros ->. congruence.
  - simpl. apply setCell_same. now apply nth_error_length in H6.
Qed.

Lemma holdsGroups_lengths (h : Heap) (groups : list Value)
  (addresses : list nat) (mapping : StandardsMapping) :
  holdsGroups h groups addresses mapping ->
  List.length groups = List.length mapping
  /\ List.length addresses = List.length mapping.
Proof.
  revert addresses mapping.
  induction groups as [|g groups IH]; intros [|a addresses] [|s mapping];
    simpl; try tauto.
  intros [_ H]. destruct (IH _ _ H). lia.
Qed.

Lemma holdsGroups_nth (h : Heap) (groups : list Value)
  (addresses : list nat) (mapping : StandardsMapping) (c : nat)
  (standard : Standard) :
  holdsGroups h groups addresses mapping ->
  nth_error mapping c = Some standard ->
  exists group address,
    nth_error groups c = Some group
    /\ nth_error addresses c = Some address
    /\ holdsGroup h group address standard.
Proof.
  revert addresses mapping c.
  induction groups as [|g groups IH]; intros [|a addresses] [|s mapping] c;
    simpl; try tauto.
  - intros _ H. now destruct c.
  - intros [H1 H2] H. destruct c as [|c]; simpl in H.
    + injection H as <-. now exists g, a.
    + apply (IH _ _ _ H2 H).
Qed.

Lemma holdsGroups_frame (h : Heap) (groups : list Value)
  (addresses : list nat) (mapping : StandardsMapping) (a : nat)
  (elements elements' : list Value) :
  holdsGroups h groups addresses mapping ->
  nth_error h a = Some (CArray elements) ->
  ~ In a addresses ->
  holdsGroups (setCell a (CArray elements') h) groups addresses mapping.
Proof.
  revert addresses mapping.
  induction groups as [|g groups IH]; intros [|b addresses] [|s mapping];
    simpl; try tauto.
  intros [H1 H2] Ha Hn. split.
  - apply (holdsGroup_frame _ _ _ _ _ elements); auto.
  - apply IH; auto.
Qed.

(** A change of the members of the group of index [c] is a change of the
    array of its address, when no other group has that address. *)
Lemma holdsGroups_update (h : Heap) (groups : list Value)
  (addresses : list nat) (mapping : StandardsMapping) (c a : nat)
  (change : list string -> list string) :
  holdsGroups h groups addresses mapping ->
  NoDup addresses ->
  nth_error addresses c = Some a ->
  forall standard,
    nth_error mapping c = Some standard ->
    holdsGroups
      (setCell a (CArray (map VString (change (practices standard)))) h)
      groups addresses
      (JSArray.updateAt c
         (fun category =>
            mkStandard (name category) (description category)
              (change (practices category)))
         mapping).
Proof.
  revert addresses mapping c.
  induction groups as [|g groups IH]; intros [|b addresses] [|s mapping] c;
    simpl; try tauto.
  - intros _ _ H. now destruct c.
  - intros [H1 H2] Hn Ha standard Hs. inversion Hn as [|? ? Hb Hn']; subst.
    destruct c as [|c]; simpl in *.
    + injection Ha as ->. injection Hs as ->. split.
      * now apply holdsGroup_set.
      * destruct H1 as [o [ps [_ [_ [_ [_ [_ H6]]]]]]].
        now apply (holdsGroups_frame _ _ _ _ _ _ _ H2 H6).
    + split.
      * destruct (holdsGroups_nth _ _ _ _ _ _ H2 Hs)
          as [g' [a' [_ [Ha' [o [ps [_ [_ [_ [_ [_ H6]]]]]]]]]]].
        assert (a' = a) as -> by congruence.
        apply (holdsGroup_frame _ _ _ _ _ _ _ H1 H6).
        intros ->. apply Hb. now apply nth_error_In in Ha.
      * now apply IH.
Qed.

(** The array of the groups is none of the member arrays. *)
Lemma standards_apart (h : Heap) (groups : list Value)
  (addresses : list nat) (mapping : StandardsMapping) (a : nat) :
  holdsGroups h groups addresses mapping ->
  nth_error h a = Some (CArray groups) ->
  ~ In a addresses.
Proof.
  intros H Ha Hin. apply In_nth_error in Hin as [c Hc].
  destruct (holdsGroups_lengths _ _ _ _ H) as [L1 L2].
  assert (c < List.length mapping) as Hlt.
  { rewrite <- L2. now apply nth_error_length in Hc. }
  destruct (nth_error mapping c) as [standard|] eqn:Hs;
    [|apply nth_error_None in Hs; lia].
  destruct (holdsGroups_nth _ _ _ _ _ _ H Hs)
    as [g [a' [Hg [Ha' [o [ps [-> [_ [_ [_ [_ H6]]]]]]]]]]].
  assert (a' = a) as -> by congruence.
  rewrite Ha in H6. injection H6 as ->.
  rewrite nth_error_map in Hg.
  destruct (nth_error (practices standard) c); discriminate.
Qed.

Lemma laidOut_update (h : Heap) (data : Value) (groups : list Value)
  (addresses : list nat) (mapping : StandardsMapping) (c a : nat)
  (change : list string -> list string) (standard : Standard) :
  laidOut h data groups addresses mapping ->
  NoDup addresses ->
  nth_error addresses c = Some a ->
  nth_error mapping c = Some standard ->
  laidOut (setCell a (CArray (map VString (change (practices standard)))) h)
    data groups addresses
    (JSArray.updateAt c
       (fun category =>
          mkStandard (name category) (description category)
            (change (practices category)))
       mapping).
Proof.
  intros [o [ps [sa [H1 [H2 [H3 [H4 H5]]]]]]] Hn Ha Hs.
  destruct (holdsGroups_nth _ _ _ _ _ _ H5 Hs)
    as [g [a' [_ [Ha' [og [pg [_ [_ [_ [_ [_ H6]]]]]]]]]]].
  assert (a' = a) as -> by congruence.
  exists o, ps, sa. repeat split; try assumption.
  - rewrite setCell_other; [exact H2|]. intros ->. congruence.
  - rewrite setCell_other; [exact H4|]. intros ->.
    apply (standards_apart _ _ _ _ _ H5 H4). now apply nth_error_In in Ha.
  - now apply holdsGroups_update.
Qed.

(** *** New cells and the store of a document without alias *)

Lemma holdsGroup_extend (h more : Heap) (group : Value) (address : nat)
  (standard : Standard) :
  holdsGroup h group address standard ->
  holdsGroup (h ++ more)%list group address standard.
Proof.
  intros [o [ps [H1 [H2 [H3 [H4 [H5 H6]]]]]]].
  exists o, ps. repeat split; try assumption.
  - rewrite nth_error_app1; [exact H2 | now apply nth_error_length in H2].
  - rewrite nth_error_app1; [exact H6 | now apply nth_error_length in H6].
Qed.

Lemma holdsGroups_extend (h more : Heap) (groups : list Value)
  (addresses : list nat) (mapping : StandardsMapping) :
  holdsGroups h groups addresses mapping ->
  holdsGroups (h ++ more)%list groups addresses mapping.
Proof.
  revert addresses mapping.
  induction groups as [|g groups IH]; intros [|a addresses] [|s mapping];
    simpl; try tauto.
  intros [H1 H2]. split; [now apply holdsGroup_extend | now apply IH].
Qed.

Lemma storeGroups_spec (mapping : StandardsMapping) (h : Heap) :
  let '(h', groups, addresses) := storeGroups mapping h in
  (exists more, h' = (h ++ more)%list)
  /\ holdsGroups h' groups addresses mapping
  /\ (forall a, In a addresses -> List.length h <= a)
  /\ NoDup addresses.
Proof.
  revert h. induction mapping as [|standard mapping IH]; intros h; simpl.
  - split; [exists []; now rewrite app_nil_r|].
    split; [exact I|]. split; [intros a []| constructor].
  - set (members := CArray (map VString (practices standard))).
    set (group :=
           CObject [("name", VString (name standard));
                    ("description", VString (description standard));
                    ("practices", VRef (List.length h))]).
    specialize (IH ((h ++ [members]) ++ [group])%list).
    destruct (storeGroups mapping ((h ++ [members]) ++ [group])%list)
      as [[h' groups] addresses].
    destruct IH as [[more ->] [H1 [H2 H3]]].
    split; [exists ([members; group] ++ more)%list;
            now rewrite <- !app_assoc|].
    split; [split; [|exact H1]|].
    + exists (List.length (h ++ [members])%list),
        [("name", VString (name standard));
         ("description", VString (description standard));
         ("practices", VRef (List.length h))].
      repeat split; try reflexivity.
      * rewrite nth_error_app1 by (rewrite !length_app; simpl; lia).
        rewrite nth_error_app2 by lia. now rewrite Nat.sub_diag.
      * rewrite <- !app_assoc. rewrite nth_error_app2 by lia.
        now rewrite Nat.sub_diag.
    + split.
      * intros a [<-|Ha]; [lia|]. apply H2 in Ha.
        rewrite !length_app in Ha. simpl in Ha. lia.
      * constructor; [|exact H3]. intros Hin. apply H2 in Hin.
        rewrite !length_app in Hin. simpl in Hin. lia.
Qed.

(** The store of a document without alias is typed, and its groups share
    no member array. *)
Lemma store_typed (mapping : StandardsMapping) :
  let '(h, data, addresses) := store mapping in
  typed h data addresses mapping /\ NoDup addresses.
Proof.
  unfold store. pose proof (storeGroups_spec mapping []) as S.
  destruct (storeGroups mapping []) as [[h1 groups] addresses].
  destruct S as [_ [H1 [_ H3]]]. unfold alloc.
  split; [|exact H3].
  exists groups, (List.length (h1 ++ [CArray groups])%list),
    [("standards", VRef (List.length h1))], (List.length h1).
  repeat split; try reflexivity.
  - rewrite nth_error_app2 by lia. now rewrite Nat.sub_diag.
  - rewrite <- app_assoc. rewrite nth_error_app2 by lia.
    now rewrite Nat.sub_diag.
  - rewrite <- app_assoc. now apply holdsGroups_extend.
Qed.

End Representation.

(** ** The completeness check on the store *)

Section TypedReading.
Import CategoryMapper Store.

Lemma laidOut_standards (h : Heap) (data : Value) (groups : list Value)
  (addresses : list nat) (mapping : StandardsMapping) :
  laidOut h data groups addresses mapping ->
  exists a,
    property h data "standards" = Returns (VRef a)
    /\ nth_error h a = Some (CArray groups)
    /\ holdsGroups h groups addresses mapping.
Proof.
  intros [o [ps [a [-> [H2 [H3 [H4 H5]]]]]]].
  exists a. split; [|auto].
  unfold property. now rewrite (cellAt_nth_error _ _ _ H2), H3.
Qed.

Lemma holdsGroup_practices (h : Heap) (group : Value) (address : nat)
  (standard : Standard) :
  holdsGroup h group address standard ->
  property h group "practices" = Returns (VRef address)
  /\ cellAt h address = CArray (map VString (practices standard))
  /\ property h group "name" = Returns (VString (name standard))
  /\ property h group "description"
     = Returns (VString (description standard))
  /\ truthy group = true.
Proof.
  intros [o [ps [-> [H2 [H3 [H4 [H5 H6]]]]]]].
  unfold property. rewrite (cellAt_nth_error _ _ _ H2), H3, H4, H5.
  rewrite (cellAt_nth_error _ _ _ H6). auto.
Qed.

Lemma traverse_normalized (members : list string) :
  traverse normalized (map VString members)
  = Returns (map normalize members).
Proof.
  induction members as [|x members IH]; simpl; [reflexivity|].
  now rewrite IH.
Qed.

Lemma mappedOf_typed (h : Heap) (group : Value) (address : nat)
  (standard : Standard) :
  holdsGroup h group address standard ->
  InPlace.mappedOf h group = Returns (map normalize (practices standard)).
Proof.
  intros H. destruct (holdsGroup_practices _ _ _ _ H) as [H1 [H2 _]].
  unfold InPlace.mappedOf. rewrite H1. simpl. rewrite H2.
  apply traverse_normalized.
Qed.

Lemma traverse_mappedOf (h : Heap) (groups : list Value)
  (addresses : list nat) (mapping : StandardsMapping) :
  holdsGroups h groups addresses mapping ->
  traverse (InPlace.mappedOf h) groups
  = Returns (map (fun standard => map normalize (practices standard))
               mapping).
Proof.
  revert addresses mapping.
  induction groups as [|g groups IH]; intros [|a addresses] [|s mapping];
    simpl; try tauto.
  intros [H1 H2]. now rewrite (mappedOf_typed _ _ _ _ H1), (IH _ _ H2).
Qed.

Lemma concat_mapped (mapping : StandardsMapping) :
  List.concat
    (map (fun standard => map normalize (practices standard)) mapping)
  = mappedPractices mapping.
Proof.
  unfold mappedPractices, allPractices.
  induction mapping as [|s mapping IH]; simpl; [reflexivity|].
  now rewrite IH, map_app.
Qed.

(** On a typed mapping the check on the store is the check on its
    groups. *)
Lemma findMissingPractices_typed (originalPractices : list (string * string))
  (h : Heap) (data : Value) (addresses : list nat)
  (mapping : StandardsMapping) :
  typed h data addresses mapping ->
  InPlace.findMissingPractices originalPractices h data
  = Returns (findMissingPractices originalPractices mapping).
Proof.
  intros [groups H].
  destruct (laidOut_standards _ _ _ _ _ H) as [a [H1 [H2 H3]]].
  unfold InPlace.findMissingPractices. rewrite H1. simpl.
  rewrite (cellAt_nth_error _ _ _ H2). simpl.
  rewrite (traverse_mappedOf _ _ _ _ H3). simpl.
  now rewrite concat_mapped.
Qed.

(** ** Duplicate resolution on the store *)

Definition placeOf (loc : Location) : nat * nat * Value :=
  (categoryIndex loc, practiceIndex loc, VString (locatedName loc)).

Lemma visitPractices_typed (c i : nat) (members : list string) :
  InPlace.visitPractices c i (map VString members)
  = map placeOf (locateFrom c i members).
Proof.
  revert i. induction members as [|x members IH]; intros i; simpl;
    [reflexivity|].
  now rewrite IH.
Qed.

Lemma practicesArray_typed (h : Heap) (group : Value) (address : nat)
  (standard : Standard) :
  holdsGroup h group address standard ->
  InPlace.practicesArray h group = Some (map VString (practices standard)).
Proof.
  intros H. destruct (holdsGroup_practices _ _ _ _ H) as [H1 [H2 _]].
  unfold InPlace.practicesArray, optionalProperty. rewrite H1. simpl.
  now rewrite H2.
Qed.

Lemma visitCategories_typed (h : Heap) (groups : list Value)
  (addresses : list nat) (mapping : StandardsMapping) (c : nat) :
  holdsGroups h groups addresses mapping ->
  InPlace.visitCategories h c groups = map placeOf (locateAllFrom c mapping).
Proof.
  revert addresses mapping c.
  induction groups as [|g groups IH]; intros [|a addresses] [|s mapping] c;
    simpl; try tauto.
  intros [H1 H2]. rewrite (practicesArray_typed _ _ _ _ H1).
  now rewrite visitPractices_typed, (IH _ _ _ H2), map_app.
Qed.

Lemma recordPlace_fold (locs : list Location)
  (m : list (string * list Location)) :
  fold_left InPlace.recordPlace (map placeOf locs) (Returns m)
  = Returns
      (fold_left
         (fun m loc =>
            if JS.truthy (locatedName loc)
            then pushLocation (normalize (locatedName loc)) loc m
            else m)
         locs m).
Proof.
  revert m. induction locs as [|loc locs IH]; intros m; simpl;
    [reflexivity|].
  destruct loc as [c i x]. simpl.
  destruct (JS.truthy x); simpl; apply IH.
Qed.

Lemma practiceLocations_typed (h : Heap) (groups : list Value)
  (addresses : list nat) (mapping : StandardsMapping) :
  holdsGroups h groups addresses mapping ->
  InPlace.practiceLocations h groups
  = Returns (practiceLocations mapping).
Proof.
  intros H. unfold InPlace.practiceLocations, practiceLocations.
  rewrite (visitCategories_typed _ _ _ _ _ H), recordPlace_fold.
  now rewrite allLocations_locateAllFrom.
Qed.

(** The name written into the log line is a string. *)
Lemma keepCategory_interpolated (h : Heap) (groups : list Value)
  (addresses : list nat) (mapping : StandardsMapping) (c : nat) :
  holdsGroups h groups addresses mapping ->
  interpolated
    (if truthy (nth c groups VUndefined)
     then optionalProperty h (nth c groups VUndefined) "name"
     else VString "Unknown")
  = Returns tt.
Proof.
  revert addresses mapping c.
  induction groups as [|g groups IH]; intros [|a addresses] [|s mapping] c;
    simpl; try tauto.
  - intros _. now destruct c.
  - intros [H1 H2]. destruct c as [|c]; [|now apply (IH _ _ _ H2)].
    destruct (holdsGroup_practices _ _ _ _ H1) as [_ [_ [H3 [_ H4]]]].
    rewrite H4. unfold optionalProperty. now rewrite H3.
Qed.

Section Draws.
Variable random : nat -> Q.
Hypothesis random_unit : forall k, (0 <= random k < 1)%Q.

(** The index a draw gives among [n]. *)
Definition pick (k n : nat) : nat := Z.to_nat (InPlace.keepIndexAt random k n).

Lemma keepIndexAt_range (k n : nat) :
  0 < n ->
  (0 <= InPlace.keepIndexAt random k n < Z.of_nat n)%Z.
Proof.
  intros Hn. unfold InPlace.keepIndexAt.
  destruct (random_unit k) as [H0 H1].
  assert (0 < inject_Z (Z.of_nat n))%Q as Hq.
  { change 0%Q with (inject_Z 0). rewrite <- Zlt_Qlt. lia. }
  split.
  - change 0%Z with (Qfloor 0). apply Qfloor_resp_le.
    apply Qmult_le_0_compat; [exact H0 | now apply Qlt_le_weak].
  - rewrite Zlt_Qlt. eapply Qle_lt_trans; [apply Qfloor_le|].
    rewrite <- (Qmult_1_l (inject_Z (Z.of_nat n))) at 2.
    now apply Qmult_lt_compat_r.
Qed.


Lemma markRemovals_typed (h : Heap) (groups : list Value)
  (addresses : list nat) (mapping : StandardsMapping)
  (located : list (string * list Location)) (drawn : nat) :
  holdsGroups h groups addresses mapping ->
  InPlace.markRemovals random h groups located drawn
  = (Returns (fst (markRemovals pick located drawn)),
     snd (markRemovals pick located drawn)).
Proof.
  intros H. revert drawn.
  induction located as [|[k locations] located IH]; intros drawn; simpl;
    [reflexivity|].
  destruct (Nat.ltb_spec 1 (List.length locations)) as [L|L]; [|apply IH].
  pose proof (keepIndexAt_range drawn (List.length locations)) as Hr.
  destruct Hr as [H0 H1]; [lia|].
  destruct (Z.leb_spec 0
              (InPlace.keepIndexAt random drawn (List.length locations)))
    as [_|]; [|lia].
  destruct (nth_error locations
              (Z.to_nat
                 (InPlace.keepIndexAt random drawn (List.length locations))))
    as [keepLocation|] eqn:E; [|apply nth_error_None in E; lia].
  rewrite (keepCategory_interpolated _ _ _ _ _ H). rewrite IH.
  destruct (markRemovals pick located (S drawn)) as [more drawn'] eqn:M.
  simpl. unfold pick. rewrite Nat.mod_small by lia. reflexivity.
Qed.

(** One removal on the store is the removal on the groups. *)
Lemma removePractice_typed (h : Heap) (data : Value) (groups : list Value)
  (addresses : list nat) (mapping : StandardsMapping) (loc : Location) :
  laidOut h data groups addresses mapping ->
  NoDup addresses ->
  exists h',
    InPlace.removePractice data loc h = (h', Returns tt)
    /\ laidOut h' data groups addresses (removePractice mapping loc).
Proof.
  intros Ht Hn.
  destruct (laidOut_standards _ _ _ _ _ Ht) as [a [H1 [H2 H3]]].
  unfold InPlace.removePractice. rewrite H1. simpl.
  rewrite (cellAt_nth_error _ _ _ H2).
  destruct (nth_error mapping (categoryIndex loc)) as [standard|] eqn:Hs.
  - destruct (holdsGroups_nth _ _ _ _ _ _ H3 Hs)
      as [g [ad [Hg [Ha Hh]]]].
    rewrite (nth_error_nth _ _ VUndefined Hg).
    destruct (holdsGroup_practices _ _ _ _ Hh) as [P1 [P2 _]].
    unfold optionalProperty. rewrite P1. simpl. rewrite P2.
    eexists. split; [reflexivity|].
    unfold removePractice.
    assert (JSArray.splice (practiceIndex loc)
              (map VString (practices standard))
            = map VString
                (JSArray.splice (practiceIndex loc) (practices standard)))
      as ->.
    { generalize (practiceIndex loc). generalize (practices standard).
      induction l as [|x l IH]; intros [|i]; simpl; try reflexivity.
      now rewrite IH. }
    now apply (laidOut_update _ _ _ _ _ _ _
                 (JSArray.splice (practiceIndex loc))).
  - assert (nth (categoryIndex loc) groups VUndefined = VUndefined) as ->.
    { apply nth_overflow. apply nth_error_None in Hs.
      destruct (holdsGroups_lengths _ _ _ _ H3). lia. }
    simpl. exists h. split; [reflexivity|].
    unfold removePractice.
    assert (forall (f : Standard -> Standard) c (m : StandardsMapping),
               nth_error m c = None -> JSArray.updateAt c f m = m) as U.
    { intros f c m. revert c.
      induction m as [|x m IH]; intros [|c] E; simpl in *;
        try reflexivity; try discriminate.
      now rewrite IH. }
    now rewrite U.
Qed.

Lemma forEach_removePractice (removals : list Location) (h : Heap)
  (data : Value) (groups : list Value) (addresses : list nat)
  (mapping : StandardsMapping) :
  laidOut h data groups addresses mapping ->
  NoDup addresses ->
  exists h',
    forEach (InPlace.removePractice data) removals h = (h', Returns tt)
    /\ laidOut h' data groups addresses
         (fold_left removePractice removals mapping).
Proof.
  revert h mapping.
  induction removals as [|loc removals IH]; intros h mapping Ht Hn; simpl.
  - now exists h.
  - destruct (removePractice_typed _ _ _ _ _ loc Ht Hn) as [h1 [E1 T1]].
    rewrite E1. now apply IH.
Qed.

(** On a typed mapping whose groups share no member array, duplicate
    resolution on the store is duplicate resolution on the groups. *)
Lemma removeDuplicatesRandomly_laidOut (h : Heap) (data : Value)
  (groups : list Value) (addresses : list nat) (mapping : StandardsMapping)
  (drawn : nat) :
  laidOut h data groups addresses mapping ->
  NoDup addresses ->
  exists h',
    InPlace.removeDuplicatesRandomly random h data drawn
    = (h', Returns (data, dedupCount pick mapping drawn),
       dedupDrawn pick mapping drawn)
    /\ laidOut h' data groups addresses (dedupResult pick mapping drawn)
    /\ (removedLocations pick mapping drawn = [] -> h' = h).
Proof.
  intros Ht Hn.
  destruct (laidOut_standards _ _ _ _ _ Ht) as [a [H1 [H2 H3]]].
  unfold InPlace.removeDuplicatesRandomly. rewrite H1. simpl.
  rewrite (cellAt_nth_error _ _ _ H2).
  rewrite (practiceLocations_typed _ _ _ _ H3).
  rewrite (markRemovals_typed _ _ _ _ _ _ H3).
  unfold dedupCount, dedupDrawn, dedupResult, removedLocations,
    removeDuplicatesRandomly.
  destruct (markRemovals pick (practiceLocations mapping) drawn)
    as [indicesToRemove drawn'] eqn:M. simpl.
  destruct (forEach_removePractice
              (JSArray.sortBy byIndexDescending indicesToRemove)
              _ _ _ _ _ Ht Hn) as [h' [E T]].
  exists h'. rewrite E. split; [reflexivity|]. split; [exact T|].
  intros ->. simpl in E. congruence.
Qed.


End Draws.
End TypedReading.

(** *** The claim on duplicate resolution *)

(** The store of the document
<<
standards:
  - name: A
    description: first
    practices: &x [p1, p2]
  - name: B
    description: second
    practices: *x
>>
    Both groups hold the array of address 0. *)
Definition aliasedHeap : Store.Heap :=
  [Store.CArray [Store.VString "p1"; Store.VString "p2"];
   Store.CObject [("name", Store.VString "A");
                  ("description", Store.VString "first");
                  ("practices", Store.VRef 0)];
   Store.CObject [("name", Store.VString "B");
                  ("description", Store.VString "second");
                  ("practices", Store.VRef 0)];
   Store.CArray [Store.VRef 1; Store.VRef 2];
   Store.CObject [("standards", Store.VRef 3)]].

Definition aliasedData : Store.Value := Store.VRef 4.



(** The draws that keep the first occurrence of one name and the second
    of the next. *)
Definition firstThenSecond (k : nat) : Q :=
  if (k =? 0)%nat then 0%Q else (1 # 2)%Q.




Definition twicePair : CategoryMapper.StandardsMapping :=
  [CategoryMapper.mkStandard "A" "first" ["p1"; "p2"];
   CategoryMapper.mkStandard "B" "second" ["P1 "]].

(** The hypotheses on a store given in full are settled by running the
    definitions. *)
Ltac typedByEvaluation :=
  vm_compute; repeat (first [reflexivity | eexists | split]).
Ltac distinctByEvaluation :=
  vm_compute; repeat constructor; simpl; intuition discriminate.
Ltac unitByEvaluation :=
  intros k; split; [discriminate | reflexivity].


(** ** Merging a retry answer on the store *)

Section MergeOnStore.
Import CategoryMapper Store.
Variable yamlLoad : string -> InPlace.YamlLoad.

Lemma holdsGroups_group (h : Heap) (groups : list Value)
  (addresses : list nat) (mapping : StandardsMapping) (i : nat)
  (group : Value) :
  holdsGroups h groups addresses mapping ->
  nth_error groups i = Some group ->
  exists address standard,
    nth_error addresses i = Some address
    /\ nth_error mapping i = Some standard
    /\ holdsGroup h group address standard.
Proof.
  revert addresses mapping i.
  induction groups as [|g groups IH]; intros [|a addresses] [|s mapping] i;
    simpl; try tauto.
  - intros _ H. now destruct i.
  - intros [H1 H2] H. destruct i as [|i]; simpl in H.
    + injection H as <-. now exists a, s.
    + apply (IH _ _ _ H2 H).
Qed.

Lemma updateAt_at {A : Type} (i : nat) (f g : A -> A) (l : list A) (x : A) :
  nth_error l i = Some x -> f x = g x ->
  JSArray.updateAt i f l = JSArray.updateAt i g l.
Proof.
  revert i. induction l as [|y l IH]; intros [|i] H E; simpl in *;
    try discriminate.
  - injection H as ->. now rewrite E.
  - now rewrite (IH i H E).
Qed.

Lemma updateAt_fixed {A : Type} (i : nat) (f : A -> A) (l : list A) (x : A) :
  nth_error l i = Some x -> f x = x -> JSArray.updateAt i f l = l.
Proof.
  revert i. induction l as [|y l IH]; intros [|i] H E; simpl in *;
    try discriminate.
  - injection H as ->. now rewrite E.
  - now rewrite (IH i H E).
Qed.

Lemma someNormalized_typed (key : string) (members : list string) :
  InPlace.someNormalized key (map VString members)
  = Returns (existsb (fun p => normalize p =? key) members).
Proof.
  induction members as [|x members IH]; simpl; [reflexivity|].
  destruct (normalize x =? key); [reflexivity | exact IH].
Qed.

(** A push on the store is the addition to the group. *)
Lemma addPractice_laidOut (h : Heap) (data : Value) (groups : list Value)
  (addresses : list nat) (mapping : StandardsMapping) (i : nat)
  (group : Value) (practice : string) :
  laidOut h data groups addresses mapping ->
  NoDup addresses ->
  nth_error groups i = Some group ->
  exists h',
    InPlace.addPractice group (VString practice) h = (h', Returns tt)
    /\ laidOut h' data groups addresses
         (JSArray.updateAt i (addPractice practice) mapping).
Proof.
  intros Hl Hn Hg.
  destruct (laidOut_standards _ _ _ _ _ Hl) as [a [_ [_ H3]]].
  destruct (holdsGroups_group _ _ _ _ _ _ H3 Hg) as [ad [s [Ha [Hs Hh]]]].
  destruct (holdsGroup_practices _ _ _ _ Hh) as [P1 [P2 _]].
  unfold InPlace.addPractice. simpl. rewrite P1, P2, someNormalized_typed.
  destruct (existsb _ (practices s)) eqn:E.
  - exists h. split; [reflexivity|].
    rewrite (updateAt_fixed _ _ _ _ Hs); [exact Hl|].
    unfold addPractice. now rewrite E.
  - eexists. split; [reflexivity|].
    rewrite (updateAt_at _ _
               (fun category =>
                  mkStandard (name category) (description category)
                    ((fun ps => ps ++ [practice])%list (practices category)))
               _ _ Hs).
    + replace (map VString (practices s) ++ [VString practice])%list
        with (map VString ((fun ps => ps ++ [practice])%list (practices s)))
        by (now rewrite map_app).
      exact (laidOut_update _ _ _ _ _ _ _
               (fun ps => (ps ++ [practice])%list) s Hl Hn Ha Hs).
    + unfold addPractice. now rewrite E.
Qed.

Lemma addPractice_other (h : Heap) (group practice : Value) :
  (forall s, practice <> VString s) ->
  InPlace.addPractice group practice h = (h, Throws TypeError).
Proof.
  intros H. unfold InPlace.addPractice.
  destruct practice; try reflexivity. now destruct (H s).
Qed.

(** *** Loops that keep a property of the store *)

Lemma forEach_keeps {A : Type} (f : A -> Heap -> Heap * Outcome unit)
  (P : Heap -> Prop) (good : A -> Prop) (l : list A) (h : Heap) :
  (forall x h0, In x l -> P h0 ->
     P (fst (f x h0))
     /\ (snd (f x h0) = Returns tt \/ snd (f x h0) = Throws TypeError)
     /\ (good x -> snd (f x h0) = Returns tt)) ->
  P h ->
  P (fst (forEach f l h))
  /\ (snd (forEach f l h) = Returns tt
      \/ snd (forEach f l h) = Throws TypeError)
  /\ (Forall good l -> snd (forEach f l h) = Returns tt).
Proof.
  revert h. induction l as [|x l IH]; intros h Hf Hp; simpl.
  - auto.
  - destruct (Hf x h (or_introl eq_refl) Hp) as [H1 [H2 H3]].
    destruct (f x h) as [h' [u|e|]] eqn:E; simpl in *.
    + destruct (IH h') as [K1 [K2 K3]]; [|exact H1|].
      { intros y h0 Hy. apply Hf. now right. }
      split; [exact K1|]. split; [exact K2|].
      intros Hg. inversion Hg; subst. now apply K3.
    + split; [exact H1|]. split; [exact H2|].
      intros Hg. inversion Hg; subst. now apply H3.
    + destruct H2; discriminate.
Qed.

(** *** The groups by name *)

Definition namesGroups (groups : list Value) (mapping : StandardsMapping)
  (m : list (string * Value)) : Prop :=
  forall key group, In (key, group) m ->
    exists i standard,
      nth_error groups i = Some group
      /\ nth_error mapping i = Some standard
      /\ normalize (name standard) = key.

Lemma recordByName_fold (h : Heap) (groups : list Value)
  (addresses : list nat) (mapping : StandardsMapping)
  (allGroups : list Value) (allMapping : StandardsMapping)
  (m : list (string * Value)) (skipped : nat) :
  holdsGroups h groups addresses mapping ->
  (forall i, nth_error allGroups (skipped + i) = nth_error groups i) ->
  (forall i, nth_error allMapping (skipped + i) = nth_error mapping i) ->
  namesGroups allGroups allMapping m ->
  exists m',
    fold_left (InPlace.recordByName h) groups (Returns m) = Returns m'
    /\ namesGroups allGroups allMapping m'.
Proof.
  revert addresses mapping m skipped.
  induction groups as [|g groups IH];
    intros [|a addresses] [|s mapping] m skipped; simpl; try tauto.
  - intros _ _ _ Hm. now exists m.
  - intros [H1 H2] Hg Hs Hm.
    destruct (holdsGroup_practices _ _ _ _ H1) as [_ [_ [N _]]].
    rewrite N. simpl.
    apply (IH _ _ _ (S skipped) H2).
    + intros i. specialize (Hg (S i)). simpl in Hg. rewrite <- Hg.
      f_equal. lia.
    + intros i. specialize (Hs (S i)). simpl in Hs. rewrite <- Hs.
      f_equal. lia.
    + intros key group Hin. apply mapSet_In in Hin as [[-> ->]|Hin].
      * exists skipped, s. specialize (Hg 0). specialize (Hs 0).
        rewrite Nat.add_0_r in Hg, Hs. auto.
      * now apply Hm.
Qed.

Lemma existingByName_laidOut (h : Heap) (data : Value) (groups : list Value)
  (addresses : list nat) (mapping : StandardsMapping) :
  laidOut h data groups addresses mapping ->
  exists m,
    InPlace.existingByName h data = Returns m
    /\ namesGroups groups mapping m.
Proof.
  intros Hl. destruct (laidOut_standards _ _ _ _ _ Hl) as [a [H1 [H2 H3]]].
  unfold InPlace.existingByName. rewrite H1. simpl.
  rewrite (cellAt_nth_error _ _ _ H2). simpl.
  apply (recordByName_fold _ _ _ _ groups mapping [] 0 H3); try reflexivity.
  intros key group [].
Qed.

Lemma byNameGet_named (groups : list Value) (mapping : StandardsMapping)
  (m : list (string * Value)) (key : string) :
  namesGroups groups mapping m ->
  truthy (InPlace.byNameGet m key) = true ->
  exists i standard,
    nth_error groups i = Some (InPlace.byNameGet m key)
    /\ nth_error mapping i = Some standard
    /\ normalize (name standard) = key.
Proof.
  intros Hm. unfold InPlace.byNameGet.
  destruct (find _ m) as [[k g]|] eqn:E; [|discriminate].
  intros _. apply find_some in E as [E1 E2]. simpl in *.
  apply String.eqb_eq in E2. subst k. now apply Hm.
Qed.

(** *** The merge *)

(** The members a merge may give the group of index [i]: the strings
    among the members of the categories of the answer that bear the name
    of the group. *)
Definition memberOfAnswer (existing : StandardsMapping) (response : string)
  (i : nat) (a : string) : Prop :=
  exists category retryHeap retryData retryCategories retryCategory
         retryName practices members,
    nth_error existing i = Some category
    /\ yamlLoad (parseLLMResponse response)
       = InPlace.YamlDocument retryHeap retryData
    /\ iterate retryHeap (optionalProperty retryHeap retryData "standards")
       = Returns retryCategories
    /\ In retryCategory retryCategories
    /\ property retryHeap retryCategory "name" = Returns (VString retryName)
    /\ normalize retryName = normalize (name category)
    /\ property retryHeap retryCategory "practices" = Returns practices
    /\ iterate retryHeap practices = Returns members
    /\ In (VString a) members.

(** A category of an answer that the merge reads without a throw: its
    name is a string, and its [practices] is falsy or holds strings. *)
Definition readableCategory (retryHeap : Heap) (retryCategory : Value)
  : Prop :=
  exists retryName practices,
    property retryHeap retryCategory "name" = Returns (VString retryName)
    /\ property retryHeap retryCategory "practices" = Returns practices
    /\ (truthy practices = false
        \/ exists members,
             iterate retryHeap practices = Returns (map VString members)).

(** An answer the merge takes without a throw: one it refuses, or one
    whose [standards] holds readable categories. *)
Definition readableAnswer (answer : InPlace.YamlLoad) : Prop :=
  match answer with
  | InPlace.YamlException => True
  | InPlace.YamlDocument retryHeap retryData =>
      let retryStandards := optionalProperty retryHeap retryData "standards" in
      truthy retryStandards = false
      \/ exists retryCategories,
           iterate retryHeap retryStandards = Returns retryCategories
           /\ Forall (readableCategory retryHeap) retryCategories
  end.

Lemma iterate_throws (h : Heap) (v : Value) (e : Error) :
  iterate h v = Throws e -> e = TypeError.
Proof.
  unfold iterate. destruct v; try (now intros [= <-]); try discriminate.
  destruct (cellAt h address); [discriminate | now intros [= <-]].
Qed.

Lemma iterate_modelled (h : Heap) (v : Value) : iterate h v <> Unmodelled.
Proof.
  unfold iterate. destruct v; try discriminate.
  destruct (cellAt h address); discriminate.
Qed.

Lemma property_throws (h : Heap) (v : Value) (key : string) (e : Error) :
  property h v key = Throws e -> e = TypeError.
Proof.
  unfold property. destruct v; try discriminate; try (now intros [= <-]).
  destruct (cellAt h address); discriminate.
Qed.

Lemma property_modelled (h : Heap) (v : Value) (key : string) :
  property h v key <> Unmodelled.
Proof.
  unfold property. destruct v; try discriminate.
  destruct (cellAt h address); discriminate.
Qed.

Lemma property_again (h : Heap) (v : Value) (key key' : string) (x : Value) :
  property h v key = Returns x -> exists y, property h v key' = Returns y.
Proof.
  unfold property. destruct v; try discriminate; try (now eexists).
  destruct (cellAt h address); now eexists.
Qed.

Lemma normalized_throws (v : Value) (e : Error) :
  normalized v = Throws e -> e = TypeError.
Proof. destruct v; try discriminate; now intros [= <-]. Qed.

Lemma normalized_modelled (v : Value) : normalized v <> Unmodelled.
Proof. destruct v; discriminate. Qed.

Section Merging.
Variable data : Value.
Variable groups : list Value.
Variable addresses : list nat.
Hypothesis addresses_apart : NoDup addresses.
Variable existing : StandardsMapping.
Variable allowed : nat -> string -> Prop.

(** What holds of the store all along a merge. *)
Definition merging (h : Heap) : Prop :=
  exists merged,
    laidOut h data groups addresses merged
    /\ grown allowed existing merged.

Lemma addPractice_merging (i : nat) (group practice : Value) (h : Heap) :
  nth_error groups i = Some group ->
  (forall a, practice = VString a -> allowed i a) ->
  merging h ->
  merging (fst (InPlace.addPractice group practice h))
  /\ (snd (InPlace.addPractice group practice h) = Returns tt
      \/ snd (InPlace.addPractice group practice h) = Throws TypeError)
  /\ ((exists a, practice = VString a) ->
      snd (InPlace.addPractice group practice h) = Returns tt).
Proof.
  intros Hg Hal [merged [Hl Hgr]].
  destruct practice as [| | | |a|]; try (
    rewrite addPractice_other by discriminate; simpl;
    split; [now exists merged|]; split; [now right|];
    intros [a Ha]; discriminate).
  destruct (addPractice_laidOut _ _ _ _ _ _ _ a Hl addresses_apart Hg)
    as [h' [E L]].
  rewrite E. simpl. split; [|now auto].
  eexists. split; [exact L|].
  apply grown_addPractice; [exact Hgr | now apply Hal].
Qed.

Lemma mergeCategory_merging (retryHeap : Heap) (m : list (string * Value))
  (retryCategory : Value) (h : Heap) :
  namesGroups groups existing m ->
  (forall i category retryName practices members a,
      nth_error existing i = Some category ->
      property retryHeap retryCategory "name" = Returns (VString retryName) ->
      normalize retryName = normalize (name category) ->
      property retryHeap retryCategory "practices" = Returns practices ->
      iterate retryHeap practices = Returns members ->
      In (VString a) members -> allowed i a) ->
  merging h ->
  merging (fst (InPlace.mergeCategory retryHeap m retryCategory h))
  /\ (snd (InPlace.mergeCategory retryHeap m retryCategory h) = Returns tt
      \/ snd (InPlace.mergeCategory retryHeap m retryCategory h)
         = Throws TypeError)
  /\ (readableCategory retryHeap retryCategory ->
      snd (InPlace.mergeCategory retryHeap m retryCategory h) = Returns tt).
Proof.
  intros Hm Hal Hp. unfold InPlace.mergeCategory.
  destruct (property retryHeap retryCategory "name") as [nameValue|e|]
    eqn:N; simpl;
    [|pose proof (property_throws _ _ _ _ N); subst e; split; [exact Hp|];
      split; [now right|]; intros [rn [ps [H _]]]; congruence
     |now apply property_modelled in N].
  destruct (normalized nameValue) as [key|e|] eqn:K;
    [|pose proof (normalized_throws _ _ K); subst e; split; [exact Hp|];
      split; [now right|]; intros [rn [ps [H _]]];
      rewrite N in H; injection H as ->; discriminate
     |now apply normalized_modelled in K].
  destruct nameValue as [| | | |retryName|]; try discriminate.
  injection K as <-.
  destruct (truthy (InPlace.byNameGet m (normalize retryName))) eqn:T;
    [|simpl; auto].
  destruct (byNameGet_named _ _ _ _ Hm T) as [i [category [G1 [G2 G3]]]].
  destruct (property_again _ _ _ "practices" _ N) as [practices P].
  rewrite P.
  destruct (truthy practices) eqn:TP; [|simpl; auto].
  destruct (iterate retryHeap practices) as [members|e|] eqn:I.
  - destruct (forEach_keeps
                (InPlace.addPractice
                   (InPlace.byNameGet m (normalize retryName)))
                merging (fun v => exists a, v = VString a) members h)
      as [K1 [K2 K3]]; [|exact Hp|].
    { intros x h0 Hx Hh0. apply (addPractice_merging i); auto.
      intros a ->. apply (Hal i category retryName practices members a);
        auto. }
    split; [exact K1|]. split; [exact K2|].
    intros [rn [ps [R1 [R2 R3]]]]. apply K3.
    rewrite P in R2. injection R2 as <-.
    destruct R3 as [R3|[strings R3]]; [congruence|].
    rewrite I in R3. injection R3 as ->.
    apply Forall_forall. intros v Hv. apply in_map_iff in Hv as [a [<- _]].
    now exists a.
  - pose proof (iterate_throws _ _ _ I). subst e. simpl.
    split; [exact Hp|]. split; [now right|].
    intros [rn [ps [R1 [R2 R3]]]].
    rewrite P in R2. injection R2 as <-.
    destruct R3 as [R3|[strings R3]]; congruence.
  - now apply iterate_modelled in I.
Qed.

End Merging.

(** A merge on a typed mapping whose groups share no member array: it
    returns the object it was given or throws a [TypeError], and in both
    cases the store holds the groups grown by members of the answer.  An
    answer that is refused leaves the store as it is, and a readable
    answer is merged without a throw. *)
Lemma mergeRetryResults_merging (h : Heap) (data : Value)
  (groups : list Value) (addresses : list nat) (existing : StandardsMapping)
  (response : string) :
  laidOut h data groups addresses existing ->
  NoDup addresses ->
  let result := InPlace.mergeRetryResults yamlLoad h data response in
  merging data groups addresses existing (memberOfAnswer existing response)
    (fst result)
  /\ (snd result = Returns data \/ snd result = Throws TypeError)
  /\ (readableAnswer (yamlLoad (parseLLMResponse response)) ->
      snd result = Returns data).
Proof.
  intros Hl Hn result. subst result.
  assert (merging data groups addresses existing
            (memberOfAnswer existing response) h) as Hm0.
  { exists existing. split; [exact Hl | apply grown_refl]. }
  unfold InPlace.mergeRetryResults.
  destruct (yamlLoad (parseLLMResponse response))
    as [|retryHeap retryData] eqn:Y; simpl; [auto|].
  destruct (truthy (optionalProperty retryHeap retryData "standards")) eqn:T;
    simpl; [|auto].
  destruct (existingByName_laidOut _ _ _ _ _ Hl) as [m [E Hm]]. rewrite E.
  destruct (iterate retryHeap (optionalProperty retryHeap retryData "standards"))
    as [retryCategories|e|] eqn:I; simpl.
  - destruct (forEach_keeps (InPlace.mergeCategory retryHeap m)
                (merging data groups addresses existing
                   (memberOfAnswer existing response))
                (readableCategory retryHeap) retryCategories h)
      as [K1 [K2 K3]]; [|exact Hm0|].
    { intros rc h0 Hrc Hh0.
      apply mergeCategory_merging; auto.
      intros i category retryName practices members a H1 H2 H3 H4 H5 H6.
      exists category, retryHeap, retryData, retryCategories, rc, retryName,
        practices, members. auto 10. }
    destruct (forEach (InPlace.mergeCategory retryHeap m) retryCategories h)
      as [h' [u|e|]]; simpl in *.
    + auto.
    + split; [exact K1|]. split; [destruct K2 as [K2|K2]; [discriminate|]|].
      * right. now injection K2 as ->.
      * intros [R|[rcs [R1 R2]]]; [congruence|].
        injection R1 as <-. specialize (K3 R2). discriminate.
    + destruct K2; discriminate.
  - pose proof (iterate_throws _ _ _ I). subst e. split; [exact Hm0|].
    split; [now right|]. intros [R|[rcs [R1 R2]]]; congruence.
  - now apply iterate_modelled in I.
Qed.

End MergeOnStore.

(** ** The bounded loop on the store *)

Section LoopOnStore.
Import CategoryMapper Store.

(** *** New cells *)

Lemma holdsGroups_app (h : Heap) (groups groups' : list Value)
  (addresses addresses' : list nat) (mapping mapping' : StandardsMapping) :
  holdsGroups h groups addresses mapping ->
  holdsGroups h groups' addresses' mapping' ->
  holdsGroups h (groups ++ groups')%list (addresses ++ addresses')%list
    (mapping ++ mapping')%list.
Proof.
  revert addresses mapping.
  induction groups as [|g groups IH]; intros [|a addresses] [|s mapping];
    simpl; try tauto.
  intros [H1 H2] H. split; [exact H1 | now apply IH].
Qed.

Lemma holdsGroups_addresses (h : Heap) (groups : list Value)
  (addresses : list nat) (mapping : StandardsMapping) (a : nat) :
  holdsGroups h groups addresses mapping ->
  In a addresses -> a < List.length h.
Proof.
  revert addresses mapping.
  induction groups as [|g groups IH]; intros [|b addresses] [|s mapping];
    simpl; try tauto.
  intros [[o [ps [_ [_ [_ [_ [_ H6]]]]]]] H2] [->|Hin].
  - now apply nth_error_length in H6.
  - now apply (IH _ _ H2).
Qed.

(** The push of the fallback group on the store is its addition to the
    groups; its member array is a new one. *)
Lemma pushFallback_laidOut (finalMissing : list string) (h : Heap)
  (data : Value) (groups : list Value) (addresses : list nat)
  (mapping : StandardsMapping) :
  laidOut h data groups addresses mapping ->
  NoDup addresses ->
  exists h' group,
    InPlace.pushFallback finalMissing h data = (h', Returns tt)
    /\ laidOut h' data (groups ++ [group])%list
         (addresses ++ [List.length h])%list
         (mapping ++ [fallbackStandard finalMissing])%list
    /\ NoDup (addresses ++ [List.length h])%list.
Proof.
  intros [o [ps [a [-> [H2 [H3 [H4 H5]]]]]]] Hn.
  unfold InPlace.pushFallback, alloc. cbn [name description fallbackStandard].
  set (members := CArray (map VString finalMissing)).
  set (fallback :=
         CObject
           [("name", VString "To Categorize");
            ("description",
             VString
               "Practices that could not be automatically categorized after multiple attempts");
            ("practices", VRef (List.length h))]).
  set (h2 := ((h ++ [members]) ++ [fallback])%list).
  assert (nth_error h2 o = Some (CObject ps)) as O2.
  { unfold h2. rewrite <- app_assoc, nth_error_app1; [exact H2|].
    now apply nth_error_length in H2. }
  assert (nth_error h2 a = Some (CArray groups)) as A2.
  { unfold h2. rewrite <- app_assoc, nth_error_app1; [exact H4|].
    now apply nth_error_length in H4. }
  assert (nth_error h2 (List.length h) = Some members) as M2.
  { unfold h2. rewrite <- app_assoc, nth_error_app2 by lia.
    now rewrite Nat.sub_diag. }
  assert (nth_error h2 (List.length (h ++ [members])%list) = Some fallback) as F2.
  { unfold h2. rewrite nth_error_app2 by lia. now rewrite Nat.sub_diag. }
  assert (a <> List.length h) as Na.
  { apply nth_error_length in H4. lia. }
  assert (a <> List.length (h ++ [members])%list) as Nf.
  { apply nth_error_length in H4. rewrite length_app. simpl. lia. }
  assert (~ In (List.length h) addresses) as Nin.
  { intros Hin. apply (holdsGroups_addresses _ _ _ _ _ H5) in Hin. lia. }
  assert (~ In a addresses) as Nain
    by (apply (standards_apart _ _ _ _ _ H5 H4)).
  unfold property. rewrite (cellAt_nth_error _ _ _ O2), H3.
  rewrite (cellAt_nth_error _ _ _ A2).
  eexists. exists (VRef (List.length (h ++ [members])%list)).
  split; [reflexivity|]. split.
  - exists o, ps, a. repeat split; try assumption.
    + rewrite setCell_other; [exact O2|]. intros ->. congruence.
    + apply setCell_same. now apply nth_error_length in A2.
    + apply (holdsGroups_frame _ _ _ _ _ groups).
      * apply holdsGroups_app.
        -- unfold h2. rewrite <- app_assoc.
           now apply holdsGroups_extend.
        -- simpl. split; [|exact I].
           exists (List.length (h ++ [members])%list),
             [("name", VString "To Categorize");
              ("description",
               VString
                 "Practices that could not be automatically categorized after multiple attempts");
              ("practices", VRef (List.length h))].
           repeat split; try reflexivity; assumption.
      * exact A2.
      * rewrite in_app_iff. simpl. intros [H|[H|[]]]; [contradiction|].
        now apply Na.
  - apply NoDup_app; [exact Hn | repeat constructor; intros [] |].
    intros x Hx [<-|[]]. contradiction.
Qed.

(** The retry prompt of a typed mapping is built without a throw. *)
Lemma existingStandards_laidOut (h : Heap) (data : Value)
  (groups : list Value) (addresses : list nat) (mapping : StandardsMapping) :
  laidOut h data groups addresses mapping ->
  InPlace.existingStandards h data = Returns tt.
Proof.
  intros Hl. destruct (laidOut_standards _ _ _ _ _ Hl) as [a [H1 [H2 H3]]].
  unfold InPlace.existingStandards. rewrite H1. simpl.
  rewrite (cellAt_nth_error _ _ _ H2).
  assert (traverse
            (fun c =>
               bind (property h c "name") (fun name =>
               bind (property h c "description") (fun description =>
               Returns (name, description))))
            groups
          = Returns (map (fun s => (VString (name s), VString (description s)))
                       mapping)) as ->.
  { clear H1 H2 Hl. revert addresses mapping H3.
    induction groups as [|g groups IH]; intros [|b addresses] [|s mapping];
      simpl; try tauto.
    intros [G1 G2].
    destruct (holdsGroup_practices _ _ _ _ G1) as [_ [_ [N [D _]]]].
    rewrite N, D. simpl. now rewrite (IH _ _ G2). }
  simpl.
  assert (forall l : StandardsMapping,
             traverse
               (fun s => bind (interpolated (fst s))
                           (fun _ => interpolated (snd s)))
               (map (fun s => (VString (name s), VString (description s))) l)
             = Returns (map (fun _ => tt) l)) as ->.
  { induction l as [|s l IH]; simpl; [reflexivity|]. now rewrite IH. }
  reflexivity.
Qed.

(** *** Names kept *)

Definition kept (before after : StandardsMapping) : Prop :=
  forall x, In x (allPractices before) ->
    exists y, In y (allPractices after)
              /\ normalize y = normalize x
              /\ (x <> "" -> y <> "").

Lemma kept_refl (m : StandardsMapping) : kept m m.
Proof. intros x Hx. exists x. auto. Qed.

Lemma kept_trans (a b c : StandardsMapping) :
  kept a b -> kept b c -> kept a c.
Proof.
  intros H1 H2 x Hx. destruct (H1 x Hx) as [y [Hy [E1 N1]]].
  destruct (H2 y Hy) as [z [Hz [E2 N2]]]. exists z.
  split; [exact Hz|]. split; [congruence | auto].
Qed.

Lemma grown_kept (allowed : nat -> string -> Prop)
  (before after : StandardsMapping) :
  grown allowed before after -> kept before after.
Proof.
  intros [_ H] x Hx. apply in_flat_map in Hx as [c [Hc Hx]].
  apply In_nth_error in Hc as [i Hi].
  destruct (H i c Hi) as [added [H1 _]].
  exists x. split; [|auto].
  apply in_flat_map. eexists. split; [eapply nth_error_In; exact H1|].
  simpl. apply in_or_app. now left.
Qed.

Lemma kept_app (m more : StandardsMapping) : kept m (m ++ more)%list.
Proof.
  intros x Hx. exists x. split; [|auto].
  rewrite allPractices_app. apply in_or_app. now left.
Qed.

(** *** The final mapping *)

Lemma withFallback_complete_unique
  (originalPractices : list (string * string)) (looped : StandardsMapping) :
  wellKeyed originalPractices ->
  NoDup (map normalize (filter JS.truthy (allPractices looped))) ->
  let finalMissing := findMissingPractices originalPractices looped in
  let final :=
    if (0 <? List.length finalMissing)%nat
    then (looped ++ [fallbackStandard finalMissing])%list else looped in
  (forall k, In k (map fst originalPractices) ->
             In k (map normalize (allPractices final)))
  /\ NoDup (map normalize (filter JS.truthy (allPractices final))).
Proof.
  intros [Hn Hk] Hu. cbv zeta.
  pose proof (findMissing_In originalPractices looped) as Hmiss.
  pose proof (finalMissing_NoDup originalPractices (conj Hn Hk) looped)
    as Hmn.
  destruct (findMissingPractices originalPractices looped)
    as [|v missing] eqn:E; simpl.
  - split; [|exact Hu]. intros k Hin.
    apply in_map_iff in Hin as [[k' v] [<- Hin]]. simpl.
    destruct (in_dec string_dec k' (mappedPractices looped)) as [H|H];
      [exact H|].
    exfalso. apply (proj2 (Hmiss v)). now exists k'.
  - rewrite allPractices_app. unfold allPractices at 2 4. simpl.
    rewrite !app_nil_r. split.
    + intros k Hin. apply in_map_iff in Hin as [[k' v'] [<- Hin]]. simpl.
      rewrite map_app, in_app_iff.
      destruct (in_dec string_dec k' (mappedPractices looped)) as [H|H];
        [now left|].
      right. destruct (Hk k' v' Hin) as [-> _]. apply in_map.
      apply Hmiss. now exists (normalize v').
    + rewrite filter_app, map_app.
      assert (filter JS.truthy (v :: missing) = v :: missing) as ->.
      { apply forallb_filter_id. apply forallb_forall. intros x Hx.
        apply Hmiss in Hx as [k [Hx _]]. apply truthy_true_iff.
        now destruct (Hk k x Hx). }
      apply NoDup_app; [exact Hu | exact Hmn |].
      intros k H1 H2. apply in_map_iff in H2 as [x [<- Hx]].
      apply Hmiss in Hx as [k [Hx Hnot]].
      destruct (Hk k x Hx) as [-> _]. apply Hnot.
      unfold mappedPractices. apply in_map_iff in H1 as [y [E' Hy]].
      apply filter_In in Hy as [Hy _]. rewrite <- E'. now apply in_map.
Qed.

Section Loop.
Variable random : nat -> Q.
Hypothesis random_unit : forall k, (0 <= random k < 1)%Q.
Variable yamlLoad : string -> InPlace.YamlLoad.
Variable retryResponse : nat -> string.
Variable originalPractices : list (string * string).
Variable data : Value.
Variable groups : list Value.
Variable addresses : list nat.
Hypothesis addresses_apart : NoDup addresses.

(** The answers from [attempt] on are readable. *)
Definition readableFrom (attempt : nat) : Prop :=
  forall a, attempt <= a < MAX_RETRIES ->
    readableAnswer (yamlLoad (parseLLMResponse (retryResponse a))).

(** The loop on a typed mapping whose groups share no member array
    returns the object it was given or throws a [TypeError].  When it
    returns, the store holds the groups as a duplicate resolution left
    them, with a member for every name the loop began with.  It returns
    when the answers are readable. *)
Lemma validationLoop_laidOut (remaining attempt : nat) (h : Heap)
  (mapping : StandardsMapping) (drawn : nat) :
  attempt + remaining = S MAX_RETRIES -> 0 < remaining ->
  laidOut h data groups addresses mapping ->
  let '(h', outcome, _) :=
    InPlace.validationLoop random yamlLoad retryResponse originalPractices
      remaining attempt h data drawn in
  (outcome = Throws TypeError
   \/ outcome = Returns data
      /\ exists m d,
           laidOut h' data groups addresses (dedupResult (pick random) m d)
           /\ kept mapping (dedupResult (pick random) m d))
  /\ (readableFrom attempt -> outcome = Returns data).
Proof.
  revert attempt h mapping drawn.
  induction remaining as [|remaining IH];
    intros attempt h mapping drawn Hsum Hpos Hl; [lia|].
  cbn [InPlace.validationLoop].
  destruct (removeDuplicatesRandomly_laidOut random random_unit _ _ _ _ _
              drawn Hl addresses_apart) as [h1 [E1 [L1 _]]].
  rewrite E1.
  rewrite (findMissingPractices_typed originalPractices h1 data addresses
             (dedupResult (pick random) mapping drawn))
    by (now exists groups).
  pose proof (dedup_keeps_names (pick random) mapping drawn) as K1.
  destruct (List.length _ =? 0)%nat.
  { split; [|reflexivity]. right. split; [reflexivity|].
    now exists mapping, drawn. }
  destruct (Nat.ltb_spec attempt MAX_RETRIES) as [L|L].
  - rewrite (existingStandards_laidOut _ _ _ _ _ L1).
    destruct (mergeRetryResults_merging yamlLoad h1 data groups addresses
                (dedupResult (pick random) mapping drawn)
                (retryResponse attempt) L1 addresses_apart)
      as [[merged [M1 M2]] [M3 M4]].
    destruct (InPlace.mergeRetryResults yamlLoad h1 data
                (retryResponse attempt)) as [h2 [v|e|]] eqn:E2;
      simpl in *.
    + assert (v = data) as -> by (destruct M3; congruence).
      specialize (IH (S attempt) h2 merged
                    (dedupDrawn (pick random) mapping drawn)).
      destruct (InPlace.validationLoop random yamlLoad retryResponse
                  originalPractices remaining (S attempt) h2 data
                  (dedupDrawn (pick random) mapping drawn))
        as [[h3 o3] d3].
      destruct IH as [I1 I2]; [lia | lia | exact M1 |].
      split.
      * destruct I1 as [I1|[I1 [m [d [I3 I4]]]]]; [now left|].
        right. split; [exact I1|]. exists m, d. split; [exact I3|].
        apply (kept_trans _ _ _ K1).
        apply (kept_trans _ merged); [|exact I4].
        now apply (grown_kept _ _ _ M2).
      * intros R. apply I2. intros a Ha. apply R. lia.
    + split; [left; destruct M3; congruence|].
      intros R. apply M4. apply R. lia.
    + destruct M3; discriminate.
  - assert (remaining = 0) as -> by lia. simpl.
    split; [|reflexivity]. right. split; [reflexivity|].
    now exists mapping, drawn.
Qed.

(** Post-processing on the store, from a typed mapping whose groups share
    no member array: when it returns, the store holds the groups as the
    last duplicate resolution left them, followed by the fallback group
    when a practice is missing from them. *)
Lemma postProcessMapping_laidOut (h : Heap) (mapping : StandardsMapping)
  (drawn : nat) :
  laidOut h data groups addresses mapping ->
  let '(h', outcome) :=
    InPlace.postProcessMapping random yamlLoad retryResponse
      originalPractices h data drawn in
  (outcome = Throws TypeError
   \/ outcome = Returns data
      /\ exists groups' addresses' m d,
           let looped := dedupResult (pick random) m d in
           let finalMissing :=
             findMissingPractices originalPractices looped in
           let final :=
             if (0 <? List.length finalMissing)%nat
             then (looped ++ [fallbackStandard finalMissing])%list
             else looped in
           laidOut h' data groups' addresses' final
           /\ NoDup addresses'
           /\ kept mapping final)
  /\ (readableFrom 1 -> outcome = Returns data).
Proof.
  intros Hl. unfold InPlace.postProcessMapping.
  pose proof (validationLoop_laidOut MAX_RETRIES 1 h mapping drawn
                eq_refl) as V.
  destruct (InPlace.validationLoop random yamlLoad retryResponse
              originalPractices MAX_RETRIES 1 h data drawn)
    as [[h1 o1] d1].
  destruct V as [V1 V2]; [unfold MAX_RETRIES; lia | exact Hl |].
  destruct V1 as [->|[-> [m [d [L1 K1]]]]].
  { split; [now left|]. intros R. now apply V2. }
  rewrite (findMissingPractices_typed originalPractices h1 data addresses
             (dedupResult (pick random) m d)) by (now exists groups).
  destruct (0 <? List.length
                   (findMissingPractices originalPractices
                      (dedupResult (pick random) m d)))%nat eqn:F.
  - destruct (pushFallback_laidOut
                (findMissingPractices originalPractices
                   (dedupResult (pick random) m d))
                h1 data groups addresses _ L1 addresses_apart)
      as [h2 [g [E2 [L2 N2]]]].
    rewrite E2. split; [|reflexivity]. right. split; [reflexivity|].
    eexists _, _, m, d. cbv zeta. rewrite F.
    split; [exact L2|]. split; [exact N2|].
    apply (kept_trans _ _ _ K1). apply kept_app.
  - split; [|reflexivity]. right. split; [reflexivity|].
    exists groups, addresses, m, d. cbv zeta. rewrite F. auto.
Qed.

(** A mapping that is complete and without duplicate is returned as it
    is, and the store is not changed. *)
Lemma postProcessMapping_settled (h : Heap) (mapping : StandardsMapping)
  (drawn : nat) :
  laidOut h data groups addresses mapping ->
  NoDup (map normalize (filter JS.truthy (allPractices mapping))) ->
  (forall k, In k (map fst originalPractices) ->
             In k (mappedPractices mapping)) ->
  InPlace.postProcessMapping random yamlLoad retryResponse originalPractices
    h data drawn
  = (h, Returns data).
Proof.
  intros Hl Hu Hc.
  pose proof (removeDuplicates_distinct (pick random) mapping drawn Hu) as D.
  destruct (removeDuplicatesRandomly_laidOut random random_unit _ _ _ _ _
              drawn Hl addresses_apart) as [h1 [E1 [L1 F1]]].
  assert (removedLocations (pick random) mapping drawn = []) as R.
  { pose proof (removeDuplicates_unfold (pick random) mapping drawn) as U.
    rewrite D in U. injection U as _ U _.
    now destruct (removedLocations (pick random) mapping drawn). }
  specialize (F1 R). subst h1.
  assert (dedupResult (pick random) mapping drawn = mapping) as DR
    by (unfold dedupResult; now rewrite D).
  assert (dedupDrawn (pick random) mapping drawn = drawn) as DD
    by (unfold dedupDrawn; now rewrite D).
  rewrite DR in L1.
  apply (findMissing_nil_iff originalPractices) in Hc.
  unfold InPlace.postProcessMapping, MAX_RETRIES.
  cbn [InPlace.validationLoop]. rewrite E1.
  rewrite (findMissingPractices_typed originalPractices h data addresses
             mapping) by (now exists groups).
  rewrite Hc. simpl.
  rewrite (findMissingPractices_typed originalPractices h data addresses
             mapping) by (now exists groups).
  rewrite Hc. reflexivity.
Qed.

End Loop.

(** The loop reads the answers to the retry prompts of the attempts below
    [MAX_RETRIES] only. *)
Lemma validationLoop_reads_store (random : nat -> Q)
  (yamlLoad : string -> InPlace.YamlLoad)
  (retryResponse otherResponse : nat -> string)
  (originalPractices : list (string * string))
  (remaining attempt : nat) (h : Heap) (mapping : Value) (drawn : nat) :
  (forall a, attempt <= a < MAX_RETRIES -> otherResponse a = retryResponse a) ->
  InPlace.validationLoop random yamlLoad otherResponse originalPractices
    remaining attempt h mapping drawn
  = InPlace.validationLoop random yamlLoad retryResponse originalPractices
      remaining attempt h mapping drawn.
Proof.
  revert attempt h mapping drawn.
  induction remaining as [|remaining IH]; intros attempt h mapping drawn H;
    [reflexivity|].
  cbn [InPlace.validationLoop].
  destruct (InPlace.removeDuplicatesRandomly random h mapping drawn)
    as [[h1 [[deduped removed]|e|]] drawn']; try reflexivity.
  destruct (InPlace.findMissingPractices originalPractices h1 deduped)
    as [missing|e|]; try reflexivity.
  destruct (List.length missing =? 0)%nat; [reflexivity|].
  destruct (Nat.ltb_spec attempt MAX_RETRIES) as [L|L].
  - destruct (InPlace.existingStandards h1 deduped); try reflexivity.
    rewrite H by lia.
    destruct (InPlace.mergeRetryResults yamlLoad h1 deduped
                (retryResponse attempt)) as [h2 [merged|e|]];
      try reflexivity.
    apply IH. intros k Hk. apply H. lia.
  - apply IH. intros k Hk. apply H. lia.
Qed.

End LoopOnStore.

(** ** The claims on the repair loop *)

(** The normalised members of each group of a mapping of the store. *)
Definition membersOf (h : Store.Heap) (data : Store.Value)
  : Store.Outcome (list (list string)) :=
  Store.bind (Store.property h data "standards") (fun standards =>
  Store.bind (Store.iterate h standards)
    (Store.traverse (InPlace.mappedOf h))).

(** C1, counterexample.  With the one practice p1 and a classifier whose
    retry answers do not load: a member the classifier made up stays in the
    final mapping, so the union of the members is more than the original
    set; and the empty name stays a member of two groups.  With the one
    practice p2 and the document whose groups share their member array,
    the first duplicate resolution leaves p2 in the one array, nothing is
    missing, and the mapping returned has p2 in both groups. *)
Lemma C1_post_processing_counterexample :
  let post originalPractices h data :=
    InPlace.postProcessMapping (fun _ => 0%Q)
      (fun _ => InPlace.YamlException) (fun _ => "")
      originalPractices h data 0 in
  let originalPractices :=
    CategoryMapper.extractOriginalPracticeNames onePractice in
  (map fst originalPractices = ["p1"]
   /\ (let '(h, data, _) := store ghostMapping in
       snd (post originalPractices h data) = Store.Returns data
       /\ membersOf (fst (post originalPractices h data)) data
          = Store.Returns [["p1"; "ghost"]]))
  /\ (let '(h, data, _) := store emptyNameMapping in
      snd (post originalPractices h data) = Store.Returns data
      /\ membersOf (fst (post originalPractices h data)) data
         = Store.Returns [[""; "p1"]; [""]])
  /\ (let aliased :=
        InPlace.postProcessMapping firstThenSecond
          (fun _ => InPlace.YamlException) (fun _ => "")
          [("p2", "p2")] aliasedHeap aliasedData 0 in
      snd aliased = Store.Returns aliasedData
      /\ membersOf (fst aliased) aliasedData
         = Store.Returns [["p2"]; ["p2"]]).
Proof. repeat split; reflexivity. Qed.

(** C1, amended.  For every collection of practices, every first mapping
    of the declared type whose groups share no member array, every
    sequence of retry responses and every sequence of draws, the
    post-processing returns the object it was given or throws a
    [TypeError].  When it returns, the mapping is of the declared type
    again, every original practice name is, lower-cased and trimmed, the
    name of a member (possibly of the synthetic last group), and the
    non-empty members have pairwise distinct lower-cased, trimmed names.
    Members the classifier made up are kept, so the union of the members
    may be more than the original set.  It returns whenever the retry
    answers are readable, and the result depends on the answers to at
    most four retry prompts, those of the attempts 1 to 4. *)
Theorem C1_post_processing (random : nat -> Q)
  (yamlLoad : string -> InPlace.YamlLoad) (retryResponse : nat -> string)
  (practices : list CategoryMapper.MinifiedPractice)
  (h : Store.Heap) (data : Store.Value) (addresses : list nat)
  (mapping : CategoryMapper.StandardsMapping) (drawn : nat) :
  typed h data addresses mapping ->
  NoDup addresses ->
  (forall k, 0 <= random k < 1)%Q ->
  let originalPractices :=
    CategoryMapper.extractOriginalPracticeNames practices in
  let post :=
    InPlace.postProcessMapping random yamlLoad retryResponse
      originalPractices h data drawn in
  (snd post = Store.Throws Store.TypeError
   \/ snd post = Store.Returns data
      /\ exists addresses' final,
           typed (fst post) data addresses' final
           /\ NoDup addresses'
           /\ (forall practice,
                 In practice practices ->
                 CategoryMapper.practiceName practice <> "" ->
                 exists member,
                   In member (CategoryMapper.allPractices final)
                   /\ CategoryMapper.normalize member
                      = CategoryMapper.normalize
                          (CategoryMapper.practiceName practice))
           /\ NoDup (map CategoryMapper.normalize
                       (filter JS.truthy
                          (CategoryMapper.allPractices final))))
  /\ ((forall attempt, 1 <= attempt < CategoryMapper.MAX_RETRIES ->
         readableAnswer
           (yamlLoad (CategoryMapper.parseLLMResponse
                        (retryResponse attempt)))) ->
      snd post = Store.Returns data)
  /\ (forall otherResponse : nat -> string,
         (forall attempt, 1 <= attempt < CategoryMapper.MAX_RETRIES ->
                          otherResponse attempt = retryResponse attempt) ->
         InPlace.postProcessMapping random yamlLoad otherResponse
           originalPractices h data drawn = post).
Proof.
  intros [groups Hl] Hn Hr originalPractices post. subst post.
  pose proof (postProcessMapping_laidOut random Hr yamlLoad retryResponse
                originalPractices data groups addresses Hn h mapping drawn
                Hl) as P.
  destruct (InPlace.postProcessMapping random yamlLoad retryResponse
              originalPractices h data drawn) as [h' outcome] eqn:E.
  destruct P as [P1 P2]. cbn [fst snd]. split; [|split].
  - destruct P1 as [P1|[P1 [groups' [addresses' [m [d P3]]]]]];
      [now left|].
    right. split; [exact P1|]. cbv zeta in P3. destruct P3 as [L [N _]].
    destruct (withFallback_complete_unique originalPractices
                (dedupResult (pick random) m d)
                (extract_wellKeyed practices)
                (dedup_unique (pick random) m d)) as [F1 F2].
    eexists addresses', _. split; [exists groups'; exact L|].
    split; [exact N|]. split; [|exact F2].
    intros practice Hin Hne.
    specialize (F1 _ (extract_covers practices practice Hin Hne)).
    apply in_map_iff in F1 as [member [E' Hm]]. now exists member.
  - exact P2.
  - intros otherResponse H. rewrite <- E.
    unfold InPlace.postProcessMapping.
    now rewrite (validationLoop_reads_store random yamlLoad retryResponse
                   otherResponse originalPractices _ _ _ _ _ H).
Qed.

Definition twoPractices : list CategoryMapper.MinifiedPractice :=
  [CategoryMapper.mkMinified "p1" "The first practice";
   CategoryMapper.mkMinified "p3" "The third practice"].

Lemma C1_post_processing_witness :
  let '(h, data, addresses) := store twicePair in
  let post :=
    InPlace.postProcessMapping (fun _ => 1 # 2)%Q
      (fun _ => InPlace.YamlException) (fun _ => "")
      (CategoryMapper.extractOriginalPracticeNames twoPractices)
      h data 0 in
  snd post = Store.Returns data
  /\ membersOf (fst post) data = Store.Returns [["p2"]; ["p1"]; ["p3"]].
Proof.
  split; [|reflexivity].
  apply (C1_post_processing (fun _ => 1 # 2)%Q
           (fun _ => InPlace.YamlException) (fun _ => "") twoPractices
           (fst (fst (store twicePair))) (snd (fst (store twicePair)))
           (snd (store twicePair)) twicePair 0).
  - typedByEvaluation.
  - distinctByEvaluation.
  - unitByEvaluation.
  - intros attempt _. exact I.
Defined.

(** The store of a mapping with the one group A of the one member p1,
    and two answers to a retry prompt: the document
<<
standards: 5
>>
    and the document
<<
standards:
  - name: A
    practices: [p2, 7]
>>
    Neither has the shape of a mapping; [yaml.load] loads both, and the
    test of [standards] passes both. *)
Definition oneGroup : CategoryMapper.StandardsMapping :=
  [CategoryMapper.mkStandard "A" "first" ["p1"]].

Definition scalarStandards : InPlace.YamlLoad :=
  InPlace.YamlDocument
    [Store.CObject [("standards", Store.VNumber 5)]]
    (Store.VRef 0).

Definition numberMember : InPlace.YamlLoad :=
  InPlace.YamlDocument
    [Store.CArray [Store.VString "p2"; Store.VNumber 7];
     Store.CObject [("name", Store.VString "A");
                    ("practices", Store.VRef 0)];
     Store.CArray [Store.VRef 1];
     Store.CObject [("standards", Store.VRef 2)]]
    (Store.VRef 3).

(** A readable answer: the group A is given the member p3. *)
Definition memberP3 : InPlace.YamlLoad :=
  InPlace.YamlDocument
    [Store.CArray [Store.VString "p3"];
     Store.CObject [("name", Store.VString "a ");
                    ("practices", Store.VRef 0)];
     Store.CArray [Store.VRef 1];
     Store.CObject [("standards", Store.VRef 2)]]
    (Store.VRef 3).

(** C8, on the code.  A retry response that [yaml.load] refuses, or whose
    document has no [standards], merges nothing: the merge returns the
    mapping it was given and leaves the store as it is; the same response
    as the first answer of the classifier is the error that ends [run].
    But a retry response whose [standards] is present without the shape of
    a list of groups is not skipped.  With [standards: 5] the merge throws
    a [TypeError]; with a member that is a number it throws after the
    member before it was pushed, so the mapping is changed; in both cases
    the loop does not go on to its next attempt: post-processing throws. *)
Theorem C8_retry_parse_failure :
  (forall (yamlLoad : string -> InPlace.YamlLoad) (response : string),
      (yamlLoad (CategoryMapper.parseLLMResponse response)
       = InPlace.YamlException
       \/ exists retryHeap retryData,
            yamlLoad (CategoryMapper.parseLLMResponse response)
            = InPlace.YamlDocument retryHeap retryData
            /\ Store.truthy
                 (Store.optionalProperty retryHeap retryData "standards")
               = false) ->
      (forall h existing,
          InPlace.mergeRetryResults yamlLoad h existing response
          = (h, Store.Returns existing))
      /\ exists e,
           InPlace.parseResponse yamlLoad response
           = Store.Throws (Store.Failure e))
  /\ (let '(h, data, _) := store oneGroup in
      InPlace.mergeRetryResults (fun _ => InPlace.YamlException) h data ""
      = (h, Store.Returns data)
      /\ InPlace.mergeRetryResults (fun _ => scalarStandards) h data ""
         = (h, Store.Throws Store.TypeError)
      /\ snd (InPlace.mergeRetryResults (fun _ => numberMember) h data "")
         = Store.Throws Store.TypeError
      /\ membersOf
           (fst (InPlace.mergeRetryResults (fun _ => numberMember) h data ""))
           data
         = Store.Returns [["p1"; "p2"]]
      /\ snd (InPlace.postProcessMapping (fun _ => 0%Q)
                (fun _ => scalarStandards) (fun _ => "")
                [("p1", "p1"); ("p3", "p3")] h data 0)
         = Store.Throws Store.TypeError
      /\ snd (InPlace.postProcessMapping (fun _ => 0%Q)
                (fun _ => numberMember) (fun _ => "")
                [("p1", "p1"); ("p3", "p3")] h data 0)
         = Store.Throws Store.TypeError).
Proof.
  split.
  - intros yamlLoad response H. split.
    + intros h existing. unfold InPlace.mergeRetryResults.
      destruct H as [->|[retryHeap [retryData [-> H]]]]; [reflexivity|].
      now rewrite H.
    + unfold InPlace.parseResponse.
      destruct H as [->|[retryHeap [retryData [-> H]]]]; [now eexists|].
      rewrite H. now eexists.
  - repeat split; reflexivity.
Qed.

(** ** What the merge and the loop do to the members *)

(** X13.  Merging a retry answer into a mapping of the declared type
    whose groups share no member array only appends, also when it throws
    on the way: the merge returns the object it was given or throws a
    [TypeError], and in both cases the store then holds the groups it
    held, with their names and descriptions, each with its members in
    their order, followed by new ones.  A new member is a string among
    the members of a category of the answer that bears the name of the
    group (compared without case and surrounding whitespace), and its
    normalised name is new to the group: the new members of a group have
    distinct normalised names, none of which the group had. *)
Theorem mergeRetryResults_appends (yamlLoad : string -> InPlace.YamlLoad)
  (h : Store.Heap) (data : Store.Value) (addresses : list nat)
  (existing : CategoryMapper.StandardsMapping) (response : string) :
  typed h data addresses existing ->
  NoDup addresses ->
  let result := InPlace.mergeRetryResults yamlLoad h data response in
  (snd result = Store.Returns data
   \/ snd result = Store.Throws Store.TypeError)
  /\ exists merged,
       typed (fst result) data addresses merged
       /\ List.length merged = List.length existing
       /\ forall i category, nth_error existing i = Some category ->
            exists added,
              nth_error merged i
              = Some (CategoryMapper.mkStandard
                        (CategoryMapper.name category)
                        (CategoryMapper.description category)
                        (CategoryMapper.practices category ++ added))
              /\ NoDup (map CategoryMapper.normalize added)
              /\ forall a, In a added ->
                   ~ In (CategoryMapper.normalize a)
                        (map CategoryMapper.normalize
                           (CategoryMapper.practices category))
                   /\ memberOfAnswer yamlLoad existing response i a.
Proof.
  intros [groups Hl] Hn result. subst result.
  destruct (mergeRetryResults_merging yamlLoad h data groups addresses
              existing response Hl Hn) as [[merged [M1 [M2 M3]]] [M4 _]].
  split; [exact M4|]. exists merged.
  split; [now exists groups|]. split; [exact M2 | exact M3].
Qed.

Lemma mergeRetryResults_appends_witness :
  let '(h, data, addresses) := store oneGroup in
  let result := InPlace.mergeRetryResults (fun _ => numberMember) h data "" in
  membersOf (fst result) data = Store.Returns [["p1"; "p2"]]
  /\ (snd result = Store.Returns data
      \/ snd result = Store.Throws Store.TypeError)
  /\ exists merged,
       typed (fst result) data addresses merged
       /\ List.length merged = 1
       /\ forall i category, nth_error oneGroup i = Some category ->
            exists added,
              nth_error merged i
              = Some (CategoryMapper.mkStandard
                        (CategoryMapper.name category)
                        (CategoryMapper.description category)
                        (CategoryMapper.practices category ++ added))
              /\ NoDup (map CategoryMapper.normalize added)
              /\ forall a, In a added ->
                   ~ In (CategoryMapper.normalize a)
                        (map CategoryMapper.normalize
                           (CategoryMapper.practices category))
                   /\ memberOfAnswer (fun _ => numberMember) oneGroup "" i a.
Proof.
  split; [reflexivity|].
  apply (mergeRetryResults_appends (fun _ => numberMember)
           (fst (fst (store oneGroup))) (snd (fst (store oneGroup)))
           (snd (store oneGroup)) oneGroup "").
  - typedByEvaluation.
  - distinctByEvaluation.
Defined.

(** X14.  Post-processing of a mapping of the declared type whose groups
    share no member array drops no name: when it returns, every member of
    the mapping it was given, whether or not it names an original
    practice, has a member of the same normalised name in the mapping of
    the store, and a non-empty member has a non-empty one. *)
Theorem postProcess_keeps_names (random : nat -> Q)
  (yamlLoad : string -> InPlace.YamlLoad) (retryResponse : nat -> string)
  (originalPractices : list (string * string))
  (h : Store.Heap) (data : Store.Value) (addresses : list nat)
  (mapping : CategoryMapper.StandardsMapping) (drawn : nat)
  (h' : Store.Heap) :
  typed h data addresses mapping ->
  NoDup addresses ->
  (forall k, 0 <= random k < 1)%Q ->
  InPlace.postProcessMapping random yamlLoad retryResponse originalPractices
    h data drawn
  = (h', Store.Returns data) ->
  exists addresses' final,
    typed h' data addresses' final
    /\ NoDup addresses'
    /\ forall x, In x (CategoryMapper.allPractices mapping) ->
         exists y,
           In y (CategoryMapper.allPractices final)
           /\ CategoryMapper.normalize y = CategoryMapper.normalize x
           /\ (x <> "" -> y <> "").
Proof.
  intros [groups Hl] Hn Hr E.
  pose proof (postProcessMapping_laidOut random Hr yamlLoad retryResponse
                originalPractices data groups addresses Hn h mapping drawn
                Hl) as P.
  rewrite E in P. destruct P as [[P|[_ P]] _]; [discriminate|].
  destruct P as [groups' [addresses' [m [d P]]]]. cbv zeta in P.
  destruct P as [L [N K]].
  eexists addresses', _. split; [exists groups'; exact L|].
  split; [exact N | exact K].
Qed.

Lemma postProcess_keeps_names_witness :
  let '(h, data, addresses) := store twicePair in
  let post :=
    InPlace.postProcessMapping (fun _ => 1 # 2)%Q
      (fun _ => memberP3) (fun _ => "")
      (CategoryMapper.extractOriginalPracticeNames twoPractices) h data 0 in
  membersOf (fst post) data = Store.Returns [["p2"; "p3"]; ["p1"]]
  /\ exists addresses' final,
       typed (fst post) data addresses' final
       /\ NoDup addresses'
       /\ forall x, In x (CategoryMapper.allPractices twicePair) ->
            exists y,
              In y (CategoryMapper.allPractices final)
              /\ CategoryMapper.normalize y = CategoryMapper.normalize x
              /\ (x <> "" -> y <> "").
Proof.
  split; [reflexivity|].
  apply (postProcess_keeps_names (fun _ => 1 # 2)%Q
           (fun _ => memberP3) (fun _ => "")
           (CategoryMapper.extractOriginalPracticeNames twoPractices)
           (fst (fst (store twicePair))) (snd (fst (store twicePair)))
           (snd (store twicePair)) twicePair 0).
  - typedByEvaluation.
  - distinctByEvaluation.
  - unitByEvaluation.
  - reflexivity.
Defined.

(** X16.  Post-processing is idempotent on a mapping of the declared
    type whose groups share no member array: run again on the mapping it
    returned, for the same original practices, it returns that mapping
    and leaves the store as it is, whatever the draws and the answers of
    the classifier of the second run. *)
Theorem postProcess_idempotent (random random' : nat -> Q)
  (yamlLoad yamlLoad' : string -> InPlace.YamlLoad)
  (retryResponse retryResponse' : nat -> string)
  (originalPractices : list (string * string))
  (h : Store.Heap) (data : Store.Value) (addresses : list nat)
  (mapping : CategoryMapper.StandardsMapping) (drawn drawn' : nat)
  (h' : Store.Heap) :
  wellKeyed originalPractices ->
  typed h data addresses mapping ->
  NoDup addresses ->
  (forall k, 0 <= random k < 1)%Q ->
  (forall k, 0 <= random' k < 1)%Q ->
  InPlace.postProcessMapping random yamlLoad retryResponse originalPractices
    h data drawn
  = (h', Store.Returns data) ->
  InPlace.postProcessMapping random' yamlLoad' retryResponse'
    originalPractices h' data drawn'
  = (h', Store.Returns data).
Proof.
  intros Hw [groups Hl] Hn Hr Hr' E.
  pose proof (postProcessMapping_laidOut random Hr yamlLoad retryResponse
                originalPractices data groups addresses Hn h mapping drawn
                Hl) as P.
  rewrite E in P. destruct P as [[P|[_ P]] _]; [discriminate|].
  destruct P as [groups' [addresses' [m [d P]]]]. cbv zeta in P.
  destruct P as [L [N _]].
  destruct (withFallback_complete_unique originalPractices
              (dedupResult (pick random) m d) Hw
              (dedup_unique (pick random) m d)) as [F1 F2].
  now apply (postProcessMapping_settled random' Hr' yamlLoad' retryResponse'
               originalPractices data groups' addresses' N h' _ drawn' L).
Qed.

Lemma postProcess_idempotent_witness :
  let '(h, data, addresses) := store twicePair in
  let originalPractices :=
    CategoryMapper.extractOriginalPracticeNames twoPractices in
  let h' :=
    fst (InPlace.postProcessMapping (fun _ => 1 # 2)%Q
           (fun _ => memberP3) (fun _ => "")
           originalPractices h data 0) in
  membersOf h' data = Store.Returns [["p2"; "p3"]; ["p1"]]
  /\ InPlace.postProcessMapping (fun _ => 0%Q)
       (fun _ => scalarStandards) (fun _ => "") originalPractices h' data 7
     = (h', Store.Returns data).
Proof.
  split; [reflexivity|].
  apply (postProcess_idempotent (fun _ => 1 # 2)%Q (fun _ => 0%Q)
           (fun _ => memberP3) (fun _ => scalarStandards)
           (fun _ => "") (fun _ => "")
           (CategoryMapper.extractOriginalPracticeNames twoPractices)
           (fst (fst (store twicePair))) (snd (fst (store twicePair)))
           (snd (store twicePair)) twicePair 0 7).
  - vm_compute. split; [distinctByEvaluation|].
    intros k v [[= <- <-]|[[= <- <-]|[]]]; split; (reflexivity || discriminate).
  - typedByEvaluation.
  - distinctByEvaluation.
  - unitByEvaluation.
  - unitByEvaluation.
  - reflexivity.
Defined.
